(* ===== verification/_CoqProject ===== *)
-Q . S2P
Prelude.v
Name.v
Asset.v
Runtime.v
Token.v
SystemState.v
Voting.v
Staking.v
VoteReward.v
Bandwidth.v
Producer.v
Election.v
Exec.v
World.v
Authority.v
Permissions.v
NativeActions.v
Inline.v
Merkle.v
BlockState.v
ForkDb.v
ForkSwitch.v
Resources.v
RelayToken.v
RelayMining.v
Bridge.v
Datastream.v
TrxContext.v
Transactions.v
Msig.v
BlockRelay.v
