(* ===== verification/Prelude.v ===== *)
(** * A verification library for the FORCEIO sources.

    FORCEIO is a chain of blocks whose tokens, stakes, elections and rewards are
    contracts, [contracts/], run by a host, [libraries/chain].  This library models both
    sides and proves what makes them correct.  All paths below are under [src/].

    ** How the code is modelled

    Every operation is an executable definition with the name it has in the source.  A
    w-bit integer is a [Z] and each conversion of the source is written out with [wrapU]
    and [wrapS]; an assertion that fails is an error value, [result] in this file; an
    action of a contract is a program of the state and error monad [M] of [Runtime], over
    a record of the contract's tables.  A table is a finite map from its scope and primary
    key to rows; iteration is by ascending key, as the database of the host iterates.
    Objects that are shared by pointers, the blocks of the fork database, live in a store.
    Code that is not in the sources, the hashes, signatures and containers of other
    libraries, is an argument of the definitions, with what is used of it as named
    hypotheses, and each theorem with such an argument is applied to a concrete one.

    ** The files

    Values shared by host and contracts.
    - [Prelude]: machine integers, results, sums over tables, iteration orders.
    - [Name]: account names, [libraries/chain/name.cpp] and [name.hpp] ([Name.Host]) and
      [contracts/eosiolib/types.hpp] ([Name.Lib]).  Both encoders agree, and printing and
      parsing are inverse.
    - [Asset]: [contracts/eosiolib/symbol.hpp] and [asset.hpp].  Valid symbols are exactly
      the encodings of names, and checked arithmetic is exact or aborts.
    - [Runtime]: what an action sees of the host, [libraries/chain/apply_context.cpp] and
      the tables of [contracts/eosiolib/multi_index.hpp].

    The contracts.
    - [Token]: [contracts/force.token].  The supply of a token is the sum of its balances in
      every reachable state, debits are authorized, coins cast are locked until they mature.
    - [SystemState], [Voting], [Bandwidth], [Producer]: [contracts/force.system], by source
      file: [voting.cpp], [multiple_vote.cpp] and [vote4ram.cpp]; [delegate_bandwidth.cpp];
      [producer.cpp].  [Staking] shows that the system account keeps what voters have frozen
      and that votes are tallied; [VoteReward] that rewards of voters are conserved, up to
      what is dropped with the oldest of 360 records; [Election] that an election proposes
      the producers with the highest stakes.
    - [Exec], [World], [Inline]: the execution of an action with its notifications and
      inline actions, [apply_context.cpp], joins the contracts: in every run the system
      account's token balance covers what it owes ([World]), provided that no inline action
      carries the authority of the system account unless it sent it, which [Inline] proves of
      the check of inline actions on producing nodes and refutes on others.
    - [RelayToken], [RelayMining]: [contracts/relay.token], tokens of other chains.  Supplies
      are the sums of balances; mining rewards are divided among currencies and holders
      without overdrawing a record while none has been dropped, and overdrawn afterwards.
    - [Bridge]: [contracts/sys.bridge], markets between two coins.  The contract's account
      holds what every market counts while fees are covered, which an exchange does not check;
      what an exchange pays is given exactly.
    - [Datastream]: [contracts/eosiolib/datastream.hpp], [varint.hpp] and what they pack of
      [action.hpp] and [transaction.hpp].  Every codec reads back what it writes, consumes
      exactly that, and yields values of its type; [signed_int] does only for small values.
    - [Msig]: [contracts/force.msig], on the bytes of actions and on the chain of
      [Transactions].  What it executes is what was proposed, with every authorization granted
      by approvals in force.
    - [BlockRelay]: [contracts/force.relay], the blocks of other chains.  What the contract
      is seen to handle, a new last block or an action sent to a handler, has been committed
      with two thirds of the deposits, which bind the header of a block and not its actions.

    The host.
    - [Authority], [Permissions], [NativeActions]: [authority.hpp], [authority_checker.hpp],
      [authorization_manager.cpp] and [eosio_contract.cpp].  The checker agrees with an
      inductive definition of what a set of keys grants, an accepted transaction carries
      every authority its actions need, and the permission trees stay well formed.
    - [Resources]: [resource_limits.cpp].  Averages bound the use of each window, and memory
      is accounted exactly.
    - [TrxContext]: [transaction_context.cpp] and [chain_config.hpp], the limits and the bill
      of one transaction, and what [finalize_block] of [controller.cpp] does to the resources.
      A charge that was checked does not fail when the network is used and its guarantee is
      not above that of the processor; the resources of a block can always be closed.
    - [Transactions]: the life of transactions in [controller.cpp], [transaction_context.cpp]
      and [apply_context.cpp].  Whatever contracts do, a transaction runs once, with the
      permissions it declares granted, and a deferred one within its window.
    - [Merkle], [BlockState], [ForkDb], [ForkSwitch]: [merkle.cpp],
      [incremental_merkle.hpp], [block_header_state.cpp], [fork_database.cpp] and the switch
      between forks of [controller.cpp].  The incremental tree computes the canonical root;
      a block becomes irreversible only with a quorum, and does when a quorum confirms it;
      the head of the fork database is the best block; a switch, with [apply_block] and its
      undo sessions, ends on the new head or restores the old state while the common ancestor
      is in the fork database, and is stuck when that has been pruned.

    ** What the theorems show

    Statements about runs quantify over all sequences of actions from the initial (or any
    well-formed) state: custody and conservation of tokens, authorization of debits,
    monotonicity of irreversibility, permission trees.  Statements about single operations
    give their outcome on every branch.  Where the code does not do what it means to, the
    theorem states what it does, on a concrete input: these carry the word for what goes
    wrong in their names ([settle_blocked], [self_bypass_theft], [net_minimum_mistaken],
    [irreversible_decreases], [relay_records_overrun], [switch_beyond_irreversible] and the
    like).

    ** Bounds and fuel

    Loops over tables and lists are structural.  Loops of the source that walk pointers or
    parents take fuel: the authority checker its recursion depth, which the source bounds
    too; [Permissions.satisfies] and [ForkDb.fetch_branch_from] the number of objects, and
    the theorems prove that this is enough in every well-formed state.  Where an
    intermediate result can exceed its width, either the theorem has the range as a
    hypothesis (ages of tokens that fit 63 bits, block numbers below 2^31), or it states
    what the wrapped result does.

    ** Not modelled

    - Building and replaying blocks, [controller.cpp]: the merkle roots of the block in
      progress, the block log, signals and the timer of deadlines.  [ForkSwitch] models how a
      block is applied with what its transactions do as a parameter; [Transactions] what they
      do, without the receipts of the block in progress.
    - The exchange contract, [contracts/sys.match].
    - The ABI serializer, block log and snapshots: variants of another library, and files.
    - The virtual machine, [libraries/wasm-jit], [wasm_interface.cpp], and the compiler
      builtins: third-party code and bindings to it.
    - Plugins, programs, tests and scripts: sockets, timers, databases and command lines. *)
From stdpp Require Import base gmap list strings sorting fin_maps.
From Stdlib Require Import ZArith Lia.

Open Scope Z_scope.

(** ** Machine integers.

    A w-bit integer of the C++ code is a [Z]; the conversions a C++ expression
    performs are written out with [wrapU] (to an unsigned type) and [wrapS]
    (to a two's complement signed type). *)
Definition wrapU (w z : Z) : Z := z mod 2 ^ w.
Definition wrapS (w z : Z) : Z := (z + 2 ^ (w - 1)) mod 2 ^ w - 2 ^ (w - 1).

Declare Scope cint_scope.
Delimit Scope cint_scope with cint.
Notation "'u8' x" := (wrapU 8 x) (at level 9, x at level 9) : cint_scope.
Notation "'u16' x" := (wrapU 16 x) (at level 9, x at level 9) : cint_scope.
Notation "'u32' x" := (wrapU 32 x) (at level 9, x at level 9) : cint_scope.
Notation "'u64' x" := (wrapU 64 x) (at level 9, x at level 9) : cint_scope.
Notation "'u128' x" := (wrapU 128 x) (at level 9, x at level 9) : cint_scope.
Notation "'i32' x" := (wrapS 32 x) (at level 9, x at level 9) : cint_scope.
Notation "'i64' x" := (wrapS 64 x) (at level 9, x at level 9) : cint_scope.
Notation "'i128' x" := (wrapS 128 x) (at level 9, x at level 9) : cint_scope.
#[global] Open Scope cint_scope.

Lemma wrapU_range w z : 0 <= w -> 0 <= wrapU w z < 2 ^ w.
Proof. intros. unfold wrapU. apply Z.mod_pos_bound. apply Z.pow_pos_nonneg; lia. Qed.

Lemma wrapS_range w z : 0 < w -> - 2 ^ (w - 1) <= wrapS w z < 2 ^ (w - 1).
Proof.
  intros. unfold wrapS.
  assert (0 < 2 ^ w) by (apply Z.pow_pos_nonneg; lia).
  pose proof (Z.mod_pos_bound (z + 2 ^ (w - 1)) (2 ^ w)).
  assert (2 ^ w = 2 * 2 ^ (w - 1)) by (rewrite <- Z.pow_succ_r by lia; f_equal; lia).
  lia.
Qed.

Lemma wrapU_small w z : 0 <= z < 2 ^ w -> wrapU w z = z.
Proof. intros. unfold wrapU. by apply Z.mod_small. Qed.

Lemma wrapS_small w z : 0 < w -> - 2 ^ (w - 1) <= z < 2 ^ (w - 1) -> wrapS w z = z.
Proof.
  intros. unfold wrapS.
  assert (2 ^ w = 2 * 2 ^ (w - 1)) by (rewrite <- Z.pow_succ_r by lia; f_equal; lia).
  rewrite Z.mod_small; lia.
Qed.

Lemma wrapU_wrapU w z : 0 <= w -> wrapU w (wrapU w z) = wrapU w z.
Proof. intros. apply wrapU_small, wrapU_range; lia. Qed.

Lemma wrapS_wrapS w z : 0 < w -> wrapS w (wrapS w z) = wrapS w z.
Proof. intros. apply wrapS_small, wrapS_range; lia. Qed.

Definition is_u (w z : Z) : Prop := 0 <= z < 2 ^ w.
Definition is_s (w z : Z) : Prop := - 2 ^ (w - 1) <= z < 2 ^ (w - 1).

(** Reduces the powers of two that the width lemmas leave behind, then [lia]. *)
Ltac width_norm :=
  unfold is_u, is_s in *;
  change (64 - 1) with 63 in *; change (32 - 1) with 31 in *;
  change (128 - 1) with 127 in *;
  change (2 ^ 8) with 256 in *; change (2 ^ 16) with 65536 in *;
  change (2 ^ 31) with 2147483648 in *; change (2 ^ 32) with 4294967296 in *;
  change (2 ^ 62) with 4611686018427387904 in *;
  change (2 ^ 63) with 9223372036854775808 in *;
  change (2 ^ 64) with 18446744073709551616 in *;
  change (2 ^ 127) with 170141183460469231731687303715884105728 in *;
  change (2 ^ 128) with 340282366920938463463374607431768211456 in *.
Ltac clia := width_norm; lia.
Ltac cnia := width_norm; nia.

Create Rewrite HintDb cint.
#[export] Hint Rewrite wrapU_small using clia : cint.
#[export] Hint Rewrite wrapS_small using clia : cint.
Ltac unwrap := autorewrite with cint in *.

(** ** Results.

    A failing assertion ([eosio_assert], [EOS_ASSERT], a thrown exception) aborts
    with its message. *)
Inductive result (A : Type) : Type :=
| Ok (a : A)
| Err (msg : string).
Arguments Ok {A} a.
Arguments Err {A} msg%_string.

Definition rbind {A B} (r : result A) (f : A -> result B) : result B :=
  match r with
  | Ok a => f a
  | Err m => Err m
  end.

Definition rassert (b : bool) (msg : string) : result unit :=
  if b then Ok tt else Err msg.

Arguments rassert b msg%_string.

Definition of_option {A} (o : option A) (msg : string) : result A :=
  match o with
  | Some a => Ok a
  | None => Err msg
  end.

Arguments of_option {A} o msg%_string.

Definition is_ok {A} (r : result A) : bool :=
  match r with Ok _ => true | Err _ => false end.

Declare Scope result_scope.
Delimit Scope result_scope with res.
Notation "'let*' x ':=' c 'in' k" := (rbind c (fun x => k))
  (at level 10, x pattern, c at level 100, k at level 200) : result_scope.
Notation "'check*' b 'with' msg 'in' k" := (rbind (rassert b msg) (fun _ => k))
  (at level 10, b at level 100, msg at level 0, k at level 200) : result_scope.

Lemma rbind_ok {A B} (r : result A) (f : A -> result B) b :
  rbind r f = Ok b <-> exists a, r = Ok a /\ f a = Ok b.
Proof. destruct r; simpl; split; [by eauto|by intros (?&?&?); simplify_eq|done|by intros (?&?&?)]. Qed.

Lemma rassert_ok b msg u : rassert b msg = Ok u <-> b = true.
Proof. destruct b, u; simpl; split; done. Qed.

Lemma of_option_ok {A} (o : option A) msg a : of_option o msg = Ok a <-> o = Some a.
Proof. destruct o; simpl; naive_solver. Qed.

(** Traversal of a list with a fallible step, left to right. *)
Fixpoint rfold {A B} (f : A -> B -> result A) (a : A) (l : list B) : result A :=
  match l with
  | [] => Ok a
  | x :: l => rbind (f a x) (fun a' => rfold f a' l)
  end.

Lemma rfold_app {A B} (f : A -> B -> result A) a l1 l2 :
  rfold f a (l1 ++ l2) = rbind (rfold f a l1) (fun a' => rfold f a' l2).
Proof. revert a. induction l1 as [|x l1 IH]; intros a; simpl; [done|]. destruct (f a x); simpl; auto. Qed.

(** An invariant of every step is an invariant of the traversal. *)
Lemma rfold_inv {A B} (P : A -> Prop) (f : A -> B -> result A) l :
  (forall a x a', x ∈ l -> P a -> f a x = Ok a' -> P a') ->
  forall a a', P a -> rfold f a l = Ok a' -> P a'.
Proof.
  induction l as [|x l IH]; simpl; intros Hstep a a' HP Hf.
  - by simplify_eq.
  - apply rbind_ok in Hf as (a1 & H1 & H2).
    eapply IH; [|eapply Hstep; [left|exact HP|exact H1]|exact H2].
    intros ? y ? Hy. apply Hstep. by right.
Qed.

(** Filters that agree on the elements of a list. *)
Lemma filter_ext_in {A} (P Q : A -> Prop) `{!forall x, Decision (P x), !forall x, Decision (Q x)} (l : list A) :
  (forall x, x ∈ l -> P x <-> Q x) -> filter P l = filter Q l.
Proof.
  induction l as [|x l IH]; intros Heq; [done|]. rewrite !filter_cons.
  rewrite IH by (intros y Hy; apply Heq; by right). specialize (Heq x ltac:(by left)).
  repeat case_decide; tauto.
Qed.

(** The step a traversal takes at one of its elements. *)
Lemma rfold_at {A B} (f : A -> B -> result A) l x : x ∈ l -> forall a a',
  rfold f a l = Ok a' ->
  exists l1 l2 a1 a2, l = l1 ++ x :: l2 /\ rfold f a l1 = Ok a1 /\ f a1 x = Ok a2 /\
    rfold f a2 l2 = Ok a'.
Proof.
  intros (l1 & l2 & ->)%list_elem_of_split a a' H. rewrite rfold_app in H.
  apply rbind_ok in H as (a1 & H1 & H). cbn [rfold] in H. apply rbind_ok in H as (a2 & H2 & H3).
  exists l1, l2, a1, a2. done.
Qed.

(** Decomposes a successful computation into its steps. *)
Ltac rinv_step :=
  match goal with
  | H : rbind _ _ = Ok _ |- _ =>
      let a := fresh "a" in let H1 := fresh "H" in let H2 := fresh "H" in
      apply rbind_ok in H as (a & H1 & H2)
  | H : rassert _ _ = Ok _ |- _ => apply rassert_ok in H
  | H : of_option _ _ = Ok _ |- _ => apply of_option_ok in H
  | H : Ok _ = Ok _ |- _ => injection H as H; try subst
  | H : Err _ = Ok _ |- _ => discriminate H
  | H : andb _ _ = true |- _ =>
      let H1 := fresh "H" in let H2 := fresh "H" in
      apply andb_true_iff in H as [H1 H2]
  | H : true = false |- _ => discriminate H
  | H : false = true |- _ => discriminate H
  | H : true = true |- _ => clear H
  | H : false = false |- _ => clear H
  | H : true = _ |- _ => symmetry in H
  | H : false = _ |- _ => symmetry in H
  | H : bool_decide _ = true |- _ => apply bool_decide_eq_true in H
  | H : bool_decide _ = false |- _ => apply bool_decide_eq_false in H
  | H : negb _ = true |- _ => apply negb_true_iff in H
  | H : (_ =? _)%Z = true |- _ => apply Z.eqb_eq in H
  | H : (_ =? _)%Z = false |- _ => apply Z.eqb_neq in H
  | H : (_ <=? _)%Z = true |- _ => apply Z.leb_le in H
  | H : (_ <=? _)%Z = false |- _ => apply Z.leb_gt in H
  | H : (_ <? _)%Z = true |- _ => apply Z.ltb_lt in H
  | H : (_ <? _)%Z = false |- _ => apply Z.ltb_ge in H
  | H : orb _ _ = false |- _ => apply orb_false_iff in H as [? ?]
  | H : negb _ = false |- _ => apply negb_false_iff in H
  | u : unit |- _ => destruct u
  | p : _ * _ |- _ => destruct p
  | H : (_, _) = (_, _) |- _ => injection H as H; try subst
  end.
Ltac rinv := repeat (rinv_step; simpl in *).

(** Splits a lookup in a literal table into the rows it can come from. *)
Ltac rows_of H :=
  repeat (apply lookup_insert_Some in H as [[? H]|[? H]]; [simplify_eq|]);
  try (apply lookup_singleton_Some in H as [? H]; simplify_eq);
  try (by rewrite lookup_empty in H).

(** ** Sums over the rows of a table. *)
Section map_sum.
Context {K V : Type} `{Countable K}.

Definition map_sum (f : K -> V -> Z) (m : gmap K V) : Z :=
  map_fold (fun k v acc => f k v + acc) 0 m.

(** The contribution of one key. *)
Definition at_key (f : K -> V -> Z) (m : gmap K V) (k : K) : Z :=
  match m !! k with Some v => f k v | None => 0 end.

Lemma map_sum_empty f : map_sum f ∅ = 0.
Proof. apply map_fold_empty. Qed.

Lemma map_sum_insert_None f m k v :
  m !! k = None -> map_sum f (<[k:=v]> m) = f k v + map_sum f m.
Proof. intros Hk. unfold map_sum. rewrite map_fold_insert_L; [done| |done]. intros; lia. Qed.

Lemma map_sum_delete f m k : map_sum f (delete k m) = map_sum f m - at_key f m k.
Proof.
  unfold at_key. destruct (m !! k) as [v|] eqn:Hk.
  - rewrite <- (insert_delete_id m k v Hk) at 2.
    rewrite map_sum_insert_None by apply lookup_delete_eq. lia.
  - rewrite delete_id by done. lia.
Qed.

Lemma map_sum_insert f m k v :
  map_sum f (<[k:=v]> m) = map_sum f m - at_key f m k + f k v.
Proof.
  rewrite <- insert_delete_eq, map_sum_insert_None by apply lookup_delete_eq.
  rewrite map_sum_delete. lia.
Qed.

Lemma map_sum_nonneg f m :
  (forall k v, m !! k = Some v -> 0 <= f k v) -> 0 <= map_sum f m.
Proof.
  induction m as [|k v m Hk IH] using map_ind; intros Hf.
  - rewrite map_sum_empty. lia.
  - rewrite map_sum_insert_None by done.
    assert (0 <= f k v) by (apply Hf; by simplify_map_eq).
    assert (0 <= map_sum f m); [|lia]. apply IH. intros k' v' Hk'.
    apply Hf. rewrite lookup_insert_ne; [done|]. naive_solver.
Qed.

Lemma map_sum_ge_at f m k :
  (forall k v, m !! k = Some v -> 0 <= f k v) -> at_key f m k <= map_sum f m.
Proof.
  intros Hf. assert (0 <= map_sum f (delete k m)).
  { apply map_sum_nonneg. intros k' v' Hk'.
    apply lookup_delete_Some in Hk' as [_ Hk']. eauto. }
  rewrite map_sum_delete in H0. lia.
Qed.

Lemma map_sum_ext f g m :
  (forall k v, m !! k = Some v -> f k v = g k v) -> map_sum f m = map_sum g m.
Proof.
  induction m as [|k v m Hk IH] using map_ind; intros Hf; [done|].
  rewrite !map_sum_insert_None by done. f_equal.
  - apply Hf. by simplify_map_eq.
  - apply IH. intros k' v' Hk'. apply Hf. rewrite lookup_insert_ne; [done|]. naive_solver.
Qed.

Lemma map_sum_0 (m : gmap K V) : map_sum (fun _ _ => 0) m = 0.
Proof.
  induction m as [|k v m Hk IH] using map_ind; [done|]. rewrite map_sum_insert_None by done. lia.
Qed.

Lemma map_sum_add f g m :
  map_sum (fun k v => f k v + g k v) m = map_sum f m + map_sum g m.
Proof.
  induction m as [|k v m Hk IH] using map_ind; [done|].
  rewrite !map_sum_insert_None by done. lia.
Qed.

Lemma map_sum_le f g m :
  (forall k v, m !! k = Some v -> f k v <= g k v) -> map_sum f m <= map_sum g m.
Proof.
  induction m as [|k v m Hk IH] using map_ind; intros Hfg; [done|]. rewrite !map_sum_insert_None by done.
  assert (f k v <= g k v) by (apply Hfg; by simplify_map_eq).
  assert (map_sum f m <= map_sum g m); [|lia]. apply IH. intros k' v' Hk'. apply Hfg.
  rewrite lookup_insert_ne; [done|]. naive_solver.
Qed.

(** Rows that do not count can be left out. *)
Lemma map_sum_filter (P : K * V -> Prop) `{!forall x, Decision (P x)} f m :
  (forall k v, m !! k = Some v -> ~ P (k, v) -> f k v = 0) -> map_sum f m = map_sum f (filter P m).
Proof.
  induction m as [|k v m Hk IH] using map_ind; intros Hf; [by rewrite map_filter_empty|].
  assert (Hm : map_sum f m = map_sum f (filter P m)).
  { apply IH. intros k' v' Hk'. apply Hf. rewrite lookup_insert_ne; [done|]. naive_solver. }
  rewrite map_sum_insert_None by done. destruct (decide (P (k, v))) as [HP|HP].
  - rewrite map_filter_insert_True by done.
    rewrite map_sum_insert_None by (apply map_lookup_filter_None; by left). lia.
  - rewrite map_filter_insert_False, delete_id by done. rewrite (Hf k v) by (by simplify_map_eq). lia.
Qed.

Lemma at_key_Some f m k v : m !! k = Some v -> at_key f m k = f k v.
Proof. unfold at_key. by intros ->. Qed.

Lemma at_key_None f m k : m !! k = None -> at_key f m k = 0.
Proof. unfold at_key. by intros ->. Qed.
End map_sum.

Lemma map_sum_fmap {K V W} `{Countable K} (f : K -> W -> Z) (h : V -> W) (m : gmap K V) :
  map_sum f (h <$> m) = map_sum (fun k v => f k (h v)) m.
Proof.
  induction m as [|k v m Hk IH] using map_ind; [by rewrite fmap_empty, !map_sum_empty|].
  rewrite fmap_insert, !map_sum_insert_None, IH by (rewrite ?lookup_fmap, ?Hk; done). done.
Qed.

(** ** Iteration in primary-key order.

    A [multi_index] is traversed by ascending primary key. *)
Definition sorted_keys {V} (m : gmap Z V) : list Z :=
  merge_sort Z.le (elements (dom m)).

Lemma sorted_keys_spec {V} (m : gmap Z V) k : k ∈ sorted_keys m <-> is_Some (m !! k).
Proof.
  unfold sorted_keys. rewrite merge_sort_Permutation, elem_of_elements.
  by rewrite elem_of_dom.
Qed.

Lemma sorted_keys_NoDup {V} (m : gmap Z V) : NoDup (sorted_keys m).
Proof. unfold sorted_keys. rewrite merge_sort_Permutation. apply NoDup_elements. Qed.

Lemma sorted_keys_length {V} (m : gmap Z V) : length (sorted_keys m) = size m.
Proof. unfold sorted_keys. rewrite merge_sort_Permutation. apply size_dom. Qed.

Lemma sorted_keys_sorted {V} (m : gmap Z V) : Sorted Z.le (sorted_keys m).
Proof. unfold sorted_keys. apply Sorted_merge_sort. intros ??; lia. Qed.

(** The primary keys of one scope of a table keyed by scope and primary key. *)
Definition scope_keys {V} (m : gmap (Z * Z) V) (scope : Z) : list Z :=
  merge_sort Z.le
    (omap (fun sk : Z * Z => if sk.1 =? scope then Some sk.2 else None) (elements (dom m))).

Lemma scope_keys_spec {V} (m : gmap (Z * Z) V) scope k :
  k ∈ scope_keys m scope <-> is_Some (m !! (scope, k)).
Proof.
  unfold scope_keys. rewrite merge_sort_Permutation, list_elem_of_omap. split.
  - intros ([s' k'] & Hin & Heq). simpl in Heq. destruct (Z.eqb_spec s' scope); simplify_eq.
    by apply elem_of_elements, elem_of_dom in Hin.
  - intros Hk. exists (scope, k). simpl. rewrite Z.eqb_refl. split; [|done].
    by apply elem_of_elements, elem_of_dom.
Qed.

Lemma scope_keys_NoDup {V} (m : gmap (Z * Z) V) scope : NoDup (scope_keys m scope).
Proof.
  unfold scope_keys. rewrite merge_sort_Permutation.
  assert (Hnd : NoDup (elements (dom m))) by apply NoDup_elements.
  induction Hnd as [|[s' k'] l Hnin Hnd IH]; [constructor|]. cbn [omap list_omap fst snd].
  destruct (Z.eqb_spec s' scope) as [->|]; [|done]. constructor; [|done].
  rewrite list_elem_of_omap. intros ([s2 k2] & Hin & Heq). simpl in Heq.
  destruct (Z.eqb_spec s2 scope); by simplify_eq.
Qed.

Lemma scope_keys_sorted {V} (m : gmap (Z * Z) V) scope : Sorted Z.le (scope_keys m scope).
Proof. unfold scope_keys. apply Sorted_merge_sort. intros ??; lia. Qed.

(** Keys before a key of the traversal are smaller. *)
Lemma scope_keys_before {V} (m : gmap (Z * Z) V) scope l1 k l2 x :
  scope_keys m scope = l1 ++ k :: l2 -> x ∈ l1 -> x < k.
Proof.
  intros E Hx. pose proof (scope_keys_NoDup m scope) as Hnd.
  pose proof (scope_keys_sorted m scope) as Hs. rewrite E in Hnd, Hs.
  apply Sorted_StronglySorted in Hs; [|intros ???; lia].
  apply NoDup_app in Hnd as (_ & Hnd & _).
  assert (x <> k). { intros ->. apply (Hnd k Hx). left. }
  clear E Hnd. induction l1 as [|y l1 IH]; [by apply not_elem_of_nil in Hx|].
  simpl in Hs. apply StronglySorted_inv in Hs as [Hs Hall].
  apply elem_of_cons in Hx as [->|Hx]; [|by apply IH].
  rewrite Forall_forall in Hall. assert (y <= k); [|lia].
  apply Hall, elem_of_app. right. left.
Qed.

(** ** Bytes and bit fields. *)
Lemma lor_shiftl_add a b k : 0 <= k -> 0 <= a < 2 ^ k -> Z.lor a (Z.shiftl b k) = a + b * 2 ^ k.
Proof.
  intros Hk Ha. rewrite <- Z.lxor_lor.
  - rewrite <- Z.add_nocarry_lxor; [by rewrite Z.shiftl_mul_pow2|].
    apply Z.bits_inj'. intros n Hn. rewrite Z.land_spec, Z.bits_0, Z.shiftl_spec by done.
    destruct (Z.lt_ge_cases n k).
    + rewrite (Z.testbit_neg_r b) by lia. by rewrite andb_false_r.
    + rewrite <- (Z.mod_small a (2 ^ k)), Z.mod_pow2_bits_high by lia. done.
  - apply Z.bits_inj'. intros n Hn. rewrite Z.land_spec, Z.bits_0, Z.shiftl_spec by done.
    destruct (Z.lt_ge_cases n k).
    + rewrite (Z.testbit_neg_r b) by lia. by rewrite andb_false_r.
    + rewrite <- (Z.mod_small a (2 ^ k)), Z.mod_pow2_bits_high by lia. done.
Qed.

Lemma land_255 z : Z.land z 0xff = z mod 256.
Proof. change 0xff with (Z.ones 8). by rewrite Z.land_ones by lia. Qed.

Lemma shiftr_8 z : Z.shiftr z 8 = z / 256.
Proof. by rewrite Z.shiftr_div_pow2 by lia. Qed.

(** Little-endian value of a list of bytes. *)
Definition bytes_val (bs : list Z) : Z := foldr (fun b acc => b + 256 * acc) 0 bs.

Lemma bytes_val_range bs :
  Forall (fun b => 0 <= b < 256) bs -> 0 <= bytes_val bs < 2 ^ (8 * Z.of_nat (length bs)).
Proof.
  induction 1 as [|b bs Hb _ IH]; simpl length; [simpl; lia|].
  cbn [bytes_val foldr]. fold (bytes_val bs).
  replace (8 * Z.of_nat (S (length bs))) with (8 + 8 * Z.of_nat (length bs)) by lia.
  rewrite Z.pow_add_r by lia. change (2 ^ 8) with 256. lia.
Qed.
