(* ===== verification/Name.v ===== *)
(** * Account and action names.

    The base-32 encoding of names in 64 bits: the host's
    [libraries/chain/name.cpp] and [name.hpp], and the contract library's
    [contracts/eosiolib/types.hpp].  A C string is a list of characters without
    the terminating NUL. *)
From stdpp Require Import base list.
From Stdlib Require Import ZArith Lia Ascii String.
From stdpp Require Import strings.
From S2P Require Import Prelude.

Open Scope Z_scope.

Definition code (c : ascii) : Z := Z.of_N (N_of_ascii c).

Abbreviation cstring := (list ascii) (only parsing).

Definition dot : ascii := "."%char.

(** [char_to_symbol], the same text in both libraries. *)
Definition char_to_symbol (c : ascii) : Z :=
  if (code "a" <=? code c) && (code c <=? code "z") then code c - code "a" + 6
  else if (code "1" <=? code c) && (code c <=? code "5") then code c - code "1" + 1
  else 0.

(** [static const char* charmap]. *)
Definition charmap : cstring :=
  list_ascii_of_string ".12345abcdefghijklmnopqrstuvwxyz".

(** The loop of [name::operator string] and of [name::to_string]: at step [i] the
    character for the low bits of [tmp] is stored at [12 - i]. *)
Definition to_string_step (st : cstring * Z) (i : nat) : cstring * Z :=
  let '(str, tmp) := st in
  let c := nth (Z.to_nat (Z.land tmp (if (i =? 0)%nat then 0x0f else 0x1f))) charmap dot in
  (<[(12 - i)%nat := c]> str, Z.shiftr tmp (if (i =? 0)%nat then 4 else 5)).

Definition to_string_raw (value : Z) : cstring :=
  fst (fold_left to_string_step (seq 0 13) (replicate 13 dot, value)).

(** The contract library. *)
Module Lib.

(** The contribution of position [i] in the loop of [string_to_name]. *)
Definition name_chunk (str : cstring) (i : nat) : Z :=
  let c := match str !! i with Some ch => char_to_symbol ch | None => 0 end in
  if (i <? 12)%nat then u64 (Z.shiftl (Z.land c 0x1f) (64 - 5 * (Z.of_nat i + 1)))
  else Z.land c 0x0f.

Definition string_to_name (str : cstring) : Z :=
  fold_left (fun value i => Z.lor value (name_chunk str i)) (seq 0 13) 0.

(** [name_suffix]: the loop over the twelve five-bit characters, carrying
    [(remaining_bits_after_last_actual_dot, tmp)]. *)
Definition name_suffix_scan (n : Z) : Z * Z :=
  fold_left
    (fun '(after_dot, tmp) remaining_bits =>
       let c := Z.land (Z.shiftr n remaining_bits) 0x1f in
       if c =? 0 then (after_dot, remaining_bits) else (tmp, tmp))
    [59; 54; 49; 44; 39; 34; 29; 24; 19; 14; 9; 4] (0, 0).

Definition name_suffix (n : Z) : Z :=
  let '(after_dot, tmp) := name_suffix_scan n in
  let thirteenth_character := Z.land n 0x0f in
  let after_dot := if negb (thirteenth_character =? 0) then tmp else after_dot in
  if after_dot =? 0 then n
  else
    let mask := u64 (u64 (Z.shiftl 1 after_dot) - 16) in
    let shift := 64 - after_dot in
    u64 (u64 (Z.shiftl (Z.land n mask) shift)
         + u64 (Z.shiftl thirteenth_character (shift - 1))).

(** [find_last_not_of('.')]: the index of the last character that is not a dot. *)
Fixpoint find_last_not_of_dot (str : cstring) : option nat :=
  match str with
  | [] => None
  | c :: str =>
      match find_last_not_of_dot str with
      | Some n => Some (S n)
      | None => if ascii_dec c dot then None else Some 0%nat
      end
  end.

(** [name::trim_right_dots]: a string of dots only is left as it is. *)
Definition trim_right_dots (str : cstring) : cstring :=
  match find_last_not_of_dot str with
  | Some last => take (S last) str
  | None => str
  end.

(** [name::to_string] of the contract library. *)
Definition to_string (value : Z) : cstring := trim_right_dots (to_string_raw value).

End Lib.

(** The host. *)
Module Host.

(** [boost::algorithm::trim_right_if( str, c == '.' )]. *)
Fixpoint trim_right_dots (str : cstring) : cstring :=
  match str with
  | [] => []
  | c :: str =>
      match trim_right_dots str with
      | [] => if ascii_dec c dot then [] else [c]
      | t => c :: t
      end
  end.

(** [name::operator string]. *)
Definition to_string (value : Z) : cstring := trim_right_dots (to_string_raw value).

(** The [for] loop [str[i] && i < 12]; [i] counts the characters consumed. *)
Fixpoint string_to_name_loop (fuel : nat) (str : cstring) (i : nat) (name : Z) : Z * nat :=
  match fuel, str !! i with
  | S fuel, Some ch =>
      string_to_name_loop fuel str (S i)
        (Z.lor name (u64 (Z.shiftl (Z.land (char_to_symbol ch) 0x1f)
                                   (64 - 5 * (Z.of_nat i + 1)))))
  | _, _ => (name, i)
  end.

(** The loop bound [i < 12] is the fuel. *)
Definition string_to_name (str : cstring) : Z :=
  let '(name, i) := string_to_name_loop 12 str 0 0 in
  if (i =? 12)%nat then
    Z.lor name (Z.land (match str !! 12%nat with
                        | Some ch => char_to_symbol ch
                        | None => 0 (* the terminating NUL *)
                        end) 0x0f)
  else name.

(** [name::set]. *)
Definition set (str : cstring) : result Z :=
  (check* (Z.min (Z.of_nat (length str)) 14 <=? 13)
     with "Name is longer than 13 characters" in
   let value := string_to_name str in
   check* bool_decide (to_string value = str)
     with "Name not properly normalized" in
   Ok value)%res.

End Host.

(** Names used as literals: [N(...)]. *)
Definition N_ (s : string) : Z := Lib.string_to_name (list_ascii_of_string s).

(** ** The two encoders agree. *)

Lemma name_chunk_beyond str i : (length str <= i)%nat -> Lib.name_chunk str i = 0.
Proof.
  intros Hi. unfold Lib.name_chunk. rewrite lookup_ge_None_2 by done.
  by destruct (i <? 12)%nat; rewrite ?Z.land_0_l, ?Z.shiftl_0_l.
Qed.

Lemma name_chunks_beyond str i n acc :
  (length str <= i)%nat ->
  fold_left (fun value i => Z.lor value (Lib.name_chunk str i)) (seq i n) acc = acc.
Proof.
  revert i acc. induction n as [|n IH]; intros i acc Hi; simpl; [done|].
  rewrite name_chunk_beyond, Z.lor_0_r by done. apply IH. lia.
Qed.

Lemma string_to_name_loop_spec fuel str i acc :
  (i + fuel <= 12)%nat ->
  Host.string_to_name_loop fuel str i acc =
  (fold_left (fun value i => Z.lor value (Lib.name_chunk str i)) (seq i fuel) acc,
   (i + Nat.min fuel (length str - i))%nat).
Proof.
  revert i acc. induction fuel as [|fuel IH]; intros i acc Hi;
    cbn [seq fold_left Host.string_to_name_loop]; [f_equal; lia|].
  destruct (str !! i) as [ch|] eqn:Hch.
  - apply lookup_lt_Some in Hch as Hlt. rewrite IH by lia. f_equal; [|lia].
    do 2 f_equal. unfold Lib.name_chunk. rewrite Hch.
    by rewrite (proj2 (Nat.ltb_lt i 12)) by lia.
  - apply lookup_ge_None in Hch.
    rewrite name_chunk_beyond, Z.lor_0_r, name_chunks_beyond by lia. f_equal; lia.
Qed.

(** ** Decoding: the thirteen digits of a value. *)

Lemma char_to_symbol_charmap d :
  0 <= d < 32 -> char_to_symbol (nth (Z.to_nat d) charmap dot) = d.
Proof.
  intros Hd. assert (Hall : forallb (fun n => char_to_symbol (nth n charmap dot) =? Z.of_nat n)
                              (seq 0 32) = true) by (vm_compute; reflexivity).
  rewrite forallb_forall in Hall. specialize (Hall (Z.to_nat d)).
  rewrite in_seq, Z.eqb_eq in Hall. rewrite Hall by lia. lia.
Qed.

(** The digit of position [i], [0] being the first character. *)
Definition digit (v : Z) (i : nat) : Z :=
  if (i =? 12)%nat then Z.land v 0x0f else Z.land (Z.shiftr v (59 - 5 * Z.of_nat i)) 0x1f.

Lemma digit_range v i : 0 <= digit v i < 32.
Proof.
  unfold digit. destruct (i =? 12)%nat.
  - change 15 with (Z.ones 4). rewrite Z.land_ones by lia.
    pose proof (Z.mod_pos_bound v (2 ^ 4)). lia.
  - change 31 with (Z.ones 5). rewrite Z.land_ones by lia.
    apply Z.mod_pos_bound. lia.
Qed.

Lemma to_string_raw_digits v :
  to_string_raw v = map (fun i => nth (Z.to_nat (digit v i)) charmap dot) (seq 0 13).
Proof.
  unfold to_string_raw. cbn [seq fold_left to_string_step fst Nat.eqb Nat.sub].
  rewrite !Z.shiftr_shiftr by lia. reflexivity.
Qed.

Lemma to_string_raw_lookup v i :
  (i < 13)%nat -> to_string_raw v !! i = Some (nth (Z.to_nat (digit v i)) charmap dot).
Proof.
  intros Hi. rewrite to_string_raw_digits, list_lookup_fmap, lookup_seq_lt by lia. done.
Qed.

(** Bits of the chunk of position [i]. *)
Lemma name_chunk_raw_bits v i k :
  (i < 13)%nat -> 0 <= k < 64 ->
  Z.testbit (Lib.name_chunk (to_string_raw v) i) k =
  (if (i =? 12)%nat then k <? 4 else (59 - 5 * Z.of_nat i <=? k) && (k <? 64 - 5 * Z.of_nat i))
  && Z.testbit v k.
Proof.
  intros Hi Hk. unfold Lib.name_chunk.
  rewrite to_string_raw_lookup by done.
  pose proof (digit_range v i). rewrite char_to_symbol_charmap by done.
  unfold digit. destruct (Nat.eqb_spec i 12) as [->|Hne].
  - rewrite (proj2 (Nat.ltb_ge 12 12)) by lia. change 15 with (Z.ones 4).
    rewrite !Z.land_spec, !Z.testbit_ones by lia.
    destruct (Z.ltb_spec k 4); rewrite ?(proj2 (Z.leb_le 0 k)) by lia; simpl;
      rewrite ?andb_true_r, ?andb_false_r; done.
  - rewrite (proj2 (Nat.ltb_lt i 12)) by lia. unfold wrapU.
    rewrite Z.mod_pow2_bits_low by lia. rewrite Z.shiftl_spec by lia.
    change 31 with (Z.ones 5). rewrite !Z.land_spec.
    destruct (Z.leb_spec (59 - 5 * Z.of_nat i) k) as [Hlo|Hlo].
    + rewrite Z.shiftr_spec, !Z.testbit_ones by lia.
      replace (k - (64 - 5 * (Z.of_nat i + 1)) + (59 - 5 * Z.of_nat i)) with k by lia.
      rewrite (proj2 (Z.leb_le 0 _)) by lia.
      destruct (Z.ltb_spec k (64 - 5 * Z.of_nat i)).
      * rewrite (proj2 (Z.ltb_lt _ 5)) by lia. simpl. by rewrite !andb_true_r.
      * rewrite (proj2 (Z.ltb_ge _ 5)) by lia. simpl. by rewrite !andb_false_r.
    + rewrite (Z.testbit_neg_r (Z.shiftr _ _)) by lia. done.
Qed.

Lemma fold_lor_bits (f : nat -> Z) l acc k :
  Z.testbit (fold_left (fun value i => Z.lor value (f i)) l acc) k =
  Z.testbit acc k || existsb (fun i => Z.testbit (f i) k) l.
Proof.
  revert acc. induction l as [|i l IH]; intros acc; simpl.
  - by rewrite orb_false_r.
  - by rewrite IH, Z.lor_spec, orb_assoc.
Qed.

Lemma name_chunk_range str i : 0 <= Lib.name_chunk str i < 2 ^ 64.
Proof.
  unfold Lib.name_chunk. destruct (i <? 12)%nat; [apply wrapU_range; lia|].
  change 15 with (Z.ones 4). rewrite Z.land_ones by lia.
  pose proof (Z.mod_pos_bound (match str !! i with Some ch => char_to_symbol ch | None => 0 end) (2 ^ 4)).
  clia.
Qed.

Lemma u64_bits_high v k : 0 <= v < 2 ^ 64 -> 64 <= k -> Z.testbit v k = false.
Proof.
  intros Hv Hk. rewrite <- (Z.mod_small v (2 ^ 64)) by done.
  by apply Z.mod_pow2_bits_high.
Qed.

Lemma string_to_name_raw v :
  is_u 64 v -> Lib.string_to_name (to_string_raw v) = v.
Proof.
  intros Hv. apply Z.bits_inj'. intros k Hk. unfold Lib.string_to_name.
  rewrite fold_lor_bits, Z.testbit_0_l, orb_false_l.
  destruct (Z.lt_ge_cases k 64) as [Hlt|Hge].
  - destruct (Z.testbit v k) eqn:Hb.
    + apply existsb_exists.
      exists (if k <? 4 then 12%nat else Z.to_nat (11 - (k - 4) / 5)).
      pose proof (Z.div_mod (k - 4) 5) as Hdm. pose proof (Z.mod_pos_bound (k - 4) 5).
      destruct (Z.ltb_spec k 4).
      * split; [apply in_seq; lia|]. rewrite name_chunk_raw_bits, Hb by lia. simpl.
        by rewrite (proj2 (Z.ltb_lt k 4)).
      * split; [apply in_seq; lia|]. rewrite name_chunk_raw_bits, Hb by lia.
        rewrite (proj2 (Nat.eqb_neq _ 12)) by lia.
        rewrite (proj2 (Z.leb_le _ k)), (proj2 (Z.ltb_lt k _)) by lia. done.
    + apply not_true_is_false. intros (i & Hi & Ht)%existsb_exists.
      apply in_seq in Hi. rewrite name_chunk_raw_bits, Hb, andb_false_r in Ht by lia. done.
  - rewrite (u64_bits_high v k) by done. apply not_true_is_false.
    intros (i & Hi & Ht)%existsb_exists.
    rewrite u64_bits_high in Ht; [done|apply name_chunk_range|done].
Qed.

(** ** Trimming. *)

Lemma host_trim_spec str :
  exists n, str = Host.trim_right_dots str ++ replicate n dot.
Proof.
  induction str as [|c str [n IH]]; simpl; [by exists 0%nat|].
  destruct (Host.trim_right_dots str) as [|c' t] eqn:Ht.
  - destruct (ascii_dec c dot) as [->|]; [exists (S n)|exists n]; simpl in *; by rewrite <- IH.
  - exists n. simpl in *. by rewrite <- IH.
Qed.

Lemma name_chunk_app_dots str n i :
  Lib.name_chunk (str ++ replicate n dot) i = Lib.name_chunk str i.
Proof.
  destruct (decide (i < length str)%nat) as [Hlt|Hge].
  - unfold Lib.name_chunk. by rewrite lookup_app_l.
  - rewrite (name_chunk_beyond str) by lia. unfold Lib.name_chunk.
    rewrite lookup_app_r by lia.
    destruct (replicate n dot !! (i - length str)%nat) as [c|] eqn:Hc.
    + apply lookup_replicate in Hc as [-> _]. change (char_to_symbol dot) with 0.
      by destruct (i <? 12)%nat; rewrite ?Z.land_0_l, ?Z.shiftl_0_l.
    + by destruct (i <? 12)%nat; rewrite ?Z.land_0_l, ?Z.shiftl_0_l.
Qed.

Lemma string_to_name_host_trim str :
  Lib.string_to_name (Host.trim_right_dots str) = Lib.string_to_name str.
Proof.
  destruct (host_trim_spec str) as [n Hn]. unfold Lib.string_to_name.
  remember (Host.trim_right_dots str) as t eqn:Ht. clear Ht. subst str.
  generalize (seq 0 13) as l, 0 as acc.
  induction l as [|i l IH]; intros acc; simpl; [done|]. by rewrite name_chunk_app_dots, IH.
Qed.

Lemma find_last_host_trim str :
  Host.trim_right_dots str =
  match Lib.find_last_not_of_dot str with Some last => take (S last) str | None => [] end.
Proof.
  induction str as [|c str IH]; simpl; [done|]. rewrite IH.
  destruct (Lib.find_last_not_of_dot str) as [n|] eqn:Hn.
  - destruct str; [done|]. done.
  - by destruct (ascii_dec c dot).
Qed.

Lemma host_to_string_length v : (length (Host.to_string v) <= 13)%nat.
Proof.
  unfold Host.to_string. destruct (host_trim_spec (to_string_raw v)) as [n Hn].
  apply (f_equal length) in Hn. rewrite length_app in Hn.
  rewrite (to_string_raw_digits v) in Hn at 1. rewrite length_map, length_seq in Hn. lia.
Qed.

Lemma string_to_name_to_string v :
  is_u 64 v -> Lib.string_to_name (Host.to_string v) = v.
Proof. intros. unfold Host.to_string. by rewrite string_to_name_host_trim, string_to_name_raw. Qed.

Lemma host_to_string_empty v : is_u 64 v -> Host.to_string v = [] -> v = 0.
Proof. intros Hv He. rewrite <- (string_to_name_to_string v Hv), He. reflexivity. Qed.

(** ** Properties. *)

(** The host and the contract library encode every string to the same account name. *)
Theorem string_to_name_agree (str : cstring) :
  Host.string_to_name str = Lib.string_to_name str.
Proof.
  unfold Host.string_to_name. rewrite string_to_name_loop_spec by lia.
  unfold Lib.string_to_name.
  change (seq 0 13) with (seq 0 12 ++ [12%nat]). rewrite fold_left_app.
  cbn [fold_left]. rewrite Nat.sub_0_r, Nat.add_0_l.
  destruct (Nat.eqb_spec (Nat.min 12 (length str)) 12) as [E|E].
  - done.
  - by rewrite (name_chunk_beyond str 12), Z.lor_0_r by lia.
Qed.

(** Printing an account name and parsing it again yields the same 64-bit value. *)
Theorem name_roundtrip (v : Z) (Hv : is_u 64 v) :
  Host.set (Host.to_string v) = Ok v.
Proof.
  unfold Host.set. pose proof (host_to_string_length v).
  rewrite (proj2 (Z.leb_le _ 13)) by lia. simpl.
  rewrite string_to_name_agree, string_to_name_to_string by done.
  by rewrite bool_decide_eq_true_2.
Qed.

(** The contract library prints a name as the host does, for every value but zero. *)
Theorem to_string_agree_iff (v : Z) (Hv : is_u 64 v) :
  Lib.to_string v = Host.to_string v <-> v <> 0.
Proof.
  split.
  - intros Heq ->. by vm_compute in Heq.
  - intros Hne. unfold Lib.to_string, Lib.trim_right_dots.
    pose proof (host_to_string_empty v Hv) as He. unfold Host.to_string in *.
    rewrite find_last_host_trim in *.
    destruct (Lib.find_last_not_of_dot (to_string_raw v)); [done|]. by destruct Hne, He.
Qed.

Lemma name_roundtrip_witness :
  is_u 64 (N_ "force.token") /\
  Host.set (Host.to_string (N_ "force.token")) = Ok (N_ "force.token").
Proof. split; [split; vm_compute; congruence|]. apply name_roundtrip. split; vm_compute; congruence. Defined.

Lemma to_string_agree_iff_witness :
  Lib.to_string (N_ "force") = Host.to_string (N_ "force") <-> N_ "force" <> 0.
Proof. apply to_string_agree_iff. split; vm_compute; congruence. Defined.
