(* ===== verification/Asset.v ===== *)
(** * Symbols and assets.

    [Sym]: the symbol encoding of the contract library
    ([contracts/eosiolib/symbol.hpp]) and the host's validity check
    ([libraries/chain/include/eosio/chain/symbol.hpp]).
    The rest of the file is the contract library's [asset]
    ([contracts/eosiolib/asset.hpp]): a signed 64-bit amount tagged with a symbol,
    whose operators abort the action outside [-max_amount, max_amount]. *)
From stdpp Require Import base list.
From Stdlib Require Import ZArith Lia Ascii String Btauto.
From stdpp Require Import strings.
From S2P Require Import Prelude Name.

Open Scope Z_scope.

Module Sym.

Definition is_upper (c : Z) : bool := (code "A" <=? c) && (c <=? code "Z").

(** [string_to_symbol]: characters that are not capitals are skipped. *)
Definition string_to_symbol (precision : Z) (str : cstring) : Z :=
  let result :=
    fold_left
      (fun result '(i, ch) =>
         if is_upper (code ch)
         then Z.lor result (u64 (Z.shiftl (code ch) (8 * (1 + Z.of_nat i))))
         else result)
      (zip (seq 0 (length str)) str) 0 in
  Z.lor result (u8 precision).

(** The inner [do .. while( i < 7 )]: [n] iterations, each must see a zero byte. *)
Fixpoint rest_is_zero (n : nat) (sym : Z) : bool :=
  match n with
  | O => true
  | S n =>
      let sym := Z.shiftr sym 8 in
      if negb (Z.land sym 0xff =? 0) then false else rest_is_zero n sym
  end.

(** The [for] loop of [is_valid_symbol]; [n] is [7 - i]. *)
Fixpoint is_valid_symbol_loop (n : nat) (sym : Z) : bool :=
  match n with
  | O => true
  | S n' =>
      let c := Z.land sym 0xff in
      if negb (is_upper c) then false
      else
        let sym := Z.shiftr sym 8 in
        if Z.land sym 0xff =? 0 then rest_is_zero n sym
        else is_valid_symbol_loop n' sym
  end.

Definition is_valid_symbol (sym : Z) : bool := is_valid_symbol_loop 7 (Z.shiftr sym 8).

(** [symbol_name_length]: [while( sym & 0xff && length <= 7 )]; at most 8 rounds. *)
Fixpoint symbol_name_length_loop (fuel : nat) (sym length : Z) : Z :=
  match fuel with
  | O => length
  | S fuel =>
      if negb (Z.land sym 0xff =? 0) && (length <=? 7)
      then symbol_name_length_loop fuel (Z.shiftr sym 8) (length + 1)
      else length
  end.

Definition symbol_name_length (sym : Z) : Z := symbol_name_length_loop 8 (Z.shiftr sym 8) 0.

Definition precision (sym : Z) : Z := Z.land sym 0xff.
Definition name (sym : Z) : Z := Z.shiftr sym 8.

(** The host's [symbol]. *)
Module Host.

Definition max_precision : Z := 18.

Definition decimals (sym : Z) : Z := Z.land sym 0xff.

(** [symbol::name]: the bytes above the precision, until none is left. *)
Fixpoint name_loop (fuel : nat) (v : Z) : list Z :=
  match fuel with
  | O => []
  | S fuel => if 0 <? v then Z.land v 0xff :: name_loop fuel (Z.shiftr v 8) else []
  end.

Definition name (sym : Z) : list Z := name_loop 7 (Z.shiftr sym 8).

Definition valid_name (name : list Z) : bool := forallb is_upper name.

Definition valid (sym : Z) : bool :=
  (decimals sym <=? max_precision) && valid_name (name sym).

(** [symbol::precision]: [10 ^ decimals], refused above [max_precision]. *)
Fixpoint precision_loop (p : nat) (p10 : Z) : Z :=
  match p with
  | O => p10
  | S p => precision_loop p (u64 (p10 * 10))
  end.

Definition precision (sym : Z) : result Z :=
  (check* (decimals sym <=? max_precision) with "precision should be <= 18" in
   Ok (precision_loop (Z.to_nat (decimals sym)) 1))%res.

End Host.

End Sym.

(** [CORE_SYMBOL], with the default [CORE_SYMBOL_NAME] of the build. *)
Definition CORE_SYMBOL : Z :=
  Eval vm_compute in Sym.string_to_symbol 4 (list_ascii_of_string "CDX").
Definition CORE_SYMBOL_PRECISION : Z := 10000.

Record asset := Asset { amount : Z; symbol : Z }.

#[global] Instance asset_eq_dec : EqDecision asset.
Proof. solve_decision. Defined.

Definition max_amount : Z := Z.shiftl 1 62 - 1.

Definition is_amount_within_range (a : asset) : bool :=
  (- max_amount <=? amount a) && (amount a <=? max_amount).

Definition is_valid (a : asset) : bool :=
  is_amount_within_range a && Sym.is_valid_symbol (symbol a).

(** The constructor [asset( int64_t a, symbol_type s )]. *)
Definition mk_asset (a s : Z) : result asset :=
  let r := Asset a s in
  (check* is_amount_within_range r with "magnitude of asset amount must be less than 2^62" in
   check* Sym.is_valid_symbol s with "invalid symbol name" in
   Ok r)%res.

(** [asset( a )]: the symbol defaults to [CORE_SYMBOL]. *)
Definition core_asset (a : Z) : result asset := mk_asset a CORE_SYMBOL.

Definition set_amount (a : asset) (n : Z) : result asset :=
  let r := Asset n (symbol a) in
  (check* is_amount_within_range r with "magnitude of asset amount must be less than 2^62" in
   Ok r)%res.

(** Unary minus: no range check. *)
Definition asset_neg (a : asset) : asset := Asset (i64 (- amount a)) (symbol a).

Definition asset_sub (r a : asset) : result asset :=
  (check* (symbol a =? symbol r) with "attempt to subtract asset with different symbol" in
   let amt := i64 (amount r - amount a) in
   check* (- max_amount <=? amt) with "subtraction underflow" in
   check* (amt <=? max_amount) with "subtraction overflow" in
   Ok (Asset amt (symbol r)))%res.

Definition asset_add (r a : asset) : result asset :=
  (check* (symbol a =? symbol r) with "attempt to add asset with different symbol" in
   let amt := i64 (amount r + amount a) in
   check* (- max_amount <=? amt) with "addition underflow" in
   check* (amt <=? max_amount) with "addition overflow" in
   Ok (Asset amt (symbol r)))%res.

(** [operator*=]: the product is taken in 128 bits. *)
Definition asset_mul (r : asset) (a : Z) : result asset :=
  let tmp := i128 (amount r * a) in
  (check* (tmp <=? max_amount) with "multiplication overflow" in
   check* (- max_amount <=? tmp) with "multiplication underflow" in
   Ok (Asset (i64 tmp) (symbol r)))%res.

(** [operator/=]: C++ division truncates towards zero. *)
Definition asset_div (r : asset) (a : Z) : result asset :=
  (check* negb (a =? 0) with "divide by zero" in
   check* negb ((amount r =? - 2 ^ 63) && (a =? -1)) with "signed division overflow" in
   Ok (Asset (Z.quot (amount r) a) (symbol r)))%res.

(** The comparisons abort on different symbols. *)
Definition asset_cmp (f : Z -> Z -> bool) (a b : asset) : result bool :=
  (check* (symbol a =? symbol b)
     with "comparison of assets with different symbols is not allowed" in
   Ok (f (amount a) (amount b)))%res.

Definition asset_eq : asset -> asset -> result bool := asset_cmp Z.eqb.
Definition asset_lt : asset -> asset -> result bool := asset_cmp Z.ltb.
Definition asset_le : asset -> asset -> result bool := asset_cmp Z.leb.
Definition asset_gt : asset -> asset -> result bool := asset_cmp Z.gtb.
Definition asset_ge : asset -> asset -> result bool := asset_cmp Z.geb.

(** ** Symbol validity. *)

Lemma rest_is_zero_spec n sym :
  0 <= sym < 2 ^ (8 * Z.of_nat n + 8) -> Sym.rest_is_zero n sym = (Z.shiftr sym 8 =? 0).
Proof.
  revert sym. induction n as [|n IH]; intros sym Hs; cbn [Sym.rest_is_zero].
  - symmetry. apply Z.eqb_eq. rewrite shiftr_8. apply Z.div_small. simpl in Hs. lia.
  - assert (0 <= Z.shiftr sym 8 < 2 ^ (8 * Z.of_nat n + 8)).
    { rewrite shiftr_8. replace (8 * Z.of_nat (S n) + 8) with (8 + (8 * Z.of_nat n + 8)) in Hs by lia.
      rewrite Z.pow_add_r in Hs by lia. change (2 ^ 8) with 256 in Hs.
      split; [apply Z.div_pos; lia|]. apply Z.div_lt_upper_bound; lia. }
    rewrite IH by done. rewrite land_255, !shiftr_8. set (s := sym / 256) in *.
    destruct (Z.eqb_spec (s mod 256) 0); simpl.
    + destruct (Z.eqb_spec (s / 256) 0), (Z.eqb_spec s 0); try done; exfalso;
        Z.div_mod_to_equations; lia.
    + symmetry. apply Z.eqb_neq. intros ->. done.
Qed.

Lemma is_valid_symbol_loop_spec n w :
  (1 <= n)%nat -> 0 <= w < 2 ^ (8 * Z.of_nat n) ->
  Sym.is_valid_symbol_loop n w = negb (w =? 0) && Sym.Host.valid_name (Sym.Host.name_loop n w).
Proof.
  revert w. induction n as [|n IH]; intros w Hn Hw; [lia|].
  cbn [Sym.is_valid_symbol_loop Sym.Host.name_loop].
  destruct (Z.eqb_spec w 0) as [->|Hw0]; [done|].
  rewrite (proj2 (Z.ltb_lt 0 w)) by lia. unfold Sym.Host.valid_name. cbn [forallb negb andb].
  destruct (Sym.is_upper (Z.land w 255)) eqn:Hup; cbn [negb andb]; [|done].
  assert (0 <= Z.shiftr w 8 < 2 ^ (8 * Z.of_nat n)) as Hw'.
  { rewrite shiftr_8. replace (8 * Z.of_nat (S n)) with (8 + 8 * Z.of_nat n) in Hw by lia.
    rewrite Z.pow_add_r in Hw by lia. change (2 ^ 8) with 256 in Hw.
    split; [apply Z.div_pos; lia|]. apply Z.div_lt_upper_bound; lia. }
  destruct (Z.eqb_spec (Z.land (Z.shiftr w 8) 255) 0) as [Hz|Hz].
  - rewrite rest_is_zero_spec.
    2: { split; [lia|]. eapply Z.lt_le_trans; [apply Hw'|]. apply Z.pow_le_mono_r; lia. }
    rewrite land_255 in Hz. rewrite !shiftr_8 in *. set (s := w / 256) in *.
    destruct n as [|n]; [simpl in Hw'; by replace s with 0 by lia|].
    cbn [Sym.Host.name_loop]. destruct (Z.ltb_spec 0 s).
    + cbn [forallb]. rewrite land_255, Hz. simpl. apply Z.eqb_neq. Z.div_mod_to_equations; lia.
    + by replace s with 0 by lia.
  - destruct n as [|n].
    { exfalso. apply Hz. simpl in Hw'. by replace (Z.shiftr w 8) with 0 by lia. }
    rewrite IH by (done || lia). rewrite (proj2 (Z.eqb_neq _ 0)); [done|].
    intros E. by rewrite E in Hz.
Qed.

Lemma name_loop_bytes n w :
  0 <= w < 2 ^ (8 * Z.of_nat n) -> bytes_val (Sym.Host.name_loop n w) = w.
Proof.
  revert w. induction n as [|n IH]; intros w Hw; cbn [Sym.Host.name_loop]; [simpl in *; lia|].
  destruct (Z.ltb_spec 0 w); [|simpl; lia]. cbn [bytes_val foldr].
  fold (bytes_val (Sym.Host.name_loop n (Z.shiftr w 8))). rewrite IH.
  - rewrite land_255, shiftr_8. Z.div_mod_to_equations; lia.
  - rewrite shiftr_8. replace (8 * Z.of_nat (S n)) with (8 + 8 * Z.of_nat n) in Hw by lia.
    rewrite Z.pow_add_r in Hw by lia. change (2 ^ 8) with 256 in Hw.
    split; [apply Z.div_pos; lia|]. apply Z.div_lt_upper_bound; lia.
Qed.

Lemma name_loop_length n w : (length (Sym.Host.name_loop n w) <= n)%nat.
Proof.
  revert w. induction n as [|n IH]; intros w; cbn [Sym.Host.name_loop]; [simpl; lia|].
  destruct (0 <? w); simpl; [|lia]. specialize (IH (Z.shiftr w 8)). lia.
Qed.

Lemma name_loop_bytes_val n bs :
  Forall (fun b => 0 < b < 256) bs -> (length bs <= n)%nat ->
  Sym.Host.name_loop n (bytes_val bs) = bs.
Proof.
  intros Hbs. revert n. induction Hbs as [|b bs Hb Hbs IH]; intros n Hn; [by destruct n|].
  destruct n as [|n]; simpl in Hn; [lia|]. cbn [Sym.Host.name_loop bytes_val foldr].
  fold (bytes_val bs).
  assert (0 <= bytes_val bs).
  { apply bytes_val_range. eapply Forall_impl; [exact Hbs|]. simpl; lia. }
  rewrite (proj2 (Z.ltb_lt 0 _)) by lia. rewrite land_255, shiftr_8.
  f_equal; [Z.div_mod_to_equations; lia|].
  replace ((b + 256 * bytes_val bs) / 256) with (bytes_val bs) by (Z.div_mod_to_equations; lia).
  apply IH. lia.
Qed.

Lemma code_range c : 0 <= code c < 256.
Proof. unfold code. pose proof (N_ascii_bounded c). lia. Qed.

Lemma string_to_symbol_val p str :
  0 <= p < 256 -> (length str <= 7)%nat -> forallb (fun c => Sym.is_upper (code c)) str = true ->
  Sym.string_to_symbol p str = p + 256 * bytes_val (map code str).
Proof.
  intros Hp Hlen Hup. unfold Sym.string_to_symbol. rewrite wrapU_small by clia.
  assert (Hgen : forall i acc, (i + length str <= 7)%nat -> 0 <= acc < 2 ^ (8 * (1 + Z.of_nat i)) ->
    fold_left (fun result '(i, ch) => if Sym.is_upper (code ch)
       then Z.lor result (u64 (Z.shiftl (code ch) (8 * (1 + Z.of_nat i)))) else result)
      (zip (seq i (length str)) str) acc
    = acc + 2 ^ (8 * (1 + Z.of_nat i)) * bytes_val (map code str)).
  { clear Hlen. induction str as [|c str IH]; intros i acc Hi Hacc; [simpl; lia|].
    simpl in Hup. apply andb_true_iff in Hup as [Hc Hup]. simpl in Hi.
    simpl length. cbn [seq zip zip_with fold_left map]. rewrite Hc.
    pose proof (code_range c).
    assert (code c * 2 ^ (8 * (1 + Z.of_nat i)) < 2 ^ (8 * (1 + Z.of_nat (S i)))
            <= 2 ^ 64) as [Hlt Hle].
    { replace (8 * (1 + Z.of_nat (S i))) with (8 + 8 * (1 + Z.of_nat i)) by lia.
      split; [rewrite (Z.pow_add_r 2 8) by lia; change (2 ^ 8) with 256|apply Z.pow_le_mono_r; lia].
      assert (0 < 2 ^ (8 * (1 + Z.of_nat i))) by (apply Z.pow_pos_nonneg; lia). nia. }
    assert (0 < 2 ^ (8 * (1 + Z.of_nat i))) by (apply Z.pow_pos_nonneg; lia).
    rewrite wrapU_small by (rewrite Z.shiftl_mul_pow2 by lia; nia).
    rewrite lor_shiftl_add by lia. rewrite IH; [|done|lia|].
    - cbn [bytes_val foldr]. fold (bytes_val (map code str)).
      replace (8 * (1 + Z.of_nat (S i))) with (8 + 8 * (1 + Z.of_nat i)) by lia.
      rewrite (Z.pow_add_r 2 8) by lia. change (2 ^ 8) with 256. lia.
    - replace (8 * (1 + Z.of_nat (S i))) with (8 + 8 * (1 + Z.of_nat i)) by lia.
      rewrite (Z.pow_add_r 2 8) by lia. change (2 ^ 8) with 256. nia. }
  rewrite Hgen; [|lia|simpl; lia]. rewrite Z.add_0_l.
  change (2 ^ (8 * (1 + Z.of_nat 0))) with (2 ^ 8). rewrite Z.mul_comm.
  rewrite <- Z.shiftl_mul_pow2 by lia. rewrite Z.lor_comm, lor_shiftl_add by lia. lia.
Qed.

Lemma symbol_name_range v : is_u 64 v -> 0 <= Z.shiftr v 8 < 2 ^ (8 * Z.of_nat 7).
Proof. intros. rewrite shiftr_8. change (8 * Z.of_nat 7) with 56. width_norm. Z.div_mod_to_equations; lia. Qed.

Lemma upper_byte b : Sym.is_upper b = true -> 65 <= b <= 90.
Proof.
  unfold Sym.is_upper. intros [H1%Z.leb_le H2%Z.leb_le]%andb_true_iff.
  change (code "A") with 65 in H1. change (code "Z") with 90 in H2. lia.
Qed.

(** Bytes that are capitals, as characters. *)
Lemma upper_bytes_chars bs :
  Sym.Host.valid_name bs = true ->
  map code (map (fun b => ascii_of_N (Z.to_N b)) bs) = bs.
Proof.
  unfold Sym.Host.valid_name. rewrite forallb_forall. intros Hname.
  rewrite map_map. rewrite <- (map_id bs) at 2. apply map_ext_in. intros b Hb.
  apply Hname, upper_byte in Hb. unfold code. rewrite N_ascii_embedding; lia.
Qed.

Lemma upper_codes_pos str :
  forallb (fun c => Sym.is_upper (code c)) str = true ->
  Forall (fun b => 0 < b < 256) (map code str).
Proof.
  rewrite forallb_forall. intros Hup. apply List.Forall_map, List.Forall_forall.
  intros c Hc%Hup%upper_byte. pose proof (code_range c). lia.
Qed.

Lemma valid_symbol_decode v :
  is_u 64 v -> Sym.is_valid_symbol v = true ->
  exists p str, 0 <= p < 256 /\ (1 <= length str <= 7)%nat /\
    forallb (fun c => Sym.is_upper (code c)) str = true /\ v = Sym.string_to_symbol p str.
Proof.
  intros Hv. pose proof (symbol_name_range v Hv) as Hr. unfold Sym.is_valid_symbol.
  rewrite is_valid_symbol_loop_spec by (done || lia). intros [Hne Hname]%andb_true_iff.
  set (bs := Sym.Host.name_loop 7 (Z.shiftr v 8)) in *.
  pose proof (upper_bytes_chars bs Hname) as Hcodes.
  exists (Z.land v 255), (map (fun b => ascii_of_N (Z.to_N b)) bs).
  pose proof (name_loop_length 7 (Z.shiftr v 8)) as Hlen. fold bs in Hlen.
  assert (Hbv : bytes_val bs = Z.shiftr v 8) by (by apply name_loop_bytes).
  assert (Hup : forallb (fun c => Sym.is_upper (code c))
                  (map (fun b => ascii_of_N (Z.to_N b)) bs) = true).
  { revert Hname. unfold Sym.Host.valid_name. rewrite <- Hcodes at 1.
    rewrite !forallb_forall. intros Hall x Hx. apply Hall. apply in_map_iff. eauto. }
  assert (0 <= Z.land v 255 < 256) by (rewrite land_255; apply Z.mod_pos_bound; lia).
  rewrite length_map. repeat split; try done; try lia.
  - destruct bs; [|simpl; lia]. simpl in Hbv. rewrite <- Hbv in Hne. done.
  - rewrite string_to_symbol_val; [|done|by rewrite length_map|done].
    rewrite Hcodes, Hbv, land_255, shiftr_8. Z.div_mod_to_equations; lia.
Qed.

Lemma valid_symbol_encode p str :
  0 <= p < 256 -> (1 <= length str <= 7)%nat ->
  forallb (fun c => Sym.is_upper (code c)) str = true ->
  is_u 64 (Sym.string_to_symbol p str) /\
  Sym.is_valid_symbol (Sym.string_to_symbol p str) = true.
Proof.
  intros Hp Hlen Hup. pose proof (upper_codes_pos str Hup) as Hbs.
  assert (0 < bytes_val (map code str) < 2 ^ 56) as Hpos.
  { destruct str as [|c str]; simpl in Hlen; [lia|].
    pose proof (bytes_val_range (map code (c :: str))) as Hr. rewrite length_map in Hr.
    assert (2 ^ (8 * Z.of_nat (length (c :: str))) <= 2 ^ 56)
      by (apply Z.pow_le_mono_r; simpl length; lia).
    assert (0 <= bytes_val (map code str)).
    { apply bytes_val_range. inversion Hbs; subst. eapply Forall_impl; [eassumption|]. simpl; lia. }
    inversion Hbs; subst. split; [cbn [map bytes_val foldr]; fold (bytes_val (map code str)); lia|].
    eapply Z.lt_le_trans; [apply Hr|done]. eapply Forall_impl; [exact Hbs|]. simpl; lia. }
  rewrite string_to_symbol_val by (done || lia).
  assert (is_u 64 (p + 256 * bytes_val (map code str))) as Hu.
  { change (2 ^ 56) with 72057594037927936 in Hpos. clia. }
  split; [done|]. pose proof (symbol_name_range _ Hu) as Hr. unfold Sym.is_valid_symbol.
  rewrite is_valid_symbol_loop_spec by (done || lia).
  rewrite shiftr_8. replace ((p + 256 * bytes_val (map code str)) / 256)
    with (bytes_val (map code str)) by (Z.div_mod_to_equations; lia).
  rewrite name_loop_bytes_val by (done || rewrite length_map; lia).
  rewrite (proj2 (Z.eqb_neq _ 0)) by lia. unfold Sym.Host.valid_name.
  apply forallb_forall. intros b (c & <- & Hc)%in_map_iff.
  rewrite forallb_forall in Hup. by apply Hup.
Qed.

(** A 64-bit value is a valid symbol exactly when it is the encoding of a precision
    byte and one to seven upper-case letters. *)
Theorem is_valid_symbol_iff (v : Z) :
  is_u 64 v /\ Sym.is_valid_symbol v = true <->
  exists p str, 0 <= p < 256 /\ (1 <= length str <= 7)%nat /\
    forallb (fun c => Sym.is_upper (code c)) str = true /\ v = Sym.string_to_symbol p str.
Proof.
  split.
  - intros [Hv Hs]. by apply valid_symbol_decode.
  - intros (p & str & Hp & Hlen & Hup & ->). by apply valid_symbol_encode.
Qed.

(** The contract library and the host accept the same symbols, up to the host's
    bound on the precision and the contract library's rejection of the empty name. *)
Theorem symbol_validity_agree (v : Z) (Hv : is_u 64 v) :
  Sym.is_valid_symbol v && (Sym.precision v <=? Sym.Host.max_precision) =
  Sym.Host.valid v && negb (Sym.name v =? 0).
Proof.
  pose proof (symbol_name_range v Hv) as Hr. unfold Sym.is_valid_symbol.
  rewrite is_valid_symbol_loop_spec by (done || lia).
  unfold Sym.Host.valid, Sym.Host.name, Sym.Host.decimals, Sym.precision, Sym.name. btauto.
Qed.

(** ** Arithmetic: every overflow is caught. *)

Definition in_range (z : Z) : Prop := - max_amount <= z <= max_amount.

Lemma within_range_iff a : is_amount_within_range a = true <-> in_range (amount a).
Proof. unfold is_amount_within_range, in_range. rewrite andb_true_iff, !Z.leb_le. done. Qed.

Lemma max_amount_val : max_amount = 4611686018427387903.
Proof. reflexivity. Qed.

Ltac arange := unfold in_range in *; rewrite ?max_amount_val in *; width_norm.

Lemma core_asset_ok a x :
  core_asset a = Ok x <-> in_range a /\ x = Asset a CORE_SYMBOL.
Proof.
  unfold core_asset, mk_asset.
  replace (Sym.is_valid_symbol CORE_SYMBOL) with true by (vm_compute; reflexivity).
  destruct (is_amount_within_range (Asset a CORE_SYMBOL)) eqn:E; simpl.
  - apply within_range_iff in E. split; [by intros; simplify_eq|by intros [_ ->]].
  - split; [done|]. intros [Hr ->]. apply (within_range_iff (Asset a CORE_SYMBOL)) in Hr. congruence.
Qed.

Lemma checked_sum (z : Z) :
  - (2 ^ 63 + max_amount) <= z <= 2 ^ 63 + max_amount ->
  - max_amount <= i64 z <= max_amount -> i64 z = z.
Proof.
  intros Hz Hw. unfold wrapS in *. arange.
  rewrite Z.mod_eq in * by lia. change (64 - 1) with 63 in *. arange.
  Z.div_mod_to_equations; nia.
Qed.

Lemma asset_add_ok r a x :
  in_range (amount r) -> is_s 64 (amount a) ->
  asset_add r a = Ok x <->
  symbol a = symbol r /\ in_range (amount r + amount a) /\
  x = Asset (amount r + amount a) (symbol r).
Proof.
  intros Hr Ha. unfold asset_add. split.
  - intros H. rinv.
    assert (E : i64 (amount r + amount a) = amount r + amount a)
      by (apply checked_sum; [arange; lia|by split]).
    rewrite E in *. unfold in_range. auto.
  - intros (-> & Hs & ->). rewrite Z.eqb_refl. simpl.
    rewrite (wrapS_small 64) by (arange; lia).
    rewrite (proj2 (Z.leb_le _ _)) by apply Hs. simpl.
    by rewrite (proj2 (Z.leb_le _ _)) by apply Hs.
Qed.

Lemma asset_sub_ok r a x :
  in_range (amount r) -> is_s 64 (amount a) ->
  asset_sub r a = Ok x <->
  symbol a = symbol r /\ in_range (amount r - amount a) /\
  x = Asset (amount r - amount a) (symbol r).
Proof.
  intros Hr Ha. unfold asset_sub. split.
  - intros H. rinv.
    assert (E : i64 (amount r - amount a) = amount r - amount a)
      by (apply checked_sum; [arange; lia|by split]).
    rewrite E in *. unfold in_range. auto.
  - intros (-> & Hs & ->). rewrite Z.eqb_refl. simpl.
    rewrite (wrapS_small 64) by (arange; lia).
    rewrite (proj2 (Z.leb_le _ _)) by apply Hs. simpl.
    by rewrite (proj2 (Z.leb_le _ _)) by apply Hs.
Qed.

Lemma asset_mul_ok r a x :
  is_s 64 (amount r) -> is_s 64 a ->
  asset_mul r a = Ok x <->
  in_range (amount r * a) /\ x = Asset (amount r * a) (symbol r).
Proof.
  intros Hr Ha. unfold asset_mul.
  rewrite (wrapS_small 128) by (width_norm; nia). split.
  - intros H. rinv. rewrite wrapS_small by (arange; lia). unfold in_range. auto.
  - intros (Hs & ->). rewrite (proj2 (Z.leb_le _ _)) by apply Hs. simpl.
    rewrite (proj2 (Z.leb_le _ _)) by apply Hs. simpl. by rewrite wrapS_small by (arange; lia).
Qed.

(** ** Amounts of the core token. *)

Definition coin (a : asset) : Prop := symbol a = CORE_SYMBOL /\ in_range (amount a).

Lemma coin_add a b x :
  coin a -> coin b -> asset_add a b = Ok x ->
  x = Asset (amount a + amount b) CORE_SYMBOL /\ in_range (amount a + amount b).
Proof.
  intros [Ha ?] [Hb ?] Hx. apply asset_add_ok in Hx as (_ & ? & ->); [|done|arange; lia].
  by rewrite Ha.
Qed.

Lemma coin_sub a b x :
  coin a -> coin b -> asset_sub a b = Ok x ->
  x = Asset (amount a - amount b) CORE_SYMBOL /\ in_range (amount a - amount b).
Proof.
  intros [Ha ?] [Hb ?] Hx. apply asset_sub_ok in Hx as (_ & ? & ->); [|done|arange; lia].
  by rewrite Ha.
Qed.

Lemma coin_neg a : coin a -> asset_neg a = Asset (- amount a) CORE_SYMBOL.
Proof. intros [Ha ?]. unfold asset_neg. rewrite Ha, wrapS_small by (arange; lia). done. Qed.

Lemma coin_mk n : in_range n -> coin (Asset n CORE_SYMBOL).
Proof. by split. Qed.

(** A proportional part. *)
Lemma coin_mul_div a n d x y :
  coin a -> is_s 64 n -> is_s 64 d -> asset_mul a n = Ok x -> asset_div x d = Ok y -> 
  y = Asset (Z.quot (amount a * n) d) CORE_SYMBOL /\ d <> 0 /\ coin y.
Proof.
  intros [Hs Ha] Hn Hd H1 H2. apply asset_mul_ok in H1 as [Hr ->]; [|arange; lia|done].
  unfold asset_div in H2. cbn [amount symbol] in H2. rinv. rewrite Hs.
  split; [done|]. split; [done|]. split; [done|]. cbn [amount].
  pose proof (Z.quot_abs (amount a * n) d ltac:(done)) as Habs.
  assert (Z.abs (Z.quot (amount a * n) d) <= Z.abs (amount a * n)).
  { rewrite <- Habs. apply Z.quot_le_upper_bound; [lia|]. nia. }
  arange. lia.
Qed.

Lemma asset_cmp_ok f a b r :
  asset_cmp f a b = Ok r <-> symbol a = symbol b /\ r = f (amount a) (amount b).
Proof.
  unfold asset_cmp. destruct (Z.eqb_spec (symbol a) (symbol b)); simpl; split.
  - intros; simplify_eq. done.
  - by intros [_ ->].
  - done.
  - by intros [? _].
Qed.

(** Checked addition, subtraction and multiplication of assets return the exact
    result when the symbols agree and it is in range, and fail in all other cases. *)
Theorem asset_arith_exact (r a : asset) (n : Z) (x : asset)
  (Hr : is_amount_within_range r = true) (Ha : is_s 64 (amount a)) (Hn : is_s 64 n) :
  (asset_add r a = Ok x <->
     symbol a = symbol r /\ in_range (amount r + amount a) /\
     x = Asset (amount r + amount a) (symbol r)) /\
  (asset_sub r a = Ok x <->
     symbol a = symbol r /\ in_range (amount r - amount a) /\
     x = Asset (amount r - amount a) (symbol r)) /\
  (asset_mul r n = Ok x <->
     in_range (amount r * n) /\ x = Asset (amount r * n) (symbol r)).
Proof.
  apply within_range_iff in Hr.
  split; [by apply asset_add_ok|split; [by apply asset_sub_ok|]].
  apply asset_mul_ok; [arange; lia|done].
Qed.

Lemma symbol_validity_agree_witness :
  Sym.is_valid_symbol CORE_SYMBOL && (Sym.precision CORE_SYMBOL <=? Sym.Host.max_precision) =
  Sym.Host.valid CORE_SYMBOL && negb (Sym.name CORE_SYMBOL =? 0).
Proof. apply symbol_validity_agree. split; vm_compute; congruence. Defined.

Lemma asset_arith_exact_witness :
  asset_add (Asset 5 CORE_SYMBOL) (Asset 7 CORE_SYMBOL) = Ok (Asset 12 CORE_SYMBOL).
Proof.
  apply (asset_arith_exact (Asset 5 CORE_SYMBOL) (Asset 7 CORE_SYMBOL) 0 (Asset 12 CORE_SYMBOL));
    [reflexivity|split; vm_compute; congruence|split; vm_compute; congruence|].
  split; [reflexivity|]. split; [split; vm_compute; congruence|reflexivity].
Defined.
