(* ===== verification/Runtime.v ===== *)
(** * The contract runtime.

    What a contract action sees of the host: the authorizations of its action,
    the accounts that exist, the block number and the time
    ([libraries/chain/apply_context.cpp]), its tables
    ([contracts/eosiolib/multi_index.hpp]), the accounts it notifies and the inline
    actions it sends.  Actions are programs of a state-and-error monad over the
    contract's tables.  RAM billing and the payer arguments of the table calls are
    the host's accounting and not part of a contract's state. *)
From stdpp Require Import base gmap list strings.
From Stdlib Require Import ZArith Lia.
From S2P Require Import Prelude Name Asset.

Open Scope Z_scope.

(** ** Actions. *)

Abbreviation permission_level := (Z * Z)%type (only parsing).

(** An action and a block of another chain, as [contracts/force.relay] packs them. *)
Record relay_action := RelayAction {
  ra_account : Z;
  ra_name : Z;
  ra_authorization : list permission_level;
  ra_data : list Z;   (* bytes *)
}.

Record block_type := BlockType {
  b_producer : Z;
  b_num : Z;
  b_id : list Z;      (* the checksums by their bytes *)
  b_previous : list Z;
  b_confirmed : Z;
  b_transaction_mroot : list Z;
  b_action_mroot : list Z;
}.

#[global] Instance relay_action_eq_dec : EqDecision relay_action.
Proof. solve_decision. Defined.
#[global] Instance block_type_eq_dec : EqDecision block_type.
Proof. solve_decision. Defined.

(** The name and the packed arguments of an action, by the action they unpack to. *)
Inductive action_data : Type :=
| create_args (issuer : Z) (maximum_supply : asset)
| token_fee_args (payer : Z) (quantity : asset)
| trade_args (from to : Z) (quantity : asset) (type : Z) (memo : string)
| takecoin_args (to : Z)
| opencast_args (to : Z)
| closecast_args (to finish_block : Z)
| freeze_args (voter : Z) (stake : asset)
| unfreeze_args (voter : Z)
| vote_args (voter bpname : Z) (stake : asset)
| voteproducer_args (voter_name : Z) (producers : list Z)
| vote4ram_args (voter bpname : Z) (stake : asset)
| voteage_fee_args (payer bpname voteage : Z)
| claimvote_args (bpname receiver : Z)
| delegatebw_args (from receiver : Z) (net cpu : asset) (transfer : bool)
| undelegatebw_args (from receiver : Z) (net cpu : asset)
| refund_args (owner : Z)
| newaccount_args (creator name : Z)
| transfer_args (from to : Z) (quantity : asset) (memo : string)
| issue_args (to : Z) (quantity : asset) (memo : string)
| castcoin_args (from to : Z) (quantity : asset)
| bridge_addmortgage_args (trade_name trade_maker recharge_account coin_chain : Z)
    (quantity : asset) (type : Z)
| bridge_exchange_args (trade_name trade_maker account_covert account_recv coin_chain : Z)
    (quantity : asset) (type : Z)
| settlemine_args (system_account : Z)
| activemine_args (system_account : Z)
| relay_rewardmine_args (quantity : asset)
| system_rewardmine_args (reward_num : Z)
| relay_issue_args (chain to : Z) (quantity : asset) (memo : string)
| relay_transfer_args (from to chain : Z) (quantity : asset) (memo : string)
| relay_on_args (chain : Z) (block_id : list Z) (act : relay_action)
| relay_onblock_args (chain : Z) (block : block_type) (actions : list relay_action)
| match_args (pair_id payer receiver chain : Z) (quantity price : asset) (bid_or_ask exc_acc : Z) (referer : string)
    (fee_type : Z)
| morder_args (id : string) (payer to chain : Z) (totalQty : asset) (type receiver : Z) (price : asset)
    (pair_id direction taker_exc_acc : Z) (referer : string) (feeType : Z) (matchedQty : asset) (timestamp status : Z)
| done_args (id : string) (taker_exc_acc maker_exc_acc quote_chain : Z) (price : asset) (base_chain : Z)
    (quantity : asset) (pair_id : Z) (buy_order_id : string) (buy_fee : asset) (sell_order_id : string)
    (sell_fee : asset) (bid_or_ask timestamp : Z)
| close2_args (pair_id exc_acc : Z).

Record action := Action {
  act_account : Z;
  act_name : Z;
  act_authorization : list permission_level;
  act_data : action_data;
}.

#[global] Instance action_data_eq_dec : EqDecision action_data.
Proof. solve_decision. Defined.
#[global] Instance action_eq_dec : EqDecision action.
Proof. solve_decision. Defined.

(** [N(active)]. *)
Definition active : Z := Eval vm_compute in N_ "active".

(** [namespace config] of [contract_config.hpp.in], with the default
    [ROOT_ACCOUNT], "force". *)
Module config.
Definition system_account_name : Z := Eval vm_compute in N_ "force".
Definition token_account_name : Z := Eval vm_compute in N_ "force.token".
Definition fee_account_name : Z := Eval vm_compute in N_ "force.fee".
Definition reward_account_name : Z := Eval vm_compute in N_ "force.reward".
Definition match_account_name : Z := Eval vm_compute in N_ "force.match".
Definition bridge_account_name : Z := Eval vm_compute in N_ "force.bridge".
Definition relay_token_account_name : Z := Eval vm_compute in N_ "relay.token".
End config.

(** ** The environment and the monad. *)

Record env := Env {
  self : Z;                               (* [_self], the receiver *)
  authorization : list permission_level;  (* of the action being applied *)
  existing : gset Z;                      (* the accounts of the chain *)
  current_block_num : Z;
  now : Z;                                (* seconds *)
}.

Record st (S : Type) := St {
  db : S;
  notified : list Z;
  inline_actions : list action;
}.
Arguments St {S} db notified inline_actions.
Arguments db {S} s.
Arguments notified {S} s.
Arguments inline_actions {S} s.

Definition M (S A : Type) : Type := env -> st S -> result (A * st S).

#[global] Instance M_ret {S} : MRet (M S) := fun A a e s => Ok (a, s).
#[global] Instance M_bind {S} : MBind (M S) :=
  fun A B f m e s => rbind (m e s) (fun '(a, s') => f a e s').

(** [eosio_assert]. *)
Definition eosio_assert {S} (b : bool) (msg : string) : M S unit :=
  fun e s => if b then Ok (tt, s) else Err msg.
Arguments eosio_assert {S} b msg%_string.

Definition lift {S A} (r : result A) : M S A :=
  fun e s => rbind r (fun a => Ok (a, s)).

Definition ask {S} : M S env := fun e s => Ok (e, s).

(** [apply_context::has_authorization]. *)
Definition has_authorization (auths : list permission_level) (account : Z) : bool :=
  existsb (fun auth => fst auth =? account) auths.

(** [apply_context::require_authorization]. *)
Definition require_auth {S} (account : Z) : M S unit :=
  fun e s => if has_authorization (authorization e) account then Ok (tt, s)
             else Err "missing authority".

(** [apply_context::is_account]. *)
Definition is_account {S} (account : Z) : M S bool :=
  fun e s => Ok (bool_decide (account ∈ existing e), s).

(** [apply_context::has_recipient] and [require_recipient]. *)
Definition has_recipient (notified : list Z) (code : Z) : bool :=
  existsb (fun a => a =? code) notified.

Definition require_recipient {S} (recipient : Z) : M S unit :=
  fun e s =>
    if has_recipient (notified s) recipient then Ok (tt, s)
    else Ok (tt, St (db s) (notified s ++ [recipient]) (inline_actions s)).

(** [action::send]: queues an inline action. *)
Definition send {S} (act : action) : M S unit :=
  fun e s => Ok (tt, St (db s) (notified s) (inline_actions s ++ [act])).

(** ** Tables.

    A table of the contract's state: how to read and how to replace its rows,
    which are keyed by the primary key, or by scope and primary key where the
    source opens the table at several scopes. *)
Record view (S R : Type) := View {
  vget : S -> R;
  vset : R -> S -> S;
}.
Arguments View {S R} vget vset.
Arguments vget {S R} v s.
Arguments vset {S R} v r s.

Section tables.
Context {S K V : Type} `{Countable K}.

(** All rows, for the traversals. *)
Definition all_rows (t : view S (gmap K V)) : M S (gmap K V) :=
  fun e s => Ok (vget t (db s), s).

Definition put_rows (t : view S (gmap K V)) (m : gmap K V) : M S unit :=
  fun e s => Ok (tt, St (vset t m (db s)) (notified s) (inline_actions s)).

(** [multi_index::find]; [None] is [end()]. *)
Definition find (t : view S (gmap K V)) (k : K) : M S (option V) :=
  fun e s => Ok (vget t (db s) !! k, s).

(** [multi_index::get]. *)
Definition get (t : view S (gmap K V)) (k : K) (msg : string) : M S V :=
  fun e s => rbind (of_option (vget t (db s) !! k) msg) (fun v => Ok (v, s)).

(** [multi_index::emplace]: the host's primary index refuses a second row. *)
Definition emplace (t : view S (gmap K V)) (k : K) (v : V) : M S unit :=
  fun e s =>
    match vget t (db s) !! k with
    | Some _ => Err "could not insert object, most likely a uniqueness constraint was violated"
    | None => put_rows t (<[k := v]> (vget t (db s))) e s
    end.

(** [multi_index::modify] with the row the updater leaves. *)
Definition modify (t : view S (gmap K V)) (k : K) (v : V) : M S unit :=
  fun e s =>
    match vget t (db s) !! k with
    | Some _ => put_rows t (<[k := v]> (vget t (db s))) e s
    | None => Err "cannot pass end iterator to modify"
    end.

(** [multi_index::erase]. *)
Definition erase (t : view S (gmap K V)) (k : K) : M S unit :=
  fun e s =>
    match vget t (db s) !! k with
    | Some _ => put_rows t (delete k (vget t (db s))) e s
    | None => Err "cannot pass end iterator to erase"
    end.
End tables.
Arguments get {S K V _ _} t k msg%_string.

(** [multi_index::available_primary_key]. *)
Definition available_primary_key {V} (rows : gmap Z V) : result Z :=
  let pk := match last (sorted_keys rows) with
            | None => 0
            | Some k => if 2 ^ 64 - 2 <=? k then 2 ^ 64 - 2 else k + 1
            end in
  (check* (pk <? 2 ^ 64 - 2) with "next primary key in table is at autoincrement limit" in Ok pk)%res.

(** Loops over a list with an effect. *)
Fixpoint mfor {S A B} (f : A -> B -> M S A) (a : A) (l : list B) : M S A :=
  match l with
  | [] => mret a
  | x :: l => a' ← f a x; mfor f a' l
  end.

(** ** Inversion of a successful run. *)
Section inversion.
Context {S : Type}.
Implicit Types (e : env) (s : st S).

Lemma mbind_ok {A B} (m : M S A) (f : A -> M S B) e s r :
  (mbind f m) e s = Ok r <-> exists a s1, m e s = Ok (a, s1) /\ f a e s1 = Ok r.
Proof.
  unfold mbind, M_bind. rewrite rbind_ok. split.
  - intros ([a s1] & ? & ?). eauto.
  - intros (a & s1 & ? & ?). by exists (a, s1).
Qed.

Lemma mret_ok {A} (a : A) e s r : (mret a : M S A) e s = Ok r <-> r = (a, s).
Proof. unfold mret, M_ret. split; by intros; simplify_eq. Qed.

Lemma assert_ok b msg e s r : eosio_assert b msg e s = Ok r <-> b = true /\ r = (tt, s).
Proof. unfold eosio_assert. destruct b; split; intros; destruct_and?; by simplify_eq. Qed.

Lemma lift_ok {A} (ra : result A) e s r :
  lift ra e s = Ok r <-> exists a, ra = Ok a /\ r = (a, s).
Proof. unfold lift. rewrite rbind_ok. split; intros (a & ? & ?); exists a; split; congruence. Qed.

Lemma ask_ok e s r : ask e s = Ok r <-> r = (e, s).
Proof. unfold ask. split; by intros; simplify_eq. Qed.

Lemma require_auth_ok a e s r :
  require_auth a e s = Ok r <-> has_authorization (authorization e) a = true /\ r = (tt, s).
Proof.
  unfold require_auth. destruct (has_authorization _ _); split; intros; destruct_and?;
    by simplify_eq.
Qed.

Lemma is_account_ok a e s r :
  is_account a e s = Ok r <-> r = (bool_decide (a ∈ existing e), s).
Proof. unfold is_account. split; by intros; simplify_eq. Qed.

Lemma require_recipient_ok a e s r :
  require_recipient a e s = Ok r ->
  exists l, r = (tt, St (db s) l (inline_actions s)).
Proof.
  unfold require_recipient. destruct (has_recipient _ _); intros; simplify_eq; [|eauto].
  exists (notified s). by destruct s.
Qed.

Lemma send_ok act e s r :
  send act e s = Ok r <-> r = (tt, St (db s) (notified s) (inline_actions s ++ [act])).
Proof. unfold send. split; by intros; simplify_eq. Qed.

Lemma mfor_app {A B} (f : A -> B -> M S A) a l1 l2 e s r :
  mfor f a (l1 ++ l2) e s = Ok r <->
  exists a' s', mfor f a l1 e s = Ok (a', s') /\ mfor f a' l2 e s' = Ok r.
Proof.
  revert a s. induction l1 as [|x l1 IH]; intros a s; cbn [mfor app].
  - split.
    + intros H. exists a, s. by rewrite mret_ok.
    + intros (a' & s' & H & ?). apply mret_ok in H. by simplify_eq.
  - rewrite mbind_ok. setoid_rewrite mbind_ok. setoid_rewrite IH. split.
    + intros (a1 & s1 & ? & a2 & s2 & ? & ?). eauto 8.
    + intros (a2 & s2 & (a1 & s1 & ? & ?) & ?). eauto 8.
Qed.

(** An invariant of every step is an invariant of the loop. *)
Lemma mfor_inv {A B} (P : A -> st S -> Prop) (f : A -> B -> M S A) e l :
  (forall a x s1 r, x ∈ l -> P a s1 -> f a x e s1 = Ok r -> P (fst r) (snd r)) ->
  forall a s1 r, P a s1 -> mfor f a l e s1 = Ok r -> P (fst r) (snd r).
Proof.
  induction l as [|x l IH]; intros Hstep a s1 r HP Hf; cbn [mfor] in Hf.
  - apply mret_ok in Hf as ->. done.
  - apply mbind_ok in Hf as (a' & s2 & H1 & H2). eapply IH; [|clear H2|exact H2].
    + intros a0 y s3 r0 Hy. apply Hstep. by right.
    + apply (Hstep a x s1 (a', s2)); [left|done|done].
Qed.

Context {K V : Type} `{Countable K}.

Lemma all_rows_ok (t : view S (gmap K V)) e s r :
  all_rows t e s = Ok r <-> r = (vget t (db s), s).
Proof. unfold all_rows. split; by intros; simplify_eq. Qed.

Lemma put_rows_ok (t : view S (gmap K V)) m e s r :
  put_rows t m e s = Ok r <-> r = (tt, St (vset t m (db s)) (notified s) (inline_actions s)).
Proof. unfold put_rows. split; by intros; simplify_eq. Qed.

Lemma find_ok (t : view S (gmap K V)) k e s r :
  find t k e s = Ok r <-> r = (vget t (db s) !! k, s).
Proof. unfold find. split; by intros; simplify_eq. Qed.

Lemma get_ok (t : view S (gmap K V)) k msg e s r :
  get t k msg e s = Ok r <-> exists v, vget t (db s) !! k = Some v /\ r = (v, s).
Proof.
  unfold get. rewrite rbind_ok. setoid_rewrite of_option_ok.
  split; intros (v & ? & ?); exists v; split; congruence.
Qed.

Lemma emplace_ok (t : view S (gmap K V)) k v e s r :
  emplace t k v e s = Ok r <->
  vget t (db s) !! k = None /\
  r = (tt, St (vset t (<[k := v]> (vget t (db s))) (db s)) (notified s) (inline_actions s)).
Proof.
  unfold emplace, put_rows. destruct (_ !! k); split; intros; destruct_and?; by simplify_eq.
Qed.

Lemma modify_ok (t : view S (gmap K V)) k v e s r :
  modify t k v e s = Ok r <->
  is_Some (vget t (db s) !! k) /\
  r = (tt, St (vset t (<[k := v]> (vget t (db s))) (db s)) (notified s) (inline_actions s)).
Proof.
  unfold modify, put_rows, is_Some. destruct (_ !! k) as [w|]; split.
  - intros; simplify_eq. eauto.
  - by intros [_ ->].
  - done.
  - by intros [[w ?] _].
Qed.

Lemma erase_ok (t : view S (gmap K V)) k e s r :
  erase t k e s = Ok r <->
  is_Some (vget t (db s) !! k) /\
  r = (tt, St (vset t (delete k (vget t (db s))) (db s)) (notified s) (inline_actions s)).
Proof.
  unfold erase, put_rows, is_Some. destruct (_ !! k) as [w|]; split.
  - intros; simplify_eq. eauto.
  - by intros [_ ->].
  - done.
  - by intros [[w ?] _].
Qed.
End inversion.

(** Splits a successful run of an action into the runs of its calls, and each call
    of the runtime into what it requires and does. *)
Ltac minv_step :=
  match goal with
  | H : mbind _ _ _ _ = Ok _ |- _ =>
      let a := fresh "a" in let s := fresh "s" in
      let H1 := fresh "H" in let H2 := fresh "H" in
      apply mbind_ok in H as (a & s & H1 & H2)
  | H : mret _ _ _ = Ok _ |- _ => apply mret_ok in H
  | H : eosio_assert _ _ _ _ = Ok _ |- _ => apply assert_ok in H as [? H]
  | H : lift _ _ _ = Ok _ |- _ => apply lift_ok in H as (? & ? & H)
  | H : ask _ _ = Ok _ |- _ => apply ask_ok in H
  | H : require_auth _ _ _ = Ok _ |- _ => apply require_auth_ok in H as [? H]
  | H : is_account _ _ _ = Ok _ |- _ => apply is_account_ok in H
  | H : require_recipient _ _ _ = Ok _ |- _ => apply require_recipient_ok in H as [? H]
  | H : send _ _ _ = Ok _ |- _ => apply send_ok in H
  | H : all_rows _ _ _ = Ok _ |- _ => apply all_rows_ok in H
  | H : put_rows _ _ _ _ = Ok _ |- _ => apply put_rows_ok in H
  | H : find _ _ _ _ = Ok _ |- _ => apply find_ok in H
  | H : get _ _ _ _ _ = Ok _ |- _ => apply get_ok in H as (? & ? & H)
  | H : emplace _ _ _ _ _ = Ok _ |- _ => apply emplace_ok in H as [? H]
  | H : modify _ _ _ _ _ = Ok _ |- _ => apply modify_ok in H as [? H]
  | H : erase _ _ _ _ = Ok _ |- _ => apply erase_ok in H as [? H]
  | H : (_, _) = (_, _) |- _ => injection H as H; try subst
  | H : (_, _) = (_, _) -> _ |- _ => fail 1
  | H : Err _ = Ok _ |- _ => discriminate H
  | H : ?r = (_, _) |- _ => is_var r; subst r
  | H : ?x = Asset _ _ |- _ => is_var x; subst x
  end.
Ltac minv :=
  repeat ((minv_step || rinv_step);
          cbn [fst snd db notified inline_actions vget vset] in * ).

(** Case analysis on the test of a branch the run went through. *)
Ltac mcase :=
  match goal with
  | H : (if ?b then _ else _) _ _ = Ok _ |- _ => destruct b eqn:?
  | H : (match ?o with Some _ => _ | None => _ end) _ _ = Ok _ |- _ => destruct o eqn:?
  end; minv.

(** ** What a run notifies and sends.

    [emits P e m]: a successful run of [m] only appends to the notified accounts,
    without repeating one, and to the inline actions, each of which satisfies [P].
    The rules follow the structure of the code; [emit] applies them. *)
Section emits.
Context {S : Type} (P : action -> Prop) (e : env).

Definition emits {A} (m : M S A) : Prop :=
  forall s a s', m e s = Ok (a, s') ->
    (exists l, notified s' = notified s ++ l) /\
    (NoDup (notified s) -> NoDup (notified s')) /\
    exists l, inline_actions s' = inline_actions s ++ l /\ Forall P l.

Lemma emits_silent {A} (m : M S A) :
  (forall s a s', m e s = Ok (a, s') ->
     notified s' = notified s /\ inline_actions s' = inline_actions s) -> emits m.
Proof.
  intros Hm s a s' H. destruct (Hm _ _ _ H) as [-> ->].
  split; [exists []; by rewrite app_nil_r|]. split; [done|].
  exists []. by rewrite app_nil_r.
Qed.

Lemma emits_bind {A B} (m : M S A) (f : A -> M S B) :
  emits m -> (forall a, emits (f a)) -> emits (mbind f m).
Proof.
  intros Hm Hf s b s' H. apply mbind_ok in H as (a & s1 & H1 & H2).
  destruct (Hm _ _ _ H1) as ([l1 E1] & N1 & i1 & I1 & P1).
  destruct (Hf _ _ _ _ H2) as ([l2 E2] & N2 & i2 & I2 & P2).
  split; [exists (l1 ++ l2); by rewrite E2, E1, app_assoc|]. split; [auto|].
  exists (i1 ++ i2). split; [by rewrite I2, I1, app_assoc|by apply Forall_app].
Qed.

(** The environment that [ask] yields is the one of the run. *)
Lemma emits_ask {B} (f : env -> M S B) : emits (f e) -> emits (mbind f ask).
Proof.
  intros Hf s b s' H. apply mbind_ok in H as (a & s1 & H1 & H2).
  apply ask_ok in H1. simplify_eq. exact (Hf _ _ _ H2).
Qed.

Lemma emits_recipient a : emits (require_recipient a).
Proof.
  intros s u s' H. unfold require_recipient in H.
  destruct (has_recipient _ _) eqn:Hr; simplify_eq/=.
  - split; [exists []; by rewrite app_nil_r|]. split; [done|].
    exists []. by rewrite app_nil_r.
  - split; [by eexists|]. split; [|exists []; by rewrite app_nil_r].
    intros Hnd. apply NoDup_app. split; [done|]. split; [|apply NoDup_singleton].
    intros x Hx ->%list_elem_of_singleton. apply not_true_iff_false in Hr. apply Hr.
    unfold has_recipient. apply existsb_exists. exists a.
    split; [by apply list_elem_of_In|apply Z.eqb_refl].
Qed.

Lemma emits_send act : P act -> emits (send act).
Proof.
  intros HP s u s' H. apply send_ok in H. simplify_eq/=.
  split; [exists []; by rewrite app_nil_r|]. split; [done|].
  exists [act]. split; [done|by constructor].
Qed.

Lemma emits_for {A B} (f : A -> B -> M S A) l :
  (forall a x, emits (f a x)) -> forall a, emits (mfor f a l).
Proof.
  intros Hf. induction l as [|x l IH]; intros a; cbn [mfor].
  - apply emits_silent. intros s a' s' H. apply mret_ok in H. by simplify_eq.
  - by apply emits_bind.
Qed.
End emits.
Arguments emits {S} P e {A} m.

Ltac emit_step :=
  match goal with
  | |- emits _ _ (mbind _ ask) => apply emits_ask
  | |- emits _ _ (mbind _ _) => apply emits_bind; [|intros ?]
  | |- emits _ _ (require_recipient _) => apply emits_recipient
  | |- emits _ _ (send _) => apply emits_send
  | |- emits _ _ (mfor _ _ _) => apply emits_for; intros ? ?
  | |- emits _ _ (if ?b then _ else _) => destruct b
  | |- emits _ _ (match ?o with Some _ => _ | None => _ end) => destruct o
  | |- emits _ _ (match ?p with pair _ _ => _ end) => destruct p
  | |- emits _ _ _ => apply emits_silent; intros ? ? ? ?; minv; done
  end.
Ltac emit := repeat (cbv zeta; emit_step).
