(* ===== verification/Token.v ===== *)
(** * The token contract, [contracts/force.token].

    The tables [accounts], [stat] and [coincast], one definition per action and
    helper of [force.token.cpp], and the dispatch of its [EOSIO_ABI].  The compile
    time switches are those of the build: [BEFORE_ONLINE_TEST] is defined. *)
From stdpp Require Import base gmap list.
From Stdlib Require Import ZArith Lia Ascii String.
From stdpp Require Import strings.
From S2P Require Import Prelude Name Asset Runtime.

Open Scope Z_scope.

Module Token.

(** ** State. *)

Record currency_stats := CurrencyStats {
  supply : asset;
  max_supply : asset;
  issuer : Z;
}.

Record coin_cast := CoinCast {
  cast_balance : asset;
  finish_block : Z;
}.

(** [accounts] by (owner, symbol name), [stat] by symbol name (scope and key
    coincide), [coincast] by (receiver, finish block). *)
Record state := State {
  accounts : gmap (Z * Z) asset;
  stats : gmap Z currency_stats;
  coincasts : gmap (Z * Z) coin_cast;
}.

Abbreviation accounts_t :=
  (View accounts (fun m s => State m (stats s) (coincasts s))) (only parsing).
Abbreviation stats_t :=
  (View stats (fun m s => State (accounts s) m (coincasts s))) (only parsing).
Abbreviation coincasts_t :=
  (View coincasts (fun m s => State (accounts s) (stats s) m)) (only parsing).

Definition PRE_CAST_NUM : Z := 28800.
Definition STABLE_CAST_NUM : Z := 7200.

(** [current_block / WEAKEN_CAST_NUM] with [WEAKEN_CAST_NUM = 2.5] is a [double]
    division truncated to an [int32_t]: the quotient of a 32-bit integer by 5/2 has
    fractional part at most 4/5, so rounding never reaches the next integer. *)
Definition cast_finish_block (current_block : Z) : Z :=
  let cast_num := i32 (u32 (PRE_CAST_NUM - i32 (2 * current_block / 5))) in
  let cast_num := if cast_num <? STABLE_CAST_NUM then STABLE_CAST_NUM else cast_num in
  u32 (current_block + cast_num).

(** ** Helpers. *)

Definition sub_balance (owner : Z) (value : asset) : M state unit :=
  let k := (owner, Sym.name (symbol value)) in
  from ← get accounts_t k "no balance object found";
  eosio_assert (amount value <=? amount from) "overdrawn balance";;
  if amount from =? amount value then erase accounts_t k
  else b ← lift (asset_sub from value); modify accounts_t k b.

Definition add_balance (owner : Z) (value : asset) : M state unit :=
  let k := (owner, Sym.name (symbol value)) in
  to ← find accounts_t k;
  match to with
  | None => emplace accounts_t k value
  | Some b => b' ← lift (asset_add b value); modify accounts_t k b'
  end.

(** ** Actions. *)

Definition create (issuer : Z) (maximum_supply : asset) : M state unit :=
  require_auth issuer;;
  let sym := symbol maximum_supply in
  eosio_assert (Sym.is_valid_symbol sym) "invalid symbol name";;
  eosio_assert (is_valid maximum_supply) "invalid supply";;
  eosio_assert (0 <? amount maximum_supply) "max-supply must be positive";;
  eosio_assert (negb (sym =? CORE_SYMBOL)) "not allow create core symbol token by token contract";;
  existing ← find stats_t (Sym.name sym);
  eosio_assert (bool_decide (existing = None)) "token with symbol already exists";;
  emplace stats_t (Sym.name sym) (CurrencyStats (Asset 0 sym) maximum_supply issuer).

Definition issue (to : Z) (quantity : asset) (memo : string) : M state unit :=
  let sym := symbol quantity in
  eosio_assert (Sym.is_valid_symbol sym) "invalid symbol name";;
  eosio_assert (Z.of_nat (String.length memo) <=? 256) "memo has more than 256 bytes";;
  let sym_name := Sym.name sym in
  existing ← find stats_t sym_name;
  st ← lift (of_option existing "token with symbol does not exist, create token before issue");
  require_auth (issuer st);;
  eosio_assert (is_valid quantity) "invalid quantity";;
  eosio_assert (0 <? amount quantity) "must issue positive quantity";;
  eosio_assert (symbol quantity =? symbol (supply st)) "symbol precision mismatch";;
  eosio_assert (amount quantity <=? i64 (amount (max_supply st) - amount (supply st)))
    "quantity exceeds available supply";;
  supply' ← lift (asset_add (supply st) quantity);
  modify stats_t sym_name (CurrencyStats supply' (max_supply st) (issuer st));;
  add_balance (issuer st) quantity;;
  if negb (to =? issuer st) then
    e ← ask;
    send (Action (self e) (N_ "transfer") [(issuer st, active)]
            (transfer_args (issuer st) to quantity memo))
  else mret tt.

Definition transfer (from to : Z) (quantity : asset) (memo : string) : M state unit :=
  eosio_assert (negb (from =? to)) "cannot transfer to self";;
  require_auth from;;
  exists_to ← is_account to;
  eosio_assert exists_to "to account does not exist";;
  let sym := Sym.name (symbol quantity) in
  st ← get stats_t sym "unable to find key";
  require_recipient from;;
  require_recipient to;;
  eosio_assert (is_valid quantity) "invalid quantity";;
  eosio_assert (0 <? amount quantity) "must transfer positive quantity";;
  eosio_assert (symbol quantity =? symbol (supply st)) "symbol precision mismatch";;
  eosio_assert (Z.of_nat (String.length memo) <=? 256) "memo has more than 256 bytes";;
  sub_balance from quantity;;
  add_balance to quantity.

Definition castcoin (from to : Z) (quantity : asset) : M state unit :=
  eosio_assert (from =? config.reward_account_name)
    "only the account reward can cast coin to others";;
  require_auth from;;
  exists_to ← is_account to;
  eosio_assert exists_to "to account does not exist";;
  e ← ask;
  let finish := cast_finish_block (current_block_num e) in
  cc ← find coincasts_t (to, finish);
  require_recipient from;;
  require_recipient to;;
  eosio_assert (is_valid quantity) "invalid quantity";;
  eosio_assert (0 <? amount quantity) "must transfer positive quantity";;
  cc ← lift (of_option cc "the cast is not opened");
  eosio_assert (symbol quantity =? symbol (cast_balance cc)) "symbol precision mismatch";;
  sub_balance from quantity;;
  b ← lift (asset_add (cast_balance cc) quantity);
  modify coincasts_t (to, finish) (CoinCast b (finish_block cc)).

(** The loop of [takecoin]: collects the finish blocks that have passed and the sum
    of their balances. *)
Definition takecoin_collect (to current_block : Z) (acc : list Z * asset) (k : Z)
  : M state (list Z * asset) :=
  let '(finish_blocks, finish_coin) := acc in
  it ← find coincasts_t (to, k);
  match it with
  | Some cc =>
      if finish_block cc <? current_block then
        coin ← lift (asset_add finish_coin (cast_balance cc));
        mret (finish_blocks ++ [finish_block cc], coin)
      else mret acc
  | None => mret acc
  end.

Definition takecoin_erase (to : Z) (_ : unit) (val : Z) : M state unit :=
  cc ← find coincasts_t (to, val);
  match cc with
  | Some _ => erase coincasts_t (to, val)
  | None => mret tt
  end.

Definition takecoin (to : Z) : M state unit :=
  require_auth to;;
  e ← ask;
  m ← all_rows coincasts_t;
  zero ← lift (core_asset 0);
  acc ← mfor (takecoin_collect to (current_block_num e)) ([], zero) (scope_keys m to);
  add_balance to (snd acc);;
  mfor (takecoin_erase to) tt (fst acc).

Definition opencast (to : Z) : M state unit :=
  require_auth to;;
  exists_to ← is_account to;
  eosio_assert exists_to "to account does not exist";;
  e ← ask;
  let finish := cast_finish_block (current_block_num e) in
  cc ← find coincasts_t (to, finish);
  eosio_assert (bool_decide (cc = None)) "the cast is been opened";;
  zero ← lift (core_asset 0);
  emplace coincasts_t (to, finish) (CoinCast zero finish).

Definition closecast (to finish_block : Z) : M state unit :=
  require_auth to;;
  exists_to ← is_account to;
  eosio_assert exists_to "to account does not exist";;
  cc ← find coincasts_t (to, u64 finish_block);
  cc ← lift (of_option cc "the cast is not exist");
  zero ← lift (core_asset 0);
  empty ← lift (asset_eq (cast_balance cc) zero);
  eosio_assert empty "the cast can not be closed";;
  erase coincasts_t (to, u64 finish_block).

Definition fee (payer : Z) (quantity : asset) : M state unit :=
  require_auth payer;;
  let sym := Sym.name (symbol quantity) in
  st ← get stats_t sym "unable to find key";
  eosio_assert (is_valid quantity) "invalid quantity";;
  eosio_assert (0 <? amount quantity) "must transfer positive quantity";;
  eosio_assert (symbol quantity =? symbol (supply st)) "symbol precision mismatch";;
  sub_balance payer quantity;;
  add_balance config.fee_account_name quantity.

(** ** [trade] and its memo formats. *)

(** [c_str]: a C string ends at the first NUL. *)
Fixpoint c_str (s : cstring) : cstring :=
  match s with
  | [] => []
  | c :: s => if code c =? 0 then [] else c :: c_str s
  end.

(** [splitMemo]; [start] holds the characters since the last separator. *)
Fixpoint splitMemo_from (start : cstring) (memo : cstring) (separator : ascii) : list cstring :=
  match memo with
  | [] => match start with [] => [] | _ => [start] end
  | c :: memo =>
      if ascii_dec c separator then start :: splitMemo_from [] memo separator
      else splitMemo_from (start ++ [c]) memo separator
  end.

Definition splitMemo (memo : cstring) (separator : ascii) : list cstring :=
  splitMemo_from [] memo separator.

(** [atoi] of the C library: blanks, a sign, digits, in a 32-bit [int]. *)
Definition is_space (c : ascii) : bool :=
  (code c =? 32) || ((9 <=? code c) && (code c <=? 13)).
Fixpoint skip_space (s : cstring) : cstring :=
  match s with
  | c :: s' => if is_space c then skip_space s' else s
  | [] => []
  end.
Fixpoint atoi_digits (s : cstring) (n : Z) : Z :=
  match s with
  | c :: s =>
      if (code "0" <=? code c) && (code c <=? code "9")
      then atoi_digits s (i32 (i32 (10 * n) - (code c - code "0"))) else n
  | [] => n
  end.
Definition atoi (s : cstring) : Z :=
  match skip_space (c_str s) with
  | "-"%char :: s => atoi_digits s 0
  | "+"%char :: s => i32 (- atoi_digits s 0)
  | s => i32 (- atoi_digits s 0)
  end.

Record sys_bridge_addmort := SysBridgeAddmort {
  am_trade_name : Z;
  am_trade_maker : Z;
  am_type : Z;
}.

Definition parse_addmort (memo : string) : result sys_bridge_addmort :=
  match splitMemo (list_ascii_of_string memo) ";" with
  | [p0; p1; p2] =>
      let type := u64 (atoi p2) in
      (check* ((type =? 1) || (type =? 2)) with "type is not adapted with bridge_addmortgage" in
       Ok (SysBridgeAddmort (Lib.string_to_name (c_str p0)) (Lib.string_to_name (c_str p1)) type))%res
  | _ => Err "memo is not adapted with bridge_addmortgage"
  end.

Record sys_bridge_exchange := SysBridgeExchange {
  ex_trade_name : Z;
  ex_trade_maker : Z;
  ex_recv : Z;
  ex_type : Z;
}.

Definition parse_exchange (memo : string) : result sys_bridge_exchange :=
  match splitMemo (list_ascii_of_string memo) ";" with
  | [p0; p1; p2; p3] =>
      let type := u64 (atoi p3) in
      (check* ((type =? 1) || (type =? 2)) with "type is not adapted with bridge_addmortgage" in
       Ok (SysBridgeExchange (Lib.string_to_name (c_str p0)) (Lib.string_to_name (c_str p1))
             (Lib.string_to_name (c_str p2)) type))%res
  | _ => Err "memo is not adapted with bridge_addmortgage"
  end.

(** [enum class func_type]. *)
Definition func_type_match : Z := 1.
Definition func_type_bridge_addmortgage : Z := 2.
Definition func_type_bridge_exchange : Z := 3.

Definition trade (from to : Z) (quantity : asset) (type : Z) (memo : string) : M state unit :=
  if (type =? func_type_bridge_addmortgage) && (to =? config.bridge_account_name) then
    transfer from to quantity memo;;
    bri_add ← lift (parse_addmort memo);
    send (Action config.bridge_account_name (N_ "addmortgage")
            [(config.bridge_account_name, active)]
            (bridge_addmortgage_args (am_trade_name bri_add) (am_trade_maker bri_add)
               from (N_ "self") quantity (am_type bri_add)))
  else if (type =? func_type_bridge_exchange) && (to =? config.bridge_account_name) then
    transfer from to quantity memo;;
    bri ← lift (parse_exchange memo);
    send (Action config.bridge_account_name (N_ "exchange")
            [(config.bridge_account_name, active)]
            (bridge_exchange_args (ex_trade_name bri) (ex_trade_maker bri) from (ex_recv bri)
               (N_ "self") quantity (ex_type bri)))
  else if (type =? func_type_match) && (to =? config.match_account_name) then
    e ← ask;
    send (Action (self e) (N_ "transfer") [(from, active)] (transfer_args from to quantity memo))
  else eosio_assert false "invalid type".

(** ** Dispatch: [EOSIO_ABI( eosio::token, ... )]. *)
Inductive call : Type :=
| Create (issuer : Z) (maximum_supply : asset)
| Issue (to : Z) (quantity : asset) (memo : string)
| Transfer (from to : Z) (quantity : asset) (memo : string)
| Fee (payer : Z) (quantity : asset)
| Trade (from to : Z) (quantity : asset) (type : Z) (memo : string)
| Castcoin (from to : Z) (quantity : asset)
| Takecoin (to : Z)
| Opencast (to : Z)
| Closecast (to finish_block : Z).

Definition apply (c : call) : M state unit :=
  match c with
  | Create i m => create i m
  | Issue t q m => issue t q m
  | Transfer f t q m => transfer f t q m
  | Fee p q => fee p q
  | Trade f t q ty m => trade f t q ty m
  | Castcoin f t q => castcoin f t q
  | Takecoin t => takecoin t
  | Opencast t => opencast t
  | Closecast t b => closecast t b
  end.

(** Unpacking the arguments yields 64-bit amounts and symbols and 32-bit blocks. *)
Definition well_typed (a : asset) : Prop := is_s 64 (amount a) /\ is_u 64 (symbol a).

Definition call_typed (c : call) : Prop :=
  match c with
  | Create _ q | Issue _ q _ | Transfer _ _ q _ | Fee _ q | Trade _ _ q _ _
  | Castcoin _ _ q => well_typed q
  | Takecoin _ | Opencast _ => True
  | Closecast _ b => is_s 32 b
  end.

(** ** The ledger and its invariant. *)

Definition core_name : Z := Eval vm_compute in Sym.name CORE_SYMBOL.

(** Projections only: literals such as [core_name] stay folded. *)
Ltac tsimp :=
  cbn [accounts stats coincasts amount symbol supply max_supply issuer cast_balance
       finish_block db fst snd] in *.

Definition balance (s : state) (o k : Z) : Z :=
  match accounts s !! (o, k) with Some b => amount b | None => 0 end.

(** The balances of one symbol, and the coins locked in casts. *)
Definition of_symbol (k : Z) (ok : Z * Z) (b : asset) : Z := if ok.2 =? k then amount b else 0.
Definition balances_of (s : state) (k : Z) : Z := map_sum (of_symbol k) (accounts s).
Definition casts_total (s : state) : Z :=
  map_sum (fun _ c => amount (cast_balance c)) (coincasts s).
Definition held (s : state) (k : Z) : Z :=
  balances_of s k + (if k =? core_name then casts_total s else 0).

Record rows_ok (s : state) : Prop := {
  ok_core : exists st, stats s !! core_name = Some st /\ symbol (supply st) = CORE_SYMBOL;
  ok_stats : forall k st, stats s !! k = Some st ->
    Sym.name (symbol (supply st)) = k /\ symbol (max_supply st) = symbol (supply st) /\
    0 <= amount (supply st) <= amount (max_supply st) /\ amount (max_supply st) <= max_amount;
  ok_accounts : forall o k b, accounts s !! (o, k) = Some b ->
    0 <= amount b <= max_amount /\
    exists st, stats s !! k = Some st /\ symbol b = symbol (supply st);
  ok_casts : forall o k c, coincasts s !! (o, k) = Some c ->
    0 <= amount (cast_balance c) <= max_amount /\ symbol (cast_balance c) = CORE_SYMBOL /\
    finish_block c = k;
}.

(** Every issued coin is in a balance or in a cast. *)
Definition inv (s : state) : Prop :=
  rows_ok s /\ forall k st, stats s !! k = Some st -> held s k = amount (supply st).

(** ** Debits and credits. *)

Definition debit (acc : gmap (Z * Z) asset) (k : Z * Z) (n : Z) : gmap (Z * Z) asset :=
  match acc !! k with
  | Some b => if amount b =? n then delete k acc
              else <[k := Asset (amount b - n) (symbol b)]> acc
  | None => acc
  end.

Definition credit (acc : gmap (Z * Z) asset) (k : Z * Z) (v : asset) : gmap (Z * Z) asset :=
  match acc !! k with
  | Some b => <[k := Asset (amount b + amount v) (symbol b)]> acc
  | None => <[k := v]> acc
  end.

Definition with_accounts (s : state) (acc : gmap (Z * Z) asset) : state :=
  State acc (stats s) (coincasts s).

Lemma sub_balance_ok owner v e s r :
  rows_ok (db s) -> is_s 64 (amount v) ->
  sub_balance owner v e s = Ok r ->
  let k := (owner, Sym.name (symbol v)) in
  r = (tt, St (with_accounts (db s) (debit (accounts (db s)) k (amount v)))
         (notified s) (inline_actions s)) /\
  amount v <= balance (db s) owner (Sym.name (symbol v)) /\
  is_Some (accounts (db s) !! k).
Proof.
  intros Hok Hv H. unfold sub_balance in H. minv.
  match goal with Hl : accounts _ !! _ = Some ?b |- _ =>
    rename b into b; rename Hl into Hb end.
  unfold debit, balance, with_accounts. rewrite Hb.
  destruct (ok_accounts _ Hok _ _ _ Hb) as [? _].
  mcase; [split; eauto|].
  match goal with Hs : asset_sub _ _ = Ok _ |- _ =>
    apply asset_sub_ok in Hs as (? & ? & ->); [|arange; lia|done] end.
  split; eauto.
Qed.

Lemma add_balance_ok owner v e s r :
  rows_ok (db s) -> is_s 64 (amount v) ->
  add_balance owner v e s = Ok r ->
  let k := (owner, Sym.name (symbol v)) in
  r = (tt, St (with_accounts (db s) (credit (accounts (db s)) k v))
         (notified s) (inline_actions s)) /\
  (is_Some (accounts (db s) !! k) ->
   - max_amount <= balance (db s) owner (Sym.name (symbol v)) + amount v <= max_amount).
Proof.
  intros Hok Hv H. unfold add_balance in H. minv.
  unfold credit, balance, with_accounts. simpl. mcase.
  - match goal with Hb : accounts _ !! _ = Some ?b |- _ =>
      destruct (ok_accounts _ Hok _ _ _ Hb) as [? _] end.
    match goal with Hs : asset_add _ _ = Ok _ |- _ =>
      apply asset_add_ok in Hs as (? & ? & ->); [|arange; lia|done] end.
    split; auto.
  - split; [done|]. by intros [? ?].
Qed.

Definition amount_at (acc : gmap (Z * Z) asset) (ok : Z * Z) : Z :=
  match acc !! ok with Some b => amount b | None => 0 end.

Lemma debit_sum k' acc o k n :
  is_Some (acc !! (o, k)) ->
  map_sum (of_symbol k') (debit acc (o, k) n) =
  map_sum (of_symbol k') acc - (if k =? k' then n else 0).
Proof.
  intros [b Hb]. unfold debit. rewrite Hb.
  destruct (Z.eqb_spec (amount b) n) as [<-|];
    rewrite ?map_sum_delete, ?map_sum_insert, (at_key_Some _ _ _ _ Hb);
    unfold of_symbol; simpl; destruct (k =? k'); lia.
Qed.

Lemma credit_sum k' acc o k v :
  map_sum (of_symbol k') (credit acc (o, k) v) =
  map_sum (of_symbol k') acc + (if k =? k' then amount v else 0).
Proof.
  unfold credit. destruct (acc !! (o, k)) as [b|] eqn:Hb;
    rewrite map_sum_insert, ?(at_key_Some _ _ _ _ Hb), ?(at_key_None _ _ _ Hb);
    unfold of_symbol; simpl; destruct (k =? k'); lia.
Qed.

Lemma debit_at acc k n k' :
  is_Some (acc !! k) ->
  amount_at (debit acc k n) k' = amount_at acc k' - (if decide (k = k') then n else 0).
Proof.
  intros [b Hb]. unfold debit, amount_at. rewrite Hb.
  destruct (Z.eqb_spec (amount b) n) as [<-|];
    destruct (decide (k = k')) as [<-|]; simplify_map_eq; lia.
Qed.

Lemma credit_at acc k v k' :
  amount_at (credit acc k v) k' = amount_at acc k' + (if decide (k = k') then amount v else 0).
Proof.
  unfold credit, amount_at. destruct (acc !! k) as [b|] eqn:Hb;
    destruct (decide (k = k')) as [<-|]; simplify_map_eq; lia.
Qed.

(** ** Row invariants under the elementary updates. *)

Lemma rows_ok_debit s o k n :
  rows_ok s -> 0 <= n <= balance s o k ->
  rows_ok (with_accounts s (debit (accounts s) (o, k) n)).
Proof.
  intros Hok Hn. unfold balance in Hn.
  destruct Hok as [Hc Hs Ha Hcc]. constructor; [done|done| |done]. simpl.
  intros o' k' b'. unfold debit. destruct (accounts s !! (o, k)) as [b|] eqn:Hb; [|apply Ha].
  destruct (Ha _ _ _ Hb) as [Hr Hst].
  destruct (amount b =? n).
  - intros [_ Hl]%lookup_delete_Some. by eapply Ha.
  - intros [[? <-]|[? Hl]]%lookup_insert_Some; [|by eapply Ha]. simplify_eq. simpl.
    split; [lia|done].
Qed.

Lemma rows_ok_credit s o v st :
  rows_ok s -> 0 <= amount v <= max_amount ->
  stats s !! Sym.name (symbol v) = Some st -> symbol v = symbol (supply st) ->
  (is_Some (accounts s !! (o, Sym.name (symbol v))) ->
   balance s o (Sym.name (symbol v)) + amount v <= max_amount) ->
  rows_ok (with_accounts s (credit (accounts s) (o, Sym.name (symbol v)) v)).
Proof.
  intros Hok Hv Hst Hsym Hle. unfold balance in Hle.
  destruct Hok as [Hc Hs Ha Hcc]. constructor; [done|done| |done]. simpl.
  intros o' k' b'. unfold credit.
  destruct (accounts s !! (o, Sym.name (symbol v))) as [b|] eqn:Hb.
  - destruct (Ha _ _ _ Hb) as [Hr Hst']. specialize (Hle ltac:(eauto)).
    intros [[? <-]|[? Hl]]%lookup_insert_Some; [|by eapply Ha]. simplify_eq. simpl.
    split; [lia|done].
  - intros [[? <-]|[? Hl]]%lookup_insert_Some; [|by eapply Ha]. simplify_eq. eauto.
Qed.

Lemma rows_ok_cast s o c :
  rows_ok s -> 0 <= amount (cast_balance c) <= max_amount ->
  symbol (cast_balance c) = CORE_SYMBOL ->
  rows_ok (State (accounts s) (stats s) (<[(o, finish_block c) := c]> (coincasts s))).
Proof.
  intros [Hc Hs Ha Hcc] Hr Hsym. constructor; [done..|]. simpl.
  intros o' k' c'. intros [[? <-]|[? Hl]]%lookup_insert_Some; [|by eapply Hcc].
  by simplify_eq.
Qed.

Lemma rows_ok_cast_delete s k :
  rows_ok s -> rows_ok (State (accounts s) (stats s) (delete k (coincasts s))).
Proof.
  intros [Hc Hs Ha Hcc]. constructor; [done..|]. simpl.
  intros o' k' c' [_ Hl]%lookup_delete_Some. by eapply Hcc.
Qed.

Lemma is_valid_range q : is_valid q = true -> in_range (amount q).
Proof. unfold is_valid. intros [?%within_range_iff _]%andb_true_iff. done. Qed.

(** A debit and a credit of the same valid, positive quantity. *)
Lemma move_spec from to q st e s r :
  rows_ok (db s) -> is_s 64 (amount q) -> in_range (amount q) -> 0 < amount q ->
  stats (db s) !! Sym.name (symbol q) = Some st -> symbol q = symbol (supply st) ->
  (sub_balance from q;; add_balance to q) e s = Ok r ->
  let k := Sym.name (symbol q) in
  r = (tt, St (with_accounts (db s)
                 (credit (debit (accounts (db s)) (from, k) (amount q)) (to, k) q))
         (notified s) (inline_actions s)) /\
  amount q <= balance (db s) from k /\ is_Some (accounts (db s) !! (from, k)) /\
  rows_ok (db (snd r)).
Proof.
  intros Hok Hq Hr Hpos Hst Hsym H. cbv zeta. minv.
  match goal with Hs : sub_balance _ _ _ _ = _ |- _ =>
    apply sub_balance_ok in Hs as (? & Hle & Hsome); [|done|done] end. minv.
  assert (Hok' : rows_ok (with_accounts (db s) (debit (accounts (db s)) (from, Sym.name (symbol q)) (amount q))))
    by (apply rows_ok_debit; [done|lia]).
  match goal with Hs : add_balance _ _ _ _ = _ |- _ =>
    apply add_balance_ok in Hs as (Hres & Hmax); [|done|done] end. simplify_eq. simpl in *.
  split; [done|]. split; [done|]. split; [done|].
  apply (rows_ok_credit _ to q st) in Hok'; [done|arange; lia|done|done|].
  intros Hs. specialize (Hmax Hs). lia.
Qed.

(** ** What each action does when it succeeds. *)

Lemma transfer_ok from to q memo e s r :
  rows_ok (db s) -> is_s 64 (amount q) ->
  transfer from to q memo e s = Ok r ->
  let k := Sym.name (symbol q) in
  db (snd r) = with_accounts (db s)
                 (credit (debit (accounts (db s)) (from, k) (amount q)) (to, k) q) /\
  inline_actions (snd r) = inline_actions s /\
  has_authorization (authorization e) from = true /\ from <> to /\
  0 < amount q <= balance (db s) from k /\ is_Some (accounts (db s) !! (from, k)) /\
  rows_ok (db (snd r)).
Proof.
  intros Hok Hq H. unfold transfer in H. minv.
  match goal with Hv : is_valid _ = true |- _ => apply is_valid_range in Hv end.
  match goal with Hs : sub_balance ?f ?q ?e ?s0 = Ok (?u, ?s1), Ha : add_balance ?t ?q ?e ?s1 = Ok ?r |- _ =>
    assert (Hm : (sub_balance f q;; add_balance t q) e s0 = Ok r)
      by (apply mbind_ok; eauto) end.
  eapply move_spec in Hm as (Heq & Hle & Hsome & Hok'); [|done..]. simpl in *.
  injection Heq as ->. simpl. split_and!; (done || lia).
Qed.

(** The quantity is checked before it moves. *)
Lemma transfer_valid from to q memo e s r :
  transfer from to q memo e s = Ok r -> is_s 64 (amount q).
Proof.
  intros H. unfold transfer in H. minv.
  match goal with Hv : is_valid _ = true |- _ => apply is_valid_range in Hv end. arange; lia.
Qed.

Lemma castcoin_valid from to q e s r :
  castcoin from to q e s = Ok r -> is_s 64 (amount q).
Proof.
  intros H. unfold castcoin in H. minv.
  match goal with Hv : is_valid _ = true |- _ => apply is_valid_range in Hv end. arange; lia.
Qed.

Lemma held_move s o1 o2 k q k' :
  is_Some (accounts s !! (o1, k)) ->
  held (with_accounts s (credit (debit (accounts s) (o1, k) (amount q)) (o2, k) q)) k' = held s k'.
Proof.
  intros Hsome. unfold held, balances_of, casts_total. simpl.
  rewrite credit_sum, debit_sum by done. destruct (k =? k'); lia.
Qed.

Lemma transfer_inv from to q memo e s r :
  inv (db s) -> is_s 64 (amount q) -> transfer from to q memo e s = Ok r -> inv (db (snd r)).
Proof.
  intros [Hok Hsum] Hq H. apply transfer_ok in H as (Hdb & _ & _ & _ & _ & Hsome & Hok'); [|done..].
  split; [done|]. rewrite Hdb. simpl. intros k' st Hst. rewrite held_move by done. by apply Hsum.
Qed.

Lemma fee_ok payer q e s r :
  rows_ok (db s) -> is_s 64 (amount q) -> fee payer q e s = Ok r ->
  let k := Sym.name (symbol q) in
  db (snd r) = with_accounts (db s)
    (credit (debit (accounts (db s)) (payer, k) (amount q)) (config.fee_account_name, k) q) /\
  has_authorization (authorization e) payer = true /\
  0 < amount q <= balance (db s) payer k /\ is_Some (accounts (db s) !! (payer, k)) /\
  rows_ok (db (snd r)).
Proof.
  intros Hok Hq H. unfold fee in H. minv.
  match goal with Hv : is_valid _ = true |- _ => apply is_valid_range in Hv end.
  match goal with Hs : sub_balance ?f ?q ?e ?s0 = Ok (?u, ?s1), Ha : add_balance ?t ?q ?e ?s1 = Ok ?r |- _ =>
    assert (Hm : (sub_balance f q;; add_balance t q) e s0 = Ok r)
      by (apply mbind_ok; eauto) end.
  eapply move_spec in Hm as (Heq & Hle & Hsome & Hok'); [|done..]. simpl in *.
  injection Heq as ->. simpl. split_and!; (done || lia).
Qed.

Lemma create_ok i q e s r :
  create i q e s = Ok r ->
  db (snd r) = State (accounts (db s))
    (<[Sym.name (symbol q) := CurrencyStats (Asset 0 (symbol q)) q i]> (stats (db s)))
    (coincasts (db s)) /\
  stats (db s) !! Sym.name (symbol q) = None /\ 0 < amount q <= max_amount /\
  has_authorization (authorization e) i = true.
Proof.
  intros H. unfold create in H. minv. simpl.
  match goal with Hv : is_valid _ = true |- _ => apply is_valid_range in Hv; unfold in_range in Hv end.
  split_and!; (done || lia).
Qed.

Definition with_supply (s : state) (k : Z) (st : currency_stats) (n : Z) : state :=
  State (accounts s)
    (<[k := CurrencyStats (Asset n (symbol (supply st))) (max_supply st) (issuer st)]> (stats s))
    (coincasts s).

Lemma rows_ok_supply s k st n :
  rows_ok s -> stats s !! k = Some st -> 0 <= n <= amount (max_supply st) ->
  rows_ok (with_supply s k st n).
Proof.
  intros [Hc Hs Ha Hcc] Hst Hn. destruct (Hs _ _ Hst) as (Hname & Hmsym & _ & Hmax).
  constructor; simpl.
  - destruct Hc as (st0 & Hst0 & Hs0). destruct (decide (k = core_name)) as [->|E].
    + rewrite lookup_insert_eq. eexists. split; [done|]. simpl. congruence.
    + rewrite lookup_insert_ne by done. eauto.
  - intros k' st'. intros [[<- <-]|[? Hl]]%lookup_insert_Some; [|by apply Hs]. simpl.
    split_and!; (done || lia).
  - intros o k' b Hb. destruct (Ha _ _ _ Hb) as (? & st' & Hst' & ?). split; [done|].
    destruct (decide (k = k')) as [<-|].
    + rewrite lookup_insert_eq. eexists. split; [done|]. simpl. congruence.
    + rewrite lookup_insert_ne by done. eauto.
  - done.
Qed.

Lemma issue_ok to q memo e s r :
  rows_ok (db s) -> is_s 64 (amount q) -> issue to q memo e s = Ok r ->
  let k := Sym.name (symbol q) in
  exists st, stats (db s) !! k = Some st /\
  db (snd r) = with_accounts (with_supply (db s) k st (amount (supply st) + amount q))
                 (credit (accounts (db s)) (issuer st, k) q) /\
  has_authorization (authorization e) (issuer st) = true /\
  symbol q = symbol (supply st) /\
  0 < amount q /\ amount (supply st) + amount q <= amount (max_supply st) /\
  rows_ok (db (snd r)).
Proof.
  intros Hok Hq H. unfold issue in H. minv.
  match goal with Hl : stats _ !! _ = Some ?x |- _ => rename x into st; rename Hl into Hst end.
  destruct (ok_stats _ Hok _ _ Hst) as (Hname & Hmsym & Hsup & Hmax).
  match goal with Ha : asset_add _ _ = Ok _ |- _ =>
    apply asset_add_ok in Ha as (? & ? & ->); [|arange; lia|done] end.
  match goal with Hc : amount q <= i64 _ |- _ => rewrite (wrapS_small 64) in Hc by (arange; lia) end.
  pose proof (rows_ok_supply _ _ _ (amount (supply st) + amount q) Hok Hst ltac:(lia)) as Hok1.
  match goal with Ha : add_balance _ _ _ _ = Ok _ |- _ =>
    apply add_balance_ok in Ha as (Hres & Hmx); [|done..] end.
  injection Hres as ->. simpl in *.
  eapply (rows_ok_credit _ (issuer st) q) in Hok1;
    [|arange; lia|simpl; apply lookup_insert_eq|done|].
  - exists st. mcase; split_and!; (done || lia).
  - simpl. intros Hs. specialize (Hmx Hs). unfold balance in *. simpl in *. lia.
Qed.

(** ** Casts. *)

Definition cast_at (m : gmap (Z * Z) coin_cast) (ok : Z * Z) : Z :=
  at_key (fun _ c => amount (cast_balance c)) m ok.

(** The cast rows of [to] that have matured at [cb]. *)
Definition matured (s : state) (to cb : Z) : list Z :=
  filter (fun k => k < cb) (scope_keys (coincasts s) to).

Definition casts_sum (m : gmap (Z * Z) coin_cast) (to : Z) (ks : list Z) : Z :=
  foldr (fun k acc => cast_at m (to, k) + acc) 0 ks.

Lemma casts_sum_cons m to k ks :
  casts_sum m to (k :: ks) = cast_at m (to, k) + casts_sum m to ks.
Proof. done. Qed.

Definition erase_casts (m : gmap (Z * Z) coin_cast) (to : Z) (ks : list Z) :=
  fold_left (fun m k => delete (to, k) m) ks m.

Lemma castcoin_ok from to q e s r :
  rows_ok (db s) -> is_s 64 (amount q) -> castcoin from to q e s = Ok r ->
  let k := Sym.name (symbol q) in
  let f := cast_finish_block (current_block_num e) in
  exists c, coincasts (db s) !! (to, f) = Some c /\
  db (snd r) = State (debit (accounts (db s)) (from, k) (amount q)) (stats (db s))
    (<[(to, f) := CoinCast (Asset (amount (cast_balance c) + amount q) CORE_SYMBOL) f]>
       (coincasts (db s))) /\
  has_authorization (authorization e) from = true /\
  from = config.reward_account_name /\ symbol q = CORE_SYMBOL /\
  0 < amount q <= balance (db s) from k /\ is_Some (accounts (db s) !! (from, k)) /\
  rows_ok (db (snd r)).
Proof.
  intros Hok Hq H. unfold castcoin in H. minv.
  match goal with Hl : coincasts _ !! _ = Some ?x |- _ => rename x into c; rename Hl into Hc end.
  destruct (ok_casts _ Hok _ _ _ Hc) as (Hr & Hsym & Hfb).
  match goal with Ha : sub_balance _ _ _ _ = Ok _ |- _ =>
    apply sub_balance_ok in Ha as (Hres & Hle & Hsome); [|done..] end.
  match goal with Ha : asset_add _ _ = Ok _ |- _ =>
    apply asset_add_ok in Ha as (? & Hr2 & ->); [|arange; lia|done] end.
  injection Hres as ->. simpl in *. exists c. rewrite Hfb, Hsym.
  split_and!; [done|done|done|done|congruence|lia|lia|done|].
  match goal with |- rows_ok (State ?d _ (<[(to, ?f) := ?c']> _)) =>
    apply (rows_ok_cast (with_accounts (db s) d) to c') end; simpl; [|arange; lia|done].
  apply rows_ok_debit; [done|lia].
Qed.

Lemma takecoin_collect_spec to e ks bs coin s r :
  rows_ok (db s) -> 0 <= amount coin <= max_amount -> symbol coin = CORE_SYMBOL ->
  mfor (takecoin_collect to (current_block_num e)) (bs, coin) ks e s = Ok r ->
  (forall k, k ∈ ks -> is_Some (coincasts (db s) !! (to, k))) ->
  let ms := filter (fun k => k < current_block_num e) ks in
  r = (bs ++ ms, Asset (amount coin + casts_sum (coincasts (db s)) to ms) CORE_SYMBOL, s) /\
  0 <= amount coin + casts_sum (coincasts (db s)) to ms <= max_amount.
Proof.
  intros Hok. revert bs coin.
  induction ks as [|k ks IH]; intros bs coin Hrange Hsym H Hin; cbn [mfor] in H; minv.
  - rewrite app_nil_r, Z.add_0_r. destruct coin; simpl in *. by subst.
  - destruct (Hin k) as [c Hc]; [by left|].
    destruct (ok_casts _ Hok _ _ _ Hc) as (Hr & Hcs & Hfb).
    subst k. unfold takecoin_collect at 1 in H0. minv. rewrite Hc in *. cbv zeta. rewrite filter_cons. mcase.
    + rewrite decide_True by lia.
      match goal with Ha : asset_add _ _ = Ok _ |- _ =>
        apply asset_add_ok in Ha as (? & Hr2 & ->); [|arange; lia|arange; lia] end.
      eapply IH in H1 as [-> Hb]; [|simpl; unfold in_range in *; lia|done|intros; apply Hin; by right].
      cbn [amount symbol] in *. rewrite casts_sum_cons. unfold cast_at. rewrite (at_key_Some _ _ _ _ Hc).
      rewrite <- app_assoc, Z.add_assoc. done.
    + rewrite decide_False by lia.
      eapply IH in H1; [exact H1|done..|intros; apply Hin; by right].
Qed.

Lemma takecoin_erase_spec to ks e s r :
  NoDup ks -> (forall k, k ∈ ks -> is_Some (coincasts (db s) !! (to, k))) ->
  mfor (takecoin_erase to) tt ks e s = Ok r ->
  r = (tt, St (State (accounts (db s)) (stats (db s)) (erase_casts (coincasts (db s)) to ks))
         (notified s) (inline_actions s)).
Proof.
  intros Hnd. revert s. induction Hnd as [|k ks Hnin Hnd IH]; intros s Hin H; cbn [mfor] in H; minv.
  - by destruct s as [[] ? ?].
  - destruct (Hin k) as [c Hc]; [by left|].
    match goal with Hx : takecoin_erase _ _ _ _ _ = Ok _ |- _ =>
      unfold takecoin_erase in Hx end. minv. rewrite Hc in *. minv.
    match goal with Hx : mfor _ _ _ _ _ = Ok _ |- _ => apply IH in Hx; [done|] end.
    simpl. intros k' Hk'.
    rewrite lookup_delete_ne; [apply Hin; by right|]. naive_solver.
Qed.

Lemma erase_casts_lookup m to ks ok :
  erase_casts m to ks !! ok = if decide (ok.1 = to /\ ok.2 ∈ ks) then None else m !! ok.
Proof.
  revert m. induction ks as [|k ks IH]; intros m; cbn [erase_casts fold_left].
  - rewrite decide_False; [done|]. intros [_ ?%elem_of_nil]. done.
  - unfold erase_casts in IH. rewrite IH. destruct ok as [o k']. simpl.
    destruct (decide (o = to /\ k' ∈ ks)).
    + rewrite decide_True; [done|]. rewrite elem_of_cons. tauto.
    + destruct (decide (o = to /\ k' = k)) as [[-> ->]|Hne].
      * rewrite decide_True; [apply lookup_delete_eq|]. split; [done|by left].
      * rewrite decide_False; [|rewrite elem_of_cons; tauto].
        apply lookup_delete_ne. intros ?; simplify_eq. tauto.
Qed.

Lemma erase_casts_total m to ks :
  NoDup ks ->
  map_sum (fun _ c => amount (cast_balance c)) (erase_casts m to ks) =
  map_sum (fun _ c => amount (cast_balance c)) m - casts_sum m to ks.
Proof.
  intros Hnd. revert m. induction Hnd as [|k ks Hnin Hnd IH]; intros m; [simpl; lia|].
  rewrite casts_sum_cons. cbn [erase_casts fold_left]. fold (erase_casts (delete (to, k) m) to ks).
  rewrite IH, map_sum_delete. unfold cast_at.
  assert (Hext : casts_sum (delete (to, k) m) to ks = casts_sum m to ks); [|lia].
  clear IH Hnd. induction ks as [|k' ks IHk]; [done|].
  apply not_elem_of_cons in Hnin as [Hne Hnin]. rewrite !casts_sum_cons, IHk by done.
  unfold cast_at, at_key. rewrite lookup_delete_ne; [done|]. intros ?; simplify_eq.
Qed.

(** [takecoin] pays the sum of the matured casts and removes exactly those. *)
Lemma takecoin_ok to e s r :
  rows_ok (db s) -> takecoin to e s = Ok r ->
  let ms := matured (db s) to (current_block_num e) in
  let total := casts_sum (coincasts (db s)) to ms in
  db (snd r) = State (credit (accounts (db s)) (to, core_name) (Asset total CORE_SYMBOL))
    (stats (db s)) (erase_casts (coincasts (db s)) to ms) /\
  has_authorization (authorization e) to = true /\ 0 <= total <= max_amount /\
  rows_ok (db (snd r)).
Proof.
  intros Hok H. unfold takecoin in H. minv.
  match goal with Hx : core_asset 0 = Ok _ |- _ => apply core_asset_ok in Hx as [_ ->] end.
  match goal with Hx : mfor (takecoin_collect _ _) _ _ _ _ = Ok _ |- _ =>
    apply takecoin_collect_spec in Hx as (Heq & Hr);
    [|done|simpl; rewrite max_amount_val; lia|done|intros k; by rewrite scope_keys_spec] end.
  fold (matured (db s) to (current_block_num e)) in *. simpl in Heq, Hr. rewrite Z.add_0_l in *.
  injection Heq as -> -> ->. simpl in *.
  assert (Hnd : NoDup (matured (db s) to (current_block_num e)))
    by apply NoDup_filter, scope_keys_NoDup.
  match goal with Hx : add_balance _ _ _ _ = Ok _ |- _ =>
    apply add_balance_ok in Hx as (Hres & Hmx); [|done|simpl; arange; lia] end.
  injection Hres as ->. simpl in *.
  match goal with Hx : mfor (takecoin_erase _) _ _ _ _ = Ok _ |- _ =>
    apply takecoin_erase_spec in Hx as Hfin; [|done|] end.
  2: { intros k. unfold matured. rewrite list_elem_of_filter, scope_keys_spec. by intros []. }
  injection Hfin as ->. simpl. split_and!; try (done || apply Hr).
  destruct (ok_core _ Hok) as (st & Hst & Hsym).
  eapply (rows_ok_credit _ to (Asset _ CORE_SYMBOL) st) in Hok as [Hc Hs Ha Hcc];
    [|simpl; exact Hr|done|done|intros Hs; by destruct (Hmx Hs)].
  constructor; simpl; try done. intros o k c. rewrite erase_casts_lookup.
  case_decide; [done|]. apply Hcc.
Qed.

Lemma opencast_ok to e s r :
  rows_ok (db s) -> opencast to e s = Ok r ->
  let f := cast_finish_block (current_block_num e) in
  db (snd r) = State (accounts (db s)) (stats (db s))
    (<[(to, f) := CoinCast (Asset 0 CORE_SYMBOL) f]> (coincasts (db s))) /\
  coincasts (db s) !! (to, f) = None /\ rows_ok (db (snd r)).
Proof.
  intros Hok H. unfold opencast in H. minv.
  match goal with Hx : core_asset 0 = Ok _ |- _ => apply core_asset_ok in Hx as [_ ->] end.
  simpl. split_and!; [done|done|].
  eapply (rows_ok_cast _ to (CoinCast (Asset 0 CORE_SYMBOL) _)) in Hok; [exact Hok| |done].
  simpl. rewrite max_amount_val. lia.
Qed.

Lemma closecast_ok to fb e s r :
  rows_ok (db s) -> closecast to fb e s = Ok r ->
  exists c, coincasts (db s) !! (to, u64 fb) = Some c /\ amount (cast_balance c) = 0 /\
  db (snd r) = State (accounts (db s)) (stats (db s)) (delete (to, u64 fb) (coincasts (db s))) /\
  rows_ok (db (snd r)).
Proof.
  intros Hok H. unfold closecast in H. minv.
  match goal with Hx : core_asset 0 = Ok _ |- _ => apply core_asset_ok in Hx as [_ ->] end.
  match goal with Hx : asset_eq _ _ = Ok true |- _ => unfold asset_eq, asset_cmp in Hx end. minv.
  eexists. split_and!; try done. by apply rows_ok_cast_delete.
Qed.

(** [trade] either performs the transfer itself or queues it. *)
Lemma trade_ok from to q ty memo e s r :
  trade from to q ty memo e s = Ok r ->
  db (snd r) = db s \/
  exists r', transfer from to q memo e s = Ok r' /\ db (snd r) = db (snd r').
Proof.
  intros H. unfold trade in H. mcase; [right; by eexists|].
  mcase; [right; by eexists|]. mcase. by left.
Qed.

(** ** What the actions notify and send. *)

(** An inline action is for the bridge, or a transfer of the quantity of the call by
    the contract itself. *)
Definition sent_by (e : env) (c : call) (a : action) : Prop :=
  act_account a = config.bridge_account_name \/
  act_account a = self e /\
  exists f t q m, act_data a = transfer_args f t q m /\ (call_typed c -> well_typed q).

Lemma sub_balance_emits P e owner v : emits P e (sub_balance owner v).
Proof. unfold sub_balance. emit. Qed.

Lemma add_balance_emits P e owner v : emits P e (add_balance owner v).
Proof. unfold add_balance. emit. Qed.

Lemma transfer_emits P e from to q memo : emits P e (transfer from to q memo).
Proof. unfold transfer. emit; [apply sub_balance_emits|apply add_balance_emits]. Qed.

Lemma castcoin_emits P e from to q : emits P e (castcoin from to q).
Proof. unfold castcoin. emit. apply sub_balance_emits. Qed.

Lemma apply_emits c e : emits (sent_by e c) e (apply c).
Proof.
  destruct c; cbn [apply]; [unfold create|unfold issue|apply transfer_emits|unfold fee|unfold trade
    |unfold castcoin|unfold takecoin, takecoin_collect, takecoin_erase|unfold opencast
    |unfold closecast]; emit; auto using sub_balance_emits, add_balance_emits, transfer_emits;
    try (by left); right; (split; [done|]); do 4 eexists; (split; [done|]); by intros [].
Qed.

(** ** Properties of the contract. *)

Lemma held_add_supply s k st q o k' :
  Sym.name (symbol q) = k ->
  held (with_accounts (with_supply s k st (amount (supply st) + amount q))
          (credit (accounts s) (o, k) q)) k' =
  held s k' + (if k =? k' then amount q else 0).
Proof.
  intros <-. unfold held, balances_of, casts_total. simpl. rewrite credit_sum. lia.
Qed.

Lemma held_no_stats s k : rows_ok s -> stats s !! k = None -> held s k = 0.
Proof.
  intros Hok Hk. unfold held, balances_of.
  rewrite (map_sum_ext _ (fun _ _ => 0)).
  - assert (map_sum (fun (_ : Z * Z) (_ : asset) => 0) (accounts s) = 0) as ->.
    { generalize (accounts s). intros m. induction m as [|i x m Hi IH] using map_ind; [done|].
      rewrite map_sum_insert_None by done. lia. }
    destruct (Z.eqb_spec k core_name) as [->|]; [|done].
    destruct (ok_core _ Hok) as (? & ? & _). congruence.
  - intros [o k'] b Hb. unfold of_symbol. simpl. destruct (Z.eqb_spec k' k) as [->|]; [|done].
    destruct (ok_accounts _ Hok _ _ _ Hb) as (_ & ? & ? & _). congruence.
Qed.

Lemma inv_create i q e s r :
  inv (db s) -> is_s 64 (amount q) -> create i q e s = Ok r -> inv (db (snd r)).
Proof.
  intros [Hok Hsum] Hq H. apply create_ok in H as (-> & Hnone & Hpos & _).
  split.
  - destruct Hok as [Hc Hs Ha Hcc]. destruct Hc as (stc & Hstc & Hsc). constructor; simpl; try done.
    + exists stc. rewrite lookup_insert_ne by congruence. done.
    + intros k st [[<- <-]|[_ Hl]]%lookup_insert_Some; [|by apply Hs]. simpl. split_and!; (done || lia).
    + intros o k b Hb. destruct (Ha _ _ _ Hb) as (? & st & Hst & ?). split; [done|].
      exists st. rewrite lookup_insert_ne by congruence. done.
  - simpl. intros k st [[<- <-]|[_ Hl]]%lookup_insert_Some; [|by apply Hsum].
    by apply (held_no_stats (db s)).
Qed.

Lemma inv_issue to q memo e s r :
  inv (db s) -> is_s 64 (amount q) -> issue to q memo e s = Ok r -> inv (db (snd r)).
Proof.
  intros [Hok Hsum] Hq H.
  apply issue_ok in H as (st & Hst & Hdb & _ & _ & _ & _ & Hok'); [|done..].
  split; [done|]. rewrite Hdb. intros k st'. simpl. rewrite held_add_supply by done.
  intros [[<- <-]|[? Hl]]%lookup_insert_Some.
  - rewrite Z.eqb_refl, (Hsum _ _ Hst). simpl. lia.
  - rewrite (proj2 (Z.eqb_neq _ _)), (Hsum _ _ Hl) by done. lia.
Qed.

Lemma inv_castcoin from to q e s r :
  inv (db s) -> is_s 64 (amount q) -> castcoin from to q e s = Ok r -> inv (db (snd r)).
Proof.
  intros [Hok Hsum] Hq H.
  apply castcoin_ok in H as (c & Hc & Hdb & _ & _ & Hsym & _ & Hsome & Hok'); [|done..].
  split; [done|]. rewrite Hdb. intros k st Hst. simpl in Hst. rewrite <- (Hsum _ _ Hst).
  unfold held, balances_of, casts_total, core_name. tsimp.
  rewrite debit_sum, map_sum_insert, (at_key_Some _ _ _ _ Hc) by done. tsimp. rewrite Hsym.
  rewrite (Z.eqb_sym k). destruct (_ =? k); lia.
Qed.

Lemma inv_takecoin to e s r : inv (db s) -> takecoin to e s = Ok r -> inv (db (snd r)).
Proof.
  intros [Hok Hsum] H. apply takecoin_ok in H as (Hdb & _ & _ & Hok'); [|done].
  split; [done|]. rewrite Hdb. intros k st Hst. simpl in Hst. rewrite <- (Hsum _ _ Hst).
  unfold held, balances_of, casts_total, core_name. tsimp. rewrite credit_sum, erase_casts_total
    by apply NoDup_filter, scope_keys_NoDup. tsimp. unfold core_name.
  rewrite (Z.eqb_sym k). destruct (_ =? k); lia.
Qed.

Lemma inv_casts_only s acc' :
  inv s -> rows_ok (State (accounts s) (stats s) acc') ->
  map_sum (fun _ c => amount (cast_balance c)) acc' = casts_total s ->
  inv (State (accounts s) (stats s) acc').
Proof.
  intros [Hok Hsum] Hok' Htot. split; [done|]. intros k st Hst. rewrite <- (Hsum _ _ Hst).
  unfold held, balances_of, casts_total at 1. simpl. by rewrite Htot.
Qed.

Lemma apply_inv c e s r :
  inv (db s) -> call_typed c -> apply c e s = Ok r -> inv (db (snd r)).
Proof.
  intros Hinv Hty H. pose proof Hinv as [Hok Hsum].
  destruct c as [i q|to q m|f t q m|p q|f t q ty m|f t q|t|t|t fb]; simpl in H, Hty;
    try (destruct Hty as [Hty _]).
  - by eapply inv_create.
  - by eapply inv_issue.
  - by eapply transfer_inv.
  - apply fee_ok in H as (Hdb & _ & _ & Hsome & Hok'); [|done..].
    split; [done|]. rewrite Hdb. intros k st Hst. rewrite held_move by done. by apply Hsum.
  - apply trade_ok in H as [->|(r' & Hr' & ->)]; [done|]. by eapply transfer_inv.
  - by eapply inv_castcoin.
  - by eapply inv_takecoin.
  - apply opencast_ok in H as (Hdb & Hnone & Hok'); [|done]. rewrite Hdb in *.
    apply inv_casts_only; [done..|]. rewrite map_sum_insert, at_key_None by done. simpl.
    unfold casts_total. lia.
  - apply closecast_ok in H as (c & Hc & Hz & Hdb & Hok'); [|done]. rewrite Hdb in *.
    apply inv_casts_only; [done..|]. rewrite map_sum_delete, (at_key_Some _ _ _ _ Hc), Hz.
    unfold casts_total. lia.
Qed.

(** ** Steps of the contract. *)
Inductive step : state -> state -> Prop :=
| step_call c e n i s s' :
    call_typed c -> apply c e (St s n i) = Ok (tt, s') -> step s (db s').

(** C2: In every reachable state of the token contract the supply of each currency
    equals the sum of all balances and, for the core token, of the coins locked in
    casts; supplies stay between zero and the maximum, balances stay between zero
    and the largest amount, and every row keeps the symbol of its currency. *)
Theorem reachable_inv (s0 s : state) (H0 : inv s0) (Hr : rtc step s0 s) : inv s.
Proof.
  induction Hr as [|s0 s1 s2 Hs _ IH]; [done|]. apply IH.
  destruct Hs as [c e n i s s' Hty Happ]. by apply apply_inv in Happ.
Qed.

Lemma balance_at s o k : balance s o k = amount_at (accounts s) (o, k).
Proof. done. Qed.

(** The balances in the core token after the two ways to pay it. *)
Lemma transfer_balance from to n memo e s r o :
  rows_ok (db s) -> transfer from to (Asset n CORE_SYMBOL) memo e s = Ok r ->
  balance (db (snd r)) o core_name =
  balance (db s) o core_name + (if to =? o then n else 0) - (if from =? o then n else 0).
Proof.
  intros Hok H. pose proof (transfer_valid _ _ _ _ _ _ _ H) as Hv.
  apply transfer_ok in H as (-> & _ & _ & _ & _ & Hsome & _); [|done..].
  rewrite !balance_at. cbn [with_accounts accounts].
  change (Sym.name (symbol (Asset n CORE_SYMBOL))) with core_name in *.
  rewrite credit_at, debit_at by done. cbn [amount].
  destruct (Z.eqb_spec to o), (Z.eqb_spec from o); repeat case_decide; simplify_eq; lia.
Qed.

Lemma castcoin_balance from to q e s r o :
  rows_ok (db s) -> castcoin from to q e s = Ok r ->
  balance (db (snd r)) o core_name =
  balance (db s) o core_name - (if from =? o then amount q else 0).
Proof.
  intros Hok H. pose proof (castcoin_valid _ _ _ _ _ _ H) as Hv.
  apply castcoin_ok in H as (c & _ & -> & _ & _ & Hsym & _ & Hsome & _); [|done..].
  rewrite !balance_at. cbn [accounts]. rewrite Hsym in *.
  change (Sym.name CORE_SYMBOL) with core_name in *. rewrite debit_at by done.
  destruct (Z.eqb_spec from o); case_decide; simplify_eq; lia.
Qed.

Lemma debit_credit_authorized (e : env) acc from to k n v o k' :
  is_Some (acc !! (from, k)) -> 0 <= amount v ->
  has_authorization (authorization e) from = true ->
  amount_at (credit (debit acc (from, k) n) (to, k) v) (o, k') < amount_at acc (o, k') ->
  has_authorization (authorization e) o = true.
Proof.
  intros Hsome Hv Hauth. rewrite credit_at, debit_at by done.
  destruct (decide ((from, k) = (o, k'))); [by simplify_eq|].
  destruct (decide ((to, k) = (o, k'))); lia.
Qed.

Lemma debit_needs_auth c e s s' o k :
  rows_ok (db s) -> call_typed c -> apply c e s = Ok (tt, s') ->
  balance (db s') o k < balance (db s) o k -> has_authorization (authorization e) o = true.
Proof.
  intros Hok Hty Happ Hless. rewrite !balance_at in Hless.
  destruct c as [i q|to q m|f t q m|p q|f t q ty m|f t q|t|t|t fb]; simpl in Happ, Hty.
  - apply create_ok in Happ as (Hdb & _). simpl in Hdb. rewrite Hdb in Hless. tsimp. lia.
  - apply issue_ok in Happ as (st & _ & Hdb & _ & _ & Hpos & _); [|done|by destruct Hty].
    simpl in Hdb. rewrite Hdb in Hless. unfold with_accounts, with_supply in Hless. tsimp.
    rewrite credit_at in Hless. case_decide; lia.
  - apply transfer_ok in Happ as (Hdb & _ & Hauth & _ & Hpos & Hsome & _); [|done|by destruct Hty].
    simpl in Hdb. rewrite Hdb in Hless.
    eapply debit_credit_authorized; [exact Hsome| |exact Hauth|exact Hless]. lia.
  - apply fee_ok in Happ as (Hdb & Hauth & Hpos & Hsome & _); [|done|by destruct Hty].
    simpl in Hdb. rewrite Hdb in Hless.
    eapply debit_credit_authorized; [exact Hsome| |exact Hauth|exact Hless]. lia.
  - apply trade_ok in Happ as [Hdb|(r' & Hr' & Hdb)]; simpl in Hdb; rewrite Hdb in Hless; [lia|].
    apply transfer_ok in Hr' as (Hdb' & _ & Hauth & _ & Hpos & Hsome & _); [|done|by destruct Hty].
    rewrite Hdb' in Hless.
    eapply debit_credit_authorized; [exact Hsome| |exact Hauth|exact Hless]. lia.
  - apply castcoin_ok in Happ as (c & _ & Hdb & Hauth & _ & _ & _ & Hsome & _); [|done|by destruct Hty].
    simpl in Hdb. rewrite Hdb in Hless. tsimp. rewrite debit_at in Hless by done.
    case_decide; [by simplify_eq|lia].
  - apply takecoin_ok in Happ as (Hdb & _ & Hr & _); [|done]. simpl in Hdb. rewrite Hdb in Hless.
    tsimp. rewrite credit_at in Hless. tsimp. case_decide; lia.
  - apply opencast_ok in Happ as (Hdb & _); [|done]. simpl in Hdb. rewrite Hdb in Hless. tsimp. lia.
  - apply closecast_ok in Happ as (? & _ & _ & Hdb & _); [|done].
    simpl in Hdb. rewrite Hdb in Hless. tsimp. lia.
Qed.

(** C40: An action of the token contract lowers a balance only if the account that owns
    it has authorized the action. *)
Theorem debit_authorized (c : call) (e : env) (s s' : st state) (o k : Z)
  (Hinv : inv (db s)) (Hty : call_typed c) (Happ : apply c e s = Ok (tt, s'))
  (Hless : balance (db s') o k < balance (db s) o k) :
  has_authorization (authorization e) o = true.
Proof. destruct Hinv as [Hok _]. by eapply debit_needs_auth. Qed.

(** ** [transfer] succeeds exactly when its guards hold. *)

Lemma held_ge_two s o1 o2 k :
  rows_ok s -> o1 <> o2 -> balance s o1 k + balance s o2 k <= held s k.
Proof.
  intros Hok Hne. unfold held.
  assert (0 <= casts_total s).
  { apply map_sum_nonneg. intros [o k'] c Hc. destruct (ok_casts _ Hok _ _ _ Hc) as (? & _). lia. }
  assert (balance s o1 k + balance s o2 k <= balances_of s k);
    [|destruct (k =? core_name); lia].
  assert (Hnn : forall ok b, accounts s !! ok = Some b -> 0 <= of_symbol k ok b).
  { intros [o k'] b Hb. destruct (ok_accounts _ Hok _ _ _ Hb) as (? & _).
    unfold of_symbol. simpl. destruct (k' =? k); lia. }
  assert (Hat : forall o m, at_key (of_symbol k) m (o, k) = amount_at m (o, k)).
  { intros o m. unfold at_key, amount_at, of_symbol. simpl. by rewrite Z.eqb_refl. }
  unfold balances_of. rewrite !balance_at, <- !Hat.
  pose proof (map_sum_delete (of_symbol k) (accounts s) (o1, k)) as Hd.
  pose proof (map_sum_ge_at (of_symbol k) (delete (o1, k) (accounts s)) (o2, k)) as Hge.
  assert (at_key (of_symbol k) (delete (o1, k) (accounts s)) (o2, k)
          = at_key (of_symbol k) (accounts s) (o2, k)) as Heq.
  { unfold at_key. rewrite lookup_delete_ne; [done|]. intros ?; by simplify_eq. }
  rewrite Heq in Hge.
  assert (at_key (of_symbol k) (accounts s) (o2, k)
          <= map_sum (of_symbol k) (delete (o1, k) (accounts s))); [|lia].
  apply Hge. intros ok b [_ Hb]%lookup_delete_Some. by eapply Hnn.
Qed.

(** Runs [sub_balance] and [add_balance] forward. *)
Lemma sub_balance_run owner v e s b :
  rows_ok (db s) -> is_s 64 (amount v) ->
  accounts (db s) !! (owner, Sym.name (symbol v)) = Some b ->
  symbol v = symbol b -> 0 <= amount v <= amount b ->
  sub_balance owner v e s =
  Ok (tt, St (with_accounts (db s)
                (debit (accounts (db s)) (owner, Sym.name (symbol v)) (amount v)))
        (notified s) (inline_actions s)).
Proof.
  intros Hok Hv Hb Hsym Hle. destruct (ok_accounts _ Hok _ _ _ Hb) as (Hr & _).
  unfold sub_balance, debit. apply mbind_ok. exists b, s.
  split; [apply get_ok; eauto|]. apply mbind_ok. exists tt, s.
  split; [apply assert_ok; split; [apply Z.leb_le; lia|done]|]. rewrite Hb.
  destruct (amount b =? amount v).
  - apply erase_ok. split; [by eexists|done].
  - apply mbind_ok. eexists _, s. split.
    + apply lift_ok. eexists. split; [|done]. apply asset_sub_ok; [arange; lia|done|].
      split_and!; [done|arange; lia|done].
    + apply modify_ok. split; [by eexists|done].
Qed.

Lemma add_balance_run owner v e s :
  rows_ok (db s) -> is_s 64 (amount v) ->
  (forall b, accounts (db s) !! (owner, Sym.name (symbol v)) = Some b ->
    symbol v = symbol b /\ in_range (amount b + amount v)) ->
  add_balance owner v e s =
  Ok (tt, St (with_accounts (db s)
                (credit (accounts (db s)) (owner, Sym.name (symbol v)) v))
        (notified s) (inline_actions s)).
Proof.
  intros Hok Hv Hb. unfold add_balance, credit. apply mbind_ok. eexists _, s.
  split; [by apply find_ok|]. simpl.
  destruct (accounts (db s) !! _) as [b|] eqn:Hl.
  - destruct (Hb b) as [Hsym Hr]; [done|]. destruct (ok_accounts _ Hok _ _ _ Hl) as (Hr0 & _).
    apply mbind_ok. eexists _, s. split.
    + apply lift_ok. eexists. split; [|done]. apply asset_add_ok; [arange; lia|done|].
      split_and!; [done|done|done].
    + apply modify_ok. split; [by eexists|done].
  - by apply emplace_ok.
Qed.

(** The guards of [transfer], in the order of the code. *)
Definition transfer_allowed (from to : Z) (q : asset) (memo : string) (e : env) (s : state) : Prop :=
  from <> to /\ has_authorization (authorization e) from = true /\ to ∈ existing e /\
  (exists st, stats s !! Sym.name (symbol q) = Some st /\ symbol q = symbol (supply st)) /\
  is_valid q = true /\ 0 < amount q <= balance s from (Sym.name (symbol q)) /\
  Z.of_nat (String.length memo) <= 256.

Lemma require_recipient_run a e (s : st state) :
  exists l, require_recipient a e s = Ok (tt, St (db s) l (inline_actions s)).
Proof.
  unfold require_recipient. destruct (has_recipient _ _); [|by eexists].
  exists (notified s). by destruct s.
Qed.

Lemma transfer_run from to q memo e s :
  inv (db s) -> is_s 64 (amount q) -> transfer_allowed from to q memo e (db s) ->
  exists s', transfer from to q memo e s = Ok (tt, s').
Proof.
  intros [Hok Hsum] Hq (Hne & Hauth & Hto & (stt & Hst & Hsym) & Hval & Hamt & Hmemo).
  assert (Hb : exists b, accounts (db s) !! (from, Sym.name (symbol q)) = Some b).
  { unfold balance in Hamt. destruct (accounts (db s) !! _) eqn:E; [eauto|lia]. }
  destruct Hb as [b Hb]. destruct (ok_accounts _ Hok _ _ _ Hb) as (_ & st' & Hst' & Hbs).
  assert (Hbq : amount q <= amount b) by (unfold balance in Hamt; rewrite Hb in Hamt; lia).
  destruct (require_recipient_run from e s) as [l1 Hr1].
  destruct (require_recipient_run to e (St (db s) l1 (inline_actions s))) as [l2 Hr2].
  pose proof (rows_ok_debit _ from _ (amount q) Hok ltac:(split; [lia|apply Hamt])) as Hok'.
  eexists. unfold transfer.
  apply mbind_ok. eexists _, _. split; [apply assert_ok; split; [by apply negb_true_iff, Z.eqb_neq|done]|].
  apply mbind_ok. eexists _, _. split; [by apply require_auth_ok|].
  apply mbind_ok. eexists _, _. split; [by apply is_account_ok|].
  apply mbind_ok. eexists _, _. split; [apply assert_ok; split; [by apply bool_decide_eq_true|done]|].
  apply mbind_ok. eexists _, _. split; [apply get_ok; by eexists|].
  apply mbind_ok. eexists _, _. split; [exact Hr1|].
  apply mbind_ok. eexists _, _. split; [exact Hr2|].
  apply mbind_ok. eexists _, _. split; [apply assert_ok; by split|].
  apply mbind_ok. eexists _, _. split; [apply assert_ok; split; [apply Z.ltb_lt; lia|done]|].
  apply mbind_ok. eexists _, _. split; [apply assert_ok; split; [apply Z.eqb_eq; congruence|done]|].
  apply mbind_ok. eexists _, _. split; [apply assert_ok; split; [by apply Z.leb_le|done]|].
  apply mbind_ok. eexists _, _. split; [eapply sub_balance_run; [done|done|exact Hb|congruence|lia]|].
  apply add_balance_run; [done|done|]. cbn [db accounts with_accounts]. intros b' Hb'.
  destruct (ok_accounts _ Hok' _ _ _ Hb') as (_ & st2 & Hst2 & Hs2). simpl in Hst2.
  split; [congruence|].
  pose proof (held_ge_two (db s) from to (Sym.name (symbol q)) Hok Hne) as H2.
  rewrite (Hsum _ _ Hst) in H2. destruct (ok_stats _ Hok _ _ Hst) as (_ & _ & ? & ?).
  assert (Ha : amount_at (debit (accounts (db s)) (from, Sym.name (symbol q)) (amount q))
                 (to, Sym.name (symbol q)) = amount b') by (unfold amount_at; by rewrite Hb').
  rewrite debit_at, decide_False in Ha by (eauto || congruence).
  destruct (ok_accounts _ Hok' _ _ _ Hb') as (? & _). rewrite !balance_at in *.
  unfold in_range. lia.
Qed.

(** A transfer succeeds exactly when the two accounts differ, the payer has
    authorized it, the payee exists, the quantity is a positive valid amount of an
    existing currency with its precision, the memo is short enough and the payer's
    balance covers it. *)
Theorem transfer_iff (from to : Z) (q : asset) (memo : string) (e : env) (s : st state)
  (Hinv : inv (db s)) (Hq : well_typed q) :
  (exists s', transfer from to q memo e s = Ok (tt, s')) <->
  transfer_allowed from to q memo e (db s).
Proof.
  destruct Hq as [Hq _]. split; [|by apply transfer_run].
  intros [s' H]. pose proof Hinv as [Hok _].
  pose proof (transfer_ok _ _ _ _ _ _ _ Hok Hq H) as (_ & _ & Hauth & Hne & Hamt & _).
  unfold transfer in H. minv. unfold transfer_allowed. split_and!; eauto; try lia.
Qed.

(** A transfer moves exactly the quantity from the payer to the payee and changes
    no other balance, no supply and no cast. *)
Theorem transfer_effect (from to : Z) (q : asset) (memo : string) (e : env) (s s' : st state)
  (Hinv : inv (db s)) (Hq : well_typed q) (H : transfer from to q memo e s = Ok (tt, s')) :
  (forall o k, balance (db s') o k =
     balance (db s) o k
     - (if decide (o = from /\ k = Sym.name (symbol q)) then amount q else 0)
     + (if decide (o = to /\ k = Sym.name (symbol q)) then amount q else 0)) /\
  stats (db s') = stats (db s) /\ coincasts (db s') = coincasts (db s) /\
  inline_actions s' = inline_actions s.
Proof.
  destruct Hinv as [Hok _]. destruct Hq as [Hq _].
  apply transfer_ok in H as (Hdb & Hin & _ & _ & _ & Hsome & _); [|done..]. simpl in Hdb, Hin.
  rewrite Hdb. split_and!; [|done..]. intros o k.
  rewrite !balance_at. unfold with_accounts. tsimp. rewrite credit_at, debit_at by done.
  f_equal; [f_equal|]; repeat case_decide; naive_solver.
Qed.

(** ** Casts are locked. *)

Lemma cast_finish_block_bounds cb :
  0 <= cb < 2 ^ 32 - PRE_CAST_NUM ->
  cb + STABLE_CAST_NUM <= cast_finish_block cb <= cb + PRE_CAST_NUM.
Proof.
  unfold cast_finish_block, PRE_CAST_NUM, STABLE_CAST_NUM. intros Hcb. width_norm.
  assert (0 <= 2 * cb / 5 <= 2 * cb) by (Z.div_mod_to_equations; lia).
  rewrite (wrapS_small 32 (2 * cb / 5)) by (width_norm; Z.div_mod_to_equations; lia).
  assert (i32 (u32 (28800 - 2 * cb / 5)) = 28800 - 2 * cb / 5) as ->.
  { unfold wrapS, wrapU. width_norm. rewrite <- Zplus_mod_idemp_l, Zmod_mod, Zplus_mod_idemp_l.
    rewrite Z.mod_small; [lia|]. Z.div_mod_to_equations; lia. }
  destruct (Z.ltb_spec (28800 - 2 * cb / 5) 7200); rewrite wrapU_small by (width_norm; lia); lia.
Qed.

(** Coins cast to an account cannot be taken in the blocks that follow the cast
    within the stable period, and the cast adds exactly its quantity to the locked
    row. *)
Theorem cast_locked (from to : Z) (q : asset) (e e' : env) (s s1 s2 : st state)
  (Hinv : inv (db s)) (Hq : well_typed q)
  (Hb : 0 <= current_block_num e < 2 ^ 32 - PRE_CAST_NUM)
  (Hcast : castcoin from to q e s = Ok (tt, s1))
  (Hsoon : current_block_num e' <= current_block_num e + STABLE_CAST_NUM)
  (Htake : takecoin to e' s1 = Ok (tt, s2)) :
  let row := (to, cast_finish_block (current_block_num e)) in
  coincasts (db s2) !! row = coincasts (db s1) !! row /\
  cast_at (coincasts (db s1)) row = cast_at (coincasts (db s)) row + amount q.
Proof.
  destruct Hinv as [Hok _]. destruct Hq as [Hq _].
  apply castcoin_ok in Hcast as (c & Hc & Hdb & _ & _ & _ & _ & _ & Hok1); [|done..].
  apply takecoin_ok in Htake as (Hdb2 & _); [|done]. simpl in *.
  pose proof (cast_finish_block_bounds _ Hb). split.
  - rewrite Hdb2. tsimp. rewrite erase_casts_lookup, decide_False; [done|].
    simpl. unfold matured. rewrite list_elem_of_filter. lia.
  - rewrite Hdb. tsimp. unfold cast_at, at_key. by rewrite lookup_insert_eq, Hc.
Qed.

(** Taking coins credits exactly the sum of the account's matured casts, removes
    exactly these rows and leaves all other casts. *)
Theorem takecoin_effect (to : Z) (e : env) (s s' : st state)
  (Hinv : inv (db s)) (H : takecoin to e s = Ok (tt, s')) :
  balance (db s') to core_name =
    balance (db s) to core_name
    + casts_sum (coincasts (db s)) to (matured (db s) to (current_block_num e)) /\
  (forall o k, coincasts (db s') !! (o, k) =
     if decide (o = to /\ k < current_block_num e) then None else coincasts (db s) !! (o, k)) /\
  casts_total (db s') =
    casts_total (db s)
    - casts_sum (coincasts (db s)) to (matured (db s) to (current_block_num e)).
Proof.
  destruct Hinv as [Hok _]. apply takecoin_ok in H as (Hdb & _); [|done]. simpl in Hdb. rewrite Hdb.
  split_and!.
  - rewrite !balance_at. tsimp. by rewrite credit_at, decide_True.
  - intros o k. tsimp. rewrite erase_casts_lookup. simpl. unfold matured.
    destruct (decide (o = to /\ k < current_block_num e)) as [[-> Hk]|Hk].
    + case_decide as Hd; [done|]. destruct (coincasts (db s) !! (to, k)) eqn:E; [|done].
      destruct Hd. split; [done|]. apply list_elem_of_filter. split; [done|].
      apply scope_keys_spec. eauto.
    + rewrite decide_False; [done|]. rewrite list_elem_of_filter. tauto.
  - unfold casts_total. tsimp. apply erase_casts_total, NoDup_filter, scope_keys_NoDup.
Qed.

(** ** A concrete ledger. *)

Definition alice : Z := Eval vm_compute in N_ "alice".
Definition bob : Z := Eval vm_compute in N_ "bob".
Definition ex_finish : Z := Eval vm_compute in cast_finish_block 100.

Definition ex_state : state := State
  {[ (alice, core_name) := Asset 9000000 CORE_SYMBOL;
     (config.reward_account_name, core_name) := Asset 1000000 CORE_SYMBOL ]}
  {[ core_name := CurrencyStats (Asset 10000000 CORE_SYMBOL) (Asset 100000000000 CORE_SYMBOL)
                    config.system_account_name ]}
  {[ (bob, ex_finish) := CoinCast (Asset 0 CORE_SYMBOL) ex_finish ]}.

Definition ex_env (auth block : Z) : env :=
  Env config.token_account_name [(auth, active)] {[ alice; bob ]} block 0.

Definition ex_st : st state := St ex_state [] [].

Lemma ex_inv : inv ex_state.
Proof.
  unfold ex_state. split.
  - constructor.
    + eexists. split; [apply lookup_singleton_eq|done].
    + intros k st H. tsimp; rows_of H. by vm_compute.
    + intros o k b H. tsimp; rows_of H; (split; [by vm_compute|]); eexists; (split; [apply lookup_singleton_eq|done]).
    + intros o k c H. tsimp; rows_of H. by vm_compute.
  - intros k st H. tsimp; rows_of H. by vm_compute.
Qed.

Definition run_state {A} (r : result (A * st state)) : st state :=
  match r with Ok (_, s) => s | Err _ => ex_st end.

Lemma typed_small n : 0 <= n < 2 ^ 62 -> well_typed (Asset n CORE_SYMBOL).
Proof. intros. split; [simpl; clia|]. split; vm_compute; congruence. Qed.

Lemma reachable_inv_witness :
  inv (db (run_state (transfer alice bob (Asset 250 CORE_SYMBOL) "m" (ex_env alice 7) ex_st))).
Proof.
  apply (reachable_inv ex_state); [exact ex_inv|]. eapply rtc_l; [|apply rtc_refl].
  apply (step_call (Transfer alice bob (Asset 250 CORE_SYMBOL) "m") (ex_env alice 7) [] []).
  - apply typed_small. lia.
  - vm_compute. reflexivity.
Defined.

Lemma debit_authorized_witness :
  has_authorization (authorization (ex_env alice 7)) alice = true.
Proof.
  eapply (debit_authorized (Transfer alice bob (Asset 250 CORE_SYMBOL) "m") (ex_env alice 7) ex_st
           (run_state (transfer alice bob (Asset 250 CORE_SYMBOL) "m" (ex_env alice 7) ex_st))
           alice core_name).
  - exact ex_inv.
  - apply typed_small. lia.
  - vm_compute. reflexivity.
  - vm_compute. reflexivity.
Defined.

Lemma transfer_iff_witness :
  exists s', transfer alice bob (Asset 250 CORE_SYMBOL) "m" (ex_env alice 7) ex_st = Ok (tt, s').
Proof.
  apply (transfer_iff alice bob (Asset 250 CORE_SYMBOL) "m" (ex_env alice 7) ex_st).
  - exact ex_inv.
  - apply typed_small. lia.
  - unfold transfer_allowed. split_and!; try (vm_compute; congruence).
    eexists. split; [apply lookup_singleton_eq|done].
Defined.

Lemma transfer_effect_witness :
  let s' := run_state (transfer alice bob (Asset 250 CORE_SYMBOL) "m" (ex_env alice 7) ex_st) in
  stats (db s') = stats ex_state /\ balance (db s') bob core_name = 250.
Proof.
  cbv zeta. split; [|vm_compute; reflexivity].
  apply (transfer_effect alice bob (Asset 250 CORE_SYMBOL) "m" (ex_env alice 7) ex_st).
  - exact ex_inv.
  - apply typed_small. lia.
  - vm_compute. reflexivity.
Defined.

Lemma cast_locked_witness :
  let s1 := run_state (castcoin config.reward_account_name bob (Asset 500 CORE_SYMBOL)
                         (ex_env config.reward_account_name 100) ex_st) in
  let s2 := run_state (takecoin bob (ex_env bob 7000) s1) in
  coincasts (db s2) !! (bob, cast_finish_block 100) =
    coincasts (db s1) !! (bob, cast_finish_block 100) /\
  cast_at (coincasts (db s1)) (bob, cast_finish_block 100) =
    cast_at (coincasts ex_state) (bob, cast_finish_block 100) + 500.
Proof.
  cbv zeta.
  eapply (cast_locked config.reward_account_name bob (Asset 500 CORE_SYMBOL)
           (ex_env config.reward_account_name 100) (ex_env bob 7000) ex_st).
  - exact ex_inv.
  - apply typed_small. lia.
  - vm_compute. split; congruence.
  - vm_compute. reflexivity.
  - vm_compute. congruence.
  - vm_compute. reflexivity.
Defined.

Lemma takecoin_effect_witness :
  let s' := run_state (takecoin bob (ex_env bob 50000) ex_st) in
  balance (db s') bob core_name = balance ex_state bob core_name + 0.
Proof.
  cbv zeta.
  pose proof (takecoin_effect bob (ex_env bob 50000) ex_st
    (run_state (takecoin bob (ex_env bob 50000) ex_st)) ex_inv eq_refl) as [H _].
  exact H.
Defined.

End Token.
