(* ===== verification/SystemState.v ===== *)
(** * The system contract, [contracts/force.system]: rows, tables and constants.

    The structures of [force.system.hpp] and of [delegate_bandwidth.cpp], the state
    of the contract as the collection of its tables, and the compile-time constants
    of the build ([BEFORE_ONLINE_TEST] is defined, 23 top producers).  Amounts are
    [asset]s, counters are integers of the width of the source. *)
From stdpp Require Import base gmap list strings.
From Stdlib Require Import ZArith Lia.
From S2P Require Import Prelude Name Asset Runtime.

Open Scope Z_scope.

(** ** Constants. *)

Definition NUM_OF_TOP_BPS : Z := 23.
Definition CYCLE_PREHOUR : Z := 10.
Definition CYCLE_PREBP_BLOCK : Z := 3.
Definition CYCLE_PREDAY : Z := 5.
Definition STABLE_DAY : Z := 10.
Definition PRE_BLOCK_REWARDS : Z := 586000.
Definition STABLE_BLOCK_REWARDS : Z := 1260000.
Definition FROZEN_DELAY : Z := 3 * 24 * 20 * 60.
Definition PRE_GRADIENT : Z := 10250.
Definition STABLE_GRADIENT : Z := 10010.
Definition UPDATE_CYCLE : Z := CYCLE_PREBP_BLOCK * NUM_OF_TOP_BPS.
Definition REWARD_ID : Z := 1.
Definition BLOCK_OUT_WEIGHT : Z := 1000.
Definition MORTGAGE : Z := 8228.
Definition REWARD_RATIO_PRECISION : Z := 10000.
Definition REWARD_BP : Z := 300.
Definition REWARD_MINE : Z := REWARD_RATIO_PRECISION - REWARD_BP.
Definition OTHER_COIN_WEIGHT : Z := 500.
Definition LACKMORTGAGE_FREEZE : Z := UPDATE_CYCLE * CYCLE_PREHOUR.
Definition REWARD_RECORD_SIZE : Z := 2000.
Definition BP_REWARD_RECORD_SIZE : Z := 360.

(** [asset(100*CORE_SYMBOL_PRECISION)], [asset(10*CORE_SYMBOL_PRECISION)]. *)
Definition PUNISH_BP_FEE : asset := Asset (100 * CORE_SYMBOL_PRECISION) CORE_SYMBOL.
Definition BAIL_PUNISH_FEE : asset := Asset (10 * CORE_SYMBOL_PRECISION) CORE_SYMBOL.

(** [enum class active_type]. *)
Definition Normal : Z := 0.
Definition Punish : Z := 1.
Definition LackMortgage : Z := 2.
Definition Removed : Z := 3.

(** ** Rows. *)

Record vote_info := VoteInfo {
  vi_vote : asset;
  vi_bpname : Z;
  vi_voteage : Z;  (* int64_t *)
  vi_voteage_update_height : Z;  (* uint32_t *)
  vi_total_reward : asset;
}.

Record votes_info := VotesInfo {
  mv_owner : Z;
  mv_producers : list Z;
  mv_staked : asset;
}.

Record freeze_info := FreezeInfo {
  fi_staked : asset;
  fi_unstaking : asset;
  fi_voter : Z;
  fi_unstake_height : Z;  (* uint32_t *)
}.

Record vote4ram_info := Vote4ramInfo {
  v4_voter : Z;
  v4_staked : asset;
}.

Record vote_reward_info := VoteRewardInfo {
  vr_total_voteage : Z;  (* int64_t *)
  vr_total_reward : asset;
  vr_reward_block_num : Z;  (* int32_t *)
}.

Record bp_info := BpInfo {
  bp_name : Z;
  bp_block_signing_key : list Z;
  bp_commission_rate : Z;  (* uint32_t *)
  bp_total_staked : Z;  (* int64_t *)
  bp_rewards_block : asset;
  bp_total_voteage : Z;  (* int64_t *)
  bp_voteage_update_height : Z;  (* uint32_t *)
  bp_url : string;
  bp_emergency : bool;
  bp_active_type : Z;  (* int32_t *)
  bp_block_age : Z;  (* int64_t *)
  bp_last_block_amount : Z;  (* uint32_t *)
  bp_block_weight : Z;  (* int64_t *)
  bp_mortgage : asset;
  bp_total_drain_block : Z;  (* int32_t *)
  bp_remain_punish : asset;
  bp_active_change_block_num : Z;  (* int32_t *)
  bp_reward_size : Z;  (* int32_t *)
}.

Record schedule_info := ScheduleInfo {
  sc_version : Z;
  sc_block_height : Z;
  sc_producers : list (Z * Z);  (* [producer producers[NUM_OF_TOP_BPS]]: (bpname, amount) *)
}.

Record reward_info := RewardInfo {
  ri_id : Z;
  ri_reward_block_out : asset;
  ri_reward_budget : asset;
  ri_total_block_out_age : Z;  (* int64_t *)
  ri_cycle_reward : Z;  (* int64_t *)
  ri_gradient : Z;  (* int32_t *)
  ri_total_reward_time : Z;  (* int32_t *)
  ri_last_reward_block_num : Z;  (* int32_t *)
  ri_last_producer_name : Z;
  ri_reward_block_num : list Z;
}.

Record creation_bp := CreationBp {
  cb_bpname : Z;
  cb_total_staked : Z;
  cb_mortgage : Z;
}.

Record punish_bp_info := PunishBpInfo {
  pb_initiator : Z;
  pb_bpname : Z;
  pb_drain_num : Z;
  pb_update_block_num : Z;
}.

Record last_drain_block := LastDrainBlock {
  ld_bpname : Z;
  ld_drain_num : Z;
  ld_update_block_num : Z;
}.

Record approve_punish_bp := ApprovePunishBp {
  ap_bpname : Z;
  ap_approve_producer : list Z;
}.

Record user_resources := UserResources {
  ur_owner : Z;
  ur_net_weight : asset;
  ur_cpu_weight : asset;
  ur_ram_bytes : Z;
}.

Record delegated_bandwidth := DelegatedBandwidth {
  db_from : Z;
  db_to : Z;
  db_net_weight : asset;
  db_cpu_weight : asset;
}.

Record refund_request := RefundRequest {
  rr_owner : Z;
  rr_request_time : Z;
  rr_net_amount : asset;
  rr_cpu_amount : asset;
}.

(** Field updates of [bp_info] and [reward_info], as the updaters assign them. *)
Definition set_bp_name (x : Z) (r : bp_info) : bp_info :=
  BpInfo x (bp_block_signing_key r) (bp_commission_rate r) (bp_total_staked r)
    (bp_rewards_block r) (bp_total_voteage r) (bp_voteage_update_height r) (bp_url r)
    (bp_emergency r) (bp_active_type r) (bp_block_age r) (bp_last_block_amount r)
    (bp_block_weight r) (bp_mortgage r) (bp_total_drain_block r) (bp_remain_punish r)
    (bp_active_change_block_num r) (bp_reward_size r).
Definition set_bp_block_signing_key (x : list Z) (r : bp_info) : bp_info :=
  BpInfo (bp_name r) x (bp_commission_rate r) (bp_total_staked r) (bp_rewards_block r)
    (bp_total_voteage r) (bp_voteage_update_height r) (bp_url r) (bp_emergency r)
    (bp_active_type r) (bp_block_age r) (bp_last_block_amount r) (bp_block_weight r)
    (bp_mortgage r) (bp_total_drain_block r) (bp_remain_punish r) (bp_active_change_block_num
    r) (bp_reward_size r).
Definition set_bp_commission_rate (x : Z) (r : bp_info) : bp_info :=
  BpInfo (bp_name r) (bp_block_signing_key r) x (bp_total_staked r) (bp_rewards_block r)
    (bp_total_voteage r) (bp_voteage_update_height r) (bp_url r) (bp_emergency r)
    (bp_active_type r) (bp_block_age r) (bp_last_block_amount r) (bp_block_weight r)
    (bp_mortgage r) (bp_total_drain_block r) (bp_remain_punish r) (bp_active_change_block_num
    r) (bp_reward_size r).
Definition set_bp_total_staked (x : Z) (r : bp_info) : bp_info :=
  BpInfo (bp_name r) (bp_block_signing_key r) (bp_commission_rate r) x (bp_rewards_block r)
    (bp_total_voteage r) (bp_voteage_update_height r) (bp_url r) (bp_emergency r)
    (bp_active_type r) (bp_block_age r) (bp_last_block_amount r) (bp_block_weight r)
    (bp_mortgage r) (bp_total_drain_block r) (bp_remain_punish r) (bp_active_change_block_num
    r) (bp_reward_size r).
Definition set_bp_rewards_block (x : asset) (r : bp_info) : bp_info :=
  BpInfo (bp_name r) (bp_block_signing_key r) (bp_commission_rate r) (bp_total_staked r) x
    (bp_total_voteage r) (bp_voteage_update_height r) (bp_url r) (bp_emergency r)
    (bp_active_type r) (bp_block_age r) (bp_last_block_amount r) (bp_block_weight r)
    (bp_mortgage r) (bp_total_drain_block r) (bp_remain_punish r) (bp_active_change_block_num
    r) (bp_reward_size r).
Definition set_bp_total_voteage (x : Z) (r : bp_info) : bp_info :=
  BpInfo (bp_name r) (bp_block_signing_key r) (bp_commission_rate r) (bp_total_staked r)
    (bp_rewards_block r) x (bp_voteage_update_height r) (bp_url r) (bp_emergency r)
    (bp_active_type r) (bp_block_age r) (bp_last_block_amount r) (bp_block_weight r)
    (bp_mortgage r) (bp_total_drain_block r) (bp_remain_punish r) (bp_active_change_block_num
    r) (bp_reward_size r).
Definition set_bp_voteage_update_height (x : Z) (r : bp_info) : bp_info :=
  BpInfo (bp_name r) (bp_block_signing_key r) (bp_commission_rate r) (bp_total_staked r)
    (bp_rewards_block r) (bp_total_voteage r) x (bp_url r) (bp_emergency r) (bp_active_type r)
    (bp_block_age r) (bp_last_block_amount r) (bp_block_weight r) (bp_mortgage r)
    (bp_total_drain_block r) (bp_remain_punish r) (bp_active_change_block_num r)
    (bp_reward_size r).
Definition set_bp_url (x : string) (r : bp_info) : bp_info :=
  BpInfo (bp_name r) (bp_block_signing_key r) (bp_commission_rate r) (bp_total_staked r)
    (bp_rewards_block r) (bp_total_voteage r) (bp_voteage_update_height r) x (bp_emergency r)
    (bp_active_type r) (bp_block_age r) (bp_last_block_amount r) (bp_block_weight r)
    (bp_mortgage r) (bp_total_drain_block r) (bp_remain_punish r) (bp_active_change_block_num
    r) (bp_reward_size r).
Definition set_bp_emergency (x : bool) (r : bp_info) : bp_info :=
  BpInfo (bp_name r) (bp_block_signing_key r) (bp_commission_rate r) (bp_total_staked r)
    (bp_rewards_block r) (bp_total_voteage r) (bp_voteage_update_height r) (bp_url r) x
    (bp_active_type r) (bp_block_age r) (bp_last_block_amount r) (bp_block_weight r)
    (bp_mortgage r) (bp_total_drain_block r) (bp_remain_punish r) (bp_active_change_block_num
    r) (bp_reward_size r).
Definition set_bp_active_type (x : Z) (r : bp_info) : bp_info :=
  BpInfo (bp_name r) (bp_block_signing_key r) (bp_commission_rate r) (bp_total_staked r)
    (bp_rewards_block r) (bp_total_voteage r) (bp_voteage_update_height r) (bp_url r)
    (bp_emergency r) x (bp_block_age r) (bp_last_block_amount r) (bp_block_weight r)
    (bp_mortgage r) (bp_total_drain_block r) (bp_remain_punish r) (bp_active_change_block_num
    r) (bp_reward_size r).
Definition set_bp_block_age (x : Z) (r : bp_info) : bp_info :=
  BpInfo (bp_name r) (bp_block_signing_key r) (bp_commission_rate r) (bp_total_staked r)
    (bp_rewards_block r) (bp_total_voteage r) (bp_voteage_update_height r) (bp_url r)
    (bp_emergency r) (bp_active_type r) x (bp_last_block_amount r) (bp_block_weight r)
    (bp_mortgage r) (bp_total_drain_block r) (bp_remain_punish r) (bp_active_change_block_num
    r) (bp_reward_size r).
Definition set_bp_last_block_amount (x : Z) (r : bp_info) : bp_info :=
  BpInfo (bp_name r) (bp_block_signing_key r) (bp_commission_rate r) (bp_total_staked r)
    (bp_rewards_block r) (bp_total_voteage r) (bp_voteage_update_height r) (bp_url r)
    (bp_emergency r) (bp_active_type r) (bp_block_age r) x (bp_block_weight r) (bp_mortgage r)
    (bp_total_drain_block r) (bp_remain_punish r) (bp_active_change_block_num r)
    (bp_reward_size r).
Definition set_bp_block_weight (x : Z) (r : bp_info) : bp_info :=
  BpInfo (bp_name r) (bp_block_signing_key r) (bp_commission_rate r) (bp_total_staked r)
    (bp_rewards_block r) (bp_total_voteage r) (bp_voteage_update_height r) (bp_url r)
    (bp_emergency r) (bp_active_type r) (bp_block_age r) (bp_last_block_amount r) x
    (bp_mortgage r) (bp_total_drain_block r) (bp_remain_punish r) (bp_active_change_block_num
    r) (bp_reward_size r).
Definition set_bp_mortgage (x : asset) (r : bp_info) : bp_info :=
  BpInfo (bp_name r) (bp_block_signing_key r) (bp_commission_rate r) (bp_total_staked r)
    (bp_rewards_block r) (bp_total_voteage r) (bp_voteage_update_height r) (bp_url r)
    (bp_emergency r) (bp_active_type r) (bp_block_age r) (bp_last_block_amount r)
    (bp_block_weight r) x (bp_total_drain_block r) (bp_remain_punish r)
    (bp_active_change_block_num r) (bp_reward_size r).
Definition set_bp_total_drain_block (x : Z) (r : bp_info) : bp_info :=
  BpInfo (bp_name r) (bp_block_signing_key r) (bp_commission_rate r) (bp_total_staked r)
    (bp_rewards_block r) (bp_total_voteage r) (bp_voteage_update_height r) (bp_url r)
    (bp_emergency r) (bp_active_type r) (bp_block_age r) (bp_last_block_amount r)
    (bp_block_weight r) (bp_mortgage r) x (bp_remain_punish r) (bp_active_change_block_num r)
    (bp_reward_size r).
Definition set_bp_remain_punish (x : asset) (r : bp_info) : bp_info :=
  BpInfo (bp_name r) (bp_block_signing_key r) (bp_commission_rate r) (bp_total_staked r)
    (bp_rewards_block r) (bp_total_voteage r) (bp_voteage_update_height r) (bp_url r)
    (bp_emergency r) (bp_active_type r) (bp_block_age r) (bp_last_block_amount r)
    (bp_block_weight r) (bp_mortgage r) (bp_total_drain_block r) x (bp_active_change_block_num
    r) (bp_reward_size r).
Definition set_bp_active_change_block_num (x : Z) (r : bp_info) : bp_info :=
  BpInfo (bp_name r) (bp_block_signing_key r) (bp_commission_rate r) (bp_total_staked r)
    (bp_rewards_block r) (bp_total_voteage r) (bp_voteage_update_height r) (bp_url r)
    (bp_emergency r) (bp_active_type r) (bp_block_age r) (bp_last_block_amount r)
    (bp_block_weight r) (bp_mortgage r) (bp_total_drain_block r) (bp_remain_punish r) x
    (bp_reward_size r).
Definition set_bp_reward_size (x : Z) (r : bp_info) : bp_info :=
  BpInfo (bp_name r) (bp_block_signing_key r) (bp_commission_rate r) (bp_total_staked r)
    (bp_rewards_block r) (bp_total_voteage r) (bp_voteage_update_height r) (bp_url r)
    (bp_emergency r) (bp_active_type r) (bp_block_age r) (bp_last_block_amount r)
    (bp_block_weight r) (bp_mortgage r) (bp_total_drain_block r) (bp_remain_punish r)
    (bp_active_change_block_num r) x.

Definition set_ri_id (x : Z) (r : reward_info) : reward_info :=
  RewardInfo x (ri_reward_block_out r) (ri_reward_budget r) (ri_total_block_out_age r)
    (ri_cycle_reward r) (ri_gradient r) (ri_total_reward_time r) (ri_last_reward_block_num r)
    (ri_last_producer_name r) (ri_reward_block_num r).
Definition set_ri_reward_block_out (x : asset) (r : reward_info) : reward_info :=
  RewardInfo (ri_id r) x (ri_reward_budget r) (ri_total_block_out_age r) (ri_cycle_reward r)
    (ri_gradient r) (ri_total_reward_time r) (ri_last_reward_block_num r)
    (ri_last_producer_name r) (ri_reward_block_num r).
Definition set_ri_reward_budget (x : asset) (r : reward_info) : reward_info :=
  RewardInfo (ri_id r) (ri_reward_block_out r) x (ri_total_block_out_age r) (ri_cycle_reward
    r) (ri_gradient r) (ri_total_reward_time r) (ri_last_reward_block_num r)
    (ri_last_producer_name r) (ri_reward_block_num r).
Definition set_ri_total_block_out_age (x : Z) (r : reward_info) : reward_info :=
  RewardInfo (ri_id r) (ri_reward_block_out r) (ri_reward_budget r) x (ri_cycle_reward r)
    (ri_gradient r) (ri_total_reward_time r) (ri_last_reward_block_num r)
    (ri_last_producer_name r) (ri_reward_block_num r).
Definition set_ri_cycle_reward (x : Z) (r : reward_info) : reward_info :=
  RewardInfo (ri_id r) (ri_reward_block_out r) (ri_reward_budget r) (ri_total_block_out_age r)
    x (ri_gradient r) (ri_total_reward_time r) (ri_last_reward_block_num r)
    (ri_last_producer_name r) (ri_reward_block_num r).
Definition set_ri_gradient (x : Z) (r : reward_info) : reward_info :=
  RewardInfo (ri_id r) (ri_reward_block_out r) (ri_reward_budget r) (ri_total_block_out_age r)
    (ri_cycle_reward r) x (ri_total_reward_time r) (ri_last_reward_block_num r)
    (ri_last_producer_name r) (ri_reward_block_num r).
Definition set_ri_total_reward_time (x : Z) (r : reward_info) : reward_info :=
  RewardInfo (ri_id r) (ri_reward_block_out r) (ri_reward_budget r) (ri_total_block_out_age r)
    (ri_cycle_reward r) (ri_gradient r) x (ri_last_reward_block_num r) (ri_last_producer_name
    r) (ri_reward_block_num r).
Definition set_ri_last_reward_block_num (x : Z) (r : reward_info) : reward_info :=
  RewardInfo (ri_id r) (ri_reward_block_out r) (ri_reward_budget r) (ri_total_block_out_age r)
    (ri_cycle_reward r) (ri_gradient r) (ri_total_reward_time r) x (ri_last_producer_name r)
    (ri_reward_block_num r).
Definition set_ri_last_producer_name (x : Z) (r : reward_info) : reward_info :=
  RewardInfo (ri_id r) (ri_reward_block_out r) (ri_reward_budget r) (ri_total_block_out_age r)
    (ri_cycle_reward r) (ri_gradient r) (ri_total_reward_time r) (ri_last_reward_block_num r)
    x (ri_reward_block_num r).
Definition set_ri_reward_block_num (x : list Z) (r : reward_info) : reward_info :=
  RewardInfo (ri_id r) (ri_reward_block_out r) (ri_reward_budget r) (ri_total_block_out_age r)
    (ri_cycle_reward r) (ri_gradient r) (ri_total_reward_time r) (ri_last_reward_block_num r)
    (ri_last_producer_name r) x.

(** ** State. *)

(** [eosio::blockchain_parameters]. *)
Record blockchain_parameters := BlockchainParameters {
  max_block_net_usage : Z;
  target_block_net_usage_pct : Z;
  max_transaction_net_usage : Z;
  base_per_transaction_net_usage : Z;
  net_usage_leeway : Z;
  context_free_discount_net_usage_num : Z;
  context_free_discount_net_usage_den : Z;
  max_block_cpu_usage : Z;
  target_block_cpu_usage_pct : Z;
  max_transaction_cpu_usage : Z;
  min_transaction_cpu_usage : Z;
  context_free_discount_cpu_usage_num : Z;
  context_free_discount_cpu_usage_den : Z;
  max_transaction_lifetime : Z;
  deferred_trx_expiration_window : Z;
  max_transaction_delay : Z;
  max_inline_action_size : Z;
  max_inline_action_depth : Z;
  max_authority_depth : Z;
}.

(** The privileged host functions the contract calls. *)
Inductive host_call : Type :=
| set_resource_limits (account ram_bytes net_weight cpu_weight : Z)
| set_proposed_producers (schedule : list (Z * list Z))
| set_blockchain_parameters (params : blockchain_parameters)
| set_need_check_ram_limit (account : Z).

Record sys_state := SysState {
  freezed : gmap Z freeze_info;  (* by voter *)
  votes : gmap (Z * Z) vote_info;  (* by (voter, bp) *)
  mvotes : gmap Z votes_info;  (* by voter *)
  votes4ram : gmap (Z * Z) vote_info;  (* by (voter, bp) *)
  vote4ramsum : gmap Z vote4ram_info;  (* by voter *)
  bps : gmap Z bp_info;  (* by name *)
  schedules : gmap Z schedule_info;  (* by version *)
  reward : gmap Z reward_info;
  creationbp : gmap Z creation_bp;  (* by name *)
  lastdrainbp : gmap Z last_drain_block;  (* by bp *)
  punishbps : gmap Z punish_bp_info;  (* by bp *)
  apppunishbps : gmap Z approve_punish_bp;  (* by bp *)
  votereward : gmap (Z * Z) vote_reward_info;  (* by (bp, block) *)
  userres : gmap Z user_resources;  (* by owner *)
  delband : gmap (Z * Z) delegated_bandwidth;  (* by (from, to) *)
  refunds : gmap Z refund_request;  (* by owner *)
  host_calls : list host_call;  (* privileged calls, oldest first *)
}.

Definition set_freezed (x : gmap Z freeze_info) (r : sys_state) : sys_state :=
  SysState x (votes r) (mvotes r) (votes4ram r) (vote4ramsum r) (bps r) (schedules r) (reward
    r) (creationbp r) (lastdrainbp r) (punishbps r) (apppunishbps r) (votereward r) (userres
    r) (delband r) (refunds r) (host_calls r).
Definition set_votes (x : gmap (Z * Z) vote_info) (r : sys_state) : sys_state :=
  SysState (freezed r) x (mvotes r) (votes4ram r) (vote4ramsum r) (bps r) (schedules r)
    (reward r) (creationbp r) (lastdrainbp r) (punishbps r) (apppunishbps r) (votereward r)
    (userres r) (delband r) (refunds r) (host_calls r).
Definition set_mvotes (x : gmap Z votes_info) (r : sys_state) : sys_state :=
  SysState (freezed r) (votes r) x (votes4ram r) (vote4ramsum r) (bps r) (schedules r) (reward
    r) (creationbp r) (lastdrainbp r) (punishbps r) (apppunishbps r) (votereward r) (userres
    r) (delband r) (refunds r) (host_calls r).
Definition set_votes4ram (x : gmap (Z * Z) vote_info) (r : sys_state) : sys_state :=
  SysState (freezed r) (votes r) (mvotes r) x (vote4ramsum r) (bps r) (schedules r) (reward r)
    (creationbp r) (lastdrainbp r) (punishbps r) (apppunishbps r) (votereward r) (userres r)
    (delband r) (refunds r) (host_calls r).
Definition set_vote4ramsum (x : gmap Z vote4ram_info) (r : sys_state) : sys_state :=
  SysState (freezed r) (votes r) (mvotes r) (votes4ram r) x (bps r) (schedules r) (reward r)
    (creationbp r) (lastdrainbp r) (punishbps r) (apppunishbps r) (votereward r) (userres r)
    (delband r) (refunds r) (host_calls r).
Definition set_bps (x : gmap Z bp_info) (r : sys_state) : sys_state :=
  SysState (freezed r) (votes r) (mvotes r) (votes4ram r) (vote4ramsum r) x (schedules r)
    (reward r) (creationbp r) (lastdrainbp r) (punishbps r) (apppunishbps r) (votereward r)
    (userres r) (delband r) (refunds r) (host_calls r).
Definition set_schedules (x : gmap Z schedule_info) (r : sys_state) : sys_state :=
  SysState (freezed r) (votes r) (mvotes r) (votes4ram r) (vote4ramsum r) (bps r) x (reward r)
    (creationbp r) (lastdrainbp r) (punishbps r) (apppunishbps r) (votereward r) (userres r)
    (delband r) (refunds r) (host_calls r).
Definition set_reward (x : gmap Z reward_info) (r : sys_state) : sys_state :=
  SysState (freezed r) (votes r) (mvotes r) (votes4ram r) (vote4ramsum r) (bps r) (schedules
    r) x (creationbp r) (lastdrainbp r) (punishbps r) (apppunishbps r) (votereward r) (userres
    r) (delband r) (refunds r) (host_calls r).
Definition set_creationbp (x : gmap Z creation_bp) (r : sys_state) : sys_state :=
  SysState (freezed r) (votes r) (mvotes r) (votes4ram r) (vote4ramsum r) (bps r) (schedules
    r) (reward r) x (lastdrainbp r) (punishbps r) (apppunishbps r) (votereward r) (userres r)
    (delband r) (refunds r) (host_calls r).
Definition set_lastdrainbp (x : gmap Z last_drain_block) (r : sys_state) : sys_state :=
  SysState (freezed r) (votes r) (mvotes r) (votes4ram r) (vote4ramsum r) (bps r) (schedules
    r) (reward r) (creationbp r) x (punishbps r) (apppunishbps r) (votereward r) (userres r)
    (delband r) (refunds r) (host_calls r).
Definition set_punishbps (x : gmap Z punish_bp_info) (r : sys_state) : sys_state :=
  SysState (freezed r) (votes r) (mvotes r) (votes4ram r) (vote4ramsum r) (bps r) (schedules
    r) (reward r) (creationbp r) (lastdrainbp r) x (apppunishbps r) (votereward r) (userres r)
    (delband r) (refunds r) (host_calls r).
Definition set_apppunishbps (x : gmap Z approve_punish_bp) (r : sys_state) : sys_state :=
  SysState (freezed r) (votes r) (mvotes r) (votes4ram r) (vote4ramsum r) (bps r) (schedules
    r) (reward r) (creationbp r) (lastdrainbp r) (punishbps r) x (votereward r) (userres r)
    (delband r) (refunds r) (host_calls r).
Definition set_votereward (x : gmap (Z * Z) vote_reward_info) (r : sys_state) : sys_state :=
  SysState (freezed r) (votes r) (mvotes r) (votes4ram r) (vote4ramsum r) (bps r) (schedules
    r) (reward r) (creationbp r) (lastdrainbp r) (punishbps r) (apppunishbps r) x (userres r)
    (delband r) (refunds r) (host_calls r).
Definition set_userres (x : gmap Z user_resources) (r : sys_state) : sys_state :=
  SysState (freezed r) (votes r) (mvotes r) (votes4ram r) (vote4ramsum r) (bps r) (schedules
    r) (reward r) (creationbp r) (lastdrainbp r) (punishbps r) (apppunishbps r) (votereward r)
    x (delband r) (refunds r) (host_calls r).
Definition set_delband (x : gmap (Z * Z) delegated_bandwidth) (r : sys_state) : sys_state :=
  SysState (freezed r) (votes r) (mvotes r) (votes4ram r) (vote4ramsum r) (bps r) (schedules
    r) (reward r) (creationbp r) (lastdrainbp r) (punishbps r) (apppunishbps r) (votereward r)
    (userres r) x (refunds r) (host_calls r).
Definition set_refunds (x : gmap Z refund_request) (r : sys_state) : sys_state :=
  SysState (freezed r) (votes r) (mvotes r) (votes4ram r) (vote4ramsum r) (bps r) (schedules
    r) (reward r) (creationbp r) (lastdrainbp r) (punishbps r) (apppunishbps r) (votereward r)
    (userres r) (delband r) x (host_calls r).
Definition set_host_calls (x : list host_call) (r : sys_state) : sys_state :=
  SysState (freezed r) (votes r) (mvotes r) (votes4ram r) (vote4ramsum r) (bps r) (schedules
    r) (reward r) (creationbp r) (lastdrainbp r) (punishbps r) (apppunishbps r) (votereward r)
    (userres r) (delband r) (refunds r) x.

Abbreviation freezed_t := (View freezed set_freezed) (only parsing).
Abbreviation votes_t := (View votes set_votes) (only parsing).
Abbreviation mvotes_t := (View mvotes set_mvotes) (only parsing).
Abbreviation votes4ram_t := (View votes4ram set_votes4ram) (only parsing).
Abbreviation vote4ramsum_t := (View vote4ramsum set_vote4ramsum) (only parsing).
Abbreviation bps_t := (View bps set_bps) (only parsing).
Abbreviation schedules_t := (View schedules set_schedules) (only parsing).
Abbreviation reward_t := (View reward set_reward) (only parsing).
Abbreviation creationbp_t := (View creationbp set_creationbp) (only parsing).
Abbreviation lastdrainbp_t := (View lastdrainbp set_lastdrainbp) (only parsing).
Abbreviation punishbps_t := (View punishbps set_punishbps) (only parsing).
Abbreviation apppunishbps_t := (View apppunishbps set_apppunishbps) (only parsing).
Abbreviation votereward_t := (View votereward set_votereward) (only parsing).
Abbreviation userres_t := (View userres set_userres) (only parsing).
Abbreviation delband_t := (View delband set_delband) (only parsing).
Abbreviation refunds_t := (View refunds set_refunds) (only parsing).

Definition host_call_ (c : host_call) : M sys_state unit :=
  fun e s => Ok (tt, St (set_host_calls (host_calls (db s) ++ [c]) (db s))
                      (notified s) (inline_actions s)).

(** Reduces projections of updated states and rows, and nothing else. *)
Ltac ssimp :=
  cbn [freezed votes mvotes votes4ram vote4ramsum bps schedules reward creationbp lastdrainbp
       punishbps apppunishbps votereward userres delband refunds host_calls
              set_freezed set_votes set_mvotes set_votes4ram set_vote4ramsum set_bps
       set_schedules set_reward set_creationbp set_lastdrainbp set_punishbps set_apppunishbps
       set_votereward set_userres set_delband set_refunds set_host_calls
              vi_vote vi_bpname vi_voteage vi_voteage_update_height vi_total_reward mv_owner
       mv_producers mv_staked fi_staked fi_unstaking fi_voter fi_unstake_height bp_name
       bp_block_signing_key bp_commission_rate bp_total_staked bp_rewards_block bp_total_voteage
       bp_voteage_update_height bp_url bp_emergency bp_active_type bp_block_age
       bp_last_block_amount bp_block_weight bp_mortgage bp_total_drain_block bp_remain_punish
       bp_active_change_block_num bp_reward_size sc_version sc_block_height sc_producers ri_id
       ri_reward_block_out ri_reward_budget ri_total_block_out_age ri_cycle_reward ri_gradient
       ri_total_reward_time ri_last_reward_block_num ri_last_producer_name ri_reward_block_num
       v4_voter v4_staked vr_total_voteage vr_total_reward vr_reward_block_num ur_owner
       ur_net_weight ur_cpu_weight ur_ram_bytes db_from db_to db_net_weight db_cpu_weight
       rr_owner rr_request_time rr_net_amount rr_cpu_amount
              set_bp_name set_bp_block_signing_key set_bp_commission_rate set_bp_total_staked
       set_bp_rewards_block set_bp_total_voteage set_bp_voteage_update_height set_bp_url
       set_bp_emergency set_bp_active_type set_bp_block_age set_bp_last_block_amount
       set_bp_block_weight set_bp_mortgage set_bp_total_drain_block set_bp_remain_punish
       set_bp_active_change_block_num set_bp_reward_size set_ri_id set_ri_reward_block_out
       set_ri_reward_budget set_ri_total_block_out_age set_ri_cycle_reward set_ri_gradient
       set_ri_total_reward_time set_ri_last_reward_block_num set_ri_last_producer_name
       set_ri_reward_block_num
       amount symbol db notified inline_actions fst snd vget vset] in *.

Lemma host_call_ok c e s r :
  host_call_ c e s = Ok r <->
  r = (tt, St (set_host_calls (host_calls (db s) ++ [c]) (db s)) (notified s) (inline_actions s)).
Proof. unfold host_call_. split; by intros; simplify_eq. Qed.

(** Inversion of a run over the system tables: the runtime's, privileged calls and
    the comparisons of amounts. *)
Ltac sinv_step :=
  match goal with
  | H : host_call_ _ _ _ = Ok _ |- _ => apply host_call_ok in H
  | H : asset_eq _ _ = Ok _ |- _ => apply asset_cmp_ok in H as [_ H]
  | H : asset_lt _ _ = Ok _ |- _ => apply asset_cmp_ok in H as [_ H]
  | H : asset_le _ _ = Ok _ |- _ => apply asset_cmp_ok in H as [_ H]
  | H : asset_gt _ _ = Ok _ |- _ => apply asset_cmp_ok in H as [_ H]; rewrite Z.gtb_ltb in H
  | H : asset_ge _ _ = Ok _ |- _ => apply asset_cmp_ok in H as [_ H]; rewrite Z.geb_leb in H
  | H : ?b = (_ =? _)%Z |- _ => is_var b; subst b
  | H : ?b = (_ <? _)%Z |- _ => is_var b; subst b
  | H : ?b = (_ <=? _)%Z |- _ => is_var b; subst b
  end.
Ltac sinv := repeat ((minv_step || sinv_step || rinv_step); ssimp).
Ltac scase :=
  match goal with
  | H : (if ?b then _ else _) _ _ = Ok _ |- _ => destruct b eqn:?
  | H : (match ?o with Some _ => _ | None => _ end) _ _ = Ok _ |- _ => destruct o eqn:?
  end; sinv.

(** The active test of [bp_info]. *)
Definition isactive (b : bp_info) : bool := negb (bp_active_type b =? Removed).
