(* ===== verification/Voting.v ===== *)
(** * Staking and voting of the system contract.

    [voting.cpp], [multiple_vote.cpp], [vote4ram.cpp] and, of [producer.cpp], the
    vote reward records ([settlebpvote], [settlevoter], [claimvote]).  The build
    switch [IS_ACTIVE_MULTIPLE_VOTE] is the argument [multi]. *)
From stdpp Require Import base gmap list strings.
From Stdlib Require Import ZArith Lia.
From S2P Require Import Prelude Name Asset Runtime SystemState.

Open Scope Z_scope.

(** ** Vote ages. *)

(** [x.amount / CORE_SYMBOL_PRECISION]. *)
Definition whole (n : Z) : Z := Z.quot n CORE_SYMBOL_PRECISION.

(** [staked * (curr_block_num - height)]: the difference is taken in [uint32_t],
    the product in [int64_t]. *)
Definition age_gain (staked curr height : Z) : Z := i64 (staked * u32 (curr - height)).

(** The updater of [bp_info] in [vote], [vote4ram] and [update_votes]. *)
Definition bp_add_stake (curr change : Z) (b : bp_info) : bp_info :=
  let b := set_bp_total_voteage
             (i64 (bp_total_voteage b
                   + age_gain (bp_total_staked b) curr (bp_voteage_update_height b))) b in
  let b := set_bp_voteage_update_height curr b in
  set_bp_total_staked (i64 (bp_total_staked b + whole change)) b.

(** The updater of [vote_info] in [vote4ram] and [update_votes], before the new
    vote is stored. *)
Definition vote_age (curr : Z) (v : vote_info) : vote_info :=
  VoteInfo (vi_vote v) (vi_bpname v)
    (i64 (vi_voteage v
          + age_gain (whole (amount (vi_vote v))) curr (vi_voteage_update_height v)))
    curr (vi_total_reward v).

Definition with_vote (x : asset) (v : vote_info) : vote_info :=
  VoteInfo x (vi_bpname v) (vi_voteage v) (vi_voteage_update_height v) (vi_total_reward v).

Definition stake_allowed (stake : asset) : bool :=
  (0 <=? amount stake) && (Z.rem (amount stake) CORE_SYMBOL_PRECISION =? 0).

(** ** Vote rewards. *)

(** The loop state of [settlevoter]: the last vote age and its height, the reward
    so far, and whether a record was crossed. *)
Record settle_acc := SettleAcc {
  sa_voteage : Z;
  sa_height : Z;
  sa_reward : asset;
  sa_cross_day : bool;
}.

(** One record of the bp, visited by ascending block number. *)
Definition settle_record (vote bpname : Z) (acc : settle_acc) (pk : Z)
  : M sys_state settle_acc :=
  it ← get votereward_t (bpname, pk) "unable to find key";
  if sa_height acc <? u32 (vr_reward_block_num it) then
    let day_voteage :=
      i64 (sa_voteage acc + age_gain (whole vote) (vr_reward_block_num it) (sa_height acc)) in
    part ← lift (asset_mul (vr_total_reward it) day_voteage);
    reward ← lift (asset_div part (vr_total_voteage it));
    total ← lift (asset_add (sa_reward acc) reward);
    rest ← lift (asset_sub (vr_total_reward it) reward);
    modify votereward_t (bpname, pk)
      (VoteRewardInfo (i64 (vr_total_voteage it - day_voteage)) rest
         (vr_reward_block_num it));;
    mret (SettleAcc 0 (u32 (vr_reward_block_num it)) total true)
  else mret acc.

Definition settlevoter (voter bpname : Z) : M sys_state unit :=
  bp ← get bps_t bpname "bpname is not registered";
  e ← ask;
  vts ← get votes_t (voter, bpname) "settlevoter wrong";
  rows ← all_rows votereward_t;
  acc ← mfor (settle_record (amount (vi_vote vts)) bpname)
          (SettleAcc (vi_voteage vts) (vi_voteage_update_height vts)
             (Asset 0 CORE_SYMBOL) false)
          (scope_keys rows bpname);
  total ← lift (asset_add (vi_total_reward vts) (sa_reward acc));
  let gain := age_gain (whole (amount (vi_vote vts))) (current_block_num e) (sa_height acc) in
  modify votes_t (voter, bpname)
    (VoteInfo (vi_vote vts) (vi_bpname vts)
       (if sa_cross_day acc then gain else i64 (vi_voteage vts + gain))
       (current_block_num e) total).

(** The record of one bp at a settlement; the oldest of 360 records is dropped. *)
Definition settle_bp (_ : unit) (bpname : Z) : M sys_state unit :=
  it ← get bps_t bpname "unable to find key";
  e ← ask;
  let current_block := current_block_num e in
  reward_bp ← find votereward_t (bpname, current_block);
  match reward_bp with
  | None =>
      emplace votereward_t (bpname, u64 (i32 current_block))
        (VoteRewardInfo
           (i64 (bp_total_voteage it
                 + age_gain (bp_total_staked it) current_block (bp_voteage_update_height it)))
           (Asset 0 CORE_SYMBOL) (i32 current_block));;
      if bp_reward_size it =? BP_REWARD_RECORD_SIZE then
        rows ← all_rows votereward_t;
        match scope_keys rows bpname with
        | first :: second :: _ =>
            s ← get votereward_t (bpname, second) "unable to find key";
            modify votereward_t (bpname, second)
              (VoteRewardInfo (vr_total_voteage s) (Asset 0 CORE_SYMBOL)
                 (vr_reward_block_num s));;
            erase votereward_t (bpname, first)
        | _ => lift (Err "cannot increment end iterator")
        end
      else mret tt
  | Some _ => mret tt
  end;;
  let b := set_bp_voteage_update_height current_block it in
  let b := set_bp_total_voteage 0 b in
  modify bps_t bpname
    (if negb (bp_reward_size b =? BP_REWARD_RECORD_SIZE)
     then set_bp_reward_size (i32 (bp_reward_size b + 1)) b else b).

Definition settlebpvote : M sys_state unit :=
  rows ← all_rows bps_t;
  mfor settle_bp tt (sorted_keys rows).

Definition castcoin_name : Z := Eval vm_compute in N_ "castcoin".
Definition transfer_name : Z := Eval vm_compute in N_ "transfer".

(** [INLINE_ACTION_SENDER(eosio::token, transfer)] and [castcoin]. *)
Definition send_transfer (from to : Z) (quantity : asset) (memo : string) : M sys_state unit :=
  send (Action config.token_account_name transfer_name [(from, active)]
          (transfer_args from to quantity memo)).

Definition send_castcoin (from to : Z) (quantity : asset) : M sys_state unit :=
  send (Action config.token_account_name castcoin_name [(from, active)]
          (castcoin_args from to quantity)).

Definition claimvote (bpname receiver : Z) : M sys_state unit :=
  require_auth receiver;;
  settlevoter receiver bpname;;
  bp ← get bps_t bpname "bpname is not registered";
  vts ← get votes_t (receiver, bpname) "voter have not add votes to the the producer yet";
  reward_all ←
    (if receiver =? bpname then
       r ← lift (asset_add (vi_total_reward vts) (bp_rewards_block bp));
       modify bps_t bpname (set_bp_rewards_block (Asset 0 CORE_SYMBOL) bp);;
       mret r
     else mret (vi_total_reward vts));
  modify votes_t (receiver, bpname)
    (VoteInfo (vi_vote vts) (vi_bpname vts) (vi_voteage vts) (vi_voteage_update_height vts)
       (Asset 0 CORE_SYMBOL));;
  ok ← lift (asset_gt reward_all (Asset 100000 CORE_SYMBOL));
  eosio_assert ok "claim amount must > 10";;
  send_castcoin config.reward_account_name receiver reward_all.

(** ** Votes for several producers. *)

(** [producer_deltas]: the change of each producer and whether it is an old one. *)
Record producer_delta := ProducerDelta { pd_delta : asset; pd_is_old : bool }.

(** [producer_deltas[p]], which inserts the default entry. *)
Definition delta_of (m : gmap Z producer_delta) (p : Z) : producer_delta :=
  default (ProducerDelta (Asset 0 CORE_SYMBOL) false) (m !! p).

Definition mark_old (staked : asset) (m : gmap Z producer_delta) (p : Z)
  : result (gmap Z producer_delta) :=
  (let* d := asset_sub (pd_delta (delta_of m p)) staked in
   Ok (<[p := ProducerDelta d true]> m))%res.

Definition mark_new (staked : asset) (m : gmap Z producer_delta) (p : Z)
  : result (gmap Z producer_delta) :=
  (let* d := asset_add (pd_delta (delta_of m p)) staked in
   Ok (<[p := ProducerDelta d (pd_is_old (delta_of m p))]> m))%res.

(** [producers[i - 1] < producers[i]] for each [i]. *)
Fixpoint strictly_sorted (l : list Z) : bool :=
  match l with
  | a :: (b :: _) as l' => (a <? b) && strictly_sorted l'
  | _ => true
  end.

Definition apply_delta (voter_name : Z) (m : gmap Z producer_delta) (_ : unit) (p : Z)
  : M sys_state unit :=
  let change := pd_delta (delta_of m p) in
  z ← lift (asset_eq change (Asset 0 CORE_SYMBOL));
  if z : bool then mret tt else
  e ← ask;
  let curr_block_num := current_block_num e in
  bp ← get bps_t p "bp is not found!";
  vts ← find votes_t (voter_name, p);
  match vts with
  | None =>
      pos ← lift (asset_gt change (Asset 0 CORE_SYMBOL));
      eosio_assert pos "for no vote bp, cannot del vote";;
      emplace votes_t (voter_name, p)
        (VoteInfo change p 0 curr_block_num (Asset 0 CORE_SYMBOL))
  | Some v =>
      x ← lift (asset_add (vi_vote v) change);
      ge ← lift (asset_ge x (Asset 0 CORE_SYMBOL));
      eosio_assert ge "canot change vote < 0";;
      modify votes_t (voter_name, p) (with_vote x (vote_age curr_block_num v))
  end;;
  neg ← lift (asset_lt change (Asset 0 CORE_SYMBOL));
  eosio_assert (isactive bp || (negb (isactive bp) && neg)) "bp is not active";;
  modify bps_t p (bp_add_stake curr_block_num (amount change) bp).

Definition update_votes (multi : bool) (voter_name : Z) (producers : list Z)
  : M sys_state unit :=
  eosio_assert multi "curr chain multiple vote is not active";;
  eosio_assert (Z.of_nat (length producers) <=? 30) "attempt to vote for too many producers";;
  eosio_assert (strictly_sorted producers) "producer votes must be unique and sorted";;
  fts ← get freezed_t voter_name "voter need freeze first";
  let staked := fi_staked fts in
  voter ← find mvotes_t voter_name;
  deltas ←
    match voter with
    | None =>
        emplace mvotes_t voter_name (VotesInfo voter_name producers staked);;
        mret ∅
    | Some v =>
        old ← lift (rfold (mark_old (mv_staked v)) ∅ (mv_producers v));
        modify mvotes_t voter_name (VotesInfo (mv_owner v) producers staked);;
        mret old
    end;
  deltas ← lift (rfold (mark_new staked) deltas producers);
  mfor (apply_delta voter_name deltas) tt (sorted_keys deltas).

Definition voteproducer (multi : bool) (voter_name : Z) (producers : list Z)
  : M sys_state unit :=
  require_auth voter_name;;
  update_votes multi voter_name producers.

(** ** Freezing. *)

(** The row of the voter and the change of its stake. *)
Definition place_freeze (multi : bool) (voter : Z) (stake : asset) : M sys_state asset :=
  e ← ask;
  let curr_block_num := current_block_num e in
  fts ← find freezed_t voter;
  match fts with
  | None =>
      emplace freezed_t voter (FreezeInfo stake (Asset 0 CORE_SYMBOL) voter curr_block_num);;
      mret stake
  | Some f =>
      change ← lift (asset_sub stake (fi_staked f));
      neg ← lift (asset_lt change (Asset 0 CORE_SYMBOL));
      row ←
        (if neg : bool then
           u ← lift (asset_add (fi_unstaking f) (asset_neg change));
           mret (FreezeInfo stake u (fi_voter f) curr_block_num)
         else mret (FreezeInfo stake (fi_unstaking f) (fi_voter f) (fi_unstake_height f)));
      modify freezed_t voter row;;
      mv ← find mvotes_t voter;
      match mv with
      | Some v =>
          z ← lift (asset_eq change (Asset 0 CORE_SYMBOL));
          if z : bool then mret tt else update_votes multi voter (mv_producers v)
      | None => mret tt
      end;;
      mret change
  end.

Definition freeze (multi : bool) (voter : Z) (stake : asset) : M sys_state unit :=
  require_auth voter;;
  eosio_assert (symbol stake =? CORE_SYMBOL) "only support CORE SYMBOL token";;
  eosio_assert (stake_allowed stake) "need stake quantity >= 0 and quantity is integer";;
  change ← place_freeze multi voter stake;
  pos ← lift (asset_gt change (Asset 0 CORE_SYMBOL));
  if pos : bool then send_transfer voter config.system_account_name change "freeze"
  else mret tt.

(** Gives back to the frozen stake of the voter what a smaller vote frees. *)
Definition return_stake (voter : Z) (change : asset) : M sys_state unit :=
  e ← ask;
  fts ← find freezed_t voter;
  match fts with
  | None =>
      emplace freezed_t voter
        (FreezeInfo (asset_neg change) (Asset 0 CORE_SYMBOL) voter (current_block_num e))
  | Some f =>
      x ← lift (asset_add (fi_staked f) (asset_neg change));
      modify freezed_t voter (FreezeInfo x (fi_unstaking f) (fi_voter f) (current_block_num e))
  end.

(** Takes from the frozen stake of the voter what a larger vote needs. *)
Definition take_stake (voter : Z) (change : asset) : M sys_state unit :=
  f ← get freezed_t voter "voter freeze token < vote token";
  ge ← lift (asset_ge (fi_staked f) change);
  eosio_assert ge "voter freeze token < vote token";;
  x ← lift (asset_sub (fi_staked f) change);
  modify freezed_t voter (FreezeInfo x (fi_unstaking f) (fi_voter f) (fi_unstake_height f)).

(** The row of the vote and the change of its stake. *)
Definition place_vote (voter bpname : Z) (stake : asset) : M sys_state asset :=
  e ← ask;
  let curr_block_num := current_block_num e in
  vts ← find votes_t (voter, bpname);
  match vts with
  | None =>
      emplace votes_t (voter, bpname)
        (VoteInfo stake bpname 0 curr_block_num (Asset 0 CORE_SYMBOL));;
      mret stake
  | Some _ =>
      settlevoter voter bpname;;
      vts_temp ← get votes_t (voter, bpname) "unable to find key";
      change ← lift (asset_sub stake (vi_vote vts_temp));
      neg ← lift (asset_lt change (Asset 0 CORE_SYMBOL));
      (if neg : bool then return_stake voter change else mret tt);;
      modify votes_t (voter, bpname) (with_vote stake vts_temp);;
      mret change
  end.

Definition vote (multi : bool) (voter bpname : Z) (stake : asset) : M sys_state unit :=
  require_auth voter;;
  eosio_assert (negb multi)
    "curr chain is active mutiple vote, no allow vote to simple bp";;
  create_bp ← find creationbp_t bpname;
  eosio_assert (bool_decide (create_bp = None)) "creation bp can not to be voted";;
  eosio_assert (symbol stake =? CORE_SYMBOL) "only support CORE SYMBOL token";;
  eosio_assert (stake_allowed stake) "need stake quantity >= 0 and quantity is integer";;
  e ← ask;
  change ← place_vote voter bpname stake;
  bp ← get bps_t bpname "bpname is not registered";
  neg ← lift (asset_lt change (Asset 0 CORE_SYMBOL));
  eosio_assert (isactive bp || (negb (isactive bp) && neg)) "bp is not active";;
  pos ← lift (asset_gt change (Asset 0 CORE_SYMBOL));
  (if pos : bool then take_stake voter change else mret tt);;
  modify bps_t bpname (bp_add_stake (current_block_num e) (amount change) bp).

(** The updater is given a copy of the row; it is taken to update the row. *)
Definition unfreeze (voter : Z) : M sys_state unit :=
  require_auth voter;;
  itr ← get freezed_t voter "voter have not freeze token yet";
  e ← ask;
  let curr_block_num := current_block_num e in
  eosio_assert (u32 (fi_unstake_height itr + FROZEN_DELAY) <? curr_block_num)
    "unfreeze is not available yet";;
  eosio_assert (0 <? amount (fi_unstaking itr)) "need unstaking quantity > 0";;
  send_transfer config.system_account_name voter (fi_unstaking itr) "unfreeze";;
  u ← lift (set_amount (fi_unstaking itr) 0);
  modify freezed_t voter (FreezeInfo (fi_staked itr) u (fi_voter itr) curr_block_num).

(** Charges a fee in vote age. *)
Definition fee (payer bpname voteage : Z) : M sys_state unit :=
  require_auth payer;;
  bp ← get bps_t bpname "bpname is not registered";
  e ← ask;
  let curr_block_num := current_block_num e in
  let newest_total_voteage :=
    i64 (bp_total_voteage bp
         + age_gain (bp_total_staked bp) curr_block_num (bp_voteage_update_height bp)) in
  vts ← get votes_t (payer, bpname) "voter have not add votes to the the producer yet";
  let newest_voteage :=
    i64 (vi_voteage vts
         + age_gain (whole (amount (vi_vote vts))) curr_block_num
             (vi_voteage_update_height vts)) in
  eosio_assert ((0 <? voteage) && (voteage <=? newest_voteage))
    "voteage must be greater than zero and have sufficient voteage!";;
  modify votes_t (payer, bpname)
    (VoteInfo (vi_vote vts) (vi_bpname vts) (i64 (newest_voteage - voteage)) curr_block_num
       (vi_total_reward vts));;
  modify bps_t bpname
    (set_bp_voteage_update_height curr_block_num
       (set_bp_total_voteage (i64 (newest_total_voteage - voteage)) bp)).

Definition place_vote4ram (voter bpname : Z) (stake : asset) : M sys_state asset :=
  e ← ask;
  let curr_block_num := current_block_num e in
  vts ← find votes4ram_t (voter, bpname);
  match vts with
  | None =>
      emplace votes4ram_t (voter, bpname)
        (VoteInfo stake bpname 0 curr_block_num (Asset 0 CORE_SYMBOL));;
      mret stake
  | Some v =>
      change ← lift (asset_sub stake (vi_vote v));
      neg ← lift (asset_lt change (Asset 0 CORE_SYMBOL));
      (if neg : bool then return_stake voter change else mret tt);;
      modify votes4ram_t (voter, bpname) (with_vote stake (vote_age curr_block_num v));;
      mret change
  end.

Definition add_vote4ramsum (voter : Z) (stake change : asset) : M sys_state unit :=
  vtss ← find vote4ramsum_t voter;
  match vtss with
  | None => emplace vote4ramsum_t voter (Vote4ramInfo voter stake)
  | Some v =>
      x ← lift (asset_add (v4_staked v) change);
      modify vote4ramsum_t voter (Vote4ramInfo (v4_voter v) x)
  end.

Definition vote4ram (voter bpname : Z) (stake : asset) : M sys_state unit :=
  require_auth voter;;
  bp ← get bps_t bpname "bpname is not registered";
  eosio_assert (symbol stake =? CORE_SYMBOL) "only support CORE SYMBOL token";;
  eosio_assert (stake_allowed stake) "need stake quantity >= 0 and quantity is integer";;
  e ← ask;
  change ← place_vote4ram voter bpname stake;
  neg ← lift (asset_lt change (Asset 0 CORE_SYMBOL));
  eosio_assert (isactive bp || (negb (isactive bp) && neg)) "bp is not active";;
  pos ← lift (asset_gt change (Asset 0 CORE_SYMBOL));
  (if pos : bool then take_stake voter change else mret tt);;
  modify bps_t bpname (bp_add_stake (current_block_num e) (amount change) bp);;
  add_vote4ramsum voter stake change;;
  host_call_ (set_need_check_ram_limit voter).

(** ** The actions of this part of the contract. *)
Inductive vcall : Type :=
| Freeze (voter : Z) (stake : asset)
| Unfreeze (voter : Z)
| Vote (voter bpname : Z) (stake : asset)
| Voteproducer (voter_name : Z) (producers : list Z)
| Vote4ram (voter bpname : Z) (stake : asset)
| Fee (payer bpname voteage : Z)
| Claimvote (bpname receiver : Z).

Definition vapply (multi : bool) (c : vcall) : M sys_state unit :=
  match c with
  | Freeze voter stake => freeze multi voter stake
  | Unfreeze voter => unfreeze voter
  | Vote voter bpname stake => vote multi voter bpname stake
  | Voteproducer voter_name producers => voteproducer multi voter_name producers
  | Vote4ram voter bpname stake => vote4ram voter bpname stake
  | Fee payer bpname voteage => fee payer bpname voteage
  | Claimvote bpname receiver => claimvote bpname receiver
  end.
