(* ===== verification/Staking.v ===== *)
(** * Staking: custody of the frozen and voted tokens, vote tallies. *)
From stdpp Require Import base gmap list strings.
From Stdlib Require Import ZArith Lia.
From S2P Require Import Prelude Name Asset Runtime SystemState Voting.

Open Scope Z_scope.

(** ** Invariant. *)

(** A non-negative amount of the core token, a whole number of tokens. *)
Definition stake_amount (a : asset) : Prop :=
  coin a /\ 0 <= amount a /\ (CORE_SYMBOL_PRECISION | amount a).

Definition freeze_row (f : freeze_info) : Prop :=
  stake_amount (fi_staked f) /\ stake_amount (fi_unstaking f).

Definition rows {K V} `{Countable K} (P : V -> Prop) (m : gmap K V) : Prop :=
  forall k v, m !! k = Some v -> P v.

Definition vote_row (v : vote_info) : Prop := stake_amount (vi_vote v).

(** What a voter has in [votes4ram], over all producers. *)
Definition ram_of (m : gmap (Z * Z) vote_info) (voter : Z) : Z :=
  map_sum (fun k v => if fst k =? voter then amount (vi_vote v) else 0) m.

Definition ramsum_of (m : gmap Z vote4ram_info) (voter : Z) : Z :=
  match m !! voter with Some v => amount (v4_staked v) | None => 0 end.

Record stake_inv (s : sys_state) : Prop := {
  inv_freezed : rows freeze_row (freezed s);
  inv_votes : rows vote_row (votes s);
  inv_votes4ram : rows vote_row (votes4ram s);
  inv_single : mvotes s = ∅;
  inv_ramsum_coin : rows (fun v => coin (v4_staked v)) (vote4ramsum s);
  inv_ramsum : forall voter, ramsum_of (vote4ramsum s) voter = ram_of (votes4ram s) voter;
}.

(** ** Custody: what the system account holds for the voters. *)

Definition frozen (m : gmap Z freeze_info) : Z :=
  map_sum (fun _ f => amount (fi_staked f) + amount (fi_unstaking f)) m.

Definition voted (m : gmap (Z * Z) vote_info) : Z := map_sum (fun _ v => amount (vi_vote v)) m.

Definition custody (s : sys_state) : Z :=
  frozen (freezed s) + voted (votes s) + voted (votes4ram s).

(** What an action moves into and out of an account of the token contract. *)
Definition flow (acct : Z) (a : action) : Z :=
  match act_data a with
  | transfer_args from to q _ =>
      (if to =? acct then amount q else 0) - (if from =? acct then amount q else 0)
  | castcoin_args from _ q => - (if from =? acct then amount q else 0)
  | _ => 0
  end.

Definition flows (acct : Z) (l : list action) : Z := foldr (fun a acc => flow acct a + acc) 0 l.

Lemma flows_app acct l1 l2 : flows acct (l1 ++ l2) = flows acct l1 + flows acct l2.
Proof. induction l1 as [|a l1 IH]; simpl; [done|]. rewrite IH. lia. Qed.

(** ** Tallies. *)

(** Whole tokens voted for a bp. *)
Definition votes_for (m : gmap (Z * Z) vote_info) (bp : Z) : Z :=
  map_sum (fun k v => if snd k =? bp then whole (amount (vi_vote v)) else 0) m.

(** The part of a bp's total that no vote accounts for, modulo 64 bits. *)
Definition unvoted (s : sys_state) (bp : Z) : option Z :=
  (fun b => i64 (bp_total_staked b - votes_for (votes s) bp - votes_for (votes4ram s) bp))
    <$> bps s !! bp.

(** ** Lemmas. *)

Lemma rows_insert {K V} `{Countable K} (P : V -> Prop) (m : gmap K V) k v :
  rows P m -> P v -> rows P (<[k := v]> m).
Proof.
  intros Hm Hv k' v' Hk'. apply lookup_insert_Some in Hk' as [[_ <-]|[_ Hk']]; eauto.
Qed.

Lemma stake_amount_coin a : stake_amount a -> coin a.
Proof. by intros [? _]. Qed.

Lemma coin_eta a n : coin a -> n = amount a -> a = Asset n CORE_SYMBOL.
Proof. destruct a. intros [? _] ->. simpl in *. by subst. Qed.

Lemma stake_zero : stake_amount (Asset 0 CORE_SYMBOL).
Proof. split; [by apply coin_mk; arange; lia|]. split; [done|]. apply Z.divide_0_r. Qed.

Lemma stake_amount_mk n :
  in_range n -> 0 <= n -> (CORE_SYMBOL_PRECISION | n) -> stake_amount (Asset n CORE_SYMBOL).
Proof. by split; [apply coin_mk|]. Qed.

Lemma stake_allowed_ok a :
  in_range (amount a) -> symbol a = CORE_SYMBOL -> stake_allowed a = true -> stake_amount a.
Proof.
  intros Hr Hs H. unfold stake_allowed in H. rinv. split; [by split|]. split; [done|].
  apply Z.rem_divide; done.
Qed.

Lemma coin_zero : coin (Asset 0 CORE_SYMBOL).
Proof. apply stake_zero. Qed.
Create HintDb stake.
#[export] Hint Resolve stake_amount_coin stake_zero coin_zero : stake.

(** A row stays, with its unstaking height or the height [curr]. *)
Definition height_moved (curr : Z) (f f' : option freeze_info) : Prop :=
  forall x, f = Some x ->
  exists y, f' = Some y /\
    (fi_unstake_height y = fi_unstake_height x \/ fi_unstake_height y = curr).

Lemma height_moved_refl curr f : height_moved curr f f.
Proof. intros x ->. eauto. Qed.

Lemma height_moved_trans curr f1 f2 f3 :
  height_moved curr f1 f2 -> height_moved curr f2 f3 -> height_moved curr f1 f3.
Proof.
  intros H12 H23 x Hx. destruct (H12 _ Hx) as (y & Hy & Ey).
  destruct (H23 _ Hy) as (z & Hz & Ez). exists z. split; [done|]. destruct Ey, Ez; eauto with congruence.
Qed.

(** The frozen stake after a change of [n] of another stake of the voter. *)
Definition frozen_moved (curr voter n : Z) (m m' : gmap Z freeze_info) : Prop :=
  rows freeze_row m' /\ frozen m' = frozen m - n /\
  (forall k, k <> voter -> m' !! k = m !! k) /\ height_moved curr (m !! voter) (m' !! voter).

Lemma frozen_moved_trans curr voter n1 n2 m1 m2 m3 :
  frozen_moved curr voter n1 m1 m2 -> frozen_moved curr voter n2 m2 m3 ->
  frozen_moved curr voter (n1 + n2) m1 m3.
Proof.
  intros (? & E1 & F1 & ?) (? & E2 & F2 & ?). split_and!; [done|lia| |].
  - intros k Hk. by rewrite F2, F1.
  - by eapply height_moved_trans.
Qed.

Lemma frozen_moved_refl curr voter m : rows freeze_row m -> frozen_moved curr voter 0 m m.
Proof. intros Hm. split_and!; [done|lia|done|apply height_moved_refl]. Qed.

Lemma return_stake_ok voter n e s r :
  rows freeze_row (freezed (db s)) -> - max_amount <= n < 0 -> (CORE_SYMBOL_PRECISION | n) ->
  return_stake voter (Asset n CORE_SYMBOL) e s = Ok r ->
  exists m, r = (tt, St (set_freezed m (db s)) (notified s) (inline_actions s)) /\
    frozen_moved (current_block_num e) voter n (freezed (db s)) m.
Proof.
  intros Hinv Hn Hd H. unfold return_stake in H. sinv.
  rewrite coin_neg in * by (apply coin_mk; arange; lia). ssimp.
  assert (Hd' : (CORE_SYMBOL_PRECISION | - n)) by by apply Z.divide_opp_r.
  scase.
  - destruct (Hinv _ _ Heqo) as [[Hs [Hs0 Hsd]] Hu].
    match goal with Hx : asset_add _ _ = Ok _ |- _ =>
      apply coin_add in Hx as [-> Hr]; [|done|apply coin_mk; arange; lia] end. ssimp.
    eexists; split; [done|]. unfold frozen_moved. split_and!.
    + apply rows_insert; [done|]. split; [|done]. ssimp.
      apply stake_amount_mk; [done|lia|by apply Z.divide_add_r].
    + unfold frozen. rewrite map_sum_insert, (at_key_Some _ _ _ _ Heqo). ssimp. lia.
    + intros k Hk. by rewrite lookup_insert_ne.
    + intros x Hx. rewrite lookup_insert_eq. simplify_eq. eexists. ssimp. eauto.
  - eexists; split; [done|]. unfold frozen_moved. split_and!.
    + apply rows_insert; [done|]. split; ssimp; [|apply stake_zero].
      apply stake_amount_mk; [arange; lia|lia|done].
    + unfold frozen. rewrite map_sum_insert, (at_key_None _ _ _ Heqo). ssimp. lia.
    + intros k Hk. by rewrite lookup_insert_ne.
    + by rewrite Heqo.
Qed.

Lemma take_stake_ok voter n e s r :
  rows freeze_row (freezed (db s)) -> 0 <= n <= max_amount -> (CORE_SYMBOL_PRECISION | n) ->
  take_stake voter (Asset n CORE_SYMBOL) e s = Ok r ->
  exists m, r = (tt, St (set_freezed m (db s)) (notified s) (inline_actions s)) /\
    frozen_moved (current_block_num e) voter n (freezed (db s)) m.
Proof.
  intros Hinv Hn Hd H. unfold take_stake in H. sinv.
  match goal with Hl : freezed _ !! _ = Some _ |- _ => rename Hl into Hf end.
  destruct (Hinv _ _ Hf) as [[Hs [Hs0 Hsd]] Hu].
  match goal with Hx : asset_sub _ _ = Ok _ |- _ =>
    apply coin_sub in Hx as [-> Hr]; [|done|apply coin_mk; arange; lia] end. ssimp.
  eexists; split; [done|]. unfold frozen_moved. split_and!.
  - apply rows_insert; [done|]. split; [|done]. ssimp.
    apply stake_amount_mk; [done|lia|by apply Z.divide_sub_r].
  - unfold frozen. rewrite map_sum_insert, (at_key_Some _ _ _ _ Hf). ssimp. lia.
  - intros k Hk. by rewrite lookup_insert_ne.
  - intros x' Hx. rewrite lookup_insert_eq. simplify_eq. eexists. ssimp. eauto.
Qed.

(** Both directions, as the actions guard them. *)
Lemma maybe_return_ok voter n e s r :
  rows freeze_row (freezed (db s)) -> in_range n -> (CORE_SYMBOL_PRECISION | n) ->
  (if n <? 0 then return_stake voter (Asset n CORE_SYMBOL) else mret tt) e s = Ok r ->
  exists m, r = (tt, St (set_freezed m (db s)) (notified s) (inline_actions s)) /\
    frozen_moved (current_block_num e) voter (Z.min n 0) (freezed (db s)) m.
Proof.
  intros Hinv Hn Hd H. destruct (Z.ltb_spec n 0).
  - rewrite Z.min_l by lia. apply return_stake_ok in H; [done..|arange; lia|done].
  - rewrite Z.min_r by lia. sinv. exists (freezed (db s)).
    split; [by destruct s as [[] ? ?]|]. by apply frozen_moved_refl.
Qed.

Lemma maybe_take_ok voter n e s r :
  rows freeze_row (freezed (db s)) -> in_range n -> (CORE_SYMBOL_PRECISION | n) ->
  (if 0 <? n then take_stake voter (Asset n CORE_SYMBOL) else mret tt) e s = Ok r ->
  exists m, r = (tt, St (set_freezed m (db s)) (notified s) (inline_actions s)) /\
    frozen_moved (current_block_num e) voter (Z.max n 0) (freezed (db s)) m.
Proof.
  intros Hinv Hn Hd H. destruct (Z.ltb_spec 0 n).
  - rewrite Z.max_l by lia. apply take_stake_ok in H; [done..|arange; lia|done].
  - rewrite Z.max_r by lia. sinv. exists (freezed (db s)).
    split; [by destruct s as [[] ? ?]|]. by apply frozen_moved_refl.
Qed.

(** [settlevoter] rewrites the reward records and the row of the vote, whose stake
    it keeps. *)
Lemma settle_records_frame vote bpname acc e s acc' s' l :
  mfor (settle_record vote bpname) acc l e s = Ok (acc', s') ->
  exists m, s' = St (set_votereward m (db s)) (notified s) (inline_actions s).
Proof.
  intros H.
  apply (mfor_inv (fun _ s1 => exists m,
           s1 = St (set_votereward m (db s)) (notified s) (inline_actions s))) in H; [done| |].
  - intros a x s1 r1 _ [m ->] Hf. unfold settle_record in Hf. sinv.
    scase; eexists; done.
  - exists (votereward (db s)). by destruct s as [[] ? ?].
Qed.

Lemma settlevoter_frame voter bpname e s r :
  settlevoter voter bpname e s = Ok r ->
  exists v v' m, votes (db s) !! (voter, bpname) = Some v /\
    vi_vote v' = vi_vote v /\ vi_bpname v' = vi_bpname v /\
    r = (tt, St (set_votes (<[(voter, bpname) := v']> (votes (db s)))
                   (set_votereward m (db s))) (notified s) (inline_actions s)).
Proof.
  intros H. unfold settlevoter in H. sinv.
  match goal with Hf : mfor _ _ _ _ _ = Ok _ |- _ =>
    apply settle_records_frame in Hf as [m ->] end. ssimp.
  do 3 eexists. split_and!; [done| | |done]; done.
Qed.

(** ** What each action does. *)

Definition vote_at (m : gmap (Z * Z) vote_info) (k : Z * Z) : Z :=
  match m !! k with Some v => amount (vi_vote v) | None => 0 end.

(** The change of stake is in range, and a whole number of tokens. *)
Lemma change_ok (m : gmap (Z * Z) vote_info) k stake :
  rows vote_row m -> stake_amount stake ->
  in_range (amount stake - vote_at m k) /\
  (CORE_SYMBOL_PRECISION | amount stake - vote_at m k).
Proof.
  intros Hm [[_ Hr] [H0 Hd]]. unfold vote_at. destruct (m !! k) as [v|] eqn:Hk.
  - destruct (Hm _ _ Hk) as [[_ Hvr] [Hv0 Hvd]]. split; [arange; lia|by apply Z.divide_sub_r].
  - rewrite Z.sub_0_r. done.
Qed.

Lemma stake_inv_freezed s m :
  stake_inv s -> rows freeze_row m -> stake_inv (set_freezed m s).
Proof. intros [] ?. by split. Qed.

Lemma stake_inv_votes s k v :
  stake_inv s -> vote_row v -> stake_inv (set_votes (<[k := v]> (votes s)) s).
Proof. intros [] ?. split; ssimp; try done. by apply rows_insert. Qed.

Lemma stake_inv_other s m1 m2 m3 m4 :
  stake_inv s -> stake_inv (set_bps m1 (set_votereward m2 (set_host_calls m3 (set_userres m4 s)))).
Proof. intros []. by split. Qed.

Lemma place_vote_ok voter bpname stake e s c s' :
  stake_inv (db s) -> stake_amount stake ->
  place_vote voter bpname stake e s = Ok (c, s') ->
  let change := amount stake - vote_at (votes (db s)) (voter, bpname) in
  c = Asset change CORE_SYMBOL /\
  exists v mf mr, vi_vote v = stake /\
    frozen_moved (current_block_num e) voter (Z.min change 0) (freezed (db s)) mf /\
    s' = St (set_freezed mf (set_votereward mr
               (set_votes (<[(voter, bpname) := v]> (votes (db s))) (db s))))
           (notified s) (inline_actions s).
Proof.
  intros Hinv Hst H change. unfold place_vote in H. sinv.
  destruct (change_ok (votes (db s)) (voter, bpname) stake (inv_votes _ Hinv) Hst) as [Hcr Hcd].
  fold change in Hcr, Hcd. unfold vote_at in change.
  destruct (votes (db s) !! (voter, bpname)) as [v|] eqn:Hv; sinv.
  - match goal with Hs : settlevoter _ _ _ _ = Ok _ |- _ =>
      apply settlevoter_frame in Hs as (v1 & v2 & mr & Hv1 & Hv2 & _ & [= ->]) end.
    ssimp. simplify_map_eq.
    match goal with Hs : asset_sub _ _ = Ok _ |- _ => rewrite Hv2 in Hs;
      apply coin_sub in Hs as [-> _]; [|apply Hst|apply (inv_votes _ Hinv _ _ Hv)] end.
    ssimp.
    match goal with Hx : (if _ then return_stake _ _ else _) _ _ = Ok _ |- _ =>
      apply maybe_return_ok in Hx as (mf & [= ->] & ?); [|apply Hinv|done..] end.
    ssimp. split; [done|]. eexists _, mf, mr.
    split; [|split; [done|rewrite insert_insert_eq; reflexivity]]; done.
  - split; [apply coin_eta; [apply Hst|lia]|].
    eexists _, (freezed (db s)), (votereward (db s)).
    split; [|split; [|destruct s as [[] ? ?]; reflexivity]]; [done|].
    rewrite Z.min_r by (destruct Hst as (_ & ? & _); lia). apply frozen_moved_refl, Hinv.
Qed.

Lemma vote_ok voter bpname stake e s r :
  stake_inv (db s) -> in_range (amount stake) -> vote false voter bpname stake e s = Ok r ->
  let change := amount stake - vote_at (votes (db s)) (voter, bpname) in
  has_authorization (authorization e) voter = true /\
  stake_amount stake /\
  exists b v mf mr,
    bps (db s) !! bpname = Some b /\ vi_vote v = stake /\
    frozen_moved (current_block_num e) voter change (freezed (db s)) mf /\
    r = (tt, St (set_bps (<[bpname := bp_add_stake (current_block_num e) change b]> (bps (db s)))
                  (set_freezed mf (set_votereward mr
                    (set_votes (<[(voter, bpname) := v]> (votes (db s))) (db s)))))
           (notified s) (inline_actions s)).
Proof.
  intros Hinv Hr H change. unfold vote in H. sinv.
  assert (Hst : stake_amount stake) by by apply stake_allowed_ok.
  destruct (change_ok (votes (db s)) (voter, bpname) stake (inv_votes _ Hinv) Hst) as [Hcr Hcd].
  split; [done|]. split; [done|].
  match goal with Hp : place_vote _ _ _ _ _ = Ok _ |- _ =>
    apply place_vote_ok in Hp as (-> & v & mf & mr & Hv & Hf & ->); [|done|done] end.
  ssimp.
  match goal with Hx : (if _ then take_stake _ _ else _) _ _ = Ok _ |- _ =>
    apply maybe_take_ok in Hx as (mf' & [= ->] & Hf'); [|apply Hf|done|done] end.
  ssimp. eexists _, v, mf', mr. split; [done|]. split; [done|]. split; [|done].
  replace change with (Z.min change 0 + Z.max change 0) by lia. by eapply frozen_moved_trans.
Qed.

Lemma place_vote4ram_ok voter bpname stake e s c s' :
  stake_inv (db s) -> stake_amount stake ->
  place_vote4ram voter bpname stake e s = Ok (c, s') ->
  let change := amount stake - vote_at (votes4ram (db s)) (voter, bpname) in
  c = Asset change CORE_SYMBOL /\
  exists v mf, vi_vote v = stake /\
    frozen_moved (current_block_num e) voter (Z.min change 0) (freezed (db s)) mf /\
    s' = St (set_freezed mf
               (set_votes4ram (<[(voter, bpname) := v]> (votes4ram (db s))) (db s)))
           (notified s) (inline_actions s).
Proof.
  intros Hinv Hst H change. unfold place_vote4ram in H. sinv.
  destruct (change_ok (votes4ram (db s)) (voter, bpname) stake (inv_votes4ram _ Hinv) Hst)
    as [Hcr Hcd].
  fold change in Hcr, Hcd. unfold vote_at in change.
  destruct (votes4ram (db s) !! (voter, bpname)) as [v|] eqn:Hv; sinv.
  - match goal with Hs : asset_sub _ _ = Ok _ |- _ =>
      apply coin_sub in Hs as [-> _]; [|apply Hst|apply (inv_votes4ram _ Hinv _ _ Hv)] end.
    ssimp.
    match goal with Hx : (if _ then return_stake _ _ else _) _ _ = Ok _ |- _ =>
      apply maybe_return_ok in Hx as (mf & [= ->] & ?); [|apply Hinv|done..] end.
    ssimp. split; [done|]. eexists _, mf. split; [|split; [done|reflexivity]]; done.
  - split; [apply coin_eta; [apply Hst|lia]|]. eexists _, (freezed (db s)).
    split; [|split; [|destruct s as [[] ? ?]; reflexivity]]; [done|].
    rewrite Z.min_r by (destruct Hst as (_ & ? & _); lia). apply frozen_moved_refl, Hinv.
Qed.

(** A vote of [votes4ram] changes the sum of its voter only. *)
Lemma ram_of_insert m voter bp v voter' :
  ram_of (<[(voter, bp) := v]> m) voter' =
  ram_of m voter' + (if voter =? voter' then amount (vi_vote v) - vote_at m (voter, bp) else 0).
Proof.
  unfold ram_of, vote_at. rewrite map_sum_insert. unfold at_key. cbn [fst].
  destruct (m !! (voter, bp)), (voter =? voter'); lia.
Qed.

Lemma ram_of_ge m k : rows vote_row m -> vote_at m k <= ram_of m (fst k).
Proof.
  intros Hm.
  assert (Hat : vote_at m k =
    at_key (fun k0 v => if fst k0 =? fst k then amount (vi_vote v) else 0) m k).
  { unfold vote_at, at_key. destruct (m !! k); [by rewrite Z.eqb_refl|done]. }
  rewrite Hat. apply map_sum_ge_at. intros k' v' Hk'. destruct (Hm _ _ Hk') as (_ & ? & _).
  destruct (_ =? _); lia.
Qed.

Lemma vote_at_nonneg m k : rows vote_row m -> 0 <= vote_at m k.
Proof.
  intros Hm. unfold vote_at. destruct (m !! k) eqn:Hk; [|done].
  destruct (Hm _ _ Hk) as (_ & ? & _). lia.
Qed.

Lemma add_vote4ramsum_ok voter stake n e s r :
  rows (fun v => coin (v4_staked v)) (vote4ramsum (db s)) -> coin stake -> in_range n ->
  (vote4ramsum (db s) !! voter = None -> amount stake = n) ->
  add_vote4ramsum voter stake (Asset n CORE_SYMBOL) e s = Ok r ->
  exists w, r = (tt, St (set_vote4ramsum (<[voter := w]> (vote4ramsum (db s))) (db s))
                       (notified s) (inline_actions s)) /\
    coin (v4_staked w) /\
    amount (v4_staked w) = ramsum_of (vote4ramsum (db s)) voter + n.
Proof.
  intros Hrows Hst Hn Hnone H. unfold add_vote4ramsum, ramsum_of in *. sinv.
  scase.
  - match goal with Hx : asset_add _ _ = Ok _ |- _ =>
      apply coin_add in Hx as [-> ?]; [|by eapply Hrows|by apply coin_mk] end.
    eexists. split; [done|]. by split.
  - eexists. split; [done|]. split; [done|]. ssimp. by rewrite Hnone.
Qed.

Lemma vote4ram_ok voter bpname stake e s r :
  stake_inv (db s) -> in_range (amount stake) -> vote4ram voter bpname stake e s = Ok r ->
  let change := amount stake - vote_at (votes4ram (db s)) (voter, bpname) in
  has_authorization (authorization e) voter = true /\
  stake_amount stake /\
  exists b v mf w,
    bps (db s) !! bpname = Some b /\ vi_vote v = stake /\
    frozen_moved (current_block_num e) voter change (freezed (db s)) mf /\
    coin (v4_staked w) /\
    amount (v4_staked w) = ramsum_of (vote4ramsum (db s)) voter + change /\
    r = (tt, St (set_host_calls (host_calls (db s) ++ [set_need_check_ram_limit voter])
                  (set_vote4ramsum (<[voter := w]> (vote4ramsum (db s)))
                  (set_bps (<[bpname := bp_add_stake (current_block_num e) change b]> (bps (db s)))
                  (set_freezed mf
                    (set_votes4ram (<[(voter, bpname) := v]> (votes4ram (db s))) (db s))))))
           (notified s) (inline_actions s)).
Proof.
  intros Hinv Hr H change. unfold vote4ram in H. sinv.
  assert (Hst : stake_amount stake) by by apply stake_allowed_ok.
  destruct (change_ok (votes4ram (db s)) (voter, bpname) stake (inv_votes4ram _ Hinv) Hst)
    as [Hcr Hcd].
  split; [done|]. split; [done|].
  match goal with Hp : place_vote4ram _ _ _ _ _ = Ok _ |- _ =>
    apply place_vote4ram_ok in Hp as (-> & v & mf & Hv & Hf & ->); [|done|done] end.
  ssimp.
  match goal with Hx : (if _ then take_stake _ _ else _) _ _ = Ok _ |- _ =>
    apply maybe_take_ok in Hx as (mf' & [= ->] & Hf'); [|apply Hf|done|done] end.
  match goal with Hx : add_vote4ramsum _ _ _ _ _ = Ok _ |- _ =>
    apply add_vote4ramsum_ok in Hx as (w & [= ->] & Hw & Hws); [|apply Hinv|apply Hst|done|] end.
  - ssimp. eexists _, v, mf', w. split; [done|]. split; [done|]. split; [|done].
    replace change with (Z.min change 0 + Z.max change 0) by lia. by eapply frozen_moved_trans.
  - ssimp. intros Hnone. pose proof (inv_ramsum _ Hinv voter) as Hsum.
    unfold ramsum_of in Hsum. rewrite Hnone in Hsum.
    pose proof (ram_of_ge (votes4ram (db s)) (voter, bpname) (inv_votes4ram _ Hinv)).
    pose proof (vote_at_nonneg (votes4ram (db s)) (voter, bpname) (inv_votes4ram _ Hinv)).
    simpl in *. lia.
Qed.

(** The frozen part of a voter's stake and the part being unfrozen. *)
Definition staked_of (s : sys_state) (voter : Z) : Z :=
  match freezed s !! voter with Some f => amount (fi_staked f) | None => 0 end.
Definition unstaking_of (s : sys_state) (voter : Z) : Z :=
  match freezed s !! voter with Some f => amount (fi_unstaking f) | None => 0 end.

Lemma frozen_insert m voter f :
  frozen (<[voter := f]> m) =
  frozen m + (amount (fi_staked f) + amount (fi_unstaking f))
  - match m !! voter with
    | Some f => amount (fi_staked f) + amount (fi_unstaking f)
    | None => 0
    end.
Proof. unfold frozen. rewrite map_sum_insert. unfold at_key. destruct (m !! voter); lia. Qed.

Definition transfer_action (from to n : Z) (memo : string) : action :=
  Action config.token_account_name transfer_name [(from, active)]
    (transfer_args from to (Asset n CORE_SYMBOL) memo).

Lemma place_freeze_ok voter stake e s c s' :
  stake_inv (db s) -> stake_amount stake -> place_freeze false voter stake e s = Ok (c, s') ->
  let change := amount stake - staked_of (db s) voter in
  c = Asset change CORE_SYMBOL /\
  exists f,
    fi_staked f = stake /\ stake_amount (fi_unstaking f) /\
    amount (fi_unstaking f) = unstaking_of (db s) voter - Z.min change 0 /\
    (change < 0 -> fi_unstake_height f = current_block_num e) /\
    height_moved (current_block_num e) (freezed (db s) !! voter) (Some f) /\
    s' = St (set_freezed (<[voter := f]> (freezed (db s))) (db s)) (notified s)
           (inline_actions s).
Proof.
  intros Hinv Hst H change. unfold place_freeze in H. sinv. unfold staked_of, unstaking_of in *.
  destruct (freezed (db s) !! voter) as [f|] eqn:Hf; sinv.
  - destruct (inv_freezed _ Hinv _ _ Hf) as [(? & ? & Hsd) (? & ? & Hud)].
    match goal with Hs : asset_sub _ _ = Ok _ |- _ =>
      apply coin_sub in Hs as [-> ?]; [|apply Hst|done] end. ssimp.
    split; [done|]. destruct Hst as (? & ? & Hstd).
    assert (Hcd : (CORE_SYMBOL_PRECISION | change)) by by apply Z.divide_sub_r.
    destruct (Z.ltb_spec (amount stake - amount (fi_staked f)) 0); sinv;
      rewrite (inv_single _ Hinv), lookup_empty in *; sinv.
    + rewrite coin_neg in * by by apply coin_mk. ssimp.
      match goal with Hs : asset_add _ _ = Ok _ |- _ =>
        apply coin_add in Hs as [-> ?]; [|done|apply coin_mk; arange; lia] end. ssimp.
      eexists. split; [|split; [|split; [|split; [|split; [|reflexivity]]]]]; ssimp; [done| |lia|done|].
      2: { intros y [= <-]. eexists; ssimp; eauto. }
      apply stake_amount_mk; [done|lia|]. apply Z.divide_add_r; [done|]. by apply Z.divide_opp_r.
    + eexists. split; [|split; [|split; [|split; [|split; [|reflexivity]]]]]; ssimp; [done|by split|lia|lia|].
      intros y [= <-]. eexists; ssimp; eauto.
  - split; [apply coin_eta; [apply Hst|lia]|].
    destruct Hst as (? & ? & Hstd).
    eexists. split; [|split; [|split; [|split; [|split; [|reflexivity]]]]]; ssimp; try done; [|lia].
    apply stake_zero.
Qed.

Lemma freeze_ok voter stake e s r :
  stake_inv (db s) -> in_range (amount stake) -> freeze false voter stake e s = Ok r ->
  let change := amount stake - staked_of (db s) voter in
  has_authorization (authorization e) voter = true /\
  stake_amount stake /\
  exists f,
    fi_staked f = stake /\ stake_amount (fi_unstaking f) /\
    amount (fi_unstaking f) = unstaking_of (db s) voter - Z.min change 0 /\
    (change < 0 -> fi_unstake_height f = current_block_num e) /\
    height_moved (current_block_num e) (freezed (db s) !! voter) (Some f) /\
    r = (tt, St (set_freezed (<[voter := f]> (freezed (db s))) (db s)) (notified s)
           (inline_actions s ++
            if 0 <? change
            then [transfer_action voter config.system_account_name change "freeze"] else [])).
Proof.
  intros Hinv Hr H change. unfold freeze in H. sinv.
  assert (Hst : stake_amount stake) by by apply stake_allowed_ok.
  split; [done|]. split; [done|].
  match goal with Hp : place_freeze _ _ _ _ _ = Ok _ |- _ =>
    apply place_freeze_ok in Hp as (-> & f & ? & ? & ? & ? & ? & ->); [|done|done] end.
  exists f. ssimp. do 5 (split; [done|]). subst change.
  destruct (0 <? _); unfold send_transfer in *; sinv; [done|]. by rewrite app_nil_r.
Qed.

Lemma unfreeze_ok voter e s r :
  stake_inv (db s) -> unfreeze voter e s = Ok r ->
  has_authorization (authorization e) voter = true /\
  exists f,
    freezed (db s) !! voter = Some f /\ 0 < amount (fi_unstaking f) /\
    u32 (fi_unstake_height f + FROZEN_DELAY) < current_block_num e /\
    r = (tt, St (set_freezed (<[voter := FreezeInfo (fi_staked f) (Asset 0 CORE_SYMBOL)
                                           (fi_voter f) (current_block_num e)]>
                               (freezed (db s))) (db s)) (notified s)
           (inline_actions s ++
            [transfer_action config.system_account_name voter (amount (fi_unstaking f))
               "unfreeze"])).
Proof.
  intros Hinv H. unfold unfreeze, send_transfer in H. sinv. split; [done|].
  match goal with Hl : freezed _ !! _ = Some ?f |- _ =>
    exists f; destruct (inv_freezed _ Hinv _ _ Hl) as [_ [[Hu Hur] _]] end.
  do 3 (split; [done|]).
  match goal with Hs : set_amount _ _ = Ok _ |- _ => unfold set_amount in Hs; rinv end.
  rewrite Hu. do 4 f_equal. unfold transfer_action. do 3 f_equal. by apply coin_eta.
Qed.

Lemma voteage_fee_ok payer bpname voteage e s r :
  fee payer bpname voteage e s = Ok r ->
  has_authorization (authorization e) payer = true /\
  exists b v v' age,
    bps (db s) !! bpname = Some b /\ votes (db s) !! (payer, bpname) = Some v /\
    vi_vote v' = vi_vote v /\
    r = (tt, St (set_bps (<[bpname := set_bp_voteage_update_height (current_block_num e)
                                        (set_bp_total_voteage age b)]> (bps (db s)))
                  (set_votes (<[(payer, bpname) := v']> (votes (db s))) (db s)))
           (notified s) (inline_actions s)).
Proof.
  intros H. unfold fee in H. sinv. split; [done|]. do 4 eexists.
  split; [done|]. split; [done|]. split; [|reflexivity]. done.
Qed.

Lemma claimvote_ok bpname receiver e s r :
  claimvote bpname receiver e s = Ok r ->
  has_authorization (authorization e) receiver = true /\
  exists b b' v v' mr q,
    bps (db s) !! bpname = Some b /\ votes (db s) !! (receiver, bpname) = Some v /\
    bp_total_staked b' = bp_total_staked b /\ vi_vote v' = vi_vote v /\
    r = (tt, St (set_bps (<[bpname := b']> (bps (db s)))
                  (set_votes (<[(receiver, bpname) := v']> (votes (db s)))
                    (set_votereward mr (db s))))
           (notified s)
           (inline_actions s ++
            [Action config.token_account_name castcoin_name
               [(config.reward_account_name, active)]
               (castcoin_args config.reward_account_name receiver q)])).
Proof.
  intros H. unfold claimvote, send_castcoin in H. sinv. split; [done|].
  match goal with Hs : settlevoter _ _ _ _ = Ok _ |- _ =>
    apply settlevoter_frame in Hs as (v & v2 & mr & Hv & Hv2 & _ & [= ->]) end.
  ssimp. simplify_map_eq.
  match goal with Hb : bps _ !! bpname = Some ?x |- _ => rename x into b end.
  destruct (receiver =? bpname); sinv.
  - match goal with |- context [<[_ := ?w]> (<[_ := _]> (votes _))] =>
      exists b, (set_bp_rewards_block (Asset 0 CORE_SYMBOL) b), v, w, mr end.
    eexists. do 4 (split; [done|]). by rewrite insert_insert_eq.
  - match goal with |- context [<[_ := ?w]> (<[_ := _]> (votes _))] =>
      exists b, b, v, w, mr end.
    eexists. do 4 (split; [done|]). by rewrite insert_insert_eq, (insert_id (bps (db s))).
Qed.

(** ** Sums after a change of one row. *)

Lemma voted_insert m k v :
  voted (<[k := v]> m) = voted m + amount (vi_vote v) - vote_at m k.
Proof.
  unfold voted, vote_at. rewrite map_sum_insert. unfold at_key. destruct (m !! k); lia.
Qed.

Lemma votes_for_insert m voter bp v bp' :
  votes_for (<[(voter, bp) := v]> m) bp' =
  votes_for m bp' +
  (if bp =? bp' then whole (amount (vi_vote v)) - whole (vote_at m (voter, bp)) else 0).
Proof.
  unfold votes_for, vote_at. rewrite map_sum_insert. unfold at_key. cbn [snd].
  destruct (m !! (voter, bp)), (bp =? bp'); try lia.
  change (whole 0) with 0. lia.
Qed.

Lemma votes_for_same m voter bp v v' bp' :
  m !! (voter, bp) = Some v -> vi_vote v' = vi_vote v ->
  votes_for (<[(voter, bp) := v']> m) bp' = votes_for m bp' /\
  voted (<[(voter, bp) := v']> m) = voted m.
Proof.
  intros Hv E. rewrite votes_for_insert, voted_insert. unfold vote_at. rewrite Hv, E.
  split; [destruct (_ =? _)|]; lia.
Qed.

Lemma whole_sub a b :
  (CORE_SYMBOL_PRECISION | a) -> (CORE_SYMBOL_PRECISION | b) ->
  whole (a - b) = whole a - whole b.
Proof.
  unfold whole. intros [x ->] [y ->]. rewrite <- Z.mul_sub_distr_r.
  by rewrite !Z.quot_mul by (unfold CORE_SYMBOL_PRECISION; lia).
Qed.

Lemma vote_at_divide m k : rows vote_row m -> (CORE_SYMBOL_PRECISION | vote_at m k).
Proof.
  intros Hm. unfold vote_at. destruct (m !! k) as [v|] eqn:Hk; [|apply Z.divide_0_r].
  apply (Hm _ _ Hk).
Qed.

Lemma wrapS_congr w a b c :
  0 < w -> wrapS w (wrapS w (a + b) - c) = wrapS w (a + b - c).
Proof.
  intros Hw. unfold wrapS. f_equal.
  replace (a + b - c + 2 ^ (w - 1)) with ((a + b + 2 ^ (w - 1)) - c) by lia.
  rewrite <- (Zminus_mod_idemp_l (a + b + 2 ^ (w - 1)) c). f_equal. lia.
Qed.

(** A vote changes the total of the bp by the change of its stake. *)
Lemma unvoted_vote s s' bpname b curr change bp :
  bps s !! bpname = Some b ->
  bps s' = <[bpname := bp_add_stake curr change b]> (bps s) ->
  votes_for (votes s') bp + votes_for (votes4ram s') bp =
    votes_for (votes s) bp + votes_for (votes4ram s) bp +
    (if bpname =? bp then whole change else 0) ->
  unvoted s' bp = unvoted s bp.
Proof.
  intros Hb E Hsum. unfold unvoted. rewrite E.
  destruct (Z.eqb_spec bpname bp) as [->|Hne].
  - rewrite lookup_insert_eq, Hb. cbn [fmap option_fmap option_map]. f_equal.
    unfold bp_add_stake. ssimp.
    rewrite <- Z.sub_add_distr, Hsum, wrapS_congr, <- Z.sub_add_distr by lia. f_equal. lia.
  - rewrite lookup_insert_ne by done. destruct (bps s !! bp); [|done].
    cbn [fmap option_fmap option_map]. do 2 f_equal. lia.
Qed.

Lemma unvoted_same s s' bp :
  bp_total_staked <$> bps s' !! bp = bp_total_staked <$> bps s !! bp ->
  votes_for (votes s') bp + votes_for (votes4ram s') bp =
    votes_for (votes s) bp + votes_for (votes4ram s) bp ->
  unvoted s' bp = unvoted s bp.
Proof.
  intros E Hsum. unfold unvoted.
  destruct (bps s' !! bp), (bps s !! bp); simplify_eq/=; try done. rewrite E. do 2 f_equal. lia.
Qed.

(** ** Every action keeps the invariant, the custody equation and the tallies. *)

Definition sys_acct : Z := config.system_account_name.

(** An action of the account [by_]: the transfers move what is held, unless the system
    account stakes with itself. *)
Definition kept (by_ : Z) (s s' : st sys_state) : Prop :=
  stake_inv (db s') /\
  (by_ <> sys_acct ->
   custody (db s') - flows sys_acct (inline_actions s') =
     custody (db s) - flows sys_acct (inline_actions s)) /\
  (forall bp, unvoted (db s') bp = unvoted (db s) bp).

Lemma vote_kept voter bpname stake e s r :
  stake_inv (db s) -> in_range (amount stake) -> vote false voter bpname stake e s = Ok r ->
  kept voter s (snd r).
Proof.
  intros Hinv Hr H.
  apply vote_ok in H as (_ & Hst & b & v & mf & mr & Hb & Hv & (Hf & Hfz & _) & ->); [|done..].
  ssimp. split_and!.
  - destruct Hinv. split; ssimp; try done. apply rows_insert; [done|]. unfold vote_row. by rewrite Hv.
  - intros _. unfold custody. ssimp. rewrite voted_insert, Hfz, Hv. lia.
  - intros bp. eapply unvoted_vote; ssimp; [done|reflexivity|].
    rewrite votes_for_insert, Hv, whole_sub; [|apply Hst|apply vote_at_divide, Hinv].
    destruct (_ =? _); lia.
Qed.

Lemma vote4ram_kept voter bpname stake e s r :
  stake_inv (db s) -> in_range (amount stake) -> vote4ram voter bpname stake e s = Ok r ->
  kept voter s (snd r).
Proof.
  intros Hinv Hr H.
  apply vote4ram_ok in H
    as (_ & Hst & b & v & mf & w & Hb & Hv & (Hf & Hfz & _) & Hw & Hws & ->); [|done..].
  ssimp. split_and!.
  - split; ssimp; try apply Hinv; [done| | |].
    + apply rows_insert; [apply Hinv|]. unfold vote_row. by rewrite Hv.
    + apply rows_insert; [apply Hinv|done].
    + intros voter'. rewrite ram_of_insert, Hv. pose proof (inv_ramsum _ Hinv voter') as Hsum.
      unfold ramsum_of in *. destruct (Z.eqb_spec voter voter') as [->|Hne].
      * rewrite lookup_insert_eq. lia.
      * rewrite lookup_insert_ne by done. lia.
  - intros _. unfold custody. ssimp. rewrite voted_insert, Hfz, Hv. lia.
  - intros bp. eapply unvoted_vote; ssimp; [done|reflexivity|].
    rewrite votes_for_insert, Hv, whole_sub; [|apply Hst|apply vote_at_divide, Hinv].
    destruct (_ =? _); lia.
Qed.

Lemma flow_transfer_to from n memo :
  from <> sys_acct -> flow sys_acct (transfer_action from sys_acct n memo) = n.
Proof.
  intros Hne. unfold flow, transfer_action. cbn [act_data].
  rewrite Z.eqb_refl, (proj2 (Z.eqb_neq from sys_acct)) by done. simpl. lia.
Qed.

Lemma flow_transfer_from to n memo :
  to <> sys_acct -> flow sys_acct (transfer_action sys_acct to n memo) = - n.
Proof.
  intros Hne. unfold flow, transfer_action. cbn [act_data].
  rewrite Z.eqb_refl, (proj2 (Z.eqb_neq to sys_acct)) by done. simpl. lia.
Qed.

Lemma freeze_kept voter stake e s r :
  stake_inv (db s) -> in_range (amount stake) ->
  freeze false voter stake e s = Ok r -> kept voter s (snd r).
Proof.
  intros Hinv Hr H.
  apply freeze_ok in H as (_ & Hst & f & Hf & Hu & Hun & _ & _ & ->); [|done..].
  ssimp. split_and!.
  - apply stake_inv_freezed; [done|]. apply rows_insert; [apply Hinv|]. split; [by rewrite Hf|done].
  - intros Hne. unfold custody. ssimp. rewrite frozen_insert, flows_app, Hf, Hun.
    assert (E : forall n, flows sys_acct (if 0 <? n
      then [transfer_action voter config.system_account_name n "freeze"] else []) = Z.max n 0).
    { intros n. destruct (Z.ltb_spec 0 n); simpl; [|lia]. rewrite (flow_transfer_to voter n) by done. lia. }
    rewrite E. unfold staked_of, unstaking_of. destruct (freezed (db s) !! voter); lia.
  - done.
Qed.

Lemma unfreeze_kept voter e s r :
  stake_inv (db s) -> unfreeze voter e s = Ok r -> kept voter s (snd r).
Proof.
  intros Hinv H. apply unfreeze_ok in H as (_ & f & Hf & Hpos & _ & ->); [|done].
  destruct (inv_freezed _ Hinv _ _ Hf) as [Hs Hu]. ssimp. split_and!.
  - apply stake_inv_freezed; [done|]. apply rows_insert; [apply Hinv|]. split; [done|apply stake_zero].
  - intros Hne. unfold custody. ssimp. rewrite frozen_insert, flows_app, Hf. cbn [flows foldr].
    rewrite flow_transfer_from by done. ssimp. lia.
  - done.
Qed.

Lemma fee_kept payer bpname voteage e s r :
  stake_inv (db s) -> fee payer bpname voteage e s = Ok r -> kept payer s (snd r).
Proof.
  intros Hinv H. apply voteage_fee_ok in H as (_ & b & v & v' & age & Hb & Hv & E & ->).
  ssimp. split_and!.
  - pose proof (inv_votes _ Hinv _ _ Hv) as Hrow. destruct Hinv. split; ssimp; try done.
    apply rows_insert; [done|]. unfold vote_row. by rewrite E.
  - intros _. unfold custody. ssimp. rewrite (proj2 (votes_for_same _ _ _ _ _ 0 Hv E)). done.
  - intros bp. apply unvoted_same; ssimp.
    + destruct (Z.eq_dec bpname bp) as [->|]; simplify_map_eq; done.
    + by rewrite (proj1 (votes_for_same _ _ _ _ _ bp Hv E)).
Qed.

Lemma claimvote_kept bpname receiver e s r :
  stake_inv (db s) -> claimvote bpname receiver e s = Ok r -> kept receiver s (snd r).
Proof.
  intros Hinv H. apply claimvote_ok in H as (_ & b & b' & v & v' & mr & q & Hb & Hv & Eb & E & ->).
  ssimp. split_and!.
  - pose proof (inv_votes _ Hinv _ _ Hv) as Hrow. destruct Hinv. split; ssimp; try done.
    apply rows_insert; [done|]. unfold vote_row. by rewrite E.
  - intros _. unfold custody. ssimp. rewrite flows_app, (proj2 (votes_for_same _ _ _ _ _ 0 Hv E)).
    assert (F : forall a n p, flows sys_acct [Action a n p
      (castcoin_args config.reward_account_name receiver q)] = 0) by done.
    rewrite F. lia.
  - intros bp. apply unvoted_same; ssimp.
    + destruct (Z.eq_dec bpname bp) as [->|]; simplify_map_eq; [by rewrite Eb|done].
    + by rewrite (proj1 (votes_for_same _ _ _ _ _ bp Hv E)).
Qed.

(** The account that calls, and the amounts the token contract accepts. *)
Definition caller (c : vcall) : Z :=
  match c with
  | Freeze v _ | Unfreeze v | Vote v _ _ | Voteproducer v _ | Vote4ram v _ _
  | Fee v _ _ | Claimvote _ v => v
  end.

Definition vcall_typed (c : vcall) : Prop :=
  match c with
  | Freeze _ q | Vote _ _ q | Vote4ram _ _ q => in_range (amount q)
  | _ => True
  end.

Lemma vapply_kept c e s r :
  stake_inv (db s) -> vcall_typed c -> vapply false c e s = Ok r -> kept (caller c) s (snd r).
Proof.
  destruct c; simpl; intros Hinv Hty H;
    eauto using freeze_kept, unfreeze_kept, vote_kept, vote4ram_kept, fee_kept, claimvote_kept.
  unfold voteproducer, update_votes in H. sinv.
Qed.

(** An action is authorized by its caller and touches the stakes of its caller only. *)
Definition others_kept (voter : Z) (s s' : sys_state) : Prop :=
  forall v, v <> voter ->
    freezed s' !! v = freezed s !! v /\
    forall bp, votes s' !! (v, bp) = votes s !! (v, bp) /\
               votes4ram s' !! (v, bp) = votes4ram s !! (v, bp).

Lemma others_kept_freezed voter s s' :
  (forall v, v <> voter -> freezed s' !! v = freezed s !! v) ->
  (forall v bp, v <> voter -> votes s' !! (v, bp) = votes s !! (v, bp)) ->
  (forall v bp, v <> voter -> votes4ram s' !! (v, bp) = votes4ram s !! (v, bp)) ->
  others_kept voter s s'.
Proof. intros ??? v Hv. auto. Qed.

Lemma lookup_insert_other {V} (m : gmap (Z * Z) V) (v voter bp bp' : Z) x :
  v <> voter -> <[(voter, bp') := x]> m !! (v, bp) = m !! (v, bp).
Proof. intros Hne. apply lookup_insert_ne. congruence. Qed.

Lemma vapply_frame c e s r :
  stake_inv (db s) -> vcall_typed c -> vapply false c e s = Ok r ->
  has_authorization (authorization e) (caller c) = true /\
  others_kept (caller c) (db s) (db (snd r)) /\
  height_moved (current_block_num e) (freezed (db s) !! caller c)
    (freezed (db (snd r)) !! caller c).
Proof.
  destruct c; simpl; intros Hinv Hty H.
  - apply freeze_ok in H as (? & _ & f & _ & _ & _ & _ & Hh & ->); [|done..]. ssimp.
    rewrite lookup_insert_eq. split_and!; [done| |done].
    apply others_kept_freezed; ssimp; [|done..]. intros. by apply lookup_insert_ne.
  - apply unfreeze_ok in H as (? & f & Hf & _ & _ & ->); [|done]. ssimp.
    rewrite lookup_insert_eq, Hf. split_and!; [done| |].
    + apply others_kept_freezed; ssimp; [|done..]. intros. by apply lookup_insert_ne.
    + intros y [= <-]. eexists. ssimp. eauto.
  - apply vote_ok in H as (? & _ & b & v & mf & mr & _ & _ & (_ & _ & Ho & Hh) & ->); [|done..].
    ssimp. split; [done|]. split; [|done]. apply others_kept_freezed; ssimp; [done| |done].
    intros. by apply lookup_insert_other.
  - unfold voteproducer, update_votes in H. sinv.
  - apply vote4ram_ok in H
      as (? & _ & b & v & mf & w & _ & _ & (_ & _ & Ho & Hh) & _ & _ & ->); [|done..].
    ssimp. split; [done|]. split; [|done]. apply others_kept_freezed; ssimp; [done|done|].
    intros. by apply lookup_insert_other.
  - apply voteage_fee_ok in H as (? & b & v & v' & age & _ & _ & _ & ->). ssimp.
    split; [done|]. split; [|apply height_moved_refl].
    apply others_kept_freezed; ssimp; [done| |done]. intros. by apply lookup_insert_other.
  - apply claimvote_ok in H as (? & b & b' & v & v' & mr & q & _ & _ & _ & _ & ->). ssimp.
    split; [done|]. split; [|apply height_moved_refl].
    apply others_kept_freezed; ssimp; [done| |done]. intros. by apply lookup_insert_other.
Qed.

(** What the actions send: payments in the core token, and the castcoin of a reward. *)
Definition payment (a : action) : Prop :=
  (exists from to n memo, a = transfer_action from to n memo) \/
  (exists to q, a = Action config.token_account_name castcoin_name
                      [(config.reward_account_name, active)]
                      (castcoin_args config.reward_account_name to q)).

Definition pays (s s' : st sys_state) : Prop :=
  notified s' = notified s /\
  exists l, inline_actions s' = inline_actions s ++ l /\ Forall payment l.

Lemma pays_nil s d : pays s (St d (notified s) (inline_actions s)).
Proof. split; [done|]. exists []. by rewrite app_nil_r. Qed.

Lemma pays_one s d a : payment a -> pays s (St d (notified s) (inline_actions s ++ [a])).
Proof. intros Ha. split; [done|]. exists [a]. split; [done|by constructor]. Qed.

Lemma payment_transfer from to n memo : payment (transfer_action from to n memo).
Proof. left. eauto. Qed.

(** The tables of [delegate_bandwidth.cpp] are left alone. *)
Definition same_bandwidth (s s' : sys_state) : Prop :=
  delband s' = delband s /\ refunds s' = refunds s /\ userres s' = userres s.

Lemma vapply_pays c e s r :
  stake_inv (db s) -> vcall_typed c -> vapply false c e s = Ok r ->
  pays s (snd r) /\ same_bandwidth (db s) (db (snd r)).
Proof.
  destruct c; simpl; intros Hinv Hty H.
  - apply freeze_ok in H as (_ & _ & f & _ & _ & _ & _ & _ & ->); [|done..].
    split; [|done]. destruct (0 <? _); [apply pays_one, payment_transfer|].
    rewrite app_nil_r. apply pays_nil.
  - apply unfreeze_ok in H as (_ & f & _ & _ & _ & ->); [|done].
    split; [apply pays_one, payment_transfer|done].
  - apply vote_ok in H as (_ & _ & b & v & mf & mr & _ & _ & _ & ->); [|done..].
    split; [apply pays_nil|done].
  - unfold voteproducer, update_votes in H. sinv.
  - apply vote4ram_ok in H as (_ & _ & b & v & mf & w & _ & _ & _ & _ & _ & ->); [|done..].
    split; [apply pays_nil|done].
  - apply voteage_fee_ok in H as (_ & b & v & v' & age & _ & _ & _ & ->). split; [apply pays_nil|done].
  - apply claimvote_ok in H as (_ & b & b' & v & v' & mr & q & _ & _ & _ & _ & ->).
    split; [|done]. apply pays_one. right. eauto.
Qed.

(** ** What is held for the accounts other than the system account itself. *)

Definition users {K V} `{Countable K} (who : K -> Z) (f : V -> Z) (m : gmap K V) : Z :=
  map_sum (fun k v => if who k =? sys_acct then 0 else f v) m.

Definition users_custody (s : sys_state) : Z :=
  users id (fun f => amount (fi_staked f) + amount (fi_unstaking f)) (freezed s) +
  users fst (fun v => amount (vi_vote v)) (votes s) +
  users fst (fun v => amount (vi_vote v)) (votes4ram s).

Section users.
Context {K V : Type} `{Countable K} (who : K -> Z) (f : V -> Z).

(** It is the same where only the system account's own rows differ. *)
Lemma users_agree (m m' : gmap K V) :
  (forall k, who k <> sys_acct -> m' !! k = m !! k) -> users who f m' = users who f m.
Proof.
  intros Hag. unfold users.
  rewrite (map_sum_filter (fun x => who (fst x) <> sys_acct) _ m), (map_sum_filter (fun x => who (fst x) <> sys_acct) _ m');
    [|intros k v _ Hn; by destruct (Z.eqb_spec (who k) sys_acct)..].
  f_equal. apply map_eq. intros k. apply option_eq. intros v. rewrite !map_lookup_filter_Some. cbn [fst].
  split; intros [? Hk]; (split; [|done]); [rewrite <- Hag|rewrite Hag]; done.
Qed.

(** Where those rows are the same, it differs as the whole sum does. *)
Lemma users_total (m m' : gmap K V) :
  (forall k, who k = sys_acct -> m' !! k = m !! k) ->
  users who f m' - users who f m = map_sum (fun _ v => f v) m' - map_sum (fun _ v => f v) m.
Proof.
  intros Hag. set (own (m : gmap K V) := map_sum (fun k v => if who k =? sys_acct then f v else 0) m).
  assert (E : forall m, map_sum (fun _ v => f v) m = users who f m + own m).
  { intros m0. unfold users, own. rewrite <- map_sum_add. apply map_sum_ext. intros k v _.
    destruct (who k =? sys_acct); lia. }
  rewrite !E. assert (own m' = own m); [|lia]. unfold own.
  rewrite (map_sum_filter (fun x => who (fst x) = sys_acct) _ m), (map_sum_filter (fun x => who (fst x) = sys_acct) _ m');
    [|intros k v _ Hn; by destruct (Z.eqb_spec (who k) sys_acct)..].
  f_equal. apply map_eq. intros k. apply option_eq. intros v. rewrite !map_lookup_filter_Some. cbn [fst].
  split; intros [? Hk]; (split; [|done]); [rewrite <- Hag|rewrite Hag]; done.
Qed.
End users.

Lemma users_custody_agree s s' : others_kept sys_acct s s' -> users_custody s' = users_custody s.
Proof.
  intros Ho. unfold users_custody. f_equal; [f_equal|]; apply users_agree; cbn.
  - intros k Hk. by apply Ho.
  - intros [v bp] Hk. by apply Ho.
  - intros [v bp] Hk. by apply Ho.
Qed.

Lemma users_custody_total by_ s s' :
  by_ <> sys_acct -> others_kept by_ s s' ->
  users_custody s' - users_custody s = custody s' - custody s.
Proof.
  intros Hne Ho.
  pose proof (users_total id (fun f => amount (fi_staked f) + amount (fi_unstaking f)) (freezed s) (freezed s')) as H1.
  pose proof (users_total fst (fun v => amount (vi_vote v)) (votes s) (votes s')) as H2.
  pose proof (users_total fst (fun v => amount (vi_vote v)) (votes4ram s) (votes4ram s')) as H3.
  unfold users_custody, custody, frozen, voted.
  assert (E1 := H1 ltac:(cbn; intros k ->; apply Ho; congruence)).
  assert (E2 := H2 ltac:(intros [v bp]; cbn; intros ->; apply Ho; congruence)).
  assert (E3 := H3 ltac:(intros [v bp]; cbn; intros ->; apply Ho; congruence)). cbn beta in *. lia.
Qed.

(** The system account pays itself nothing. *)
Lemma own_flows c e s r :
  stake_inv (db s) -> vcall_typed c -> caller c = sys_acct -> vapply false c e s = Ok r ->
  flows sys_acct (inline_actions (snd r)) = flows sys_acct (inline_actions s).
Proof.
  assert (E : forall n memo, flow sys_acct (transfer_action sys_acct sys_acct n memo) = 0).
  { intros n memo. unfold flow, transfer_action. cbn [act_data]. rewrite Z.eqb_refl. lia. }
  destruct c; simpl; intros Hinv Hty -> H.
  - apply freeze_ok in H as (_ & _ & f & _ & _ & _ & _ & _ & ->); [|done..]. ssimp.
    rewrite flows_app. destruct (0 <? _); cbn [flows foldr]; [|lia].
    change config.system_account_name with sys_acct. rewrite E. lia.
  - apply unfreeze_ok in H as (_ & f & _ & _ & _ & ->); [|done]. ssimp. rewrite flows_app. cbn [flows foldr].
    change config.system_account_name with sys_acct. rewrite E. lia.
  - by apply vote_ok in H as (_ & _ & b & v & mf & mr & _ & _ & _ & ->).
  - unfold voteproducer, update_votes in H. sinv.
  - by apply vote4ram_ok in H as (_ & _ & b & v & mf & w & _ & _ & _ & _ & _ & ->).
  - by apply voteage_fee_ok in H as (_ & b & v & v' & age & _ & _ & _ & ->).
  - apply claimvote_ok in H as (_ & b & b' & v & v' & mr & q & _ & _ & _ & _ & ->). ssimp.
    rewrite flows_app. cbn [flows foldr]. unfold flow at 1. cbn [act_data].
    change (config.reward_account_name =? sys_acct) with false. cbn match. lia.
Qed.

Lemma vapply_users c e s r :
  stake_inv (db s) -> vcall_typed c -> vapply false c e s = Ok r ->
  users_custody (db (snd r)) - flows sys_acct (inline_actions (snd r)) =
  users_custody (db s) - flows sys_acct (inline_actions s).
Proof.
  intros Hinv Hty H. destruct (vapply_frame _ _ _ _ Hinv Hty H) as (_ & Ho & _).
  destruct (Z.eq_dec (caller c) sys_acct) as [E|Hne].
  - rewrite E in Ho. rewrite (users_custody_agree _ _ Ho). by rewrite (own_flows _ _ _ _ Hinv Hty E H).
  - destruct (vapply_kept _ _ _ _ Hinv Hty H) as (_ & Hc & _). specialize (Hc Hne).
    pose proof (users_custody_total _ _ _ Hne Ho). lia.
Qed.

(** ** Runs. *)

(** A successful action at a block between [lo] and [hi], on a chain whose build has no
    votes for several producers. *)
Inductive vstep (lo hi : Z) : st sys_state -> st sys_state -> Prop :=
| vstep_intro c e s s' :
    vcall_typed c -> lo <= current_block_num e <= hi ->
    vapply false c e s = Ok (tt, s') -> vstep lo hi s s'.

Lemma run_kept lo hi s0 s :
  stake_inv (db s0) -> rtc (vstep lo hi) s0 s ->
  stake_inv (db s) /\
  users_custody (db s) - flows sys_acct (inline_actions s) =
    users_custody (db s0) - flows sys_acct (inline_actions s0) /\
  (forall bp, unvoted (db s) bp = unvoted (db s0) bp).
Proof.
  intros H0 Hr. induction Hr as [s|s1 s2 s3 Hs _ IH]; [by split|].
  destruct Hs as [c e s1 s2 Hty _ Hrun].
  destruct (vapply_kept _ _ _ _ H0 Hty Hrun) as (Hinv & _ & Hu).
  pose proof (vapply_users _ _ _ _ H0 Hty Hrun) as Hc. cbn [snd] in *.
  destruct (IH Hinv) as (? & Hc' & Hu'). split_and!; [done|lia|].
  intros bp. by rewrite Hu'.
Qed.

(** C3: In every run of the staking actions, on a build without multiple votes and with
    amounts below 2^62, from a state whose rows are well formed: all rows stay well
    formed, and what the system contract holds for the accounts other than itself
    (frozen, unstaking and voted stakes) changes exactly by the transfers into and
    out of its account. The system account may take part; its own stakes, for which
    nothing is transferred, are not counted. *)
Theorem staking_custody (s0 s : st sys_state) (H0 : stake_inv (db s0))
  (Hr : rtc (vstep 0 (2 ^ 32 - 1)) s0 s) :
  stake_inv (db s) /\
  users_custody (db s) =
    users_custody (db s0) + (flows sys_acct (inline_actions s) - flows sys_acct (inline_actions s0)).
Proof. destruct (run_kept _ _ _ _ H0 Hr) as (? & ? & _). split; [done|lia]. Qed.

Lemma wrapS_eq_mod w a b : 0 < w -> wrapS w (a - b) = 0 -> wrapS w a = wrapS w b.
Proof.
  intros Hw H. unfold wrapS in *. f_equal.
  assert (0 < 2 ^ w) by (apply Z.pow_pos_nonneg; lia).
  assert (E : (a - b + 2 ^ (w - 1)) mod 2 ^ w = 2 ^ (w - 1)) by lia.
  rewrite Z.mod_eq in E by lia. set (q := (a - b + 2 ^ (w - 1)) / 2 ^ w) in *.
  replace (a + 2 ^ (w - 1)) with (b + 2 ^ (w - 1) + q * 2 ^ w) by lia.
  apply Z.mod_add. lia.
Qed.

(** Every bp's total is the sum of the votes for it, as 64-bit integers. *)
Definition tallied (s : sys_state) : Prop :=
  forall bp b, bps s !! bp = Some b ->
  i64 (bp_total_staked b) = i64 (votes_for (votes s) bp + votes_for (votes4ram s) bp).

Lemma tallied_unvoted s bp b :
  bps s !! bp = Some b ->
  i64 (bp_total_staked b) = i64 (votes_for (votes s) bp + votes_for (votes4ram s) bp) <->
  unvoted s bp = Some 0.
Proof.
  intros Hb. unfold unvoted. rewrite Hb. cbn [fmap option_fmap option_map].
  set (x := votes_for _ _). set (y := votes_for _ _). rewrite <- Z.sub_add_distr. split.
  - intros E. f_equal. revert E. unfold wrapS. change (64 - 1) with 63. width_norm.
    intros. Z.div_mod_to_equations; lia.
  - intros [= E]. by apply wrapS_eq_mod.
Qed.

(** The stake recorded with a producer is, modulo 64 bits, the sum of all votes and
    ram votes for it, in every run of the staking actions. *)
Theorem votes_tallied (s0 s : st sys_state) (H0 : stake_inv (db s0)) (Ht : tallied (db s0))
  (Hr : rtc (vstep 0 (2 ^ 32 - 1)) s0 s) : tallied (db s).
Proof.
  destruct (run_kept _ _ _ _ H0 Hr) as (_ & _ & Hu). intros bp b Hb.
  apply (tallied_unvoted _ _ _ Hb). rewrite Hu. specialize (Hu bp).
  unfold unvoted in Hu at 1. rewrite Hb in Hu.
  destruct (bps (db s0) !! bp) as [b0|] eqn:Hb0.
  - by apply (tallied_unvoted _ _ _ Hb0), Ht.
  - unfold unvoted in Hu. by rewrite Hb0 in Hu.
Qed.

(** A staking action leaves the frozen stake and the votes of every account
    untouched that has not authorized it. *)
Theorem stake_authorized (c : vcall) (e : env) (s s' : st sys_state) (v : Z)
  (Hinv : stake_inv (db s)) (Hty : vcall_typed c) (Hrun : vapply false c e s = Ok (tt, s'))
  (Hno : has_authorization (authorization e) v = false) :
  freezed (db s') !! v = freezed (db s) !! v /\
  (forall bp, votes (db s') !! (v, bp) = votes (db s) !! (v, bp) /\
              votes4ram (db s') !! (v, bp) = votes4ram (db s) !! (v, bp)).
Proof.
  destruct (vapply_frame _ _ _ _ Hinv Hty Hrun) as (Ha & Ho & _).
  apply Ho. intros ->. congruence.
Qed.

Lemma run_height lo hi s0 s voter f :
  stake_inv (db s0) -> rtc (vstep lo hi) s0 s ->
  freezed (db s0) !! voter = Some f -> lo <= fi_unstake_height f <= hi ->
  exists f', freezed (db s) !! voter = Some f' /\ lo <= fi_unstake_height f' <= hi.
Proof.
  intros H0 Hr. revert f. induction Hr as [s|s1 s2 s3 Hs _ IH]; intros f Hf Hh; [eauto|].
  destruct Hs as [c e s1 s2 Hty Hlo Hrun].
  destruct (vapply_kept _ _ _ _ H0 Hty Hrun) as (Hinv & _ & _).
  destruct (vapply_frame _ _ _ _ H0 Hty Hrun) as (_ & Ho & Hm). simpl in *.
  destruct (Z.eq_dec voter (caller c)) as [->|Hv].
  - destruct (Hm _ Hf) as (f' & Hf' & [E|E]); eapply IH; try done; lia.
  - eapply (IH Hinv f); [|done]. by rewrite (proj1 (Ho _ Hv)).
Qed.

(** After a voter has lowered a frozen stake, no run of staking actions lets it
    withdraw the difference before the freezing delay has passed. *)
Theorem unfreeze_locked (voter : Z) (stake : asset) (e1 e : env) (s1 s2 s3 s4 : st sys_state)
  (Hinv : stake_inv (db s1)) (Hty : in_range (amount stake))
  (Hfreeze : freeze false voter stake e1 s1 = Ok (tt, s2))
  (Hless : amount stake < staked_of (db s1) voter)
  (H32 : current_block_num e1 + FROZEN_DELAY < 2 ^ 32) (Hpos : 0 <= current_block_num e1)
  (Hr : rtc (vstep (current_block_num e1) (2 ^ 32 - 1 - FROZEN_DELAY)) s2 s3)
  (Hun : unfreeze voter e s3 = Ok (tt, s4)) :
  current_block_num e1 + FROZEN_DELAY < current_block_num e.
Proof.
  pose proof (freeze_kept _ _ _ _ _ Hinv Hty Hfreeze) as (Hinv2 & _ & _).
  apply freeze_ok in Hfreeze as (_ & _ & f & _ & _ & _ & Hh & _ & [= ->]); [|done..].
  specialize (Hh ltac:(lia)). cbn [snd] in Hinv2.
  pose proof (run_kept _ _ _ _ Hinv2 Hr) as (Hinv3 & _ & _).
  destruct (run_height _ _ _ _ voter f Hinv2 Hr) as (f' & Hf' & Hh'); ssimp.
  { apply lookup_insert_eq. }
  { lia. }
  apply unfreeze_ok in Hun as (_ & f2 & Hf2 & _ & Hlt & _); [|done]. simplify_map_eq.
  rewrite wrapU_small in Hlt; unfold FROZEN_DELAY in *; lia.
Qed.

(** ** Witnesses. *)

Definition ex_voter : Z := Eval vm_compute in N_ "voter".
Definition ex_bp : Z := Eval vm_compute in N_ "biosbpa".

Definition ex_bp_row : bp_info :=
  BpInfo ex_bp [] 0 200 (Asset 0 CORE_SYMBOL) 0 10 EmptyString false Normal 0 0 BLOCK_OUT_WEIGHT
    (Asset 0 CORE_SYMBOL) 0 (Asset 0 CORE_SYMBOL) 0 0.

(** A voter with 500 tokens frozen, 200 voted, and one bp. *)
Definition ex_sys : sys_state :=
  SysState {[ex_voter := FreezeInfo (Asset 5000000 CORE_SYMBOL) (Asset 0 CORE_SYMBOL) ex_voter 10]}
    {[(ex_voter, ex_bp) := VoteInfo (Asset 2000000 CORE_SYMBOL) ex_bp 0 10 (Asset 0 CORE_SYMBOL)]}
    ∅ ∅ ∅ {[ex_bp := ex_bp_row]} ∅ ∅ ∅ ∅ ∅ ∅ ∅ ∅ ∅ ∅ [].

Definition ex_sst : st sys_state := St ex_sys [] [].
Definition ex_senv (acct block : Z) : env := Env sys_acct [(acct, active)] {[acct]} block 0.

Definition sys_run {A} (r : result (A * st sys_state)) : st sys_state :=
  match r with Ok (_, s) => s | Err _ => ex_sst end.

Lemma stake_amount_small n :
  0 <= n <= 1000000000000 -> Z.rem n CORE_SYMBOL_PRECISION = 0 ->
  stake_amount (Asset n CORE_SYMBOL).
Proof.
  intros Hn Hr. apply stake_amount_mk; [arange; lia|lia|]. by apply Z.rem_divide.
Qed.

Lemma ex_stake_inv : stake_inv ex_sys.
Proof.
  split; unfold ex_sys; ssimp; try (intros k v Hk; rows_of Hk; done); [| |done|done].
  - intros k v Hk. rows_of Hk. split; by apply stake_amount_small.
  - intros k v Hk. rows_of Hk. by apply stake_amount_small.
Qed.

Definition ex_vote : vcall := Vote ex_voter ex_bp (Asset 1000000 CORE_SYMBOL).
Definition ex_freeze : vcall := Freeze ex_voter (Asset 7000000 CORE_SYMBOL).
Definition ex_sst1 : st sys_state := sys_run (vapply false ex_vote (ex_senv ex_voter 20) ex_sst).
Definition ex_sst2 : st sys_state := sys_run (vapply false ex_freeze (ex_senv ex_voter 30) ex_sst1).

Lemma ex_run : rtc (vstep 0 (2 ^ 32 - 1)) ex_sst ex_sst2.
Proof.
  eapply rtc_l; [|eapply rtc_l; [|apply rtc_refl]].
  - apply (vstep_intro _ _ ex_vote (ex_senv ex_voter 20)); [simpl; arange; lia|done|].
    by vm_compute.
  - apply (vstep_intro _ _ ex_freeze (ex_senv ex_voter 30)); [simpl; arange; lia|done|].
    by vm_compute.
Qed.

Lemma staking_custody_witness :
  stake_inv (db ex_sst2) /\
  users_custody (db ex_sst2) = users_custody (db ex_sst) + (1000000 - 0).
Proof. exact (staking_custody ex_sst ex_sst2 ex_stake_inv ex_run). Defined.

Lemma ex_tallied : tallied (db ex_sst).
Proof. intros bp b Hb. simpl in Hb. apply lookup_singleton_Some in Hb as [<- <-]. by vm_compute. Qed.

Lemma votes_tallied_witness : tallied (db ex_sst2).
Proof. exact (votes_tallied ex_sst ex_sst2 ex_stake_inv ex_tallied ex_run). Defined.

Lemma stake_authorized_witness :
  freezed (db ex_sst1) !! ex_bp = freezed ex_sys !! ex_bp /\
  (forall bp, votes (db ex_sst1) !! (ex_bp, bp) = votes ex_sys !! (ex_bp, bp) /\
              votes4ram (db ex_sst1) !! (ex_bp, bp) = votes4ram ex_sys !! (ex_bp, bp)).
Proof.
  apply (stake_authorized ex_vote (ex_senv ex_voter 20) ex_sst ex_sst1 ex_bp ex_stake_inv);
    [simpl; arange; lia|by vm_compute|by vm_compute].
Defined.

Definition ex_less : asset := Asset 3000000 CORE_SYMBOL.
Definition ex_sst3 : st sys_state :=
  sys_run (freeze false ex_voter ex_less (ex_senv ex_voter 20) ex_sst).

Lemma unfreeze_locked_witness : 20 + FROZEN_DELAY < 86430.
Proof.
  apply (unfreeze_locked ex_voter ex_less (ex_senv ex_voter 20) (ex_senv ex_voter 86430)
           ex_sst ex_sst3 ex_sst3
           (sys_run (unfreeze ex_voter (ex_senv ex_voter 86430) ex_sst3)) ex_stake_inv);
    [simpl; arange; lia|by vm_compute|done|done|done|apply rtc_refl|by vm_compute].
Defined.
