(* ===== verification/VoteReward.v ===== *)
(** * Vote rewards: what [settlevoter] moves from the records of a bp to a voter. *)
From stdpp Require Import base gmap list strings sorting.
From Stdlib Require Import ZArith Lia.
From S2P Require Import Prelude Name Asset Runtime SystemState Voting Staking.

Open Scope Z_scope.

(** ** Rewards held in the records and in the vote rows. *)

Definition records_total (m : gmap (Z * Z) vote_reward_info) : Z :=
  map_sum (fun _ r => amount (vr_total_reward r)) m.

Definition vote_rewards (m : gmap (Z * Z) vote_info) : Z :=
  map_sum (fun _ v => amount (vi_total_reward v)) m.

(** What the reward account owes to voters. *)
Definition rewards_due (s : sys_state) : Z :=
  records_total (votereward s) + vote_rewards (votes s).

Record reward_rows (s : sys_state) : Prop := {
  rr_records : rows (fun r => coin (vr_total_reward r)) (votereward s);
  rr_votes : rows (fun v => coin (vi_total_reward v)) (votes s);
}.

(** One record: the share goes from the record to the accumulator. *)
Lemma settle_record_ok vote bpname acc pk e s r :
  rows (fun r => coin (vr_total_reward r)) (votereward (db s)) ->
  (forall k x, votereward (db s) !! k = Some x -> is_s 64 (vr_total_voteage x)) ->
  coin (sa_reward acc) ->
  settle_record vote bpname acc pk e s = Ok r ->
  exists m acc', r = (acc', St (set_votereward m (db s)) (notified s) (inline_actions s)) /\
    rows (fun r => coin (vr_total_reward r)) m /\
    (forall k x, m !! k = Some x -> is_s 64 (vr_total_voteage x)) /\
    coin (sa_reward acc') /\
    records_total m + amount (sa_reward acc') =
      records_total (votereward (db s)) + amount (sa_reward acc).
Proof.
  intros Hrows Hage Hacc H. unfold settle_record in H. sinv.
  match goal with Hl : votereward _ !! _ = Some ?x |- _ =>
    rename Hl into Hit; rename x into it end.
  scase.
  - match goal with Hm : asset_mul _ _ = Ok _, Hd : asset_div _ _ = Ok _ |- _ =>
      destruct (coin_mul_div _ _ _ _ _ (Hrows _ _ Hit)
                  (wrapS_range 64 _ ltac:(lia)) (Hage _ _ Hit) Hm Hd) as (-> & ? & Hc) end.
    match goal with Hx : asset_add _ _ = Ok _ |- _ =>
      apply coin_add in Hx as [-> ?]; [|done|done] end.
    match goal with Hx : asset_sub _ _ = Ok _ |- _ =>
      apply coin_sub in Hx as [-> ?]; [|by eapply Hrows|done] end.
    ssimp. eexists _, _. split; [reflexivity|]. ssimp. cbn [sa_reward]. split_and!.
    + apply rows_insert; [done|]. by apply coin_mk.
    + intros k x Hk. apply lookup_insert_Some in Hk as [[_ <-]|[_ Hk]]; [|eauto].
      apply (wrapS_range 64). lia.
    + by apply coin_mk.
    + unfold records_total. rewrite map_sum_insert, (at_key_Some _ _ _ _ Hit). ssimp. lia.
  - exists (votereward (db s)), acc. split; [by destruct s as [[] ? ?]|]. by split_and!.
Qed.

Record age_rows (s : sys_state) : Prop := {
  ag_records : forall k x, votereward s !! k = Some x -> is_s 64 (vr_total_voteage x);
}.

Lemma settle_records_ok vote bpname e s l acc r :
  rows (fun r => coin (vr_total_reward r)) (votereward (db s)) ->
  (forall k x, votereward (db s) !! k = Some x -> is_s 64 (vr_total_voteage x)) ->
  coin (sa_reward acc) ->
  mfor (settle_record vote bpname) acc l e s = Ok r ->
  exists m acc', r = (acc', St (set_votereward m (db s)) (notified s) (inline_actions s)) /\
    rows (fun r => coin (vr_total_reward r)) m /\
    (forall k x, m !! k = Some x -> is_s 64 (vr_total_voteage x)) /\
    coin (sa_reward acc') /\
    records_total m + amount (sa_reward acc') =
      records_total (votereward (db s)) + amount (sa_reward acc).
Proof.
  revert acc s. induction l as [|pk l IH]; intros acc s Hr Ha Hc H; cbn [mfor] in H; sinv.
  - exists (votereward (db s)), acc. split; [by destruct s as [[] ? ?]|]. by split_and!.
  - match goal with Hx : settle_record _ _ _ _ _ _ = Ok _ |- _ =>
      apply settle_record_ok in Hx as (m & acc1 & [= -> ->] & Hr1 & Ha1 & Hc1 & E1); [|done..] end.
    match goal with Hx : mfor _ _ _ _ _ = Ok _ |- _ =>
      apply IH in Hx as (m2 & acc2 & -> & Hr2 & Ha2 & Hc2 & E2); [|done..] end.
    ssimp. exists m2, acc2. split; [done|]. split_and!; try done. lia.
Qed.

Lemma settlevoter_ok voter bpname e s s' :
  reward_rows (db s) -> age_rows (db s) -> settlevoter voter bpname e s = Ok (tt, s') ->
  reward_rows (db s') /\ age_rows (db s') /\ rewards_due (db s') = rewards_due (db s).
Proof.
  intros [Hr Hv] [Ha] H. unfold settlevoter in H. sinv.
  match goal with Hx : mfor _ _ _ _ _ = Ok _ |- _ =>
    apply settle_records_ok in Hx as (m & acc & [= -> ->] & Hr1 & Ha1 & Hc1 & E1);
      [|done|done|apply coin_zero] end.
  match goal with Hl : votes _ !! _ = Some ?x |- _ => rename Hl into Hvt; rename x into v end.
  match goal with Hx : asset_add _ _ = Ok _ |- _ =>
    apply coin_add in Hx as [-> ?]; [|by eapply Hv|done] end.
  ssimp. cbn [amount sa_reward] in E1. split_and!.
  - split; ssimp; [done|]. apply rows_insert; [done|]. by apply coin_mk.
  - by split.
  - unfold rewards_due, vote_rewards in *. ssimp.
    rewrite map_sum_insert, (at_key_Some _ _ _ _ Hvt). ssimp. lia.
Qed.

(** ** What is owed to voters and producers. *)

Definition block_rewards (m : gmap Z bp_info) : Z :=
  map_sum (fun _ b => amount (bp_rewards_block b)) m.

Definition owed (s : sys_state) : Z := rewards_due s + block_rewards (bps s).

Definition reward_acct : Z := config.reward_account_name.

Record reward_inv (s : sys_state) : Prop := {
  ri_rows : reward_rows s;
  ri_ages : age_rows s;
  ri_bps : rows (fun b => coin (bp_rewards_block b)) (bps s);
}.

(** What the actions cast from the reward account. *)
Definition cast (a : action) : Z :=
  match act_data a with
  | castcoin_args from _ q => if from =? reward_acct then amount q else 0
  | _ => 0
  end.
Definition casts (l : list action) : Z := foldr (fun a acc => cast a + acc) 0 l.

Lemma casts_app l1 l2 : casts (l1 ++ l2) = casts l1 + casts l2.
Proof. induction l1 as [|a l1 IH]; simpl; [done|]. rewrite IH. lia. Qed.

Lemma cast_transfer from to n memo : cast (transfer_action from to n memo) = 0.
Proof. done. Qed.

(** What a state owes and what the reward account has been told to pay. *)
Definition reward_kept (s s' : st sys_state) : Prop :=
  reward_inv (db s') /\
  owed (db s') + casts (inline_actions s') = owed (db s) + casts (inline_actions s).

Lemma reward_kept_refl s : reward_inv (db s) -> reward_kept s s.
Proof. by split. Qed.

Lemma reward_kept_trans s1 s2 s3 :
  reward_kept s1 s2 -> reward_kept s2 s3 -> reward_kept s1 s3.
Proof. intros [_ E1] [? E2]. split; [done|lia]. Qed.

(** A state that differs in the stakes only. *)
Lemma reward_kept_frame s s' :
  reward_inv (db s) ->
  votereward (db s') = votereward (db s) -> votes (db s') = votes (db s) ->
  bps (db s') = bps (db s) -> inline_actions s' = inline_actions s -> reward_kept s s'.
Proof.
  intros [[] [] ?] E1 E2 E3 E4.
  assert (reward_inv (db s')) by (split; [split|split|]; by rewrite ?E1, ?E2, ?E3).
  split; [done|]. unfold owed, rewards_due. by rewrite E1, E2, E3, E4.
Qed.

Lemma settlevoter_kept voter bpname e s s' :
  reward_inv (db s) -> settlevoter voter bpname e s = Ok (tt, s') -> reward_kept s s'.
Proof.
  intros [Hr Ha Hb] H. destruct (settlevoter_ok _ _ _ _ _ Hr Ha H) as (? & ? & E).
  apply settlevoter_frame in H as (v & v' & m & _ & _ & _ & [= ->]).
  split; [by split|]. unfold owed in *. ssimp. lia.
Qed.

Lemma return_stake_frame voter c e s r :
  return_stake voter c e s = Ok r ->
  exists m, r = (tt, St (set_freezed m (db s)) (notified s) (inline_actions s)).
Proof. intros H. unfold return_stake in H. sinv. scase; eauto. Qed.

Lemma take_stake_frame voter c e s r :
  take_stake voter c e s = Ok r ->
  exists m, r = (tt, St (set_freezed m (db s)) (notified s) (inline_actions s)).
Proof. intros H. unfold take_stake in H. sinv. eauto. Qed.

Lemma maybe_return_frame voter c (b : bool) e s s' :
  (if b then return_stake voter c else mret tt) e s = Ok (tt, s') ->
  exists m, s' = St (set_freezed m (db s)) (notified s) (inline_actions s).
Proof.
  intros H. destruct b; [by apply return_stake_frame in H as [m [= ->]]; eauto|].
  sinv. exists (freezed (db s)). by destruct s as [[] ? ?].
Qed.

Lemma maybe_take_frame voter c (b : bool) e s s' :
  (if b then take_stake voter c else mret tt) e s = Ok (tt, s') ->
  exists m, s' = St (set_freezed m (db s)) (notified s) (inline_actions s).
Proof.
  intros H. destruct b; [by apply take_stake_frame in H as [m [= ->]]; eauto|].
  sinv. exists (freezed (db s)). by destruct s as [[] ? ?].
Qed.

Lemma reward_kept_freezed s m :
  reward_inv (db s) ->
  reward_kept s (St (set_freezed m (db s)) (notified s) (inline_actions s)).
Proof. intros. by apply reward_kept_frame. Qed.

(** A row of [votes] with the reward it had, and a row of [bps] too. *)
Lemma reward_kept_vote s k v :
  reward_inv (db s) -> coin (vi_total_reward v) ->
  amount (vi_total_reward v) =
    match votes (db s) !! k with Some w => amount (vi_total_reward w) | None => 0 end ->
  reward_kept s (St (set_votes (<[k := v]> (votes (db s))) (db s)) (notified s)
                   (inline_actions s)).
Proof.
  intros [[] [] ?] Hc E. split; ssimp.
  - split; [split|by split|done]; ssimp; [done|]. by apply rows_insert.
  - unfold owed, rewards_due, vote_rewards. ssimp. rewrite map_sum_insert, E. unfold at_key.
    destruct (votes (db s) !! k); lia.
Qed.

Lemma reward_kept_bp s k b b' :
  reward_inv (db s) -> bps (db s) !! k = Some b -> bp_rewards_block b' = bp_rewards_block b ->
  reward_kept s (St (set_bps (<[k := b']> (bps (db s))) (db s)) (notified s)
                   (inline_actions s)).
Proof.
  intros [Hr Ha Hb] Hk E. split; ssimp.
  - split; ssimp; [by destruct Hr; split|by destruct Ha; split|].
    apply rows_insert; [done|]. rewrite E. by eapply Hb.
  - unfold owed, block_rewards, rewards_due. ssimp.
    rewrite map_sum_insert, (at_key_Some _ _ _ _ Hk), E. lia.
Qed.

Lemma place_vote_rewards voter bpname stake e s c s' :
  reward_inv (db s) -> place_vote voter bpname stake e s = Ok (c, s') -> reward_kept s s'.
Proof.
  intros Hi H. unfold place_vote in H. sinv.
  destruct (votes (db s) !! (voter, bpname)) as [v|] eqn:Hv; sinv.
  - match goal with Hs : settlevoter _ _ _ _ = Ok _ |- _ =>
      apply settlevoter_kept in Hs as K1; [|done] end.
    eapply reward_kept_trans; [exact K1|].
    match goal with Hs : (if _ then return_stake _ _ else _) _ ?s1 = Ok _ |- _ =>
      apply maybe_return_frame in Hs as [m ->];
      pose proof (reward_kept_freezed s1 m (proj1 K1)) as K2 end.
    eapply reward_kept_trans; [exact K2|].
    match goal with Hl : votes _ !! _ = Some ?w |- context [with_vote stake ?w] =>
      apply (reward_kept_vote _ _ _ (proj1 K2)); [|ssimp; by rewrite Hl];
      apply (rr_votes _ (ri_rows _ (proj1 K1)) _ _ Hl) end.
  - apply reward_kept_vote; [done|apply coin_zero|by rewrite Hv].
Qed.

Lemma vote_rewards_kept voter bpname stake e s s' :
  reward_inv (db s) -> vote false voter bpname stake e s = Ok (tt, s') -> reward_kept s s'.
Proof.
  intros Hi H. unfold vote in H. sinv.
  match goal with Hs : place_vote _ _ _ _ _ = Ok _ |- _ =>
    apply place_vote_rewards in Hs as K1; [|done] end.
  eapply reward_kept_trans; [exact K1|].
  match goal with Hs : (if _ then take_stake _ _ else _) _ ?s1 = Ok _ |- _ =>
    apply maybe_take_frame in Hs as [m ->];
    pose proof (reward_kept_freezed s1 m (proj1 K1)) as K2 end.
  eapply reward_kept_trans; [exact K2|]. by eapply (reward_kept_bp _ _ _ _ (proj1 K2)).
Qed.

Lemma place_vote4ram_frame voter bpname stake e s c s' :
  place_vote4ram voter bpname stake e s = Ok (c, s') ->
  exists m m', s' = St (set_freezed m (set_votes4ram m' (db s))) (notified s) (inline_actions s).
Proof.
  intros H. unfold place_vote4ram in H. sinv. scase.
  - match goal with Hr : (if _ then return_stake _ _ else _) _ _ = Ok _ |- _ =>
      apply maybe_return_frame in Hr as [m ->] end. ssimp. eauto.
  - match goal with |- context [set_votes4ram ?m' _] => exists (freezed (db s)), m' end.
    by destruct s as [[] ? ?].
Qed.

Lemma add_vote4ramsum_frame voter stake c e s s' :
  add_vote4ramsum voter stake c e s = Ok (tt, s') ->
  exists m, s' = St (set_vote4ramsum m (db s)) (notified s) (inline_actions s).
Proof. intros H. unfold add_vote4ramsum in H. sinv. scase; eauto. Qed.

Lemma vote4ram_rewards_kept voter bpname stake e s s' :
  reward_inv (db s) -> vote4ram voter bpname stake e s = Ok (tt, s') -> reward_kept s s'.
Proof.
  intros Hi H. unfold vote4ram in H. sinv.
  match goal with Hs : place_vote4ram _ _ _ _ _ = Ok _ |- _ =>
    apply place_vote4ram_frame in Hs as (m & m' & ->) end.
  match goal with Hs : (if _ then take_stake _ _ else _) _ _ = Ok _ |- _ =>
    apply maybe_take_frame in Hs as [m2 ->] end.
  match goal with Hs : add_vote4ramsum _ _ _ _ _ = Ok _ |- _ =>
    apply add_vote4ramsum_frame in Hs as [m3 ->] end.
  ssimp.
  match goal with Hb : bps _ !! bpname = Some ?b |- context [bp_add_stake ?c ?n ?b] =>
    pose proof (reward_kept_bp s bpname b (bp_add_stake c n b) Hi Hb eq_refl) as K end.
  eapply reward_kept_trans; [exact K|]. by apply reward_kept_frame; [apply K|..].
Qed.

Lemma freeze_rewards_kept voter stake e s s' :
  stake_inv (db s) -> in_range (amount stake) -> reward_inv (db s) ->
  freeze false voter stake e s = Ok (tt, s') -> reward_kept s s'.
Proof.
  intros Hs Hr Hi H. apply freeze_ok in H as (_ & _ & f & _ & _ & _ & _ & _ & [= ->]); [|done..].
  destruct (reward_kept_freezed s (<[voter:=f]> (freezed (db s))) Hi) as [? E].
  split; ssimp; [done|]. rewrite casts_app. destruct (0 <? _); cbn [casts foldr]; rewrite ?cast_transfer; lia.
Qed.

Lemma unfreeze_rewards_kept voter e s s' :
  stake_inv (db s) -> reward_inv (db s) -> unfreeze voter e s = Ok (tt, s') -> reward_kept s s'.
Proof.
  intros Hs Hi H. apply unfreeze_ok in H as (_ & f & _ & _ & _ & [= ->]); [|done].
  match goal with |- context [set_freezed ?m _] =>
    destruct (reward_kept_freezed s m Hi) as [? E] end.
  split; ssimp; [done|]. rewrite casts_app. cbn [casts foldr]. rewrite cast_transfer. lia.
Qed.

Lemma fee_rewards_kept payer bpname voteage e s s' :
  reward_inv (db s) -> fee payer bpname voteage e s = Ok (tt, s') -> reward_kept s s'.
Proof.
  intros Hi H. unfold fee in H. sinv.
  match goal with Hl : votes _ !! _ = Some _ |- context [set_votes (<[?k := ?v]> _)] =>
    pose proof (reward_kept_vote s k v Hi (rr_votes _ (ri_rows _ Hi) _ _ Hl)) as K;
    ssimp; rewrite Hl in K; specialize (K eq_refl) end.
  eapply reward_kept_trans; [exact K|]. by eapply (reward_kept_bp _ _ _ _ (proj1 K)).
Qed.

(** Paying a row out: it is emptied and its reward leaves the state. *)
Lemma owed_pay s k v kb b b' q :
  votes s !! k = Some v -> bps s !! kb = Some b ->
  q = amount (vi_total_reward v) + amount (bp_rewards_block b) - amount (bp_rewards_block b') ->
  owed (set_votes (<[k := VoteInfo (vi_vote v) (vi_bpname v) (vi_voteage v)
                            (vi_voteage_update_height v) (Asset 0 CORE_SYMBOL)]> (votes s))
          (set_bps (<[kb := b']> (bps s)) s)) = owed s - q.
Proof.
  intros Hv Hb ->. unfold owed, rewards_due, vote_rewards, block_rewards. ssimp.
  rewrite !map_sum_insert, (at_key_Some _ _ _ _ Hv), (at_key_Some _ _ _ _ Hb). ssimp. lia.
Qed.

Lemma casts_castcoin to q :
  casts [Action config.token_account_name castcoin_name [(config.reward_account_name, active)]
           (castcoin_args config.reward_account_name to q)] = amount q.
Proof. unfold casts, cast. cbn [foldr act_data]. unfold reward_acct. rewrite Z.eqb_refl. lia. Qed.

Lemma reward_inv_paid s k v kb b' :
  reward_inv s -> coin (vi_total_reward v) -> coin (bp_rewards_block b') ->
  reward_inv (set_votes (<[k := v]> (votes s)) (set_bps (<[kb := b']> (bps s)) s)).
Proof.
  intros [[] [] ?] ??. split; [split|by split|]; ssimp; [done|by apply rows_insert..].
Qed.

Lemma claimvote_rewards_kept bpname receiver e s s' :
  reward_inv (db s) -> claimvote bpname receiver e s = Ok (tt, s') -> reward_kept s s'.
Proof.
  intros Hi H. unfold claimvote, send_castcoin in H. sinv.
  match goal with Hs : settlevoter _ _ _ _ = Ok _ |- _ =>
    apply settlevoter_kept in Hs as [Hi1 E1]; [|done] end.
  match goal with Hl : bps _ !! _ = Some ?x |- _ => rename Hl into Hb; rename x into b end.
  match goal with Hl : votes _ !! _ = Some ?x |- _ => rename Hl into Hv; rename x into v end.
  pose proof (rr_votes _ (ri_rows _ Hi1) _ _ Hv) as Hcv.
  pose proof (ri_bps _ Hi1 _ _ Hb) as Hcb.
  destruct (receiver =? bpname); sinv.
  - match goal with Hx : asset_add _ _ = Ok _ |- _ =>
      apply coin_add in Hx as [-> ?]; [|done|done] end.
    split; ssimp.
    + by apply reward_inv_paid; [|apply coin_zero..].
    + rewrite casts_app, casts_castcoin. ssimp.
      erewrite owed_pay; [|done|done|reflexivity]. ssimp. lia.
  - split; ssimp.
    + pose proof (reward_inv_paid _ (receiver, bpname) (VoteInfo (vi_vote v) (vi_bpname v)
        (vi_voteage v) (vi_voteage_update_height v) (Asset 0 CORE_SYMBOL)) bpname b Hi1
        coin_zero Hcb) as K.
      by rewrite (insert_id (bps _)) in K.
    + rewrite casts_app, casts_castcoin.
      pose proof (owed_pay _ _ v _ b b _ Hv Hb eq_refl) as K.
      rewrite (insert_id (bps _)) in K by done. 
      assert (Eb : forall m d, set_votes m (set_bps (bps d) d) = set_votes m d) by done.
      rewrite Eb in K. rewrite K. lia.
Qed.

Lemma vapply_rewards_kept c e s s' :
  stake_inv (db s) -> reward_inv (db s) -> vcall_typed c ->
  vapply false c e s = Ok (tt, s') -> reward_kept s s'.
Proof.
  destruct c; simpl; intros Hs Hi Hty H;
    eauto using freeze_rewards_kept, unfreeze_rewards_kept, vote_rewards_kept,
      vote4ram_rewards_kept, fee_rewards_kept, claimvote_rewards_kept.
  unfold voteproducer, update_votes in H. sinv.
Qed.

(** ** The settlement of all producers. *)

(** The reward a settlement drops with the oldest records of a bp: once there are 360
    records, those of the two oldest, the new record counted. *)
Definition first_two (m : gmap (Z * Z) vote_reward_info) (bpname : Z) : Z :=
  foldr (fun pk n => match m !! (bpname, pk) with Some r => amount (vr_total_reward r) + n | None => n end) 0
    (take 2 (scope_keys m bpname)).

Definition new_record (current_block : Z) (b : bp_info) : vote_reward_info :=
  VoteRewardInfo
    (i64 (bp_total_voteage b + age_gain (bp_total_staked b) current_block (bp_voteage_update_height b)))
    (Asset 0 CORE_SYMBOL) (i32 current_block).

Definition dropped_of (current_block : Z) (m : gmap (Z * Z) vote_reward_info) (bpname : Z) (b : bp_info) : Z :=
  match m !! (bpname, current_block) with
  | None =>
      if bp_reward_size b =? BP_REWARD_RECORD_SIZE
      then first_two (<[(bpname, u64 (i32 current_block)) := new_record current_block b]> m) bpname else 0
  | Some _ => 0
  end.

Definition dropped_by (current_block : Z) (s : sys_state) (l : list Z) : Z :=
  foldr (fun bp n => match bps s !! bp with
                     | Some b => dropped_of current_block (votereward s) bp b + n
                     | None => n
                     end) 0 l.

Definition dropped (current_block : Z) (s : sys_state) : Z :=
  dropped_by current_block s (sorted_keys (bps s)).

(** The tables of the stakes are left alone. *)
Definition same_stakes (s s' : sys_state) : Prop :=
  freezed s' = freezed s /\ votes s' = votes s /\ votes4ram s' = votes4ram s /\
  mvotes s' = mvotes s /\ vote4ramsum s' = vote4ramsum s.

(** *** One producer. *)

(** The other scopes and producers are left alone. *)
Definition other_bps (bpname : Z) (s s' : sys_state) : Prop :=
  (forall bp pk, bp <> bpname -> votereward s' !! (bp, pk) = votereward s !! (bp, pk)) /\
  (forall bp, bp <> bpname -> bps s' !! bp = bps s !! bp).

Lemma scope_keys_agree {V} (m m' : gmap (Z * Z) V) scope :
  (forall k, m !! (scope, k) = m' !! (scope, k)) -> scope_keys m scope = scope_keys m' scope.
Proof.
  intros Hag. apply (Sorted_unique Z.le); [apply scope_keys_sorted..|].
  apply NoDup_Permutation; [apply scope_keys_NoDup..|]. intros k. by rewrite !scope_keys_spec, Hag.
Qed.

Lemma first_two_agree m m' bpname :
  (forall pk, m' !! (bpname, pk) = m !! (bpname, pk)) -> first_two m' bpname = first_two m bpname.
Proof.
  intros Hag. unfold first_two. rewrite (scope_keys_agree m' m bpname Hag).
  generalize (take 2 (scope_keys m bpname)) as l. induction l as [|pk l IH]; cbn; [done|].
  by rewrite Hag, IH.
Qed.

Lemma dropped_of_agree cur m m' bpname b :
  (forall pk, m' !! (bpname, pk) = m !! (bpname, pk)) ->
  dropped_of cur m' bpname b = dropped_of cur m bpname b.
Proof.
  intros Hag. unfold dropped_of. rewrite Hag. destruct (m !! _); [done|].
  destruct (_ =? _); [|done]. apply first_two_agree. intros pk.
  destruct (decide (u64 (i32 cur) = pk)) as [->|Hne]; [by rewrite !lookup_insert_eq|].
  rewrite !lookup_insert_ne by congruence. apply Hag.
Qed.

(** Emptying the second record and erasing the first. *)
Lemma drop_two m bpname first second l r :
  scope_keys m bpname = first :: second :: l -> m !! (bpname, second) = Some r ->
  records_total
    (delete (bpname, first)
       (<[(bpname, second) := VoteRewardInfo (vr_total_voteage r) (Asset 0 CORE_SYMBOL) (vr_reward_block_num r)]> m))
  = records_total m - first_two m bpname.
Proof.
  intros El Hr. pose proof (scope_keys_NoDup m bpname) as Hnd. rewrite El in Hnd.
  apply NoDup_cons in Hnd as [Hne _].
  assert (first <> second) by (intros ->; apply Hne; left).
  unfold first_two, records_total. rewrite El. cbn [take]. rewrite take_0. cbn [foldr]. rewrite Hr.
  rewrite map_sum_delete, map_sum_insert, (at_key_Some _ _ _ _ Hr). unfold at_key.
  rewrite lookup_insert_ne by congruence. cbn [vr_total_reward amount].
  destruct (m !! (bpname, first)); lia.
Qed.

(** The record made, and the oldest dropped; the table afterwards. *)
Lemma settle_bp_records u bpname e s s' b :
  reward_inv (db s) -> bps (db s) !! bpname = Some b -> settle_bp u bpname e s = Ok (tt, s') ->
  exists m b', s' = St (set_bps (<[bpname := b']> (bps (db s))) (set_votereward m (db s))) (notified s) (inline_actions s) /\
    bp_rewards_block b' = bp_rewards_block b /\
    rows (fun r => coin (vr_total_reward r)) m /\
    (forall k x, m !! k = Some x -> is_s 64 (vr_total_voteage x)) /\
    (forall bp pk, bp <> bpname -> m !! (bp, pk) = votereward (db s) !! (bp, pk)) /\
    records_total m = records_total (votereward (db s)) - dropped_of (current_block_num e) (votereward (db s)) bpname b.
Proof.
  intros [[Hr _] [Ha] _] Hb H. unfold settle_bp in H. sinv. simplify_map_eq. set (cur := current_block_num e) in *.
  unfold dropped_of. fold (new_record cur b) in *.
  assert (Hsame : forall k (x y : vote_reward_info) M, <[k := x]> (<[k := y]> M) = <[k := x]> M)
    by (intros; apply insert_insert_eq).
  destruct (votereward (db s) !! (bpname, cur)) as [r|] eqn:Hcur; sinv.
  { eexists (votereward (db s)), _. ssimp. split; [by destruct s as [[] ? ?]|].
    split; [by destruct (negb _)|]. split_and!; [done..|lia]. }
  assert (Hrow : rows (fun r => coin (vr_total_reward r))
            (<[(bpname, u64 (i32 cur)) := new_record cur b]> (votereward (db s)))).
  { apply rows_insert; [done|apply coin_zero]. }
  assert (Hage : forall k x, <[(bpname, u64 (i32 cur)) := new_record cur b]> (votereward (db s)) !! k = Some x ->
            is_s 64 (vr_total_voteage x)).
  { intros k x Hk. apply lookup_insert_Some in Hk as [[_ <-]|[_ Hk]]; [|eauto]. apply (wrapS_range 64). lia. }
  match goal with Hn : votereward _ !! (bpname, u64 _) = None |- _ => rename Hn into Hnone end.
  assert (Htot : records_total (<[(bpname, u64 (i32 cur)) := new_record cur b]> (votereward (db s)))
                 = records_total (votereward (db s))).
  { unfold records_total. rewrite map_sum_insert_None by done. done. }
  destruct (bp_reward_size b =? BP_REWARD_RECORD_SIZE) eqn:Hsz; sinv.
  - match goal with Hm : match scope_keys ?M _ with _ => _ end _ _ = Ok _ |- _ =>
      destruct (scope_keys M bpname) as [|first [|second l]] eqn:El; sinv end.
    match goal with Hx : _ !! (bpname, second) = Some ?x |- _ => rename Hx into Hsec; rename x into r end.
    eexists _, _. ssimp. split; [reflexivity|]. split; [by destruct (negb _)|]. split_and!.
    + intros k v [_ Hk]%lookup_delete_Some. revert k v Hk. apply rows_insert; [done|apply coin_zero].
    + intros k v [_ Hk]%lookup_delete_Some. apply lookup_insert_Some in Hk as [[_ <-]|[_ Hk]]; [|eauto].
      cbn. by eapply Hage.
    + intros bp pk Hne. rewrite lookup_delete_ne, !lookup_insert_ne by congruence. done.
    + rewrite (drop_two _ _ _ _ _ _ El Hsec), Htot. lia.
  - eexists _, _. ssimp. split; [reflexivity|]. split; [by destruct (negb _)|]. split_and!; [done|done| |lia].
    intros bp pk Hne. by rewrite lookup_insert_ne by congruence.
Qed.

Lemma settle_bp_ok u bpname e s s' :
  reward_inv (db s) -> settle_bp u bpname e s = Ok (tt, s') ->
  reward_inv (db s') /\ other_bps bpname (db s) (db s') /\ inline_actions s' = inline_actions s /\
  same_stakes (db s) (db s') /\
  exists b, bps (db s) !! bpname = Some b /\
    owed (db s') = owed (db s) - dropped_of (current_block_num e) (votereward (db s)) bpname b.
Proof.
  intros Hi H. destruct (bps (db s) !! bpname) as [b|] eqn:Hb.
  2: { unfold settle_bp in H. sinv. congruence. }
  destruct (settle_bp_records _ _ _ _ _ _ Hi Hb H) as (m & b' & -> & E & Hrow & Hage & Ho & Htot).
  destruct Hi as [[Hr Hv] Ha Hbs]. ssimp. split_and!.
  - split; [by split|by split|]. ssimp. apply rows_insert; [done|]. rewrite E. by eapply Hbs.
  - split; ssimp; [done|]. intros bp Hne. by rewrite lookup_insert_ne by congruence.
  - done.
  - done.
  - exists b. split; [done|]. unfold owed, rewards_due, block_rewards. ssimp.
    rewrite map_sum_insert, (at_key_Some _ _ _ _ Hb), E. lia.
Qed.

Lemma settle_bps_ok e l u s s' :
  NoDup l -> reward_inv (db s) -> mfor settle_bp u l e s = Ok (tt, s') ->
  reward_inv (db s') /\ inline_actions s' = inline_actions s /\ same_stakes (db s) (db s') /\
  owed (db s') = owed (db s) - dropped_by (current_block_num e) (db s) l.
Proof.
  intros Hnd. revert u s. induction Hnd as [|bp l Hin _ IH]; intros u s Hi H; cbn [mfor] in H; sinv.
  { split_and!; [done|done|by split_and!|cbn; lia]. }
  match goal with Hx : settle_bp _ _ _ _ = Ok (?a, ?sm) |- _ => destruct a; rename sm into s1;
    apply settle_bp_ok in Hx as (Hi1 & [Hr1 Hb1] & E1 & S1 & b & Hb & O1); [|done] end.
  match goal with Hx : mfor _ _ _ _ _ = Ok _ |- _ => apply IH in Hx as (Hi2 & E2 & S2 & O2); [|done] end.
  split_and!; [done|congruence| |].
  - unfold same_stakes in *. destruct_and?. split_and!; congruence.
  - rewrite O2, O1. cbn [dropped_by foldr]. rewrite Hb.
    assert (E : forall l', ~ bp ∈ l' -> dropped_by (current_block_num e) (db s1) l' = dropped_by (current_block_num e) (db s) l').
    { clear -Hr1 Hb1. induction l' as [|x l' IH]; intros Hx; [done|]. apply not_elem_of_cons in Hx as [Hne Hx].
      cbn [dropped_by foldr]. rewrite Hb1 by congruence. destruct (bps (db s) !! x); [|by apply IH].
      rewrite (dropped_of_agree _ (votereward (db s)) (votereward (db s1))) by (intros pk; apply Hr1; congruence).
      f_equal. by apply IH. }
    rewrite E by done. fold (dropped_by (current_block_num e) (db s) l). lia.
Qed.

Lemma settlebpvote_ok e s s' :
  reward_inv (db s) -> settlebpvote e s = Ok (tt, s') ->
  reward_inv (db s') /\ inline_actions s' = inline_actions s /\ same_stakes (db s) (db s') /\
  owed (db s') = owed (db s) - dropped (current_block_num e) (db s).
Proof.
  intros Hi H. unfold settlebpvote in H. sinv. eapply settle_bps_ok; [apply sorted_keys_NoDup|done|].
  eassumption.
Qed.

(** ** Theorems. *)

(** Runs of the voting actions and of the settlements of [onblock], with the reward that
    the settlements have dropped. *)
Inductive rrun (s0 : st sys_state) : Z -> st sys_state -> Prop :=
| rrun_init : rrun s0 0 s0
| rrun_action lost s c e s' :
    rrun s0 lost s -> vcall_typed c -> vapply false c e s = Ok (tt, s') -> rrun s0 lost s'
| rrun_settle lost s e s' :
    rrun s0 lost s -> settlebpvote e s = Ok (tt, s') ->
    rrun s0 (lost + dropped (current_block_num e) (db s)) s'.

Lemma rrun_kept s0 lost s :
  stake_inv (db s0) -> reward_inv (db s0) -> rrun s0 lost s ->
  stake_inv (db s) /\ reward_inv (db s) /\
  owed (db s) + casts (inline_actions s) + lost = owed (db s0) + casts (inline_actions s0).
Proof.
  intros Hs Hi. induction 1 as [|lost s c e s' _ (Hs1 & Hi1 & E) Hty H|lost s e s' _ (Hs1 & Hi1 & E) H].
  - split_and!; [done|done|lia].
  - destruct (vapply_kept _ _ _ _ Hs1 Hty H) as (? & _ & _).
    destruct (vapply_rewards_kept _ _ _ _ Hs1 Hi1 Hty H) as [? E1]. split_and!; [done|done|lia].
  - destruct (settlebpvote_ok _ _ _ Hi1 H) as (? & E1 & (F1 & F2 & F3 & F4 & F5) & E2). split_and!; [|done|].
    + destruct Hs1. split; rewrite ?F1, ?F2, ?F3, ?F4, ?F5; done.
    + rewrite E1, E2. lia.
Qed.

(** C4: In every run of the staking actions and of the settlement onblock sends, on a
    build without multiple votes and from a state whose rows and records are well
    formed, no reward is created or lost: what is recorded for voters and producers,
    what has been cast to them and what settlebpvote drops with the two oldest of
    360 records add up to the same. *)
Theorem vote_rewards_conserved (s0 s : st sys_state) (lost : Z) (Hs : stake_inv (db s0))
  (Hi : reward_inv (db s0)) (Hr : rrun s0 lost s) :
  owed (db s) + casts (inline_actions s) + lost = owed (db s0) + casts (inline_actions s0).
Proof. by destruct (rrun_kept _ _ _ Hs Hi Hr) as (_ & _ & ?). Qed.

(** The age a vote has in the period of a record. *)
Definition day_age (vote : Z) (acc : settle_acc) (it : vote_reward_info) : Z :=
  i64 (sa_voteage acc + age_gain (whole vote) (vr_reward_block_num it) (sa_height acc)).

(** Settling one reward record pays the voter the record's reward times the voter's
    share of the record's vote age, rounded down, and takes exactly that from the
    record. *)
Theorem settle_share (vote bpname pk : Z) (acc acc' : settle_acc) (e : env)
  (s s' : st sys_state) (it : vote_reward_info)
  (Hit : votereward (db s) !! (bpname, pk) = Some it)
  (Hnew : sa_height acc < u32 (vr_reward_block_num it))
  (Hc : coin (vr_total_reward it)) (Hacc : coin (sa_reward acc))
  (H0 : 0 <= amount (vr_total_reward it))
  (Hage : 0 <= day_age vote acc it <= vr_total_voteage it)
  (Hs64 : is_s 64 (vr_total_voteage it))
  (Hrun : settle_record vote bpname acc pk e s = Ok (acc', s')) :
  let share := amount (vr_total_reward it) * day_age vote acc it / vr_total_voteage it in
  amount (sa_reward acc') = amount (sa_reward acc) + share /\
  0 <= share <= amount (vr_total_reward it) /\
  votereward (db s') !! (bpname, pk) =
    Some (VoteRewardInfo (vr_total_voteage it - day_age vote acc it)
            (Asset (amount (vr_total_reward it) - share) CORE_SYMBOL)
            (vr_reward_block_num it)).
Proof.
  unfold settle_record in Hrun. sinv. simplify_map_eq. scase; [|lia].
  fold (day_age vote acc it) in *.
  match goal with Hm : asset_mul _ _ = Ok _, Hd : asset_div _ _ = Ok _ |- _ =>
    destruct (coin_mul_div _ _ _ _ _ Hc (wrapS_range 64 _ ltac:(lia)) Hs64 Hm Hd)
      as (-> & Hne & Hcs) end.
  match goal with Hx : asset_add _ _ = Ok _ |- _ =>
    apply coin_add in Hx as [-> ?]; [|done|done] end.
  match goal with Hx : asset_sub _ _ = Ok _ |- _ =>
    apply coin_sub in Hx as [-> ?]; [|done|done] end.
  ssimp. cbn [sa_reward]. fold (day_age vote acc it) in *.
  set (d := day_age vote acc it) in *. set (t := vr_total_voteage it) in *.
  set (r := amount (vr_total_reward it)) in *.
  assert (0 < t) by lia. assert (0 <= r * d <= t * r) by (clear -H0 Hage; nia).
  rewrite Z.quot_div_nonneg by lia.
  assert (0 <= r * d / t <= r).
  { split; [apply Z.div_pos; lia|]. apply Z.div_le_upper_bound; lia. }
  split; [done|]. split; [done|]. rewrite lookup_insert_eq.
  rewrite wrapS_small by (width_norm; lia). done.
Qed.

(** Records are kept under their block number. *)
Definition record_keys (m : gmap (Z * Z) vote_reward_info) : Prop :=
  forall bp pk r, m !! (bp, pk) = Some r -> vr_reward_block_num r = pk /\ 0 <= pk < 2 ^ 31.

(** Before a later record, the loop neither passes nor changes it. *)
Lemma settle_records_before vote bpname pk it e s l acc r :
  record_keys (votereward (db s)) -> votereward (db s) !! (bpname, pk) = Some it ->
  (forall k, k ∈ l -> k < pk) -> sa_height acc < pk ->
  mfor (settle_record vote bpname) acc l e s = Ok r ->
  votereward (db (snd r)) !! (bpname, pk) = Some it /\ sa_height (fst r) < pk.
Proof.
  intros Hkeys Hit Hl Hacc H.
  apply (mfor_inv (fun a s1 => record_keys (votereward (db s1)) /\
     votereward (db s1) !! (bpname, pk) = Some it /\ sa_height a < pk)) in H; [by destruct H|  |done].
  intros a x s1 r1 Hx (Hk & Hi & Ha) Hf. specialize (Hl _ Hx).
  unfold settle_record in Hf. sinv. scase; [|done].
  match goal with Hr : votereward _ !! (bpname, x) = Some _ |- _ =>
    destruct (Hk _ _ _ Hr) as [-> Hxr] end.
  ssimp. cbn [sa_height]. split_and!.
  - intros bp pk' r' Hr'. apply lookup_insert_Some in Hr' as [[[= <- <-] <-]|[_ Hr']]; [done|eauto].
  - by rewrite lookup_insert_ne by (intros [= ->]; lia).
  - rewrite wrapU_small by clia. done.
Qed.

(** A reward record whose vote age is zero makes every later settlement of a voter
    it concerns fail. *)
Theorem settle_blocked (voter bpname pk : Z) (e : env) (s : st sys_state)
  (v : vote_info) (it : vote_reward_info)
  (Hv : votes (db s) !! (voter, bpname) = Some v)
  (Hkeys : record_keys (votereward (db s)))
  (Hit : votereward (db s) !! (bpname, pk) = Some it)
  (Hnew : vi_voteage_update_height v < pk)
  (Hzero : vr_total_voteage it = 0) :
  exists msg, settlevoter voter bpname e s = Err msg.
Proof.
  destruct (settlevoter voter bpname e s) as [r|msg] eqn:H; [exfalso|eauto].
  unfold settlevoter in H. sinv. simplify_map_eq.
  assert (Hin : pk ∈ scope_keys (votereward (db s)) bpname) by (apply scope_keys_spec; eauto).
  apply list_elem_of_split in Hin as (l1 & l2 & El).
  match goal with Hx : mfor _ _ _ _ _ = Ok _ |- _ =>
    rewrite El in Hx; apply mfor_app in Hx as (acc & s1 & H1 & H2) end.
  apply (settle_records_before _ _ pk it) in H1 as [Hi1 Hh1];
    [|done|done|intros k Hk; by eapply scope_keys_before|done].
  cbn [fst snd] in *. destruct (Hkeys _ _ _ Hit) as [Ep Hp].
  cbn [mfor] in H2. apply mbind_ok in H2 as (a2 & s2 & H2 & _).
  unfold settle_record in H2. sinv. simplify_map_eq.
  rewrite (wrapU_small 32 (vr_reward_block_num it)) in * by clia. scase; [|lia].
  match goal with Hd : asset_div _ _ = Ok _ |- _ =>
    unfold asset_div in Hd; rewrite Hzero in Hd end. simpl in *. rinv.
Qed.

(** ** Witnesses. *)

Lemma ex_reward_inv : reward_inv (db ex_sst).
Proof.
  split; [split|split|]; unfold ex_sst, ex_sys; ssimp; intros k v Hk; rows_of Hk; apply coin_zero.
Qed.

(** The vote is withdrawn at block 20; records are made at blocks 30 and 40. *)
Definition ex_withdrawn : st sys_state :=
  sys_run (vote false ex_voter ex_bp (Asset 0 CORE_SYMBOL) (ex_senv ex_voter 20) ex_sst).
Definition ex_settled : st sys_state :=
  sys_run (settlebpvote (ex_senv sys_acct 40)
    (sys_run (settlebpvote (ex_senv sys_acct 30) ex_withdrawn))).
Definition ex_empty_vote : vote_info :=
  VoteInfo (Asset 0 CORE_SYMBOL) ex_bp 2000 20 (Asset 0 CORE_SYMBOL).

Lemma ex_settled_rows :
  votereward (db ex_settled) =
    {[(ex_bp, 30) := VoteRewardInfo 2000 (Asset 0 CORE_SYMBOL) 30;
      (ex_bp, 40) := VoteRewardInfo 0 (Asset 0 CORE_SYMBOL) 40]}.
Proof. by vm_compute. Qed.

Lemma settle_blocked_witness :
  exists msg, settlevoter ex_voter ex_bp (ex_senv ex_voter 50) ex_settled = Err msg.
Proof.
  apply (settle_blocked ex_voter ex_bp 40 (ex_senv ex_voter 50) ex_settled ex_empty_vote
           (VoteRewardInfo 0 (Asset 0 CORE_SYMBOL) 40)); [by vm_compute| |by vm_compute|done|done].
  intros bp pk r Hr. rewrite ex_settled_rows in Hr. rows_of Hr; done.
Defined.

(** The same age with a reward of 50 tokens in the record of block 30. *)
Definition ex_record : vote_reward_info := VoteRewardInfo 4000 (Asset 500000 CORE_SYMBOL) 30.
Definition ex_pot : st sys_state :=
  St (set_votereward {[(ex_bp, 30) := ex_record]} (db ex_withdrawn)) [] [].
Definition ex_acc : settle_acc := SettleAcc 2000 20 (Asset 0 CORE_SYMBOL) false.
Definition ex_acc' : settle_acc := SettleAcc 0 30 (Asset 250000 CORE_SYMBOL) true.

Lemma settle_share_witness :
  250000 = 0 + 250000 /\ 0 <= 250000 <= 500000 /\
  votereward (db (sys_run (settle_record 0 ex_bp ex_acc 30 (ex_senv ex_voter 50) ex_pot)))
    !! (ex_bp, 30) =
    Some (VoteRewardInfo (4000 - 2000) (Asset (500000 - 250000) CORE_SYMBOL) 30).
Proof.
  apply (settle_share 0 ex_bp 30 ex_acc ex_acc' (ex_senv ex_voter 50) ex_pot
           (sys_run (settle_record 0 ex_bp ex_acc 30 (ex_senv ex_voter 50) ex_pot)) ex_record);
    [by vm_compute|by vm_compute|apply coin_mk; cbn; arange; lia|apply coin_zero|done
    |by vm_compute|by vm_compute|by vm_compute].
Defined.

(** The voter claims its half of the record and the bp's settlement of block 60 follows. *)
Definition ex_claimed : st sys_state :=
  sys_run (vapply false (Claimvote ex_bp ex_voter) (ex_senv ex_voter 50) ex_pot).
Definition ex_resettled : st sys_state := sys_run (settlebpvote (ex_senv sys_acct 60) ex_claimed).

Lemma ex_pot_ok : stake_inv (db ex_pot) /\ reward_inv (db ex_pot).
Proof.
  assert (H : rrun ex_sst 0 ex_withdrawn).
  { eapply (rrun_action _ _ ex_sst (Vote ex_voter ex_bp (Asset 0 CORE_SYMBOL)) (ex_senv ex_voter 20));
      [constructor|simpl; arange; lia|by vm_compute]. }
  destruct (rrun_kept ex_sst _ _ ex_stake_inv ex_reward_inv H) as ([] & [[] [] ?] & _).
  split; [by split|]. split; [split|split|done]; unfold ex_pot; ssimp; [|done|];
    intros k v Hk; rows_of Hk; [apply coin_mk; cbn; arange; lia|done].
Qed.

(** 25 of the 50 tokens are cast, 25 stay in the record. *)
Lemma vote_rewards_conserved_witness :
  owed (db ex_resettled) + 250000 + 0 = owed (db ex_pot) + 0 /\ owed (db ex_pot) = 500000.
Proof.
  split; [|by vm_compute]. destruct ex_pot_ok as [Hs Hi].
  apply (vote_rewards_conserved ex_pot ex_resettled 0 Hs Hi).
  apply (rrun_settle ex_pot 0 ex_claimed (ex_senv sys_acct 60)); [|by vm_compute].
  apply (rrun_action ex_pot 0 ex_pot (Claimvote ex_bp ex_voter) (ex_senv ex_voter 50)); [constructor|done|by vm_compute].
Defined.
