(* ===== verification/Bandwidth.v ===== *)
(** * Delegated bandwidth of the system contract.

    [delegate_bandwidth.cpp], with [setparams] and [newaccount] of
    [force.system.cpp]. *)
From stdpp Require Import base gmap list strings.
From Stdlib Require Import ZArith Lia.
From S2P Require Import Prelude Name Asset Runtime SystemState Voting Staking.

Open Scope Z_scope.

Definition refund_delay : Z := 3 * 24 * 3600.

(** [asset(0)]. *)
Abbreviation zero_asset := (Asset 0 CORE_SYMBOL) (only parsing).

(** [a == asset(0) && b == asset(0)]. *)
Definition both_zero (a b : asset) : result bool :=
  (let* za := asset_eq a zero_asset in
   if za : bool then asset_eq b zero_asset else Ok false)%res.

(** [a < asset(0) || b < asset(0)]. *)
Definition some_negative (a b : asset) : result bool :=
  (let* na := asset_lt a zero_asset in
   if na : bool then Ok true else asset_lt b zero_asset)%res.

(** The stake delegated from [from] to [receiver]. *)
Definition change_delband (from receiver : Z) (net_delta cpu_delta : asset) : M sys_state unit :=
  itr ← find delband_t (from, receiver);
  row ←
    match itr with
    | None =>
        emplace delband_t (from, receiver)
          (DelegatedBandwidth from receiver net_delta cpu_delta);;
        mret (DelegatedBandwidth from receiver net_delta cpu_delta)
    | Some d =>
        net ← lift (asset_add (db_net_weight d) net_delta);
        cpu ← lift (asset_add (db_cpu_weight d) cpu_delta);
        modify delband_t (from, receiver)
          (DelegatedBandwidth (db_from d) (db_to d) net cpu);;
        mret (DelegatedBandwidth (db_from d) (db_to d) net cpu)
    end;
  n ← lift (asset_le zero_asset (db_net_weight row));
  eosio_assert n "insufficient staked net bandwidth";;
  c ← lift (asset_le zero_asset (db_cpu_weight row));
  eosio_assert c "insufficient staked cpu bandwidth";;
  z ← lift (both_zero (db_net_weight row) (db_cpu_weight row));
  if z : bool then erase delband_t (from, receiver) else mret tt.

(** The totals of [receiver], and its limits. *)
Definition change_totals (receiver : Z) (net_delta cpu_delta : asset) : M sys_state unit :=
  tot_itr ← find userres_t receiver;
  row ←
    match tot_itr with
    | None =>
        emplace userres_t receiver (UserResources receiver net_delta cpu_delta 0);;
        mret (UserResources receiver net_delta cpu_delta 0)
    | Some t =>
        net ← lift (asset_add (ur_net_weight t) net_delta);
        cpu ← lift (asset_add (ur_cpu_weight t) cpu_delta);
        modify userres_t receiver (UserResources (ur_owner t) net cpu (ur_ram_bytes t));;
        mret (UserResources (ur_owner t) net cpu (ur_ram_bytes t))
    end;
  n ← lift (asset_le zero_asset (ur_net_weight row));
  eosio_assert n "insufficient staked total net bandwidth";;
  c ← lift (asset_le zero_asset (ur_cpu_weight row));
  eosio_assert c "insufficient staked total cpu bandwidth";;
  host_call_ (set_resource_limits receiver (ur_ram_bytes row) (amount (ur_net_weight row))
                (amount (ur_cpu_weight row)));;
  z ← lift (both_zero (ur_net_weight row) (ur_cpu_weight row));
  if z && (ur_ram_bytes row =? 0) then erase userres_t receiver else mret tt.

(** One component of the updater of a refund: the amount left in the request and
    the balance left to pay. *)
Definition settle_part (amt balance : asset) : result (asset * asset) :=
  (let* r := asset_sub amt balance in
   let* neg := asset_lt r zero_asset in
   if neg : bool then Ok (zero_asset, asset_neg r) else Ok (r, zero_asset))%res.

(** One component of a new request. *)
Definition new_part (balance : asset) : result (asset * asset) :=
  (let* neg := asset_lt balance zero_asset in
   if neg : bool then Ok (asset_neg balance, zero_asset) else Ok (zero_asset, balance))%res.

(** Creates, updates or deletes the refund request of [from]; the balances that
    remain to be paid. *)
Definition change_refund (from : Z) (net cpu : asset) : M sys_state (asset * asset) :=
  e ← ask;
  req ← find refunds_t from;
  neg ← lift (some_negative net cpu);
  match req with
  | Some r =>
      np ← lift (settle_part (rr_net_amount r) net);
      cp ← lift (settle_part (rr_cpu_amount r) cpu);
      modify refunds_t from
        (RefundRequest (rr_owner r) (if neg : bool then now e else rr_request_time r)
           (fst np) (fst cp));;
      n ← lift (asset_le zero_asset (fst np));
      eosio_assert n "negative net refund amount";;
      c ← lift (asset_le zero_asset (fst cp));
      eosio_assert c "negative cpu refund amount";;
      z ← lift (both_zero (fst np) (fst cp));
      (if z : bool then erase refunds_t from else mret tt);;
      mret (snd np, snd cp)
  | None =>
      if neg : bool then
        np ← lift (new_part net);
        cp ← lift (new_part cpu);
        emplace refunds_t from (RefundRequest from (now e) (fst np) (fst cp));;
        mret (snd np, snd cp)
      else mret (net, cpu)
  end.

Definition changebw (from receiver : Z) (net_delta cpu_delta : asset) (transfer : bool)
  : M sys_state unit :=
  require_auth from;;
  z ← lift (both_zero net_delta cpu_delta);
  eosio_assert (negb z) "should stake non-zero amount";;
  sum ← lift (asset_add net_delta cpu_delta);
  eosio_assert (Z.max (Z.abs (amount net_delta)) (Z.abs (amount cpu_delta))
                <=? Z.abs (amount sum)) "net and cpu deltas cannot be opposite signs";;
  let source_stake_from := from in
  let from := if transfer then receiver else from in
  change_delband from receiver net_delta cpu_delta;;
  change_totals receiver net_delta cpu_delta;;
  if config.system_account_name =? source_stake_from then mret tt else
  let is_undelegating := i64 (amount net_delta + amount cpu_delta) <? 0 in
  let is_delegating_to_self := negb transfer && (from =? receiver) in
  balances ←
    (if is_delegating_to_self || is_undelegating then change_refund from net_delta cpu_delta
     else mret (net_delta, cpu_delta));
  transfer_amount ← lift (asset_add (fst balances) (snd balances));
  pos ← lift (asset_lt zero_asset transfer_amount);
  if pos : bool then
    send_transfer source_stake_from config.system_account_name transfer_amount "stake bandwidth"
  else mret tt.

Definition delegatebw (from receiver : Z) (net cpu : asset) (transfer : bool)
  : M sys_state unit :=
  c ← lift (asset_ge cpu zero_asset);
  eosio_assert c "must stake a positive amount";;
  n ← lift (asset_ge net zero_asset);
  eosio_assert n "must stake a positive amount";;
  sum ← lift (asset_add net cpu);
  pos ← lift (asset_gt sum zero_asset);
  eosio_assert pos "must stake a positive amount";;
  eosio_assert (negb transfer || negb (from =? receiver))
    "cannot use transfer flag if delegating to self";;
  changebw from receiver net cpu transfer.

Definition undelegatebw (from receiver : Z) (net cpu : asset) : M sys_state unit :=
  c ← lift (asset_le zero_asset cpu);
  eosio_assert c "must unstake a positive amount";;
  n ← lift (asset_le zero_asset net);
  eosio_assert n "must unstake a positive amount";;
  sum ← lift (asset_add cpu net);
  pos ← lift (asset_lt zero_asset sum);
  eosio_assert pos "must unstake a positive amount";;
  changebw from receiver (asset_neg net) (asset_neg cpu) false.

Definition refund (owner : Z) : M sys_state unit :=
  require_auth owner;;
  req ← get refunds_t owner "refund request not found";
  e ← ask;
  eosio_assert (u32 (rr_request_time req + refund_delay) <=? now e)
    "refund is not available yet";;
  total ← lift (asset_add (rr_net_amount req) (rr_cpu_amount req));
  send_transfer config.system_account_name (rr_owner req) total "unstake";;
  erase refunds_t owner.

(** ** [force.system.cpp]. *)

Definition setparams (params : blockchain_parameters) : M sys_state unit :=
  e ← ask;
  require_auth (self e);;
  eosio_assert (3 <=? max_authority_depth params) "max_authority_depth should be at least 3";;
  host_call_ (set_blockchain_parameters params).

Definition newaccount (creator name : Z) : M sys_state unit :=
  emplace userres_t name (UserResources name zero_asset zero_asset 0);;
  host_call_ (set_resource_limits name 0 0 0).

Inductive bwcall : Type :=
| Delegatebw (from receiver : Z) (net cpu : asset) (transfer : bool)
| Undelegatebw (from receiver : Z) (net cpu : asset)
| Refund (owner : Z)
| Newaccount (creator name : Z).

Definition bwapply (c : bwcall) : M sys_state unit :=
  match c with
  | Delegatebw from receiver net cpu transfer => delegatebw from receiver net cpu transfer
  | Undelegatebw from receiver net cpu => undelegatebw from receiver net cpu
  | Refund owner => refund owner
  | Newaccount creator name => newaccount creator name
  end.

(** ** Invariant. *)

(** A non-negative amount of the core token. *)
Definition weight (a : asset) : Prop := coin a /\ 0 <= amount a.

(** The net or the cpu part of a row. *)
Definition db_part (net : bool) (d : delegated_bandwidth) : asset :=
  if net then db_net_weight d else db_cpu_weight d.
Definition ur_part (net : bool) (t : user_resources) : asset :=
  if net then ur_net_weight t else ur_cpu_weight t.
Definition rr_part (net : bool) (r : refund_request) : asset :=
  if net then rr_net_amount r else rr_cpu_amount r.

(** What is delegated to an account, and the total recorded for it. *)
Definition delegated_to (s : sys_state) (net : bool) (receiver : Z) : Z :=
  map_sum (fun k d => if snd k =? receiver then amount (db_part net d) else 0) (delband s).
Definition total_in (m : gmap Z user_resources) (net : bool) (receiver : Z) : Z :=
  match m !! receiver with Some t => amount (ur_part net t) | None => 0 end.
Definition total_of (s : sys_state) (net : bool) (receiver : Z) : Z :=
  total_in (userres s) net receiver.

Record bw_inv (s : sys_state) : Prop := {
  bw_delband : rows (fun d => forall net, weight (db_part net d)) (delband s);
  bw_userres : rows (fun t => forall net, weight (ur_part net t)) (userres s);
  bw_refunds : rows (fun r => forall net, weight (rr_part net r)) (refunds s);
  bw_owner : forall k r, refunds s !! k = Some r -> rr_owner r = k;
  bw_totals : forall net receiver, total_of s net receiver = delegated_to s net receiver;
}.

(** ** Custody of delegated and refunding tokens. *)

Definition delegated (m : gmap (Z * Z) delegated_bandwidth) : Z :=
  map_sum (fun _ d => amount (db_net_weight d) + amount (db_cpu_weight d)) m.
Definition refunding (m : gmap Z refund_request) : Z :=
  map_sum (fun _ r => amount (rr_net_amount r) + amount (rr_cpu_amount r)) m.
Definition bw_custody (s : sys_state) : Z := delegated (delband s) + refunding (refunds s).

(** ** Lemmas. *)

Lemma both_zero_ok a b r :
  both_zero a b = Ok r -> symbol a = CORE_SYMBOL -> 
  r = true <-> amount a = 0 /\ amount b = 0.
Proof.
  unfold both_zero. intros H Ha. rinv. unfold asset_eq in *.
  match goal with Hx : asset_cmp _ a _ = Ok _ |- _ => apply asset_cmp_ok in Hx as [_ ->] end.
  simpl in *. destruct (Z.eqb_spec (amount a) 0).
  - apply asset_cmp_ok in H1 as [_ ->]. simpl. rewrite Z.eqb_eq. tauto.
  - rinv. split; [done|lia].
Qed.

Lemma some_negative_ok a b r :
  some_negative a b = Ok r -> r = true <-> amount a < 0 \/ amount b < 0.
Proof.
  unfold some_negative. intros H. rinv. unfold asset_lt in *.
  match goal with Hx : asset_cmp _ a _ = Ok _ |- _ => apply asset_cmp_ok in Hx as [_ ->] end.
  simpl in *. destruct (Z.ltb_spec (amount a) 0).
  - rinv. split; [by left|done].
  - apply asset_cmp_ok in H1 as [_ ->]. simpl. rewrite Z.ltb_lt. lia.
Qed.

Definition sel_sum (f : Z * Z -> bool) (net : bool) (m : gmap (Z * Z) delegated_bandwidth) : Z :=
  map_sum (fun k d => if f k then amount (db_part net d) else 0) m.

Lemma delegated_sel m :
  delegated m = sel_sum (fun _ => true) true m + sel_sum (fun _ => true) false m.
Proof. unfold delegated, sel_sum. by rewrite <- map_sum_add. Qed.

Definition db_amount (m : gmap (Z * Z) delegated_bandwidth) (net : bool) (k : Z * Z) : Z :=
  match m !! k with Some d => amount (db_part net d) | None => 0 end.

Lemma sel_sum_insert f net m k d :
  sel_sum f net (<[k := d]> m) =
  sel_sum f net m + (if f k then amount (db_part net d) - db_amount m net k else 0).
Proof.
  unfold sel_sum, db_amount. rewrite map_sum_insert. unfold at_key.
  destruct (m !! k), (f k); lia.
Qed.

Lemma sel_sum_delete f net m k :
  sel_sum f net (delete k m) = sel_sum f net m - (if f k then db_amount m net k else 0).
Proof.
  unfold sel_sum, db_amount. rewrite map_sum_delete. unfold at_key.
  destruct (m !! k), (f k); lia.
Qed.

(** [net ? a : b]. *)
Definition pick (net : bool) (a b : asset) : asset := if net then a else b.

Lemma rows_delete {K V} `{Countable K} (P : V -> Prop) (m : gmap K V) k :
  rows P m -> rows P (delete k m).
Proof. intros Hm k' v' Hk'. apply lookup_delete_Some in Hk' as [_ Hk']. eauto. Qed.

(** A row with the new weights, or no row when they are both zero. *)
Lemma change_delband_ok from receiver nd cd e s r :
  bw_inv (db s) -> coin nd -> coin cd -> change_delband from receiver nd cd e s = Ok r ->
  exists m, r = (tt, St (set_delband m (db s)) (notified s) (inline_actions s)) /\
    rows (fun d => forall net, weight (db_part net d)) m /\
    forall f net, sel_sum f net m =
      sel_sum f net (delband (db s)) + (if f (from, receiver) then amount (pick net nd cd) else 0).
Proof.
  intros Hinv Hn Hc H. unfold change_delband in H. apply mbind_ok in H as (itr & s1 & H1 & H).
  apply find_ok in H1 as [= -> ->]. apply mbind_ok in H as (row & s2 & Hrow & H).
  assert (Hrow' : s2 = St (set_delband (<[(from, receiver) := row]> (delband (db s))) (db s))
                       (notified s) (inline_actions s) /\
    (forall net, coin (db_part net row) /\ amount (db_part net row) =
       db_amount (delband (db s)) net (from, receiver) + amount (pick net nd cd))).
  { unfold db_amount. ssimp. scase.
    - pose proof (bw_delband _ Hinv _ _ Heqo) as Hd.
      repeat match goal with Hx : asset_add _ _ = Ok _ |- _ =>
        apply coin_add in Hx as [-> ?]; [|apply (Hd true)||apply (Hd false)|done] end.
      split; [done|]. intros []; (split; [by apply coin_mk|done]).
    - split; [done|]. by intros []. }
  clear Hrow. destruct Hrow' as [-> Hrow]. ssimp. sinv.
  match goal with Hz : both_zero _ _ = Ok _ |- _ =>
    apply both_zero_ok in Hz as Hz'; [clear Hz|apply (proj1 (Hrow true))] end.
  scase.
  - destruct (proj1 Hz' eq_refl) as [Hz1 Hz2]. eexists. split; [reflexivity|]. ssimp. split.
    + by apply rows_delete, rows_insert; [apply Hinv|];
        intros []; (split; [apply (Hrow _)|done]).
    + intros f net. rewrite sel_sum_delete, sel_sum_insert. unfold db_amount at 2.
      rewrite lookup_insert_eq. destruct (Hrow net) as [_ E].
      assert (amount (db_part net row) = 0) by by destruct net.
      destruct (f (from, receiver)); lia.
  - eexists. split; [reflexivity|]. ssimp. split.
    + apply rows_insert; [apply Hinv|]. intros []; (split; [apply (Hrow _)|done]).
    + intros f net. rewrite sel_sum_insert. destruct (Hrow net) as [_ E].
      destruct (f (from, receiver)); lia.
Qed.

Lemma change_totals_ok receiver nd cd e s r :
  rows (fun t => forall net, weight (ur_part net t)) (userres (db s)) -> coin nd -> coin cd ->
  change_totals receiver nd cd e s = Ok r ->
  exists m ram,
    r = (tt, St (set_userres m (set_host_calls (host_calls (db s) ++
                  [set_resource_limits receiver ram (total_in m true receiver)
                     (total_in m false receiver)]) (db s))) (notified s) (inline_actions s)) /\
    rows (fun t => forall net, weight (ur_part net t)) m /\
    forall net k, total_in m net k =
      total_in (userres (db s)) net k + (if k =? receiver then amount (pick net nd cd) else 0).
Proof.
  intros Hrows Hn Hc H. unfold change_totals in H. apply mbind_ok in H as (itr & s1 & H1 & H).
  apply find_ok in H1 as [= -> ->]. apply mbind_ok in H as (row & s2 & Hrow & H).
  assert (Hrow' : s2 = St (set_userres (<[receiver := row]> (userres (db s))) (db s))
                       (notified s) (inline_actions s) /\
    (forall net, coin (ur_part net row) /\ amount (ur_part net row) =
       total_in (userres (db s)) net receiver + amount (pick net nd cd))).
  { unfold total_in. ssimp. scase.
    - pose proof (Hrows _ _ Heqo) as Hd.
      repeat match goal with Hx : asset_add _ _ = Ok _ |- _ =>
        apply coin_add in Hx as [-> ?]; [|apply (Hd true)||apply (Hd false)|done] end.
      split; [done|]. intros []; (split; [by apply coin_mk|done]).
    - split; [done|]. by intros []. }
  clear Hrow. destruct Hrow' as [-> Hrow]. ssimp. sinv.
  match goal with Hz : both_zero _ _ = Ok _ |- _ =>
    apply both_zero_ok in Hz as Hz'; [clear Hz|apply (proj1 (Hrow true))] end.
  assert (Hw : forall net, weight (ur_part net row)).
  { intros []; (split; [apply (Hrow _)|done]). }
  match goal with Hx : (if ?b then erase _ _ else _) _ _ = Ok _ |- _ =>
    destruct b eqn:Hb; sinv end.
  - destruct (proj1 Hz' ltac:(done)) as [Hz1 Hz2]. exists (delete receiver (userres (db s))).
    exists (ur_ram_bytes row). unfold total_in. rewrite lookup_delete_eq. split; [|split].
    + rewrite Hz1, Hz2, delete_insert_eq. done.
    + by apply rows_delete.
    + intros net k. destruct (Hrow net) as [_ E]. unfold total_in in E.
      destruct (Z.eqb_spec k receiver) as [->|Hk].
      * rewrite lookup_delete_eq. assert (amount (ur_part net row) = 0) by by destruct net. lia.
      * rewrite lookup_delete_ne by done. lia.
  - exists (<[receiver := row]> (userres (db s))), (ur_ram_bytes row). unfold total_in.
    rewrite lookup_insert_eq. split; [done|]. split; [by apply rows_insert|].
    intros net k. destruct (Hrow net) as [_ E]. unfold total_in in E.
    destruct (Z.eqb_spec k receiver) as [->|Hk].
    + by rewrite lookup_insert_eq.
    + rewrite lookup_insert_ne by done. lia.
Qed.

Lemma weight_zero : weight zero_asset.
Proof. split; [apply coin_zero|done]. Qed.

Lemma weight_mk n : in_range n -> 0 <= n -> weight (Asset n CORE_SYMBOL).
Proof. split; [by apply coin_mk|done]. Qed.

Lemma settle_part_ok a b x y :
  coin a -> coin b -> settle_part a b = Ok (x, y) ->
  weight x /\ weight y /\ amount x - amount y = amount a - amount b.
Proof.
  intros Ha Hb H. unfold settle_part in H. rinv.
  match goal with Hx : asset_sub _ _ = Ok _ |- _ =>
    apply coin_sub in Hx as [-> ?]; [|done|done] end.
  unfold asset_lt in *. match goal with Hx : asset_cmp _ _ _ = Ok _ |- _ =>
    apply asset_cmp_ok in Hx as [_ ->] end. simpl in *.
  destruct (Z.ltb_spec (amount a - amount b) 0); rinv.
  - rewrite coin_neg by by apply coin_mk. cbn [amount].
    rewrite ?(wrapS_small 64) by (arange; lia).
    split; [apply weight_zero|]. split; [apply weight_mk; [arange; lia|lia]|cbn [amount]; lia].
  - split; [apply weight_mk; [done|lia]|]. split; [apply weight_zero|cbn [amount]; lia].
Qed.

Lemma new_part_ok b x y :
  coin b -> new_part b = Ok (x, y) ->
  weight x /\ weight y /\ amount x - amount y = - amount b.
Proof.
  intros Hb H. unfold new_part in H. rinv.
  unfold asset_lt in *. match goal with Hx : asset_cmp _ _ _ = Ok _ |- _ =>
    apply asset_cmp_ok in Hx as [_ ->] end. simpl in *.
  destruct (Z.ltb_spec (amount b) 0); rinv.
  - rewrite coin_neg by done. destruct Hb as [_ Hb]. rewrite ?(wrapS_small 64) by (arange; lia).
    split; [apply weight_mk; [arange; lia|lia]|]. split; [apply weight_zero|cbn [amount]; lia].
  - split; [apply weight_zero|]. split; [by split|cbn [amount]; lia].
Qed.

Lemma refunding_insert m k r :
  refunding (<[k := r]> m) =
  refunding m + amount (rr_net_amount r) + amount (rr_cpu_amount r)
  - match m !! k with Some r => amount (rr_net_amount r) + amount (rr_cpu_amount r) | None => 0 end.
Proof. unfold refunding. rewrite map_sum_insert. unfold at_key. destruct (m !! k); lia. Qed.

Lemma refunding_delete m k :
  refunding (delete k m) =
  refunding m
  - match m !! k with Some r => amount (rr_net_amount r) + amount (rr_cpu_amount r) | None => 0 end.
Proof. unfold refunding. rewrite map_sum_delete. unfold at_key. destruct (m !! k); lia. Qed.

(** The rows of the refund table. *)
Definition refund_rows (m : gmap Z refund_request) : Prop :=
  rows (fun r => forall net, weight (rr_part net r)) m /\
  (forall k r, m !! k = Some r -> rr_owner r = k).

Lemma refund_rows_insert m k r :
  refund_rows m -> rr_owner r = k -> weight (rr_net_amount r) -> weight (rr_cpu_amount r) ->
  refund_rows (<[k := r]> m).
Proof.
  intros [Hr Ho] Hk Hn Hc. split.
  - apply rows_insert; [done|]. by intros [].
  - intros k' r' Hk'. apply lookup_insert_Some in Hk' as [[<- <-]|[_ Hk']]; [done|eauto].
Qed.

Lemma refund_rows_delete m k : refund_rows m -> refund_rows (delete k m).
Proof.
  intros [Hr Ho]. split; [by apply rows_delete|].
  intros k' r' Hk'. apply lookup_delete_Some in Hk' as [_ Hk']. eauto.
Qed.

(** A request after a change: new, or with the time it had unless it grows. *)
Definition request_moved (t : Z) (grows : Prop) (r r' : option refund_request) : Prop :=
  forall y, r' = Some y ->
    rr_request_time y = t \/
    (~ grows /\ exists x, r = Some x /\ rr_request_time y = rr_request_time x).

(** The request takes what the balances lose. *)
Definition refund_moved (t from nd cd nb cb : Z) (m m' : gmap Z refund_request) : Prop :=
  refund_rows m' /\
  refunding m' - nb - cb = refunding m - nd - cd /\
  (forall k, k <> from -> m' !! k = m !! k) /\
  request_moved t (nd < 0 \/ cd < 0) (m !! from) (m' !! from).

Lemma change_refund_ok from nd cd e s nb cb s' :
  refund_rows (refunds (db s)) -> coin nd -> coin cd ->
  change_refund from nd cd e s = Ok ((nb, cb), s') ->
  exists m, s' = St (set_refunds m (db s)) (notified s) (inline_actions s) /\
    weight nb /\ weight cb /\
    refund_moved (now e) from (amount nd) (amount cd) (amount nb) (amount cb)
      (refunds (db s)) m.
Proof.
  intros Hrows Hn Hc H. unfold change_refund in H. sinv.
  match goal with Hx : some_negative _ _ = Ok _ |- _ =>
    apply some_negative_ok in Hx as Hneg; clear Hx end.
  scase.
  - destruct (proj1 Hrows _ _ Heqo true) as [Hrn _], (proj1 Hrows _ _ Heqo false) as [Hrc _].
    repeat match goal with Hx : settle_part ?a ?b = Ok _ |- _ =>
      apply settle_part_ok in Hx as (? & ? & ?); [|done|done] end.
    pose proof (proj2 Hrows _ _ Heqo) as Ho.
    match goal with Hx : (if ?b then erase _ _ else _) _ _ = Ok _ |- _ => destruct b; sinv end.
    + match goal with Hz : both_zero ?a ?b = Ok true |- _ =>
        destruct (proj1 (both_zero_ok _ _ _ Hz ltac:(by destruct H2 as [[] ?])) eq_refl) end.
      eexists. split; [by rewrite delete_insert_eq|]. split; [done|]. split; [done|].
      unfold refund_moved. split_and!.
      * by apply refund_rows_delete.
      * rewrite refunding_delete, Heqo. lia.
      * intros k Hk. by rewrite lookup_delete_ne.
      * intros y Hy. by rewrite lookup_delete_eq in Hy.
    + eexists. split; [done|]. split; [done|]. split; [done|]. unfold refund_moved. split_and!.
      * by apply refund_rows_insert.
      * rewrite refunding_insert, Heqo. ssimp. lia.
      * intros k Hk. by rewrite lookup_insert_ne.
      * intros y Hy. rewrite lookup_insert_eq in Hy. simplify_eq. ssimp.
        destruct x; [by left|right]. split; [rewrite <- Hneg; done|eauto].
  - match goal with Hx : (if ?b then _ else _) _ _ = Ok _ |- _ => destruct b; sinv end.
    + repeat match goal with Hx : new_part ?a = Ok _ |- _ =>
        apply new_part_ok in Hx as (? & ? & ?); [|done] end.
      eexists. split; [done|]. split; [done|]. split; [done|]. unfold refund_moved. split_and!.
      * by apply refund_rows_insert.
      * rewrite refunding_insert, Heqo. ssimp. lia.
      * intros k Hk. by rewrite lookup_insert_ne.
      * intros y Hy. rewrite lookup_insert_eq in Hy. simplify_eq. by left.
    + exists (refunds (db s)).
      assert (~ (amount nd < 0 \/ amount cd < 0)) by by rewrite <- Hneg.
      split; [by destruct s as [[] ? ?]|]. split; [split; [done|lia]|]. split; [split; [done|lia]|].
      unfold refund_moved. split_and!; [done|lia|done|].
      intros y Hy. right. split; [done|eauto].
Qed.

Definition bw_kept (s s' : st sys_state) : Prop :=
  bw_inv (db s') /\
  bw_custody (db s') - flows sys_acct (inline_actions s') =
    bw_custody (db s) - flows sys_acct (inline_actions s).

(** The stake and the totals move together. *)
Lemma bw_inv_changed s receiver from nd cd md mu mr hc :
  bw_inv s -> rows (fun d => forall net, weight (db_part net d)) md ->
  rows (fun t => forall net, weight (ur_part net t)) mu -> refund_rows mr ->
  (forall f net, sel_sum f net md =
     sel_sum f net (delband s) + (if f (from, receiver) then amount (pick net nd cd) else 0)) ->
  (forall net k, total_in mu net k =
     total_in (userres s) net k + (if k =? receiver then amount (pick net nd cd) else 0)) ->
  bw_inv (set_refunds mr (set_userres mu (set_host_calls hc (set_delband md s)))).
Proof.
  intros Hinv Hd Hu [Hr Ho] Ed Eu. split; ssimp; [done..|].
  intros net k. unfold total_of, delegated_to. ssimp. rewrite Eu.
  pose proof (Ed (fun x => snd x =? k) net) as E. unfold sel_sum in E. cbn [snd] in E.
  rewrite E. pose proof (bw_totals _ Hinv net k) as T. unfold total_of, delegated_to in T.
  rewrite (Z.eqb_sym receiver k). lia.
Qed.

(** The balances that remain to be paid, refunds considered. *)
Lemma balances_ok owner (self_ : bool) nd cd e s nb cb s' :
  refund_rows (refunds (db s)) -> coin nd -> coin cd ->
  in_range (amount nd + amount cd) ->
  Z.max (Z.abs (amount nd)) (Z.abs (amount cd)) <= Z.abs (amount nd + amount cd) ->
  (if self_ || (i64 (amount nd + amount cd) <? 0) then change_refund owner nd cd
   else mret (nd, cd)) e s = Ok ((nb, cb), s') ->
  exists m, s' = St (set_refunds m (db s)) (notified s) (inline_actions s) /\
    weight nb /\ weight cb /\
    refund_moved (now e) owner (amount nd) (amount cd) (amount nb) (amount cb)
      (refunds (db s)) m.
Proof.
  intros Hrows Hn Hc Hr Hsign H. rewrite wrapS_small in H by (arange; lia).
  destruct (self_ || _) eqn:Hb; [by apply change_refund_ok in H|].
  apply orb_false_iff in Hb as [_ Hb%Z.ltb_ge]. sinv. exists (refunds (db s)).
  split; [by destruct s as [[] ? ?]|]. split; [split; [done|lia]|]. split; [split; [done|lia]|].
  unfold refund_moved. split_and!; [done|lia|done|].
  intros y Hy. right. split; [lia|eauto].
Qed.

(** The tables of the stakes are left alone. *)
Definition same_staking (s s' : sys_state) : Prop :=
  freezed s' = freezed s /\ votes s' = votes s /\ votes4ram s' = votes4ram s /\
  mvotes s' = mvotes s /\ vote4ramsum s' = vote4ramsum s.

Lemma changebw_ok from receiver nd cd tr e s s' :
  bw_inv (db s) -> coin nd -> coin cd -> from <> sys_acct ->
  changebw from receiver nd cd tr e s = Ok (tt, s') ->
  let owner := if tr then receiver else from in
  has_authorization (authorization e) from = true /\ bw_kept s s' /\
  (exists ram, host_calls (db s') = host_calls (db s) ++
     [set_resource_limits receiver ram (total_of (db s') true receiver)
        (total_of (db s') false receiver)]) /\
  (forall net k, k <> receiver -> total_of (db s') net k = total_of (db s) net k) /\
  (forall k, k <> owner -> refunds (db s') !! k = refunds (db s) !! k) /\
  request_moved (now e) (amount nd + amount cd < 0) (refunds (db s) !! owner)
    (refunds (db s') !! owner) /\
  pays s s' /\ same_staking (db s) (db s').
Proof.
  intros Hinv Hn Hc Hne H owner. unfold changebw, send_transfer in H. sinv.
  match goal with Hx : change_delband _ _ _ _ _ _ = Ok _ |- _ =>
    apply change_delband_ok in Hx as (md & [= ->] & Hd & Ed); [|done..] end.
  match goal with Hx : change_totals _ _ _ _ _ = Ok _ |- _ =>
    apply change_totals_ok in Hx as (mu & ram & [= ->] & Hu & Eu); [|apply Hinv|done|done] end.
  ssimp. rewrite (proj2 (Z.eqb_neq config.system_account_name from)) in * by done. sinv.
  match goal with Hx : asset_add nd cd = Ok _ |- _ =>
    apply coin_add in Hx as [-> Hsum]; [|done|done] end. ssimp.
  match goal with Hx : (if _ || _ then change_refund _ _ _ else _) _ _ = Ok _ |- _ =>
    apply balances_ok in Hx as (mr & [= ->] & [Hnb Hnb0] & [Hcb Hcb0] & Hrf & Er & Ho & Hq);
      [|split; apply Hinv|done..] end.
  match goal with Hx : asset_add _ _ = Ok _ |- _ =>
    apply coin_add in Hx as [-> Hs2]; [|done|done] end. ssimp.
  pose proof (bw_inv_changed (db s) receiver owner nd cd md mu mr (host_calls (db s) ++
     [set_resource_limits receiver ram (total_in mu true receiver) (total_in mu false receiver)])
     Hinv Hd Hu Hrf Ed Eu) as Hinv'.
  assert (Ecust : delegated md + refunding mr = delegated (delband (db s)) +
            refunding (refunds (db s)) + (amount a + amount a0)).
  { rewrite !delegated_sel, !Ed. cbn [pick]. lia. }
  assert (Etot : forall net k, k <> receiver -> total_in mu net k = total_in (userres (db s)) net k).
  { intros net k Hk. rewrite Eu, (proj2 (Z.eqb_neq k receiver)) by done. lia. }
  split; [done|].
  match goal with Hx : (if ?b then send _ else _) _ _ = Ok _ |- _ => destruct b eqn:Hpos; sinv end.
  - split; [split; [done|]|].
    + unfold bw_custody. ssimp. rewrite flows_app. cbn [flows foldr].
      pose proof (flow_transfer_to from (amount a + amount a0) "stake bandwidth" Hne) as Hfl.
      unfold transfer_action, sys_acct in *. rewrite Hfl. lia.
    + split; [eexists; reflexivity|]. split; [done|]. split; [done|].
      split; [|by split; [apply pays_one, payment_transfer|]].
      intros y Hy. destruct (Hq _ Hy) as [|[Hg ?]]; [by left|right]. split; [lia|done].
  - split; [split; [done|]|].
    + unfold bw_custody. ssimp. lia.
    + split; [eexists; reflexivity|]. split; [done|]. split; [done|].
      split; [|by split; [apply pays_nil|]].
      intros y Hy. destruct (Hq _ Hy) as [|[Hg ?]]; [by left|right]. split; [lia|done].
Qed.


Lemma refund_ok owner e s s' :
  bw_inv (db s) -> refund owner e s = Ok (tt, s') ->
  has_authorization (authorization e) owner = true /\
  exists r, refunds (db s) !! owner = Some r /\
    u32 (rr_request_time r + refund_delay) <= now e /\
    s' = St (set_refunds (delete owner (refunds (db s))) (db s)) (notified s)
           (inline_actions s ++
            [transfer_action config.system_account_name owner
               (amount (rr_net_amount r) + amount (rr_cpu_amount r)) "unstake"]).
Proof.
  intros Hinv H. unfold refund, send_transfer in H. sinv. split; [done|].
  match goal with Hl : refunds _ !! _ = Some ?r |- _ => exists r; rename Hl into Hr end.
  match goal with Hx : asset_add _ _ = Ok _ |- _ =>
    apply coin_add in Hx as [-> _];
      [|apply (bw_refunds _ Hinv _ _ Hr true)|apply (bw_refunds _ Hinv _ _ Hr false)] end.
  rewrite (bw_owner _ Hinv _ _ Hr). done.
Qed.

Lemma refund_kept owner e s s' :
  bw_inv (db s) -> owner <> sys_acct -> refund owner e s = Ok (tt, s') -> bw_kept s s'.
Proof.
  intros Hinv Hne H. apply refund_ok in H as (_ & r & Hr & _ & ->); [|done]. split; ssimp.
  - destruct (refund_rows_delete (refunds (db s)) owner) as [? ?]; [split; apply Hinv|].
    destruct Hinv. by split.
  - unfold bw_custody. ssimp. rewrite refunding_delete, flows_app, Hr. cbn [flows foldr].
    rewrite flow_transfer_from by done. lia.
Qed.

Lemma newaccount_ok creator name e s s' :
  newaccount creator name e s = Ok (tt, s') ->
  userres (db s) !! name = None /\
  s' = St (set_userres (<[name := UserResources name zero_asset zero_asset 0]> (userres (db s)))
             (set_host_calls (host_calls (db s) ++ [set_resource_limits name 0 0 0]) (db s)))
          (notified s) (inline_actions s).
Proof. intros H. unfold newaccount in H. sinv. done. Qed.

Lemma newaccount_total m net name k :
  m !! name = None ->
  total_in (<[name := UserResources name zero_asset zero_asset 0]> m) net k = total_in m net k.
Proof.
  intros Hn. unfold total_in. destruct (Z.eq_dec name k) as [<-|Hk].
  - rewrite lookup_insert_eq, Hn. by destruct net.
  - by rewrite lookup_insert_ne.
Qed.

Lemma newaccount_kept creator name e s s' :
  bw_inv (db s) -> newaccount creator name e s = Ok (tt, s') -> bw_kept s s'.
Proof.
  intros Hinv H. apply newaccount_ok in H as [Hn ->]. split; ssimp; [|done].
  split; ssimp; try apply Hinv.
  - apply rows_insert; [apply Hinv|]. intros []; apply weight_zero.
  - intros net k. unfold total_of. ssimp. rewrite newaccount_total by done. apply Hinv.
Qed.

(** Amounts in range, and a caller other than the system account. *)
Definition bw_typed (c : bwcall) : Prop :=
  match c with
  | Delegatebw from _ net cpu _ | Undelegatebw from _ net cpu =>
      coin net /\ coin cpu /\ from <> sys_acct
  | Refund owner => owner <> sys_acct
  | Newaccount _ _ => True
  end.

Lemma coin_opp a : coin a -> coin (asset_neg a) /\ amount (asset_neg a) = - amount a.
Proof. intros Ha. rewrite coin_neg by done. destruct Ha. split; [apply coin_mk; arange; lia|done]. Qed.

Lemma delegatebw_run from receiver net cpu tr e s s' :
  delegatebw from receiver net cpu tr e s = Ok (tt, s') ->
  changebw from receiver net cpu tr e s = Ok (tt, s').
Proof. intros H. unfold delegatebw in H. sinv. done. Qed.

Lemma undelegatebw_run from receiver net cpu e s s' :
  coin net -> coin cpu -> undelegatebw from receiver net cpu e s = Ok (tt, s') ->
  0 < amount net + amount cpu /\
  changebw from receiver (asset_neg net) (asset_neg cpu) false e s = Ok (tt, s').
Proof.
  intros Hn Hc H. unfold undelegatebw in H. sinv.
  match goal with Hx : asset_add _ _ = Ok _ |- _ =>
    apply coin_add in Hx as [-> _]; [|done|done] end. ssimp. split; [lia|done].
Qed.

Lemma bwapply_kept c e s s' :
  bw_inv (db s) -> bw_typed c -> bwapply c e s = Ok (tt, s') -> bw_kept s s'.
Proof.
  destruct c; simpl; intros Hinv Hty H.
  - destruct Hty as (? & ? & ?). apply delegatebw_run in H. by eapply changebw_ok in H as (_ & ? & _).
  - destruct Hty as (Hn & Hc & ?). apply undelegatebw_run in H as [_ H]; [|done..].
    destruct (coin_opp net Hn), (coin_opp cpu Hc). by eapply changebw_ok in H as (_ & ? & _).
  - by eapply refund_kept.
  - by eapply newaccount_kept.
Qed.

Lemma bwapply_pays c e s s' :
  bw_inv (db s) -> bw_typed c -> bwapply c e s = Ok (tt, s') ->
  pays s s' /\ same_staking (db s) (db s').
Proof.
  destruct c; simpl; intros Hinv Hty H.
  - destruct Hty as (? & ? & ?). apply delegatebw_run in H.
    by eapply changebw_ok in H as (_ & _ & _ & _ & _ & _ & ?).
  - destruct Hty as (Hn & Hc & ?). apply undelegatebw_run in H as [_ H]; [|done..].
    destruct (coin_opp net Hn), (coin_opp cpu Hc).
    by eapply changebw_ok in H as (_ & _ & _ & _ & _ & _ & ?).
  - apply refund_ok in H as (_ & r & _ & _ & ->); [|done].
    split; [apply pays_one, payment_transfer|done].
  - apply newaccount_ok in H as [_ ->]. split; [apply pays_nil|done].
Qed.

(** The limits the host holds for an account: the last that were set. *)
Fixpoint last_limits (l : list host_call) (acct : Z) : option (Z * Z) :=
  match l with
  | [] => None
  | c :: l =>
      match last_limits l acct with
      | Some x => Some x
      | None =>
          match c with
          | set_resource_limits a _ net cpu => if a =? acct then Some (net, cpu) else None
          | _ => None
          end
      end
  end.

Lemma last_limits_snoc l a ram net cpu acct :
  last_limits (l ++ [set_resource_limits a ram net cpu]) acct =
  if a =? acct then Some (net, cpu) else last_limits l acct.
Proof.
  induction l as [|c l IH]; simpl; [by destruct (a =? acct)|].
  rewrite IH. by destruct (a =? acct).
Qed.

(** The limits of an account are its totals. *)
Definition limits_ok (s : sys_state) : Prop :=
  forall acct net cpu, last_limits (host_calls s) acct = Some (net, cpu) ->
  net = total_of s true acct /\ cpu = total_of s false acct.

Lemma limits_ok_set s s' receiver ram :
  limits_ok s ->
  host_calls s' = host_calls s ++
    [set_resource_limits receiver ram (total_of s' true receiver) (total_of s' false receiver)] ->
  (forall net k, k <> receiver -> total_of s' net k = total_of s net k) -> limits_ok s'.
Proof.
  intros Hl E Ho acct net cpu. rewrite E, last_limits_snoc.
  destruct (Z.eqb_spec receiver acct) as [->|Hne]; [by intros [= <- <-]|].
  rewrite !Ho by done. apply Hl.
Qed.

Lemma bwapply_limits c e s s' :
  bw_inv (db s) -> bw_typed c -> limits_ok (db s) -> bwapply c e s = Ok (tt, s') ->
  limits_ok (db s').
Proof.
  destruct c; simpl; intros Hinv Hty Hl H.
  - destruct Hty as (? & ? & ?). apply delegatebw_run in H.
    eapply changebw_ok in H as (_ & _ & [ram E] & Ho & _); [|done..]. by eapply limits_ok_set.
  - destruct Hty as (Hn & Hc & ?). apply undelegatebw_run in H as [_ H]; [|done..].
    destruct (coin_opp net Hn), (coin_opp cpu Hc).
    eapply changebw_ok in H as (_ & _ & [ram E] & Ho & _); [|done..]. by eapply limits_ok_set.
  - by apply refund_ok in H as (_ & r & _ & _ & ->).
  - apply newaccount_ok in H as [Hn ->]. ssimp. intros acct net cpu. ssimp.
    unfold total_of. ssimp. rewrite last_limits_snoc, !newaccount_total by done.
    destruct (Z.eqb_spec name acct) as [->|Hne]; [|apply Hl].
    intros [= <- <-]. unfold total_in. by rewrite Hn.
Qed.

(** A request keeps its time or gets the present one. *)
Lemma bwapply_request c e s s' owner :
  bw_inv (db s) -> bw_typed c -> bwapply c e s = Ok (tt, s') ->
  request_moved (now e) False (refunds (db s) !! owner) (refunds (db s') !! owner).
Proof.
  assert (Hch : forall from receiver nd cd tr, coin nd -> coin cd -> from <> sys_acct ->
    bw_inv (db s) -> changebw from receiver nd cd tr e s = Ok (tt, s') ->
    request_moved (now e) False (refunds (db s) !! owner) (refunds (db s') !! owner)).
  { intros from receiver nd cd tr ???? H. eapply changebw_ok in H as (_ & _ & _ & _ & Ho & Hq & _); [|done..].
    destruct (Z.eq_dec owner (if tr then receiver else from)) as [->|Hne].
    - intros y Hy. destruct (Hq _ Hy) as [|[_ ?]]; [by left|right]. by split; [intros []|].
    - rewrite Ho by done. intros y Hy. right. by split; [intros []|eauto]. }
  destruct c; simpl; intros Hinv Hty H.
  - destruct Hty as (? & ? & ?). apply delegatebw_run in H. by eapply Hch in H.
  - destruct Hty as (Hn & Hc & ?). apply undelegatebw_run in H as [_ H]; [|done..].
    destruct (coin_opp net Hn), (coin_opp cpu Hc). by eapply Hch in H.
  - apply refund_ok in H as (_ & r & _ & _ & ->); [|done]. ssimp. intros y Hy.
    apply lookup_delete_Some in Hy as [_ Hy]. right. by split; [intros []|eauto].
  - apply newaccount_ok in H as [_ ->]. ssimp. intros y Hy. right. by split; [intros []|eauto].
Qed.

(** ** Theorems. *)

Inductive bwstep (lo hi : Z) : st sys_state -> st sys_state -> Prop :=
| bwstep_intro c e s s' :
    bw_typed c -> lo <= now e <= hi -> bwapply c e s = Ok (tt, s') -> bwstep lo hi s s'.

Lemma bw_run_kept lo hi s0 s : bw_inv (db s0) -> rtc (bwstep lo hi) s0 s -> bw_kept s0 s.
Proof.
  intros H0 Hr. induction Hr as [s|s1 s2 s3 Hs _ IH]; [by split|].
  destruct Hs as [c e s1 s2 Hty _ Hrun].
  destruct (bwapply_kept _ _ _ _ H0 Hty Hrun) as [Hinv E].
  destruct (IH Hinv) as [? E']. split; [done|lia].
Qed.

(** C39: In every run of the bandwidth actions of accounts other than the system
    account, for whose own delegations nothing is transferred, with amounts of the
    core token below 2^62, each receiver's totals are the sums of what is delegated
    to it, no delegation or refund is negative, and delegations plus pending refunds
    change exactly by the transfers into and out of the system account. *)
Theorem bandwidth_custody (s0 s : st sys_state) (H0 : bw_inv (db s0))
  (Hr : rtc (bwstep 0 (2 ^ 32 - 1)) s0 s) :
  bw_inv (db s) /\
  bw_custody (db s) =
    bw_custody (db s0)
    + (flows sys_acct (inline_actions s) - flows sys_acct (inline_actions s0)).
Proof. destruct (bw_run_kept _ _ _ _ H0 Hr) as [? ?]. split; [done|lia]. Qed.

(** The limits the host was last told for an account are the sums of the bandwidth
    delegated to it. *)
Theorem limits_follow_delegations (s0 s : st sys_state) (H0 : bw_inv (db s0))
  (Hl : limits_ok (db s0)) (Hr : rtc (bwstep 0 (2 ^ 32 - 1)) s0 s) (acct net cpu : Z)
  (Hlast : last_limits (host_calls (db s)) acct = Some (net, cpu)) :
  net = delegated_to (db s) true acct /\ cpu = delegated_to (db s) false acct.
Proof.
  assert (Hl' : bw_inv (db s) /\ limits_ok (db s)).
  { induction Hr as [s|s1 s2 s3 Hs _ IH]; [done|]. destruct Hs as [c e s1 s2 Hty _ Hrun].
    apply IH; [by eapply bwapply_kept|by eapply bwapply_limits|done]. }
  destruct Hl' as [Hinv Hl'].
  rewrite <- !(bw_totals _ Hinv). by apply Hl'.
Qed.

Lemma bw_run_request lo hi s0 s owner :
  bw_inv (db s0) -> rtc (bwstep lo hi) s0 s ->
  (forall r, refunds (db s0) !! owner = Some r -> lo <= rr_request_time r <= hi) ->
  forall r, refunds (db s) !! owner = Some r -> lo <= rr_request_time r <= hi.
Proof.
  intros H0 Hr. induction Hr as [s|s1 s2 s3 Hs _ IH]; [done|].
  destruct Hs as [c e s1 s2 Hty Hnow Hrun]. intros Ht.
  apply IH; [by eapply bwapply_kept|].
  intros r Hr2. destruct (bwapply_request _ _ _ _ owner H0 Hty Hrun r Hr2) as [->|[_ (x & Hx & ->)]];
    [done|by apply Ht].
Qed.

(** After bandwidth has been undelegated, whatever other bandwidth actions follow,
    its refund succeeds only once the refund delay has passed. *)
Theorem refund_delayed (from receiver : Z) (net cpu : asset) (e1 e : env)
  (s1 s2 s3 s4 : st sys_state)
  (Hinv : bw_inv (db s1)) (Hty : bw_typed (Undelegatebw from receiver net cpu))
  (Hrun : undelegatebw from receiver net cpu e1 s1 = Ok (tt, s2))
  (Hpos : 0 <= now e1) (H32 : now e1 + refund_delay < 2 ^ 32)
  (Hr : rtc (bwstep (now e1) (2 ^ 32 - 1 - refund_delay)) s2 s3)
  (Hrf : refund from e s3 = Ok (tt, s4)) :
  now e1 + refund_delay <= now e.
Proof.
  pose proof (bwapply_kept _ _ _ _ Hinv Hty Hrun) as [Hinv2 _].
  destruct Hty as (Hn & Hc & Hne). apply undelegatebw_run in Hrun as [Hp Hrun]; [|done..].
  destruct (coin_opp net Hn) as [Hn' En], (coin_opp cpu Hc) as [Hc' Ec].
  eapply changebw_ok in Hrun as (_ & _ & _ & _ & _ & Hq & _); [|done..]. cbn match in Hq.
  pose proof (bw_run_kept _ _ _ _ Hinv2 Hr) as [Hinv3 _].
  apply refund_ok in Hrf as (_ & r & Hr3 & Hle & _); [|done].
  apply (bw_run_request _ _ _ _ _ Hinv2 Hr) in Hr3.
  - rewrite wrapU_small in Hle; unfold refund_delay in *; lia.
  - intros r2 Hr2. destruct (Hq _ Hr2) as [->|[Hg _]]; [unfold refund_delay in *; lia|].
    rewrite En, Ec in Hg. lia.
Qed.

(** ** Witnesses. *)

(** The voter has delegated 30 and 20 tokens to itself. *)
Definition ex_bw : sys_state :=
  set_userres {[ex_voter := UserResources ex_voter (Asset 300000 CORE_SYMBOL)
                              (Asset 200000 CORE_SYMBOL) 0]}
    (set_delband {[(ex_voter, ex_voter) :=
                     DelegatedBandwidth ex_voter ex_voter (Asset 300000 CORE_SYMBOL)
                       (Asset 200000 CORE_SYMBOL)]} ex_sys).
Definition ex_bst : st sys_state := St ex_bw [] [].
Definition ex_benv (acct t : Z) : env := Env sys_acct [(acct, active)] {[acct]} 100 t.

Lemma coin_small n : - 1000000000000 <= n <= 1000000000000 -> coin (Asset n CORE_SYMBOL).
Proof. intros. apply coin_mk. arange. lia. Qed.

Lemma weight_small n : 0 <= n <= 1000000000000 -> weight (Asset n CORE_SYMBOL).
Proof. intros. split; [apply coin_small; lia|cbn [amount]; lia]. Qed.

Lemma ex_bw_inv : bw_inv ex_bw.
Proof.
  split; unfold ex_bw, ex_sys; ssimp; try (intros k v Hk; rows_of Hk; done).
  - intros k v Hk. rows_of Hk. by intros []; apply weight_small.
  - intros k v Hk. rows_of Hk. by intros []; apply weight_small.
  - intros net k. unfold total_of, total_in, delegated_to, map_sum. ssimp.
    rewrite map_fold_singleton. cbn [snd]. destruct (decide (ex_voter = k)) as [<-|Hk].
    + rewrite lookup_singleton_eq, Z.eqb_refl. by destruct net.
    + by rewrite lookup_singleton_ne, (proj2 (Z.eqb_neq ex_voter k)).
Qed.

Definition ex_undelegate : bwcall :=
  Undelegatebw ex_voter ex_voter (Asset 100000 CORE_SYMBOL) (Asset 0 CORE_SYMBOL).
Definition ex_redelegate : bwcall :=
  Delegatebw ex_voter ex_voter (Asset 150000 CORE_SYMBOL) (Asset 10000 CORE_SYMBOL) false.
Definition ex_bst1 : st sys_state := sys_run (bwapply ex_undelegate (ex_benv ex_voter 1000) ex_bst).
Definition ex_bst2 : st sys_state := sys_run (bwapply ex_redelegate (ex_benv ex_voter 2000) ex_bst1).

Lemma ex_bw_typed1 : bw_typed ex_undelegate.
Proof. simpl. split_and!; [by apply coin_small..|done]. Qed.

Lemma ex_bw_run : rtc (bwstep 0 (2 ^ 32 - 1)) ex_bst ex_bst2.
Proof.
  eapply rtc_l; [|eapply rtc_l; [|apply rtc_refl]].
  - apply (bwstep_intro _ _ ex_undelegate (ex_benv ex_voter 1000)); [apply ex_bw_typed1|done|].
    by vm_compute.
  - apply (bwstep_intro _ _ ex_redelegate (ex_benv ex_voter 2000)); [|done|by vm_compute].
    simpl. split_and!; [by apply coin_small..|done].
Qed.

Lemma bandwidth_custody_witness :
  bw_inv (db ex_bst2) /\ bw_custody (db ex_bst2) = bw_custody (db ex_bst) + (60000 - 0).
Proof. exact (bandwidth_custody ex_bst ex_bst2 ex_bw_inv ex_bw_run). Defined.

Lemma limits_follow_delegations_witness :
  350000 = delegated_to (db ex_bst2) true ex_voter /\
  210000 = delegated_to (db ex_bst2) false ex_voter.
Proof.
  apply (limits_follow_delegations ex_bst ex_bst2 ex_bw_inv); [|exact ex_bw_run|by vm_compute].
  done.
Defined.

Lemma refund_delayed_witness : 1000 + refund_delay <= 260200.
Proof.
  apply (refund_delayed ex_voter ex_voter (Asset 100000 CORE_SYMBOL) (Asset 0 CORE_SYMBOL)
           (ex_benv ex_voter 1000) (ex_benv ex_voter 260200) ex_bst ex_bst1 ex_bst1
           (sys_run (refund ex_voter (ex_benv ex_voter 260200) ex_bst1)) ex_bw_inv ex_bw_typed1);
    [by vm_compute|done|done|apply rtc_refl|by vm_compute].
Defined.
