(* ===== verification/Producer.v ===== *)
(** * Block producers of the system contract.

    [producer.cpp]: the block hook, elections, block and vote rewards, mortgages
    and punishments ([settlebpvote], [settlevoter] and [claimvote] are in [Voting]).

    A [multi_index] instance keeps the rows it has loaded: where [onblock] reads a
    row through an instance after another instance has written it, the definitions
    pass the loaded row along instead of reading the table again. *)
From stdpp Require Import base gmap list strings sorting.
From Stdlib Require Import ZArith Lia SpecFloat.
From S2P Require Import Prelude Name Asset Runtime SystemState Voting.

Open Scope Z_scope.

(** ** [CREATION_BP]. *)

Record creation_producer := CreationProducer {
  cp_name : Z;
  cp_total_staked : Z;
  cp_mortgage : Z;
}.

Definition CREATION_BP : list creation_producer := Eval vm_compute in
  map (fun '(n, t) => CreationProducer (N_ n) t (200000 * CORE_SYMBOL_PRECISION))
    [("biosbpa", 400000); ("biosbpb", 400000); ("biosbpc", 400000); ("biosbpd", 400000);
     ("biosbpe", 600000); ("biosbpf", 600000); ("biosbpg", 600000); ("biosbph", 600000);
     ("biosbpi", 1300000); ("biosbpj", 1300000); ("biosbpk", 1300000);
     ("biosbpl", 2100000); ("biosbpm", 2100000);
     ("biosbpn", 10000000); ("biosbpo", 10000000); ("biosbpp", 10000000);
     ("biosbpq", 10000000); ("biosbpr", 10000000); ("biosbps", 10000000);
     ("biosbpt", 10000000); ("biosbpu", 10000000);
     ("biosbpv", 100000); ("biosbpw", 100000); ("biosbpx", 100000); ("biosbpy", 100000);
     ("biosbpz", 100000)]%string.

Definition init_creation_bp : M sys_state unit :=
  mfor (fun _ c => emplace creationbp_t (cp_name c)
                     (CreationBp (cp_name c) (cp_total_staked c) (cp_mortgage c)))
    tt CREATION_BP.

(** ** Reward information. *)

Definition init_reward_info : M sys_state unit :=
  reward ← find reward_t REWARD_ID;
  match reward with
  | None =>
      emplace reward_t REWARD_ID
        (RewardInfo REWARD_ID (Asset 0 CORE_SYMBOL) (Asset 0 CORE_SYMBOL) 0 PRE_BLOCK_REWARDS
           PRE_GRADIENT 0 0 0 [0])
  | Some _ => mret tt
  end.

(** [find(REWARD_ID)], initialised first if there is none. *)
Definition get_reward : M sys_state reward_info :=
  reward ← find reward_t REWARD_ID;
  match reward with
  | Some r => mret r
  | None => init_reward_info;; get reward_t REWARD_ID "unable to find key"
  end.

Definition update_reward_stable : M sys_state unit :=
  reward ← find reward_t REWARD_ID;
  match reward with
  | Some r =>
      modify reward_t REWARD_ID
        (set_ri_gradient STABLE_GRADIENT (set_ri_cycle_reward STABLE_BLOCK_REWARDS r))
  | None => mret tt
  end.

(** ** Schedules. *)

(** The number of blocks of a producer in a schedule; the first entry counts. *)
Fixpoint producer_amount (l : list (Z * Z)) (bpname : Z) : Z :=
  match l with
  | [] => 0
  | (n, a) :: l => if n =? bpname then a else producer_amount l bpname
  end.

Fixpoint bump_producer (l : list (Z * Z)) (bpname : Z) : list (Z * Z) :=
  match l with
  | [] => []
  | (n, a) :: l =>
      if n =? bpname then (n, u32 (a + 1)) :: l else (n, a) :: bump_producer l bpname
  end.

(** [is_super_bp( block_producers, name )]. *)
Definition is_super_bp_in (block_producers : list Z) (name : Z) : bool :=
  existsb (fun p => name =? p) block_producers.

(** [schs_tbl.crbegin()]: the schedule of the highest version. *)
Definition last_schedule : M sys_state schedule_info :=
  rows ← all_rows schedules_t;
  match last (sorted_keys rows) with
  | Some v => get schedules_t v "unable to find key"
  | None => lift (Err "cannot dereference end iterator")
  end.

Definition is_super_bp (bpname : Z) : M sys_state bool :=
  sch ← last_schedule;
  mret (existsb (fun p => fst p =? bpname) (sc_producers sch)).

Definition reset_block_weight (block_producers : list Z) : M sys_state unit :=
  mfor (fun _ p =>
          bp ← get bps_t p "bpname is not registered";
          modify bps_t p (set_bp_last_block_amount 0 (set_bp_block_weight BLOCK_OUT_WEIGHT bp)))
    tt block_producers.

(** ** Elections. *)

Abbreviation producer_key := (Z * list Z)%type (only parsing).

(** [v.insert( v.begin() + i, x )]. *)
Definition insert_at {A} (i : nat) (x : A) (l : list A) : list A := take i l ++ x :: drop i l.

(** The stake and the mortgage a bp is elected with. *)
Definition elect_weight (it : bp_info) : M sys_state (Z * asset) :=
  le ← (if isactive it then lift (asset_le (bp_mortgage it) (Asset 0 CORE_SYMBOL))
        else mret false);
  if le : bool then
    create_bp ← find creationbp_t (bp_name it);
    match create_bp with
    | Some c => m ← lift (core_asset (cb_mortgage c)); mret (cb_total_staked c, m)
    | None => mret (bp_total_staked it, bp_mortgage it)
    end
  else mret (bp_total_staked it, bp_mortgage it).

(** One slot of the inner loop: [None] goes on to the next slot. *)
Definition elect_slot (block_mortgege bpname : Z) (i : nat)
    (acc : list producer_key * list Z) : M sys_state (option (list producer_key * list Z)) :=
  e ← ask;
  it ← get bps_t bpname "unable to find key";
  w ← elect_weight it;
  let '(total_shaked, mortgage) := w in
  it ← (if (bp_active_type it =? LackMortgage)
            && (u32 (bp_active_change_block_num it)
                <? u32 (current_block_num e - LACKMORTGAGE_FREEZE)) then
          modify bps_t bpname (set_bp_active_type Normal it);;
          mret (set_bp_active_type Normal it)
        else mret it);
  need ← lift (core_asset (i64 block_mortgege));
  lack ← lift (asset_lt mortgage need);
  super ← (if lack : bool then is_super_bp (bp_name it) else mret false);
  it ← (if super && (bp_active_type it =? Normal) then
          let it := set_bp_active_change_block_num (i32 (current_block_num e))
                      (set_bp_active_type LackMortgage it) in
          modify bps_t bpname it;; mret it
        else mret it);
  enough ← lift (asset_gt mortgage need);
  if (default 0 (snd acc !! i) <=? total_shaked) && isactive it
     && negb (bp_active_type it =? Punish) && enough then
    mret (Some (insert_at i (bp_name it, bp_block_signing_key it) (fst acc),
                insert_at i total_shaked (snd acc)))
  else mret None.

Fixpoint elect_bp (block_mortgege bpname : Z) (slots : list nat)
    (acc : list producer_key * list Z) : M sys_state (list producer_key * list Z) :=
  match slots with
  | [] => mret acc
  | i :: slots =>
      r ← elect_slot block_mortgege bpname i acc;
      match r with
      | Some acc' => mret acc'
      | None => elect_bp block_mortgege bpname slots acc
      end
  end.

(** [operator <] of [producer_key]. *)
Definition producer_key_le (a b : producer_key) : Prop := fst a <= fst b.
#[global] Instance producer_key_le_dec : RelDecision producer_key_le.
Proof. intros a b. unfold producer_key_le. apply _. Defined.

Definition update_elected_bps : M sys_state unit :=
  match CREATION_BP with
  | [] => mret tt
  | c :: _ =>
      create_bp ← find creationbp_t (cp_name c);
      match create_bp with Some _ => mret tt | None => init_creation_bp end
  end;;
  reward ← get_reward;
  let reward_pre_block := Z.quot (ri_cycle_reward reward) UPDATE_CYCLE in
  let block_mortgege := u64 (reward_pre_block * MORTGAGE) in
  rows ← all_rows bps_t;
  acc ← mfor (fun acc k => elect_bp block_mortgege k (seq 0 (Z.to_nat NUM_OF_TOP_BPS)) acc)
          ([], replicate (Z.to_nat NUM_OF_TOP_BPS) 0) (sorted_keys rows);
  let vote_schedule := take (Z.to_nat NUM_OF_TOP_BPS) (fst acc) in
  host_call_ (set_proposed_producers (merge_sort producer_key_le vote_schedule)).

(** ** Block rewards. *)

(** [asset(n)] of an [int64_t] expression. *)
Definition asset_of (n : Z) : M sys_state asset := lift (core_asset n).

(** The mortgage a producer is rewarded with: creation producers have theirs. *)
Definition reward_mortgage (bp : bp_info) : M sys_state asset :=
  le ← lift (asset_le (bp_mortgage bp) (Asset 0 CORE_SYMBOL));
  if le : bool then
    match List.find (fun c => cp_name c =? bp_name bp) CREATION_BP with
    | Some c => asset_of (cp_mortgage c)
    | None => mret (bp_mortgage bp)
    end
  else mret (bp_mortgage bp).

(** The updater of a producer's row; returns the age of the blocks too. *)
Definition reward_producer (amt drain_block_num reward_pre_block : Z) (b : bp_info)
  : M sys_state (bp_info * Z) :=
  let blocks := if bp_last_block_amount b <=? amt then u32 (amt - bp_last_block_amount b)
                else amt in
  let age := i64 (blocks * bp_block_weight b) in
  let b := set_bp_block_age (i64 (bp_block_age b + age)) b in
  b ← (if negb (drain_block_num =? 0) then
         p ← asset_of (i64 (i64 (reward_pre_block * 2) * drain_block_num));
         m ← lift (asset_sub (bp_mortgage b) p);
         r ← lift (asset_add (bp_remain_punish b) p);
         mret (set_bp_total_drain_block (i32 (bp_total_drain_block b + drain_block_num))
                 (set_bp_remain_punish r
                    (set_bp_mortgage m (set_bp_block_weight BLOCK_OUT_WEIGHT b))))
       else mret (set_bp_block_weight (i64 (bp_block_weight b + 1)) b));
  mret (set_bp_last_block_amount amt b, age).

Definition record_drain (bpname drain_block_num : Z) : M sys_state unit :=
  e ← ask;
  drainbp ← find lastdrainbp_t bpname;
  let cb := i32 (current_block_num e) in
  if negb (drain_block_num =? 0) then
    match drainbp with
    | None => emplace lastdrainbp_t bpname (LastDrainBlock bpname (i32 drain_block_num) cb)
    | Some d =>
        modify lastdrainbp_t bpname
          (LastDrainBlock (ld_bpname d) (i32 (ld_drain_num d + drain_block_num)) cb)
    end
  else
    match drainbp with
    | Some _ => erase lastdrainbp_t bpname
    | None => mret tt
    end.

(** One producer of the schedule; the total age so far. *)
Definition reward_block_bp (reward_pre_block : Z) (force_change : bool)
    (total_block_out_age : Z) (p : Z * Z) : M sys_state Z :=
  let '(bpname, amt) := p in
  bp ← get bps_t bpname "cannot find bpinfo";
  mortgage ← reward_mortgage bp;
  need ← asset_of (i64 (MORTGAGE * reward_pre_block));
  lack ← lift (asset_lt mortgage need);
  if lack : bool then mret total_block_out_age else
  let drain_block_num :=
    if force_change then 0
    else u32 (CYCLE_PREBP_BLOCK + bp_last_block_amount bp - amt) in
  ba ← reward_producer amt drain_block_num reward_pre_block bp;
  modify bps_t bpname (fst ba);;
  record_drain bpname drain_block_num;;
  mret (i64 (total_block_out_age + snd ba)).

Definition reward_block (schedule_version reward_amount : Z) (force_change : bool)
  : M sys_state unit :=
  sch ← get schedules_t schedule_version "cannot find schedule";
  reward ← get_reward;
  let reward_pre_block := Z.quot (ri_cycle_reward reward) UPDATE_CYCLE in
  total_block_out_age ←
    mfor (reward_block_bp reward_pre_block force_change) 0 (sc_producers sch);
  r ← asset_of reward_amount;
  out ← lift (asset_add (ri_reward_block_out reward) r);
  modify reward_t REWARD_ID
    (set_ri_total_block_out_age (i64 (ri_total_block_out_age reward + total_block_out_age))
       (set_ri_reward_block_out out reward)).

(** ** The block hook. *)

Definition issue_name : Z := Eval vm_compute in N_ "issue".
Definition settlemine_name : Z := Eval vm_compute in N_ "settlemine".
Definition rewardmine_name : Z := Eval vm_compute in N_ "rewardmine".
Definition activemine_name : Z := Eval vm_compute in N_ "activemine".

(** [sender( account, {{system, active}}, data )]. *)
Definition send_system (account act : Z) (data : action_data) : M sys_state unit :=
  send (Action account act [(config.system_account_name, active)] data).

(** The rewards of [n] blocks at a cycle reward. *)
Definition cycle_rewards (cycle_reward n : Z) : Z :=
  Z.quot (i64 (cycle_reward * n)) UPDATE_CYCLE.

(** The row of the rewards at the end of a cycle. *)
Definition count_cycle (cb bpname : Z) (s : reward_info) : reward_info :=
  let blocks := ri_reward_block_num s ++ [i32 cb] in
  let blocks := if REWARD_RECORD_SIZE <? Z.of_nat (length blocks)
                then drop (Z.to_nat (REWARD_RECORD_SIZE / 2)) blocks else blocks in
  set_ri_reward_block_num blocks
    (set_ri_last_producer_name bpname
       (set_ri_last_reward_block_num (i32 cb)
          (set_ri_total_reward_time (i32 (ri_total_reward_time s + 1)) s))).

(** What the hook does when a cycle ends.  [reward] is the row as the hook's own
    table instance holds it. *)
Definition end_cycle (bpname reward_block_version : Z) (force_change : bool) : M sys_state unit :=
  e ← ask;
  let cb := current_block_num e in
  reward ← get_reward;
  let cycle_block_out := u32 (cb - ri_last_reward_block_num reward) in
  let block_rewards := cycle_rewards (ri_cycle_reward reward) cycle_block_out in
  let reward_times := i32 (ri_total_reward_time reward + 1) in
  ru ←
    (if u32 reward_times =? CYCLE_PREDAY * STABLE_DAY then
       update_reward_stable;; mret (reward, true)
     else if u32 reward_times mod CYCLE_PREDAY =? 0 then
       let reward := set_ri_cycle_reward
                       (Z.quot (i64 (ri_cycle_reward reward * ri_gradient reward))
                          REWARD_RATIO_PRECISION) reward in
       modify reward_t REWARD_ID reward;; mret (reward, true)
     else mret (reward, false));
  let '(reward, reward_update) := ru in
  q ← asset_of block_rewards;
  send_system config.token_account_name issue_name
    (issue_args config.reward_account_name q "issue tokens for producer pay");;
  reward_temp ← get reward_t REWARD_ID "unable to find key";
  modify reward_t REWARD_ID (count_cycle cb bpname reward_temp);;
  reward_block reward_block_version
    (Z.quot (i64 (block_rewards * REWARD_BP)) REWARD_RATIO_PRECISION) force_change;;
  (if reward_update : bool then
     let blocks := ri_reward_block_num reward in
     first ← lift (of_option
                     (blocks !! Z.to_nat (u32 (Z.of_nat (length blocks) - CYCLE_PREDAY)))
                     "vector index out of range");
     let cycle_block_out := u32 (cb - first) in
     let block_rewards :=
       Z.quot (i64 (cycle_rewards (ri_cycle_reward reward) cycle_block_out * REWARD_MINE))
         REWARD_RATIO_PRECISION in
     settlebpvote;;
     send_system config.relay_token_account_name settlemine_name
       (settlemine_args config.system_account_name);;
     send_system config.system_account_name rewardmine_name
       (system_rewardmine_args block_rewards);;
     send_system config.relay_token_account_name activemine_name
       (activemine_args config.system_account_name)
   else mret tt);;
  if force_change then mret tt else update_elected_bps.

(** [block_producers] is what [get_active_producers] returns, padded to the number
    of top producers. *)
Definition onblock (block_producers : list Z) (bpname schedule_version : Z) : M sys_state unit :=
  e ← ask;
  sch ← find schedules_t schedule_version;
  let force_change := bool_decide (sch = None) in
  let reward_block_version :=
    if force_change then u32 (schedule_version - 1) else schedule_version in
  pre_bp_block_out ←
    match sch with
    | None => mret 0
    | Some sc =>
        bp ← get bps_t bpname "bpname is not registered";
        mret (u32 (producer_amount (sc_producers sc) bpname - bp_last_block_amount bp))
    end;
  (if (pre_bp_block_out =? CYCLE_PREBP_BLOCK)
      || (force_change && negb (schedule_version =? 0))
   then end_cycle bpname reward_block_version force_change else mret tt);;
  match sch with
  | None =>
      emplace schedules_t schedule_version
        (ScheduleInfo schedule_version (current_block_num e)
           (map (fun p => (p, if p =? bpname then 1 else 0)) block_producers));;
      reset_block_weight block_producers
  | Some sc =>
      modify schedules_t schedule_version
        (ScheduleInfo (sc_version sc) (sc_block_height sc)
           (bump_producer (sc_producers sc) bpname))
  end.

(** ** Registration. *)

Definition updatebp (bpname : Z) (block_signing_key : list Z) (commission_rate : Z)
    (url : string) : M sys_state unit :=
  require_auth bpname;;
  eosio_assert (Z.of_nat (String.length url) <? 64) "url too long";;
  eosio_assert ((1 <=? commission_rate) && (commission_rate <=? REWARD_RATIO_PRECISION))
    "need 1 <= commission rate <= 10000";;
  e ← ask;
  bp ← find bps_t bpname;
  match bp with
  | None =>
      emplace bps_t bpname
        (BpInfo bpname block_signing_key commission_rate 0 (Asset 0 CORE_SYMBOL) 0
           (current_block_num e) url false Normal 0 0 BLOCK_OUT_WEIGHT (Asset 0 CORE_SYMBOL) 0
           (Asset 0 CORE_SYMBOL) 0 0)
  | Some b =>
      modify bps_t bpname
        (set_bp_url url (set_bp_commission_rate commission_rate
                           (set_bp_block_signing_key block_signing_key b)))
  end.

Definition removebp (bpname : Z) : M sys_state unit :=
  e ← ask;
  require_auth (self e);;
  b ← get bps_t bpname "bpname is not registered";
  modify bps_t bpname (set_bp_active_type Removed b).

(** ** Vote rewards of the producers. *)

(** [double] arithmetic: binary64, rounding to nearest even. *)
Definition double_of_int (z : Z) : spec_float := binary_normalize 53 1024 z 0 false.
Definition double_mul : spec_float -> spec_float -> spec_float := SFmul 53 1024.
Definition double_div : spec_float -> spec_float -> spec_float := SFdiv 53 1024.

(** Conversion to an integer truncates. *)
Definition int_of_double (x : spec_float) : Z :=
  match x with
  | S754_finite s m e =>
      let v := if 0 <=? e then Z.pos m * 2 ^ e else Z.pos m / 2 ^ (- e) in
      if s then - v else v
  | _ => 0
  end.

(** [static_cast<int64_t>( amount * (double(part) / double(all)) )]. *)
Definition double_share (amt part all : Z) : Z :=
  int_of_double (double_mul (double_of_int amt)
                   (double_div (double_of_int part) (double_of_int all))).

Definition add_voteage (acc k : Z) : M sys_state Z :=
  e ← ask;
  reward_bp ← get votereward_t (k, current_block_num e) "reward info can not find";
  mret (acc + vr_total_voteage reward_bp).

(** One producer of [reward_bps]; [budget] is what is kept for the budget. *)
Definition reward_bp_votes (reward_amount staked_all_bps : Z) (budget : asset) (k : Z)
  : M sys_state asset :=
  e ← ask;
  it ← get bps_t k "unable to find key";
  let rk := (k, current_block_num e) in
  reward_bp ← get votereward_t rk "reward info can not find";
  if (vr_total_voteage reward_bp <=? Z.quot staked_all_bps 200)
     || (bp_commission_rate it <? 1) || (REWARD_RATIO_PRECISION <? bp_commission_rate it)
  then mret budget else
  let vote_reward := double_share reward_amount (vr_total_voteage reward_bp) staked_all_bps in
  if (bp_active_type it =? Punish) || (bp_active_type it =? Removed) then
    q ← asset_of vote_reward;
    lift (asset_add budget q)
  else
    q ← asset_of (Z.quot (i64 (vote_reward * bp_commission_rate it)) REWARD_RATIO_PRECISION);
    rb ← lift (asset_add (bp_rewards_block it) q);
    modify bps_t k (set_bp_rewards_block rb it);;
    q ← asset_of (Z.quot (i64 (vote_reward * u32 (REWARD_RATIO_PRECISION
                                                   - bp_commission_rate it)))
                    REWARD_RATIO_PRECISION);
    tr ← lift (asset_add (vr_total_reward reward_bp) q);
    modify votereward_t rk
      (VoteRewardInfo (vr_total_voteage reward_bp) tr (vr_reward_block_num reward_bp));;
    mret budget.

Definition reward_bps (reward_amount : Z) : M sys_state unit :=
  rows ← all_rows bps_t;
  staked_all_bps ← mfor (fun acc k => a ← add_voteage acc k; mret (i64 a)) 0 (sorted_keys rows);
  if staked_all_bps <=? 0 then mret tt else
  budget_reward ← mfor (reward_bp_votes reward_amount staked_all_bps) (Asset 0 CORE_SYMBOL)
                    (sorted_keys rows);
  reward ← get_reward;
  b ← lift (asset_add (ri_reward_budget reward) budget_reward);
  modify reward_t REWARD_ID (set_ri_reward_budget b reward).

Definition get_vote_power : M sys_state Z :=
  rows ← all_rows bps_t;
  staked_all_bps ← mfor (fun acc k => a ← add_voteage acc k; mret (i128 a)) 0 (sorted_keys rows);
  mret (i128 (staked_all_bps * CORE_SYMBOL_PRECISION)).

(** ** Mining power of the other coins.

    The tables of [relay.token] the contract reads, by primary key order, and the
    average price of [sys.match]. *)
Record coin_view := CoinView {
  cv_rewards : list (Z * Z * bool);       (* chain, symbol, reward_now *)
  cv_stats : gmap (Z * Z) (Z * Z * Z);    (* by (chain, symbol name): chain, symbol, scope *)
  cv_minereward : gmap (Z * Z) Z;         (* by (scope, block): total_mineage *)
  cv_avg_price : Z -> Z -> Z -> result Z; (* block, chain, symbol *)
}.

Fixpoint precision_loop (fuel : nat) (p p10 : Z) : Z :=
  match fuel with
  | O => p10
  | S fuel => if 0 <? p then precision_loop fuel (p - 1) (i64 (p10 * 10)) else p10
  end.
Definition precision (decimals : Z) : Z := precision_loop (Z.to_nat decimals) decimals 1.

(** The division traps when the power of ten has wrapped to zero. *)
Definition coin_power (mineage price prec : Z) : result Z :=
  let power := i128 (mineage * OTHER_COIN_WEIGHT) in
  let power := Z.quot power REWARD_RATIO_PRECISION in
  let power := i128 (power * price) in
  (check* negb (precision prec =? 0) with "integer divide by zero" in
   Ok (Z.quot power (precision prec)))%res.

Definition add_coin_power (cv : coin_view) (cb total : Z) (it : Z * Z * bool) : result Z :=
  let '(chain, sym, reward_now) := it in
  if negb reward_now then Ok total else
  (let* existing := of_option (cv_stats cv !! (chain, Sym.name sym))
                      "token with symbol already exists" in
   let '(ex_chain, ex_sym, scope) := existing in
   let* price := cv_avg_price cv cb ex_chain ex_sym in
   match cv_minereward cv !! (scope, cb) with
   | None => Ok total
   | Some mineage =>
       let* power := coin_power mineage price (Sym.precision ex_sym) in
       Ok (i128 (total + power))
   end)%res.

Definition get_coin_power (cv : coin_view) : M sys_state Z :=
  e ← ask;
  lift (rfold (add_coin_power cv (current_block_num e)) 0 (cv_rewards cv)).

Definition reward_mines (reward_amount : Z) : M sys_state unit :=
  e ← ask;
  q ← asset_of reward_amount;
  send (Action config.relay_token_account_name rewardmine_name [(self e, active)]
          (relay_rewardmine_args q)).

(** [reward_bp] of [rewardmine]. *)
Definition vote_part (reward_num vote_power total_power : Z) : Z :=
  i64 (Z.quot (i128 (reward_num * vote_power)) total_power).

Definition rewardmine (cv : coin_view) (reward_num : Z) : M sys_state unit :=
  require_auth config.system_account_name;;
  vote_power ← get_vote_power;
  coin_power ← get_coin_power cv;
  let total_power := i128 (vote_power + coin_power) in
  if negb (total_power =? 0) then
    let reward_bp := vote_part reward_num vote_power total_power in
    reward_mines (i64 (reward_num - reward_bp));;
    reward_bps reward_bp
  else mret tt.

(** ** Mortgages and block rewards of a producer. *)

Definition addmortgage (bpname payer : Z) (quantity : asset) : M sys_state unit :=
  require_auth payer;;
  create_bp ← find creationbp_t bpname;
  eosio_assert (bool_decide (create_bp = None)) "creation bp cannot add mortgage";;
  b ← get bps_t bpname "can not find the bp";
  m ← lift (asset_add (bp_mortgage b) quantity);
  modify bps_t bpname (set_bp_mortgage m b);;
  send_transfer payer config.reward_account_name quantity "add mortgage".

Definition claimmortgage (bpname receiver : Z) (quantity : asset) : M sys_state unit :=
  require_auth bpname;;
  b ← get bps_t bpname "can not find the bp";
  gt ← lift (asset_gt (bp_mortgage b) quantity);
  eosio_assert gt "the quantity is bigger then bp mortgage";;
  m ← lift (asset_sub (bp_mortgage b) quantity);
  modify bps_t bpname (set_bp_mortgage m b);;
  send_transfer config.reward_account_name receiver quantity "claim bp mortgage".

Definition claimbp (bpname receiver : Z) : M sys_state unit :=
  require_auth bpname;;
  bp ← get bps_t bpname "can not find the bp";
  reward ← get reward_t REWARD_ID "reward info do not find";
  part ← lift (asset_mul (ri_reward_block_out reward) (bp_block_age bp));
  claim_block ← lift (asset_div part (ri_total_block_out_age reward));
  modify bps_t bpname (set_bp_block_age 0 bp);;
  out ← lift (asset_sub (ri_reward_block_out reward) claim_block);
  let reward := set_ri_total_block_out_age
                  (i64 (ri_total_block_out_age reward - bp_block_age bp))
                  (set_ri_reward_block_out out reward) in
  modify reward_t REWARD_ID reward;;
  gt ← lift (asset_gt claim_block (Asset 100000 CORE_SYMBOL));
  eosio_assert gt "claim amount must > 10";;
  z ← lift (asset_eq (bp_mortgage bp) (Asset 0 CORE_SYMBOL));
  if z : bool then
    b ← lift (asset_add (ri_reward_budget reward) claim_block);
    modify reward_t REWARD_ID (set_ri_reward_budget b reward)
  else send_castcoin config.reward_account_name receiver claim_block.

(** ** Punishment. *)

Definition effective_approve_num (punishbpname : Z) : M sys_state Z :=
  bp_punish ← get punishbps_t punishbpname "the bp is not be punish";
  app_punish ← get apppunishbps_t punishbpname "no producer approve to punish the bp";
  producer_schs ← last_schedule;
  mret (Z.of_nat (length (List.filter
          (fun a => existsb (fun p => fst p =? a) (sc_producers producer_schs))
          (ap_approve_producer app_punish)))).

(** The transfers to the approving producers that are still scheduled. *)
Definition pay_approver (reward_approve : asset) (_ : unit) (p : Z) : M sys_state unit :=
  super ← is_super_bp p;
  if super : bool then
    send_transfer config.system_account_name p reward_approve "cancle punishbp deposit"
  else mret tt.

Definition exec_punish_bp (punishbpname : Z) : M sys_state unit :=
  e ← ask;
  effective_approve ← effective_approve_num punishbpname;
  if effective_approve <? Z.quot (NUM_OF_TOP_BPS * 2) 3 then mret tt else
  punishbp ← find bps_t punishbpname;
  match punishbp with
  | None => mret tt
  | Some b =>
      let total_reward := bp_remain_punish b in
      modify bps_t punishbpname
        (set_bp_active_change_block_num (i32 (current_block_num e))
           (set_bp_active_type Punish (set_bp_remain_punish (Asset 0 CORE_SYMBOL) b)));;
      reward_initiator ← lift (asset_div total_reward 2);
      bp_punish ← get punishbps_t punishbpname "the bp is not be punish";
      pay ← lift (asset_add reward_initiator PUNISH_BP_FEE);
      send_transfer config.system_account_name (pb_initiator bp_punish) pay
        "cancle punishbp deposit";;
      erase punishbps_t punishbpname;;
      half ← lift (asset_div total_reward 2);
      reward_approve ← lift (asset_div half effective_approve);
      app_punish ← get apppunishbps_t punishbpname "no producer approve to punish the bp";
      mfor (pay_approver reward_approve) tt (ap_approve_producer app_punish);;
      erase apppunishbps_t punishbpname;;
      drainbp ← find lastdrainbp_t punishbpname;
      match drainbp with
      | Some _ => erase lastdrainbp_t punishbpname
      | None => mret tt
      end
  end.

Definition PUNISH_PERIOD : Z := UPDATE_CYCLE * CYCLE_PREDAY.

(** [static_cast<int32_t>(current_block_num() - UPDATE_CYCLE * CYCLE_PREDAY)]. *)
Definition punish_limit (cb : Z) : Z := i32 (cb - PUNISH_PERIOD).

Definition erase_approvals (bpname : Z) : M sys_state unit :=
  app_punish ← find apppunishbps_t bpname;
  match app_punish with
  | Some _ => erase apppunishbps_t bpname
  | None => mret tt
  end.

Definition punishbp (initiator bpname : Z) : M sys_state unit :=
  require_auth initiator;;
  send_transfer initiator config.system_account_name PUNISH_BP_FEE "punishbp deposit";;
  drainbp ← get lastdrainbp_t bpname "the bp cannot be punished";
  create_bp ← find creationbp_t bpname;
  eosio_assert (bool_decide (create_bp = None)) "creation bp cannot be punished";;
  e ← ask;
  bp_punish ← find punishbps_t bpname;
  match bp_punish with
  | Some p =>
      eosio_assert (pb_update_block_num p <? punish_limit (current_block_num e))
        "the punish motion has exist";;
      send_transfer config.system_account_name (pb_initiator p) PUNISH_BP_FEE
        "cancle punishbp return deposit";;
      erase punishbps_t bpname;;
      erase_approvals bpname
  | None => mret tt
  end;;
  emplace punishbps_t bpname
    (PunishBpInfo initiator bpname (ld_drain_num drainbp) (i32 (current_block_num e))).

Definition canclepunish (initiator bpname : Z) : M sys_state unit :=
  require_auth initiator;;
  p ← get punishbps_t bpname "the bp is not be punish";
  eosio_assert (initiator =? pb_initiator p)
    "only the initiator can cancle the punish proposal";;
  e ← ask;
  (if pb_update_block_num p <? punish_limit (current_block_num e) then
     send_transfer config.system_account_name initiator PUNISH_BP_FEE
       "cancle punishbp return deposit"
   else mret tt);;
  erase punishbps_t bpname;;
  erase_approvals bpname.

Definition apppunish (bpname punishbpname : Z) : M sys_state unit :=
  require_auth bpname;;
  super ← is_super_bp bpname;
  eosio_assert super "only super bp can approve to punish bp";;
  e ← ask;
  p ← get punishbps_t punishbpname "the bp is not be punish";
  eosio_assert (punish_limit (current_block_num e) <? pb_update_block_num p)
    "the punish motion is already expired";;
  app_punish ← find apppunishbps_t punishbpname;
  match app_punish with
  | None => emplace apppunishbps_t punishbpname (ApprovePunishBp punishbpname [bpname])
  | Some a =>
      eosio_assert (negb (existsb (fun x => x =? bpname) (ap_approve_producer a)))
        "the bp has approved";;
      modify apppunishbps_t punishbpname
        (ApprovePunishBp (ap_bpname a) (ap_approve_producer a ++ [bpname]))
  end;;
  a ← get apppunishbps_t punishbpname "unable to find key";
  if Z.quot (NUM_OF_TOP_BPS * 2) 3 <? Z.of_nat (length (ap_approve_producer a)) then
    exec_punish_bp punishbpname
  else mret tt.

Definition unapppunish (bpname punishbpname : Z) : M sys_state unit :=
  require_auth bpname;;
  a ← get apppunishbps_t punishbpname "can find the approve punish record";
  erase apppunishbps_t punishbpname.

Definition bailpunish (punishbpname : Z) : M sys_state unit :=
  require_auth punishbpname;;
  send_transfer punishbpname config.system_account_name BAIL_PUNISH_FEE "bail punish fee";;
  b ← get bps_t punishbpname "can not find bp";
  e ← ask;
  eosio_assert ((bp_active_type b =? Punish)
                && (u32 (bp_active_change_block_num b + PUNISH_PERIOD * 2)
                    <? current_block_num e)) "the bp can not to be bailed";;
  modify bps_t punishbpname (set_bp_active_type Normal b).
