(* ===== verification/Election.v ===== *)
(** * Elections: [update_elected_bps] proposes the producers with the highest stakes. *)
From stdpp Require Import base gmap list strings sorting.
From Stdlib Require Import ZArith Lia.
From S2P Require Import Prelude Name Asset Runtime SystemState Voting Staking Producer.

Open Scope Z_scope.

(** ** Specification. *)

(** What a producer is elected with. *)
Record candidate := Candidate {
  c_key : Z * list Z;  (* name and signing key *)
  c_stake : Z;
}.

(** Stake and mortgage: active producers without mortgage that are creation
    producers have the values of the creation table. *)
Definition weight_of (creation : gmap Z creation_bp) (b : bp_info) : Z * Z :=
  if isactive b && (amount (bp_mortgage b) <=? 0) then
    match creation !! bp_name b with
    | Some c => (cb_total_staked c, cb_mortgage c)
    | None => (bp_total_staked b, amount (bp_mortgage b))
    end
  else (bp_total_staked b, amount (bp_mortgage b)).

(** A candidate is active, not punished, and has more mortgage than needed. *)
Definition candidate_of (creation : gmap Z creation_bp) (need : Z) (b : bp_info)
  : option candidate :=
  if isactive b && negb (bp_active_type b =? Punish) && (need <? snd (weight_of creation b))
  then Some (Candidate (bp_name b, bp_block_signing_key b) (fst (weight_of creation b)))
  else None.

Definition top : nat := Z.to_nat NUM_OF_TOP_BPS.

(** ** The loop as a function. *)

Abbreviation ballot := (list (Z * list Z) * list Z)%type (only parsing).

(** The first slot of [slots] the candidate fits in. *)
Fixpoint place (slots : list nat) (c : candidate) (acc : ballot) : ballot :=
  match slots with
  | [] => acc
  | i :: slots =>
      if default 0 (snd acc !! i) <=? c_stake c
      then (insert_at i (c_key c) (fst acc), insert_at i (c_stake c) (snd acc))
      else place slots c acc
  end.

Definition place_opt (slots : list nat) (oc : option candidate) (acc : ballot) : ballot :=
  match oc with Some c => place slots c acc | None => acc end.

(** Rows that are alike for the election. *)
Record alike (b b' : bp_info) : Prop := {
  al_name : bp_name b' = bp_name b;
  al_key : bp_block_signing_key b' = bp_block_signing_key b;
  al_staked : bp_total_staked b' = bp_total_staked b;
  al_mortgage : bp_mortgage b' = bp_mortgage b;
  al_active : isactive b' = isactive b;
  al_punish : (bp_active_type b' =? Punish) = (bp_active_type b =? Punish);
}.

Lemma alike_refl b : alike b b.
Proof. by split. Qed.

Lemma alike_trans b1 b2 b3 : alike b1 b2 -> alike b2 b3 -> alike b1 b3.
Proof. intros [] []. split; congruence. Qed.

Lemma alike_candidate creation need b b' :
  alike b b' -> candidate_of creation need b' = candidate_of creation need b.
Proof.
  intros [E1 E2 E3 E4 E5 E6]. unfold candidate_of, weight_of. by rewrite E1, E2, E3, E4, E5, E6.
Qed.

Definition creation_ok (creation : gmap Z creation_bp) : Prop :=
  forall k c, creation !! k = Some c -> in_range (cb_mortgage c).

Lemma elect_weight_ok it e s w s' :
  creation_ok (creationbp (db s)) -> coin (bp_mortgage it) ->
  elect_weight it e s = Ok (w, s') ->
  s' = s /\ w = (fst (weight_of (creationbp (db s)) it),
                 Asset (snd (weight_of (creationbp (db s)) it)) CORE_SYMBOL).
Proof.
  intros Hc Hm H. unfold elect_weight, weight_of in *. sinv.
  assert (Em : bp_mortgage it = Asset (amount (bp_mortgage it)) CORE_SYMBOL) by by apply coin_eta.
  destruct (isactive it); sinv; cbn [andb fst snd] in *.
  - destruct (amount (bp_mortgage it) <=? 0); sinv; [|by rewrite <- Em].
    destruct (creationbp (db s) !! bp_name it) as [c|]; sinv; [|by rewrite <- Em].
    match goal with Hx : core_asset _ = Ok _ |- _ =>
      apply core_asset_ok in Hx as [_ ->] end. done.
  - by rewrite <- Em.
Qed.

(** [is_super_bp] reads only. *)
Lemma is_super_bp_frame n e s b s' : is_super_bp n e s = Ok (b, s') -> s' = s.
Proof.
  intros H. unfold is_super_bp, last_schedule in H. sinv.
  destruct (last _); sinv; done.
Qed.

(** A conditional update of a row. *)
Lemma maybe_modify_ok (b : bool) k it x e s r s' :
  bps (db s) !! k = Some it ->
  (if b then modify bps_t k x;; mret x else mret it) e s = Ok (r, s') ->
  r = (if b then x else it) /\
  s' = St (set_bps (<[k := r]> (bps (db s))) (db s)) (notified s) (inline_actions s).
Proof.
  intros Hk H. destruct b; sinv; [done|]. split; [done|].
  rewrite insert_id by done. by destruct s as [[] ? ?].
Qed.

Lemma alike_normal it :
  bp_active_type it = LackMortgage -> alike it (set_bp_active_type Normal it).
Proof. intros E. split; try done; ssimp; unfold isactive; ssimp; by rewrite E. Qed.

Lemma alike_lack n it :
  bp_active_type it = Normal ->
  alike it (set_bp_active_change_block_num n (set_bp_active_type LackMortgage it)).
Proof. intros E. split; try done; ssimp; unfold isactive; ssimp; by rewrite E. Qed.

Lemma maybe_super_frame (b : bool) n e s r s' :
  (if b then is_super_bp n else mret false) e s = Ok (r, s') -> s' = s.
Proof. intros H. destruct b; [by apply is_super_bp_frame in H|]. by sinv. Qed.

Lemma elect_slot_ok bm k i acc e s o s' it :
  creation_ok (creationbp (db s)) -> coin (bp_mortgage it) -> bps (db s) !! k = Some it ->
  elect_slot bm k i acc e s = Ok (o, s') ->
  exists it', s' = St (set_bps (<[k := it']> (bps (db s))) (db s)) (notified s)
                     (inline_actions s) /\
    alike it it' /\
    o = match candidate_of (creationbp (db s)) (i64 bm) it with
        | Some c =>
            if default 0 (snd acc !! i) <=? c_stake c
            then Some (insert_at i (c_key c) (fst acc), insert_at i (c_stake c) (snd acc))
            else None
        | None => None
        end.
Proof.
  intros Hc Hm Hk H. unfold elect_slot in H. sinv. simplify_map_eq.
  match goal with Hx : elect_weight _ _ _ = Ok _ |- _ =>
    apply elect_weight_ok in Hx as [-> [= -> ->]]; [|done|done] end.
  match goal with Hx : core_asset _ = Ok _ |- _ => apply core_asset_ok in Hx as [_ ->] end.
  match goal with Hx : (if (bp_active_type it =? LackMortgage) && _ then _ else _) _ _ = Ok _ |- _ =>
    apply maybe_modify_ok in Hx as [-> ->]; [|done] end.
  set (it1 := if _ && _ then _ else it) in *.
  assert (A1 : alike it it1).
  { unfold it1. destruct (Z.eqb_spec (bp_active_type it) LackMortgage); cbn [andb];
      [|apply alike_refl]. destruct (_ <? _); [by apply alike_normal|apply alike_refl]. }
  match goal with Hx : (if _ then is_super_bp _ else _) _ _ = Ok _ |- _ =>
    apply maybe_super_frame in Hx as -> end.
  match goal with Hx : (if _ then modify _ _ _;; _ else mret it1) _ _ = Ok _ |- _ =>
    apply maybe_modify_ok in Hx as [-> ->]; [|ssimp; by rewrite lookup_insert_eq] end.
  set (it2 := if _ && _ then _ else it1) in *. ssimp.
  assert (A2 : alike it1 it2).
  { unfold it2. destruct (Z.eqb_spec (bp_active_type it1) Normal); [|rewrite andb_false_r; apply alike_refl].
    rewrite andb_true_r. destruct a3; [by apply alike_lack|apply alike_refl]. }
  assert (A : alike it it2) by by eapply alike_trans.
  exists it2. rewrite insert_insert_eq in *. clearbody it1 it2.
  unfold candidate_of. pose proof A as [E1 E2 _ _ E5 E6]. rewrite E1, E2, E5, E6 in *.
  destruct (isactive it), (negb (bp_active_type it =? Punish)),
    (i64 bm <? (weight_of (creationbp (db s)) it).2); cbn [andb] in *;
    rewrite ?andb_false_r, ?andb_true_r in *; 
    try (sinv; split; [done|by split]).
  cbn [c_stake c_key]. destruct (default 0 (_ !! i) <=? _); sinv; (split; [done|by split]).
Qed.

Lemma elect_bp_ok bm k slots acc e s acc' s' it :
  creation_ok (creationbp (db s)) -> coin (bp_mortgage it) -> bps (db s) !! k = Some it ->
  elect_bp bm k slots acc e s = Ok (acc', s') ->
  exists it', s' = St (set_bps (<[k := it']> (bps (db s))) (db s)) (notified s)
                     (inline_actions s) /\
    alike it it' /\
    acc' = place_opt slots (candidate_of (creationbp (db s)) (i64 bm) it) acc.
Proof.
  revert s it. induction slots as [|i slots IH]; intros s it Hc Hm Hk H; cbn [elect_bp] in H.
  - sinv. exists it. split; [|split; [apply alike_refl|by destruct (candidate_of _ _ _)]].
    rewrite insert_id by done. by destruct s as [[] ? ?].
  - apply mbind_ok in H as (o & s1 & H1 & H).
    apply (elect_slot_ok _ _ _ _ _ _ _ _ it) in H1 as (it1 & -> & A1 & ->); [|done..].
    destruct (candidate_of (creationbp (db s)) (i64 bm) it) as [c|] eqn:Ec; cbn [place_opt place].
    + destruct (default 0 _ <=? _); [sinv; by exists it1|].
      apply (IH _ it1) in H as (it2 & -> & A2 & ->); ssimp;
        [|done|by rewrite (al_mortgage _ _ A1)|by rewrite lookup_insert_eq].
      exists it2. rewrite insert_insert_eq, (alike_candidate _ _ _ _ A1), Ec.
      split; [done|]. split; [by eapply alike_trans|done].
    + apply (IH _ it1) in H as (it2 & -> & A2 & ->); ssimp;
        [|done|by rewrite (al_mortgage _ _ A1)|by rewrite lookup_insert_eq].
      exists it2. rewrite insert_insert_eq, (alike_candidate _ _ _ _ A1), Ec.
      split; [done|]. split; [by eapply alike_trans|done].
Qed.

(** Row by row alike. *)
Definition alike_rows (m m' : gmap Z bp_info) : Prop :=
  forall k, option_Forall2 alike (m !! k) (m' !! k).

Lemma alike_rows_refl m : alike_rows m m.
Proof. intros k. destruct (m !! k); constructor. apply alike_refl. Qed.

Lemma alike_rows_insert m m' k it it' :
  alike_rows m m' -> m' !! k = Some it -> alike it it' -> alike_rows m (<[k := it']> m').
Proof.
  intros Hm Hk A k'. specialize (Hm k') as Hk'. destruct (Z.eq_dec k k') as [<-|Hne].
  - rewrite lookup_insert_eq. rewrite Hk in Hk'. inversion Hk' as [b ? Ab|]; subst.
    constructor. by eapply alike_trans.
  - by rewrite lookup_insert_ne.
Qed.

(** The candidate of a row, none if there is no row. *)
Definition cand (s : sys_state) (need k : Z) : option candidate :=
  bps s !! k ≫= candidate_of (creationbp s) need.

Lemma elect_loop_ok bm slots e s l acc acc' s' m :
  creation_ok (creationbp (db s)) -> rows (fun b => coin (bp_mortgage b)) (bps (db s)) ->
  alike_rows (bps (db s)) m ->
  mfor (fun acc k => elect_bp bm k slots acc) acc l e
    (St (set_bps m (db s)) (notified s) (inline_actions s)) = Ok (acc', s') ->
  (forall k, k ∈ l -> is_Some (bps (db s) !! k)) ->
  exists m', s' = St (set_bps m' (db s)) (notified s) (inline_actions s) /\
    alike_rows (bps (db s)) m' /\
    acc' = fold_left (fun a k => place_opt slots (cand (db s) (i64 bm) k) a) l acc.
Proof.
  intros Hc Hr. revert m acc. induction l as [|k l IH]; intros m acc Hm H Hl; cbn [mfor] in H.
  - sinv. by exists m.
  - apply mbind_ok in H as (a1 & s1 & H1 & H2).
    destruct (Hl k) as [b Hb]; [left|]. specialize (Hm k) as Hk. rewrite Hb in Hk.
    inversion Hk as [? it A E E'|]; subst. symmetry in E'.
    apply (elect_bp_ok _ _ _ _ _ _ _ _ it) in H1 as (it1 & -> & A1 & ->); ssimp;
      [|done|rewrite (al_mortgage _ _ A); by eapply Hr|done].
    assert (Ec : place_opt slots (candidate_of (creationbp (db s)) (i64 bm) it) acc =
                 place_opt slots (cand (db s) (i64 bm) k) acc).
    { unfold cand. rewrite Hb. cbn. by rewrite (alike_candidate _ _ _ _ A). }
    rewrite Ec in H2.
    assert (Es : set_bps (<[k:=it1]> m) (set_bps m (db s)) = set_bps (<[k:=it1]> m) (db s)) by done.
    rewrite Es in H2. eapply IH; [by eapply alike_rows_insert|exact H2|].
    intros k' Hk'. apply Hl. by right.
Qed.

(** ** The ballot is sorted by stake. *)

Definition ballot_of (bal : list candidate) : ballot :=
  (map c_key bal, map c_stake bal ++ replicate top 0).

Definition ge_stake (x y : candidate) : Prop := c_stake y <= c_stake x.

Lemma place_at n i j c (acc : ballot) :
  (i <= j < i + n)%nat ->
  (forall p, (i <= p < j)%nat -> c_stake c < default 0 (snd acc !! p)) ->
  default 0 (snd acc !! j) <= c_stake c ->
  place (seq i n) c acc = (insert_at j (c_key c) (fst acc), insert_at j (c_stake c) (snd acc)).
Proof.
  revert i. induction n as [|n IH]; intros i Hj Hlt Hle; [lia|]. cbn [seq place].
  destruct (decide (i = j)) as [->|Hne].
  - by rewrite (proj2 (Z.leb_le _ _)).
  - rewrite (proj2 (Z.leb_gt _ _)) by (apply Hlt; lia). apply IH; [lia| |done].
    intros p Hp. apply Hlt. lia.
Qed.

Lemma place_none n i c (acc : ballot) :
  (forall p, (i <= p < i + n)%nat -> c_stake c < default 0 (snd acc !! p)) ->
  place (seq i n) c acc = acc.
Proof.
  revert i. induction n as [|n IH]; intros i Hlt; [done|]. cbn [seq place].
  rewrite (proj2 (Z.leb_gt _ _)) by (apply Hlt; lia). apply IH. intros p Hp. apply Hlt. lia.
Qed.

(** A sorted ballot splits at a stake. *)
Lemma ballot_split t bal :
  StronglySorted ge_stake bal ->
  exists hi lo, bal = hi ++ lo /\ Forall (fun x => t < c_stake x) hi /\
                Forall (fun x => c_stake x <= t) lo.
Proof.
  induction 1 as [|x bal Hs IH Hx]; [by exists [], []|].
  destruct (Z.lt_ge_cases t (c_stake x)) as [Hlt|Hge].
  - destruct IH as (hi & lo & -> & Hhi & Hlo). exists (x :: hi), lo. split; [done|]. by split; [constructor|].
  - exists [], (x :: bal). split; [done|]. split; [constructor|]. constructor; [done|].
    eapply Forall_impl; [exact Hx|]. unfold ge_stake. simpl. lia.
Qed.

Lemma insert_at_app {A} (x : A) hi lo : insert_at (length hi) x (hi ++ lo) = hi ++ x :: lo.
Proof. unfold insert_at. by rewrite take_app_length, drop_app_length. Qed.

Lemma sorted_insert hi lo c :
  StronglySorted ge_stake (hi ++ lo) ->
  Forall (fun x => c_stake c < c_stake x) hi -> Forall (fun x => c_stake x <= c_stake c) lo ->
  StronglySorted ge_stake (hi ++ c :: lo).
Proof.
  induction hi as [|x hi IH]; simpl; intros Hs Hhi Hlo.
  - by constructor.
  - apply StronglySorted_inv in Hs as [Hs Hx]. inversion Hhi as [|? ? Hcx Hhi']; subst.
    constructor; [by apply IH|]. apply Forall_app in Hx as [Hx1 Hx2].
    apply Forall_app. split; [done|]. constructor; [unfold ge_stake; lia|done].
Qed.

(** Candidates seen so far: on the ballot, or below the top of it. *)
Record counted (seen : list candidate) (bal rej : list candidate) : Prop := {
  ct_sorted : StronglySorted ge_stake bal;
  ct_nonneg : Forall (fun x => 0 <= c_stake x) bal;
  ct_perm : bal ++ rej ≡ₚ filter (fun x => 0 <= c_stake x) seen;
  ct_below : forall y, y ∈ rej -> (top <= length bal)%nat /\
               forall x, x ∈ take top bal -> c_stake y <= c_stake x;
}.

Lemma sorts_lookup_hi t hi lo p :
  Forall (fun x => t < c_stake x) hi -> (p < length hi)%nat ->
  t < default 0 (snd (ballot_of (hi ++ lo)) !! p).
Proof.
  intros Hhi Hp. cbn [ballot_of snd]. rewrite map_app, <- app_assoc, lookup_app_l by by rewrite length_map.
  rewrite list_lookup_fmap. destruct (lookup_lt_is_Some_2 hi p Hp) as [x Hx]. rewrite Hx. cbn.
  by eapply (Forall_lookup_1 _ _ _ _ Hhi).
Qed.

Lemma top_pos : (0 < top)%nat.
Proof. unfold top, NUM_OF_TOP_BPS. lia. Qed.

Lemma sorts_lookup_lo t hi lo :
  0 <= t -> Forall (fun x => c_stake x <= t) lo ->
  default 0 (snd (ballot_of (hi ++ lo)) !! length hi) <= t.
Proof.
  intros Ht Hlo. cbn [ballot_of snd].
  rewrite map_app, <- app_assoc, lookup_app_r by (by rewrite length_map).
  rewrite length_map, Nat.sub_diag. destruct lo as [|x lo]; cbn.
  - by destruct top.
  - by inversion Hlo.
Qed.

Lemma sorts_nonneg bal p :
  Forall (fun x => 0 <= c_stake x) bal -> 0 <= default 0 (snd (ballot_of bal) !! p).
Proof.
  intros Hb. cbn [ballot_of snd].
  assert (Hall : Forall (fun z => 0 <= z) (map c_stake bal ++ replicate top 0)).
  { apply Forall_app. split; [by apply List.Forall_map|]. by apply Forall_replicate. }
  destruct (_ !! p) eqn:E; cbn; [|done]. by eapply (Forall_lookup_1 _ _ _ _ Hall).
Qed.

Lemma place_counted seen bal rej c :
  counted seen bal rej ->
  exists bal' rej', place (seq 0 top) c (ballot_of bal) = ballot_of bal' /\
                    counted (seen ++ [c]) bal' rej'.
Proof.
  intros [Hs Hn Hp Hb]. destruct (Z.lt_ge_cases (c_stake c) 0) as [Hneg|Hpos].
  { exists bal, rej. split.
    - apply place_none. intros p _. pose proof (sorts_nonneg bal p Hn). lia.
    - split; try done. rewrite filter_app, filter_cons_False by lia. by rewrite app_nil_r. }
  assert (Hf : filter (fun x => 0 <= c_stake x) (seen ++ [c]) ≡ₚ c :: bal ++ rej).
  { rewrite filter_app, filter_cons_True by done. rewrite <- Hp. cbn.
    by rewrite <- Permutation_cons_append. }
  destruct (ballot_split (c_stake c) bal Hs) as (hi & lo & -> & Hhi & Hlo).
  destruct (le_lt_dec top (length hi)) as [Htop|Htop].
  - exists (hi ++ lo), (c :: rej). split.
    + apply place_none. intros p Hp'. apply sorts_lookup_hi; [done|lia].
    + split; try done; [by rewrite Hf, Permutation_middle|].
      intros y [->|Hy]%elem_of_cons; [|by apply Hb]. split; [rewrite length_app; lia|].
      intros x Hx. rewrite take_app_le in Hx by done. apply elem_of_take in Hx as (i & Hx & _).
      apply (Forall_lookup_1 _ _ _ _ Hhi) in Hx. lia.
  - exists (hi ++ c :: lo), rej. split.
    + rewrite (place_at _ _ (length hi)); [|lia|intros p Hp'; apply sorts_lookup_hi; [done|lia]
                                           |by apply sorts_lookup_lo].
      unfold ballot_of. cbn [fst snd].
      rewrite !map_app, <- app_assoc, <- (length_map c_key hi) at 1. rewrite insert_at_app.
      rewrite <- (length_map c_stake hi), insert_at_app, <- app_assoc. done.
    + apply Forall_app in Hn as [Hn1 Hn2]. split.
      * by apply sorted_insert.
      * apply Forall_app. split; [done|by constructor].
      * rewrite Hf. by rewrite <- app_assoc, <- app_comm_cons, <- Permutation_middle, app_assoc.
      * intros y Hy. destruct (Hb y Hy) as [Hl Hx]. rewrite length_app in *. cbn [length]. split; [lia|].
        intros x Hin. rewrite take_app_ge in Hin by lia.
        replace (top - length hi)%nat with (S (top - length hi - 1)) in Hin by lia.
        cbn [take] in Hin. apply elem_of_app in Hin as [Hin|[->|Hin]%elem_of_cons].
        -- apply Hx. rewrite take_app_ge by lia. apply elem_of_app. by left.
        -- destruct lo as [|z lo]; [cbn [length] in Hl; lia|].
           assert (c_stake y <= c_stake z).
           { apply Hx. rewrite take_app_ge by lia. apply elem_of_app. right.
             replace (top - length hi)%nat with (S (top - length hi - 1)) by lia. left. }
           inversion Hlo; subst. lia.
        -- apply Hx. rewrite take_app_ge by lia. apply elem_of_app. right.
           apply elem_of_take in Hin as (i & Hin & Hi). apply elem_of_take. exists i. split; [done|lia].
Qed.

Lemma fold_counted (f : Z -> option candidate) l seen bal rej :
  counted seen bal rej ->
  exists bal' rej',
    fold_left (fun a k => place_opt (seq 0 top) (f k) a) l (ballot_of bal) = ballot_of bal' /\
    counted (seen ++ omap f l) bal' rej'.
Proof.
  revert seen bal rej. induction l as [|k l IH]; intros seen bal rej Hc; cbn [fold_left omap list_omap].
  - exists bal, rej. by rewrite app_nil_r.
  - destruct (f k) as [c|]; cbn [place_opt]; [|by eapply IH].
    destruct (place_counted _ _ _ c Hc) as (bal1 & rej1 & -> & Hc1).
    destruct (IH _ _ _ Hc1) as (bal2 & rej2 & -> & Hc2). exists bal2, rej2.
    split; [done|]. by rewrite <- app_assoc in Hc2.
Qed.

Lemma get_reward_ok e s r a s' :
  reward (db s) !! REWARD_ID = Some r -> get_reward e s = Ok (a, s') -> a = r /\ s' = s.
Proof.
  intros Hr H. unfold get_reward in H. apply mbind_ok in H as (o & s1 & Hf & H).
  apply find_ok in Hf as [= -> ->]. cbn [vget] in H. rewrite Hr in H. by sinv.
Qed.

(** The mortgage a producer needs. *)
Definition needed_mortgage (r : reward_info) : Z :=
  i64 (u64 (Z.quot (ri_cycle_reward r) UPDATE_CYCLE * MORTGAGE)).

(** The candidates of a state with a stake, by name. *)
Definition candidates (s : sys_state) (need : Z) : list candidate :=
  filter (fun c => 0 <= c_stake c) (omap (cand s need) (sorted_keys (bps s))).

Definition biosbpa : Z := Eval vm_compute in N_ "biosbpa".

(** C38: An election proposes the eligible producers with the highest stakes, at most as
    many as there are slots: every eligible producer that is left out has at most
    the stake of each elected one, and none is left out while a slot is free; the
    proposal is sorted by name. *)
Theorem elects_highest_stakes (e : env) (s s' : st sys_state) (r : reward_info)
  (Hcr : creation_ok (creationbp (db s))) (Hfirst : is_Some (creationbp (db s) !! biosbpa))
  (Hrw : reward (db s) !! REWARD_ID = Some r)
  (Hm : rows (fun b => coin (bp_mortgage b)) (bps (db s)))
  (Hrun : update_elected_bps e s = Ok (tt, s')) :
  exists elected rest,
    host_calls (db s') = host_calls (db s) ++
      [set_proposed_producers (merge_sort producer_key_le (map c_key elected))] /\
    elected ++ rest ≡ₚ candidates (db s) (needed_mortgage r) /\
    (length elected <= top)%nat /\
    (forall y, y ∈ rest -> length elected = top /\
       forall x, x ∈ elected -> c_stake y <= c_stake x).
Proof.
  unfold update_elected_bps in Hrun. cbn [CREATION_BP] in Hrun. destruct Hfirst as [c Hc].
  apply mbind_ok in Hrun as (u & s1 & H1 & Hrun). cbn [cp_name] in H1.
  apply mbind_ok in H1 as (o & s2 & Hf & H1). apply find_ok in Hf as [= -> ->].
  cbn [vget] in H1. fold biosbpa in H1. rewrite Hc in H1. sinv.
  match goal with Hx : get_reward _ _ = Ok _ |- _ =>
    apply (get_reward_ok _ _ _ _ _ Hrw) in Hx as [-> ->] end.
  fold top in *.
  assert (Es : St (set_bps (bps (db s)) (db s)) (notified s) (inline_actions s) = s)
    by by destruct s as [[] ? ?].
  match goal with Hx : mfor (fun acc k => elect_bp ?bm k _ acc) _ _ _ _ = Ok (?ballot, ?s3) |- _ =>
    destruct (elect_loop_ok bm (seq 0 top) e s (sorted_keys (bps (db s))) ([], replicate top 0)
                ballot s3 (bps (db s))) as (m & -> & _ & Eacc);
      [done|done|apply alike_rows_refl|by rewrite Es|intros k Hk; by apply sorted_keys_spec|]
  end.
  fold (needed_mortgage r) in Eacc.
  destruct (fold_counted (cand (db s) (needed_mortgage r)) (sorted_keys (bps (db s))) [] [] [])
    as (bal & rej & Ef & Hct).
  { split; [constructor|constructor|done|]. by intros y Hy%not_elem_of_nil. }
  change ([], replicate top 0) with (ballot_of []) in Eacc. rewrite Ef in Eacc.
  injection Eacc as -> ->. destruct Hct as [Hs Hn Hp Hb]. ssimp.
  exists (take top bal), (drop top bal ++ rej). rewrite app_assoc, take_drop. split_and!.
  - cbn [ballot_of fst]. by rewrite fmap_take.
  - done.
  - rewrite length_take. lia.
  - intros y [Hy|Hy]%elem_of_app.
    + assert (top < length bal)%nat.
      { destruct (le_lt_dec (length bal) top); [|done]. rewrite drop_ge in Hy by done.
        by apply not_elem_of_nil in Hy. }
      split; [rewrite length_take; lia|]. intros x Hx.
      rewrite <- (take_drop top bal) in Hs. eapply StronglySorted_app_1_elem_of in Hs; done.
    + destruct (Hb y Hy) as [Hl Hx]. split; [rewrite length_take; lia|done].
Qed.

(** ** Witness. *)

Definition ex_other : Z := Eval vm_compute in N_ "otherbp".

(** A creation producer without mortgage, and another producer with one. *)
Definition ex_election : st sys_state :=
  St (set_creationbp {[biosbpa := CreationBp biosbpa 400000 2000000000]}
       (set_reward {[REWARD_ID := RewardInfo REWARD_ID (Asset 0 CORE_SYMBOL)
                                    (Asset 0 CORE_SYMBOL) 0 PRE_BLOCK_REWARDS PRE_GRADIENT 0 0
                                    0 [0]]}
         (set_schedules {[1 := ScheduleInfo 1 1 [(biosbpa, 1)]]}
           (set_bps {[ex_bp := ex_bp_row;
                      ex_other := set_bp_name ex_other (set_bp_total_staked 300
                        (set_bp_mortgage (Asset 100000000 CORE_SYMBOL) ex_bp_row))]} ex_sys))))
    [] [].

Lemma elects_highest_stakes_witness :
  exists elected rest,
    host_calls (db (sys_run (update_elected_bps (ex_senv sys_acct 100) ex_election))) =
      [] ++ [set_proposed_producers (merge_sort producer_key_le (map c_key elected))] /\
    elected ++ rest ≡ₚ candidates (db ex_election) 69872176 /\
    (length elected <= top)%nat /\
    (forall y, y ∈ rest -> length elected = top /\
       forall x, x ∈ elected -> c_stake y <= c_stake x).
Proof.
  apply (elects_highest_stakes (ex_senv sys_acct 100) ex_election
           (sys_run (update_elected_bps (ex_senv sys_acct 100) ex_election))
           (RewardInfo REWARD_ID (Asset 0 CORE_SYMBOL) (Asset 0 CORE_SYMBOL) 0
              PRE_BLOCK_REWARDS PRE_GRADIENT 0 0 0 [0])).
  - intros k c Hc. unfold ex_election in Hc. ssimp. rows_of Hc. cbn. arange. lia.
  - exists (CreationBp biosbpa 400000 2000000000). by vm_compute.
  - by vm_compute.
  - intros k b Hb. unfold ex_election in Hb. ssimp. rows_of Hb; cbn; apply coin_mk; arange; lia.
  - by vm_compute.
Defined.
