(* ===== verification/Exec.v ===== *)
(** * Execution of an action, [apply_context::exec] of [libraries/chain].

    The receiver runs the action, then each account it notifies, then the inline
    actions they have sent are dispatched one level deeper.  What an account's code
    does is an argument, [exec_one], and so is the outcome of the authorization
    check of [execute_inline], [inline_allowed], which depends on the permissions
    the accounts have set. *)
From stdpp Require Import base list strings.
From Stdlib Require Import ZArith Lia.
From S2P Require Import Prelude Name Asset Runtime.

Open Scope Z_scope.

(** [_notified] and [_inline_actions] of the context, and the state of the chain. *)
Record ctx (W : Type) := Ctx {
  cx_world : W;
  cx_notified : list Z;
  cx_inline : list action;
}.
Arguments Ctx {W} cx_world cx_notified cx_inline.
Arguments cx_world {W} c.
Arguments cx_notified {W} c.
Arguments cx_inline {W} c.

Section exec.
Context {W : Type}.
(** The code of the receiver applied to the action. *)
Context (exec_one : Z -> action -> ctx W -> result (ctx W)).
(** Whether the receiver of an action may send an inline action. *)
Context (inline_allowed : Z -> action -> action -> bool).

(** [exec_one], with the check of [execute_inline] on what the receiver sends. *)
Definition exec_checked (receiver : Z) (act : action) (c : ctx W) : result (ctx W) :=
  (let* c' := exec_one receiver act c in
   check* forallb (inline_allowed receiver act) (drop (length (cx_inline c)) (cx_inline c'))
     with "inline action is not authorized" in
   Ok c')%res.

(** [for( i = 1; i < _notified.size(); ++i )]: the list may grow on the way.  The
    fuel bounds the number of notified accounts. *)
Fixpoint exec_notified (fuel i : nat) (act : action) (c : ctx W) : result (ctx W) :=
  match fuel with
  | O => Err "too many notifications"
  | S fuel =>
      match cx_notified c !! i with
      | None => Ok c
      | Some receiver =>
          rbind (exec_checked receiver act c) (fun c' => exec_notified fuel (S i) act c')
      end
  end.

(** [depth] is what remains below [max_inline_action_depth]. *)
Fixpoint exec (notify_fuel depth : nat) (w : W) (act : action) : result W :=
  (let* c := exec_checked (act_account act) act (Ctx w [act_account act] []) in
   let* c := exec_notified notify_fuel 1 act c in
   match cx_inline c, depth with
   | [], _ => Ok (cx_world c)
   | _ :: _, O => Err "max inline action depth per transaction reached"
   | _ :: _, S depth => rfold (exec notify_fuel depth) (cx_world c) (cx_inline c)
   end)%res.

Lemma exec_checked_ok receiver act c c' :
  exec_checked receiver act c = Ok c' ->
  exec_one receiver act c = Ok c' /\
  forall a, a ∈ drop (length (cx_inline c)) (cx_inline c') -> inline_allowed receiver act a = true.
Proof.
  intros H. unfold exec_checked in H. apply rbind_ok in H as (c1 & H1 & H).
  apply rbind_ok in H as (u & H2 & H). apply rassert_ok in H2. simplify_eq.
  split; [done|]. intros a Ha. rewrite forallb_forall in H2. apply H2.
  by apply list_elem_of_In.
Qed.

(** A predicate on the context that [exec_one] keeps for every receiver. *)
Lemma exec_notified_inv (P : ctx W -> Prop) act :
  (forall receiver c c', P c -> receiver ∈ cx_notified c ->
     exec_checked receiver act c = Ok c' -> P c') ->
  forall fuel i c c', P c -> exec_notified fuel i act c = Ok c' -> P c'.
Proof.
  intros Hone fuel. induction fuel as [|fuel IH]; intros i c c' HP H; cbn [exec_notified] in H; [done|].
  destruct (cx_notified c !! i) as [r|] eqn:Hr; [|by simplify_eq].
  apply rbind_ok in H as (c1 & H1 & H2). eapply IH; [|exact H2].
  eapply Hone; [done| |done]. by eapply list_elem_of_lookup_2.
Qed.

(** Where the code of an account runs only for the actions of that account, the
    notifications change nothing, since the receivers after the first differ from it. *)
Lemma exec_notified_quiet act c c' fuel i :
  (forall receiver, receiver <> act_account act -> exec_one receiver act c = Ok c) ->
  NoDup (cx_notified c) -> cx_notified c !! 0%nat = Some (act_account act) -> (0 < i)%nat ->
  exec_notified fuel i act c = Ok c' -> c' = c.
Proof.
  intros Hq Hnd H0. revert i. induction fuel as [|fuel IH]; intros i Hi H; cbn [exec_notified] in H; [done|].
  destruct (cx_notified c !! i) as [r|] eqn:Hr; [|by simplify_eq].
  apply rbind_ok in H as (c1 & H1 & H). apply exec_checked_ok in H1 as [H1 _].
  rewrite Hq in H1; [|intros ->; eapply NoDup_lookup in H0; [|done|exact Hr]; lia].
  injection H1 as <-. by eapply IH in H; [|lia].
Qed.

(** A run is then the code of the action's account, and the actions it has sent. *)
Lemma exec_quiet fuel depth w act w' :
  (forall receiver c, receiver <> act_account act -> exec_one receiver act c = Ok c) ->
  (forall c c', NoDup (cx_notified c) -> exec_one (act_account act) act c = Ok c' ->
     NoDup (cx_notified c') /\ exists l, cx_notified c' = cx_notified c ++ l) ->
  exec fuel depth w act = Ok w' ->
  exists c, exec_one (act_account act) act (Ctx w [act_account act] []) = Ok c /\
    (forall a, a ∈ cx_inline c -> inline_allowed (act_account act) act a = true) /\
    (cx_inline c = [] /\ w' = cx_world c \/
     exists d, depth = S d /\ rfold (exec fuel d) (cx_world c) (cx_inline c) = Ok w').
Proof.
  intros Hq Hnd H.
  assert (H' : exists c c', exec_checked (act_account act) act (Ctx w [act_account act] []) = Ok c /\
    exec_notified fuel 1 act c = Ok c' /\
    (cx_inline c' = [] /\ w' = cx_world c' \/
     exists d, depth = S d /\ rfold (exec fuel d) (cx_world c') (cx_inline c') = Ok w')).
  { destruct depth; cbn [exec] in H; apply rbind_ok in H as (c & H1 & H);
      apply rbind_ok in H as (c' & H2 & H); exists c, c'; split; [done| |done|]; (split; [done|]);
      destruct (cx_inline c') as [|x l] eqn:El; [left; by simplify_eq|done|left; by simplify_eq|].
    right. exists depth. split; [done|]. exact H. }
  clear H. destruct H' as (c & c' & H1 & H2 & H3).
  apply exec_checked_ok in H1 as [H1 Hall]. cbn [cx_inline length] in Hall. rewrite drop_0 in Hall.
  destruct (Hnd (Ctx w [act_account act] []) c) as [Hn [l Hl]]; [apply NoDup_singleton|done|].
  apply exec_notified_quiet in H2 as ->; [|auto|done|by rewrite Hl|lia].
  exists c. auto.
Qed.
End exec.
