(* ===== verification/World.v ===== *)
(** * The token and the system contract together.

    The state of both contracts, the code of their accounts as the host runs it,
    and solvency: what the system account holds for voters and for delegated
    bandwidth is in its token balance. *)
From stdpp Require Import base gmap list strings.
From Stdlib Require Import ZArith Lia.
From S2P Require Import Prelude Name Asset Runtime Token SystemState Voting Staking Bandwidth Exec.

Open Scope Z_scope.

Record world := World {
  w_token : Token.state;
  w_sys : sys_state;
}.

(** What the contracts see of the chain. *)
Record chain_env := ChainEnv {
  ce_existing : gset Z;
  ce_block : Z;
  ce_now : Z;
}.

(** The actions of the token contract. *)
Definition token_call (d : action_data) : option Token.call :=
  match d with
  | create_args i q => Some (Token.Create i q)
  | issue_args t q m => Some (Token.Issue t q m)
  | transfer_args f t q m => Some (Token.Transfer f t q m)
  | token_fee_args p q => Some (Token.Fee p q)
  | trade_args f t q ty m => Some (Token.Trade f t q ty m)
  | castcoin_args f t q => Some (Token.Castcoin f t q)
  | takecoin_args t => Some (Token.Takecoin t)
  | opencast_args t => Some (Token.Opencast t)
  | closecast_args t b => Some (Token.Closecast t b)
  | _ => None
  end.

(** The staking and bandwidth actions of the system contract. *)
Definition sys_call (d : action_data) : option (vcall + bwcall) :=
  match d with
  | freeze_args v q => Some (inl (Freeze v q))
  | unfreeze_args v => Some (inl (Unfreeze v))
  | vote_args v b q => Some (inl (Vote v b q))
  | voteproducer_args v l => Some (inl (Voteproducer v l))
  | vote4ram_args v b q => Some (inl (Vote4ram v b q))
  | voteage_fee_args p b a => Some (inl (Fee p b a))
  | claimvote_args b r => Some (inl (Claimvote b r))
  | delegatebw_args f r n c t => Some (inr (Delegatebw f r n c t))
  | undelegatebw_args f r n c => Some (inr (Undelegatebw f r n c))
  | refund_args o => Some (inr (Refund o))
  | newaccount_args c n => Some (inr (Newaccount c n))
  | _ => None
  end.

Definition sys_apply (c : vcall + bwcall) : M sys_state unit :=
  match c with inl v => vapply false v | inr b => bwapply b end.

Definition env_of (ce : chain_env) (receiver : Z) (act : action) : env :=
  Env receiver (act_authorization act) (ce_existing ce) (ce_block ce) (ce_now ce).

(** The dispatch of [EOSIO_ABI] runs an action only when its account is the
    receiver: notifications run no code of these contracts, and the other
    accounts have none.  The switch of the token contract has no default; the
    actions of the system contract that [sys_call] leaves out are outside this
    model and refused. *)
Definition world_exec_one (ce : chain_env) (receiver : Z) (act : action) (c : ctx world)
  : result (ctx world) :=
  if negb (receiver =? act_account act) then Ok c else
  let w := cx_world c in
  let e := env_of ce receiver act in
  if receiver =? config.token_account_name then
    match token_call (act_data act) with
    | Some call =>
        (let* r := Token.apply call e (St (w_token w) (cx_notified c) (cx_inline c)) in
         Ok (Ctx (World (db (snd r)) (w_sys w)) (notified (snd r)) (inline_actions (snd r))))%res
    | None => Ok c
    end
  else if receiver =? config.system_account_name then
    match sys_call (act_data act) with
    | Some call =>
        (let* r := sys_apply call e (St (w_sys w) (cx_notified c) (cx_inline c)) in
         Ok (Ctx (World (w_token w) (db (snd r))) (notified (snd r)) (inline_actions (snd r))))%res
    | None => Err "not modelled"
    end
  else Ok c.

Definition world_exec (inline_allowed : Z -> action -> action -> bool) (ce : chain_env)
  : nat -> nat -> world -> action -> result world :=
  exec (world_exec_one ce) inline_allowed.

(** ** Solvency. *)

(** The system account's balance in the core token. *)
Definition sys_balance (w : world) : Z := Token.balance (w_token w) sys_acct Token.core_name.

Record world_ok (w : world) : Prop := {
  wo_token : Token.inv (w_token w);
  wo_stake : stake_inv (w_sys w);
  wo_bw : bw_inv (w_sys w);
}.

(** What the system account owes is in its balance, once [pending] has arrived. *)
Definition covered (pending : Z) (w : world) : Prop :=
  world_ok w /\ custody (w_sys w) + bw_custody (w_sys w) <= sys_balance w + pending.

(** The arguments are 64-bit assets; the system contract is given the core token. *)
Definition bw_range (c : bwcall) : Prop :=
  match c with
  | Delegatebw _ _ net cpu _ | Undelegatebw _ _ net cpu => coin net /\ coin cpu
  | _ => True
  end.

Definition act_typed (act : action) : Prop :=
  (forall c, act_account act = config.token_account_name ->
     token_call (act_data act) = Some c -> Token.call_typed c) /\
  (forall c, act_account act = sys_acct -> sys_call (act_data act) = Some c ->
     match c with inl v => vcall_typed v | inr b => bw_range b end).

(** The action does not carry the authority of the system account. *)
Definition foreign (act : action) : Prop :=
  has_authorization (act_authorization act) sys_acct = false.

(** The system account has not let another account act for it. *)
Definition not_delegated (inline_allowed : Z -> action -> action -> bool) : Prop :=
  forall receiver parent act,
    receiver <> sys_acct -> inline_allowed receiver parent act = true ->
    foreign parent -> foreign act.

Lemma bwapply_typed c e s s' :
  bw_range c -> has_authorization (authorization e) sys_acct = false ->
  bwapply c e s = Ok (tt, s') -> bw_typed c.
Proof.
  intros Hr Hf H. destruct c; simpl in *; try done.
  - destruct Hr. split_and!; [done..|]. intros ->. apply delegatebw_run in H.
    unfold changebw in H. sinv. congruence.
  - destruct Hr. split_and!; [done..|]. intros ->. apply undelegatebw_run in H as [_ H]; [|done..].
    unfold changebw in H. sinv. congruence.
  - intros ->. unfold refund in H. sinv. congruence.
Qed.

(** A staking or bandwidth action: the sum owed moves by the payments it sends. *)
Lemma sys_apply_ok c e s s' :
  stake_inv (db s) -> bw_inv (db s) ->
  match c with inl v => vcall_typed v | inr b => bw_range b end ->
  has_authorization (authorization e) sys_acct = false ->
  sys_apply c e s = Ok (tt, s') ->
  stake_inv (db s') /\ bw_inv (db s') /\ pays s s' /\
  custody (db s') + bw_custody (db s') - flows sys_acct (inline_actions s') =
  custody (db s) + bw_custody (db s) - flows sys_acct (inline_actions s).
Proof.
  intros Hst Hbw Hty Hf H. destruct c as [v|b]; cbn [sys_apply] in H.
  - destruct (vapply_frame _ _ _ _ Hst Hty H) as [Ha _].
    assert (caller v <> sys_acct) by (intros E; rewrite E in Ha; congruence).
    destruct (vapply_pays _ _ _ _ Hst Hty H) as [Hp (Ed & Er & Eu)].
    apply vapply_kept in H as (Hinv & Hc & _); [|done..]. specialize (Hc ltac:(done)). cbn [snd] in *.
    split_and!; [done| |done|].
    + destruct Hbw. split; rewrite ?Ed, ?Er, ?Eu; [done..|]. intros net k.
      unfold total_of, delegated_to in *. rewrite Ed, Eu. done.
    + unfold bw_custody in *. rewrite Ed, Er. lia.
  - assert (Hb : bw_typed b) by by eapply bwapply_typed.
    destruct (bwapply_pays _ _ _ _ Hbw Hb H) as [Hp (Ef & Ev & E4 & Em & Es)].
    apply bwapply_kept in H as [Hinv Hc]; [|done..].
    split_and!; [|done|done|].
    + destruct Hst. split; rewrite ?Ef, ?Ev, ?E4, ?Em, ?Es; done.
    + unfold custody in *. rewrite Ef, Ev, E4. lia.
Qed.

(** *** One run of code. *)

Lemma world_exec_one_quiet ce receiver act c :
  receiver <> act_account act -> world_exec_one ce receiver act c = Ok c.
Proof. intros Hne. unfold world_exec_one. by rewrite (proj2 (Z.eqb_neq _ _) Hne). Qed.

(** What a run of the token contract's code is. *)
Lemma token_exec_one ce act c c' :
  act_account act = config.token_account_name ->
  world_exec_one ce (act_account act) act c = Ok c' ->
  c' = c /\ token_call (act_data act) = None \/
  exists call s', token_call (act_data act) = Some call /\
    Token.apply call (env_of ce (act_account act) act)
      (St (w_token (cx_world c)) (cx_notified c) (cx_inline c)) = Ok (tt, s') /\
    c' = Ctx (World (db s') (w_sys (cx_world c))) (notified s') (inline_actions s').
Proof.
  intros Ha H. unfold world_exec_one in H. rewrite Z.eqb_refl, Ha, Z.eqb_refl in H. cbn [negb] in H.
  destruct (token_call (act_data act)) as [call|]; [|left; by simplify_eq].
  apply rbind_ok in H as ([[] s'] & H & E). right. exists call, s'. rewrite Ha. by simplify_eq.
Qed.

Lemma sys_exec_one ce act c c' :
  act_account act = sys_acct ->
  world_exec_one ce (act_account act) act c = Ok c' ->
  exists call s', sys_call (act_data act) = Some call /\
    sys_apply call (env_of ce (act_account act) act)
      (St (w_sys (cx_world c)) (cx_notified c) (cx_inline c)) = Ok (tt, s') /\
    c' = Ctx (World (w_token (cx_world c)) (db s')) (notified s') (inline_actions s').
Proof.
  intros Ha H. unfold world_exec_one in H. rewrite Z.eqb_refl, Ha in H. cbn [negb] in H.
  change (sys_acct =? config.token_account_name) with false in H. unfold sys_acct at 1 in H.
  rewrite Z.eqb_refl in H. destruct (sys_call (act_data act)) as [call|]; [|done].
  apply rbind_ok in H as ([[] s'] & H & E). exists call, s'. rewrite Ha. by simplify_eq.
Qed.

Lemma other_exec_one ce act c c' :
  act_account act <> config.token_account_name -> act_account act <> sys_acct ->
  world_exec_one ce (act_account act) act c = Ok c' -> c' = c.
Proof.
  intros H1%Z.eqb_neq H2%Z.eqb_neq H. unfold world_exec_one in H. unfold sys_acct in H2.
  rewrite Z.eqb_refl, H1, H2 in H. by simplify_eq/=.
Qed.

(** Notifications never repeat an account. *)
Lemma emits_notified {S A} P e (m : M S A) s a s' :
  emits P e m -> m e s = Ok (a, s') -> NoDup (notified s) ->
  NoDup (notified s') /\ exists l, notified s' = notified s ++ l.
Proof. intros Hm H Hnd. destruct (Hm _ _ _ H) as (? & ? & _). auto. Qed.

Lemma host_call_emits P e c : emits P e (host_call_ c).
Proof. apply emits_silent. intros ? ? ? ?. sinv. done. Qed.

Lemma settlevoter_emits P e voter bpname : emits P e (settlevoter voter bpname).
Proof. unfold settlevoter, settle_record. emit. Qed.

Lemma changebw_emits e from receiver net cpu tr :
  emits (fun _ => True) e (changebw from receiver net cpu tr).
Proof.
  unfold changebw, change_delband, change_totals, change_refund, send_transfer.
  emit; try apply host_call_emits; done.
Qed.

Lemma sys_apply_emits c e : emits (fun _ => True) e (sys_apply c).
Proof.
  destruct c as [v|b]; cbn [sys_apply].
  - destruct v; cbn [vapply];
      [unfold freeze, place_freeze, send_transfer|unfold unfreeze, send_transfer
      |unfold vote, place_vote, return_stake, take_stake
      |unfold voteproducer, update_votes, apply_delta
      |unfold vote4ram, place_vote4ram, return_stake, take_stake, add_vote4ramsum
      |unfold fee|unfold claimvote, send_castcoin];
      emit; try apply settlevoter_emits; try apply host_call_emits; done.
  - destruct b; cbn [bwapply]; [unfold delegatebw|unfold undelegatebw
      |unfold refund, send_transfer|unfold newaccount];
      emit; try apply changebw_emits; try apply host_call_emits; done.
Qed.

Lemma world_exec_one_notified ce act c c' :
  NoDup (cx_notified c) -> world_exec_one ce (act_account act) act c = Ok c' ->
  NoDup (cx_notified c') /\ exists l, cx_notified c' = cx_notified c ++ l.
Proof.
  intros Hnd H. destruct (Z.eq_dec (act_account act) config.token_account_name) as [Ht|Ht].
  - apply token_exec_one in H as [[-> _]|(call & s' & _ & H & ->)]; [|..|done].
    + split; [done|]. exists []. by rewrite app_nil_r.
    + exact (emits_notified _ _ _ _ _ _ (Token.apply_emits _ _) H Hnd).
  - destruct (Z.eq_dec (act_account act) sys_acct) as [Hs|Hs].
    + apply sys_exec_one in H as (call & s' & _ & H & ->); [|done].
      exact (emits_notified _ _ _ _ _ _ (sys_apply_emits _ _) H Hnd).
    + apply other_exec_one in H as ->; [|done..]. split; [done|]. exists []. by rewrite app_nil_r.
Qed.

(** *** Runs of an action with what it sends. *)
Section runs.
Context (inline_allowed : Z -> action -> action -> bool) (Hnd : not_delegated inline_allowed).
Context (ce : chain_env) (fuel : nat).

Lemma world_exec_run depth w act w' :
  world_exec inline_allowed ce fuel depth w act = Ok w' ->
  exists c, world_exec_one ce (act_account act) act (Ctx w [act_account act] []) = Ok c /\
    (forall a, a ∈ cx_inline c -> inline_allowed (act_account act) act a = true) /\
    (cx_inline c = [] /\ w' = cx_world c \/
     exists d, depth = S d /\
       rfold (world_exec inline_allowed ce fuel d) (cx_world c) (cx_inline c) = Ok w').
Proof.
  apply exec_quiet; [intros; by apply world_exec_one_quiet|intros; by eapply world_exec_one_notified].
Qed.

(** The token contract takes nothing from the system account without its authority. *)
Lemma token_covered p w ns l call e s' :
  covered p w -> Token.call_typed call -> has_authorization (authorization e) sys_acct = false ->
  Token.apply call e (St (w_token w) ns l) = Ok (tt, s') -> covered p (World (db s') (w_sys w)).
Proof.
  intros [[Hinv Hst Hbw] Hle] Hty Hf H.
  split; [split; [exact (Token.apply_inv _ _ (St _ _ _) _ Hinv Hty H)|done..]|].
  assert (sys_balance w <= sys_balance (World (db s') (w_sys w))); [|cbn [w_sys]; lia].
  apply Z.nlt_ge. intros Hlt. eapply Token.debit_needs_auth in H; [|apply Hinv|done|exact Hlt].
  congruence.
Qed.

(** An action on an account other than the system contract, and what it sends. *)
Lemma foreign_run p w act c :
  act_account act <> sys_acct -> act_typed act -> foreign act -> covered p w ->
  world_exec_one ce (act_account act) act (Ctx w [act_account act] []) = Ok c ->
  covered p (cx_world c) /\
  Forall (fun a => act_account a <> sys_acct /\ act_typed a) (cx_inline c).
Proof.
  intros Hs Hty Hf Hc H. destruct (Z.eq_dec (act_account act) config.token_account_name) as [Ht|Ht];
    [|by apply other_exec_one in H as ->].
  apply token_exec_one in H as [[-> _]|(call & s' & Ecall & H & ->)]; [done| |done].
  apply Hty in Ecall; [|done]. split; [by eapply (token_covered p w); [done|exact Ecall| |exact H]|].
  destruct (Token.apply_emits _ _ _ _ _ H) as (_ & _ & l & -> & Hl).
  eapply Forall_impl; [exact Hl|]. intros a [Hb|[Hb (f & t & q & m & Hd & Hq)]].
  - rewrite Hb. split; [done|]. split; intros c' Hc'; rewrite Hb in Hc'; done.
  - cbn [self env_of] in Hb. rewrite Hb. split; [done|]. split; intros c' Hc'; [|congruence].
    rewrite Hd. intros [= <-]. apply Hq, Ecall.
Qed.

Lemma exec_foreign depth p w act w' :
  act_account act <> sys_acct -> act_typed act -> foreign act -> covered p w ->
  world_exec inline_allowed ce fuel depth w act = Ok w' -> covered p w'.
Proof.
  revert w act w'. induction depth as [|depth IH]; intros w act w' Hs Hty Hf Hc H;
    apply world_exec_run in H as (c & H1 & Hall & H);
    destruct (foreign_run _ _ _ _ Hs Hty Hf Hc H1) as [Hc' Hl];
    destruct H as [[_ ->]|(d & [=] & H)]; try done.
  subst d. eapply (rfold_inv (covered p)); [|exact Hc'|exact H].
  intros w1 a w2 Ha Hw1 Hw2. rewrite Forall_forall in Hl. destruct (Hl _ Ha) as [??].
  eapply IH; [..|exact Hw2]; try done. by eapply Hnd; [exact Hs|apply Hall|].
Qed.

(** A payment of the system contract arrives in full. *)
Lemma payment_moves p w ns l e call s' a :
  payment a -> token_call (act_data a) = Some call -> covered p w ->
  Token.apply call e (St (w_token w) ns l) = Ok (tt, s') ->
  inline_actions s' = l /\ covered (p - flow sys_acct a) (World (db s') (w_sys w)).
Proof.
  intros Hpay Hcall [[Hinv Hst Hbw] Hle] H. unfold covered, sys_balance in *.
  destruct Hpay as [(f & t & n & m & ->)|(t & q & ->)]; injection Hcall as <-; cbn [Token.apply] in H.
  - destruct (Token.transfer_emits (fun _ => False) _ _ _ _ _ _ _ _ H) as (_ & _ & l' & -> & Hl).
    pose proof (Token.transfer_valid _ _ _ _ _ _ _ H) as Hv.
    pose proof (Token.transfer_balance _ _ _ _ _ (St _ _ _) _ sys_acct (proj1 Hinv) H) as Hb.
    apply Token.transfer_inv in H as Hinv'; [|done..].
    destruct l'; [|by inversion Hl]. rewrite app_nil_r. split; [done|]. split; [done|].
    unfold flow, transfer_action. cbn [act_data w_sys w_token db snd amount] in *. lia.
  - destruct (Token.castcoin_emits (fun _ => False) _ _ _ _ _ _ _ H) as (_ & _ & l' & -> & Hl).
    pose proof (Token.castcoin_valid _ _ _ _ _ _ H) as Hv.
    pose proof (Token.castcoin_balance _ _ _ _ (St _ _ _) _ sys_acct (proj1 Hinv) H) as Hb.
    apply Token.inv_castcoin in H as Hinv'; [|done..].
    destruct l'; [|by inversion Hl]. rewrite app_nil_r. split; [done|]. split; [done|].
    unfold flow. cbn [act_data w_sys w_token db snd amount] in *. lia.
Qed.

Lemma exec_payment depth p w a w' :
  payment a -> covered p w -> world_exec inline_allowed ce fuel depth w a = Ok w' ->
  covered (p - flow sys_acct a) w'.
Proof.
  intros Hpay Hc H. apply world_exec_run in H as (c & H1 & _ & H).
  assert (Ha : act_account a = config.token_account_name /\ token_call (act_data a) <> None)
    by by destruct Hpay as [(f & t & n & m & ->)|(t & q & ->)].
  destruct Ha as [Ha Hd]. apply token_exec_one in H1 as [[-> E]|(call & s' & Ecall & H1 & ->)]; [| |done].
  - done.
  - apply (payment_moves p w _ _ _ _ _ a) in H1 as [Hin Hc']; [|done..].
    cbn [cx_inline cx_world] in *. rewrite Hin in H. destruct H as [[_ ->]|(d & _ & H)]; [done|].
    cbn [rfold] in H. by injection H as <-.
Qed.

Lemma exec_payments depth p w l w' :
  Forall payment l -> covered p w -> rfold (world_exec inline_allowed ce fuel depth) w l = Ok w' ->
  covered (p - flows sys_acct l) w'.
Proof.
  intros Hl. revert p w. induction Hl as [|a l Ha _ IH]; intros p w Hc H; cbn [rfold flows foldr] in *.
  - injection H as <-. by rewrite Z.sub_0_r.
  - apply rbind_ok in H as (w1 & H1 & H). apply (exec_payment _ p) in H1 as Hc1; [|done..].
    apply (IH (p - flow sys_acct a)) in H; [|done]. unfold flows in H. by rewrite Z.sub_add_distr.
Qed.

(** Any action without the authority of the system account. *)
Lemma exec_covered depth w act w' :
  act_typed act -> foreign act -> covered 0 w ->
  world_exec inline_allowed ce fuel depth w act = Ok w' -> covered 0 w'.
Proof.
  intros Hty Hf Hc H. destruct (Z.eq_dec (act_account act) sys_acct) as [Hs|Hs];
    [|by eapply exec_foreign].
  apply world_exec_run in H as (c & H1 & _ & H).
  apply sys_exec_one in H1 as (call & s' & Ecall & H1 & ->); [|done].
  destruct Hc as [[Hinv Hst Hbw] Hle].
  apply Hty in Ecall; [|done].
  apply sys_apply_ok in H1 as (Hst' & Hbw' & [_ (l & El & Hl)] & Hm); [|done..].
  cbn [cx_world cx_inline w_token w_sys db inline_actions app flows foldr] in *.
  assert (Hc' : covered (flows sys_acct l) (World (w_token w) (db s'))).
  { split; [done|]. unfold sys_balance in *. cbn [w_token w_sys]. rewrite El in Hm. lia. }
  rewrite El in H. destruct H as [[-> ->]|(d & _ & H)]; [done|].
  apply (exec_payments _ (flows sys_acct l)) in H; [|done..]. by rewrite Z.sub_diag in H.
Qed.
End runs.

(** ** Theorem. *)

(** A block of actions, each with what the contracts see of the chain. *)
Definition run_all (inline_allowed : Z -> action -> action -> bool) (fuel depth : nat)
  : world -> list (chain_env * action) -> result world :=
  rfold (fun w x => world_exec inline_allowed (fst x) fuel depth w (snd x)).

(** In every run of token, staking and bandwidth actions that do not carry the
    authority of the system account, with all the inline transfers the contracts
    send, the system account's balance in the token contract keeps covering what it
    holds for its users: frozen, unstaking and voted stakes, delegated bandwidth and
    pending refunds. The one assumption on permissions is that the system account
    has not let another account act for it. *)
Theorem solvency (inline_allowed : Z -> action -> action -> bool) (fuel depth : nat)
  (w w' : world) (acts : list (chain_env * action))
  (Hnd : not_delegated inline_allowed) (Hw : covered 0 w)
  (Hacts : Forall (fun x => act_typed (snd x) /\ foreign (snd x)) acts)
  (Hrun : run_all inline_allowed fuel depth w acts = Ok w') :
  covered 0 w'.
Proof.
  eapply (rfold_inv (covered 0)); [|exact Hw|exact Hrun].
  intros w1 [ce act] w2 Hx Hw1 H. rewrite Forall_forall in Hacts.
  destruct (Hacts _ Hx) as [Hty Hf]. by eapply exec_covered.
Qed.

(** ** A concrete chain. *)

(** A contract acts with the authority it was given and with its own; the system
    contract is privileged. *)
Definition inherited (receiver : Z) (parent act : action) : bool :=
  (receiver =? sys_acct) ||
  forallb (fun p => (fst p =? receiver) || has_authorization (act_authorization parent) (fst p))
    (act_authorization act).

Lemma inherited_not_delegated : not_delegated inherited.
Proof.
  intros receiver parent act Hr%Z.eqb_neq H Hf. unfold inherited in H. rewrite Hr in H.
  cbn [orb] in H. unfold foreign, has_authorization in *.
  apply not_true_iff_false. intros (p & Hp & E)%existsb_exists. rewrite forallb_forall in H.
  apply H, orb_true_iff in Hp as [Hp|Hp]; [lia|]. apply Z.eqb_eq in E. rewrite E in Hp. congruence.
Qed.

Definition ex_ledger : Token.state := Token.State
  {[ (sys_acct, Token.core_name) := Asset 9000000 CORE_SYMBOL;
     (ex_voter, Token.core_name) := Asset 3000000 CORE_SYMBOL ]}
  {[ Token.core_name := Token.CurrencyStats (Asset 12000000 CORE_SYMBOL)
                          (Asset 100000000000 CORE_SYMBOL) sys_acct ]} ∅.
Definition ex_world : world := World ex_ledger ex_bw.
Definition ex_ce : chain_env := ChainEnv {[sys_acct; ex_voter; ex_bp]} 100 1000.

Definition ex_act (acct : Z) (name : string) (d : action_data) : chain_env * action :=
  (ex_ce, Action acct (N_ name) [(ex_voter, active)] d).

(** The voter freezes 200 tokens more, delegates 2, undelegates 30 and pays 1 to a bp. *)
Definition ex_acts : list (chain_env * action) := [
  ex_act sys_acct "freeze" (freeze_args ex_voter (Asset 7000000 CORE_SYMBOL));
  ex_act sys_acct "delegatebw" (delegatebw_args ex_voter ex_bp (Asset 10000 CORE_SYMBOL)
    (Asset 10000 CORE_SYMBOL) false);
  ex_act sys_acct "undelegatebw" (undelegatebw_args ex_voter ex_voter (Asset 300000 CORE_SYMBOL)
    (Asset 0 CORE_SYMBOL));
  ex_act config.token_account_name "transfer" (transfer_args ex_voter ex_bp
    (Asset 10000 CORE_SYMBOL) "rent")].

Definition ex_world' : world :=
  match run_all inherited 3 1 ex_world ex_acts with Ok w => w | Err _ => ex_world end.

Lemma ex_ledger_inv : Token.inv ex_ledger.
Proof.
  unfold ex_ledger. split.
  - constructor.
    + eexists. split; [apply lookup_singleton_eq|done].
    + intros k st H. Token.tsimp; rows_of H. by vm_compute.
    + intros o k b H. Token.tsimp; rows_of H; (split; [by vm_compute|]); eexists;
        (split; [apply lookup_singleton_eq|done]).
    + intros o k c H. Token.tsimp; rows_of H.
  - intros k st H. Token.tsimp; rows_of H. by vm_compute.
Qed.

Lemma ex_world_covered : covered 0 ex_world.
Proof.
  split; [split; [exact ex_ledger_inv| |exact ex_bw_inv]|by vm_compute].
  destruct ex_stake_inv. by split.
Qed.

Lemma ex_acts_typed : Forall (fun x => act_typed (snd x) /\ foreign (snd x)) ex_acts.
Proof.
  repeat constructor; try (by intros c [=] || by intros c Hc); cbn; intros c _ [= <-].
  - cbn. arange. lia.
  - by split; apply coin_small.
  - by split; apply coin_small.
  - by apply Token.typed_small.
Qed.

Lemma solvency_witness : covered 0 ex_world' /\ sys_balance ex_world' = 11020000.
Proof.
  split; [|by vm_compute].
  apply (solvency inherited 3 1 ex_world ex_world' ex_acts inherited_not_delegated);
    [exact ex_world_covered|exact ex_acts_typed|by vm_compute].
Defined.
