(* ===== verification/Authority.v ===== *)
(** * Authorities and the authority checker.

    [authority.hpp] and [authority_checker.hpp] of the chain library: weighted
    thresholds of keys, of permissions of other accounts and of delays, their
    validity, and the recursive check whether the provided keys, permissions and
    delay satisfy an authority.  The type of the public keys, and its order, belong
    to a library and are parameters. *)
From stdpp Require Import base gmap list sorting.
From Stdlib Require Import ZArith Lia.
From S2P Require Import Prelude Runtime.

Open Scope Z_scope.

Section authority.
Context {key : Type} `{!EqDecision key} (key_lt : key -> key -> bool).

Record permission_level_weight := PermissionLevelWeight {
  plw_permission : permission_level;
  plw_weight : Z;
}.

Record key_weight := KeyWeight {
  kw_key : key;
  kw_weight : Z;
}.

Record wait_weight := WaitWeight {
  ww_wait_sec : Z;
  ww_weight : Z;
}.

Record authority := Authority {
  threshold : Z;
  keys : list key_weight;
  accounts : list permission_level_weight;
  waits : list wait_weight;
}.

(** ** [validate]. *)

(** One of its loops: the entries are in strictly ascending order; adds up the
    weights in 32 bits. *)
Fixpoint tally_sorted {A} (before : A -> A -> bool) (weight : A -> Z) (prev : option A)
    (l : list A) (total_weight : Z) : option Z :=
  match l with
  | [] => Some total_weight
  | x :: l =>
      if match prev with Some p => negb (before p x) | None => false end then None
      else tally_sorted before weight (Some x) l (u32 (total_weight + weight x))
  end.

(** The lexicographic order of [permission_level]. *)
Definition permission_lt (a b : permission_level) : bool :=
  (fst a <? fst b) || ((fst a =? fst b) && (snd a <? snd b)).

Definition key_before (a b : key_weight) : bool := key_lt (kw_key a) (kw_key b).
Definition account_before (a b : permission_level_weight) : bool :=
  permission_lt (plw_permission a) (plw_permission b).
Definition wait_before (a b : wait_weight) : bool := ww_wait_sec a <? ww_wait_sec b.

Definition factor_count (auth : authority) : Z :=
  Z.of_nat (length (keys auth) + length (accounts auth) + length (waits auth)).

Definition validate (auth : authority) : bool :=
  if 2 ^ 16 <? factor_count auth then false else
  if threshold auth =? 0 then false else
  match tally_sorted key_before kw_weight None (keys auth) 0 with
  | None => false
  | Some total_weight =>
      match tally_sorted account_before plw_weight None (accounts auth) total_weight with
      | None => false
      | Some total_weight =>
          if match waits auth with w :: _ => ww_wait_sec w =? 0 | [] => false end then false else
          match tally_sorted wait_before ww_weight None (waits auth) total_weight with
          | None => false
          | Some total_weight => threshold auth <=? total_weight
          end
      end
  end.

(** ** The factors of an authority, heaviest first. *)

Inductive meta_permission : Type :=
| MPermission (p : permission_level_weight)
| MKey (k : key_weight)
| MWait (w : wait_weight).

Definition mp_weight (m : meta_permission) : Z :=
  match m with
  | MPermission p => plw_weight p
  | MKey k => kw_weight k
  | MWait w => ww_weight w
  end.

(** The alternative of the variant. *)
Definition mp_which (m : meta_permission) : Z :=
  match m with MPermission _ => 0 | MKey _ => 1 | MWait _ => 2 end.

(** [meta_permission_comparator]. *)
Definition mp_before (lhs rhs : meta_permission) : bool :=
  (mp_weight rhs <? mp_weight lhs)
  || ((mp_weight lhs =? mp_weight rhs) && (mp_which rhs <? mp_which lhs)).

(** [flat_multiset::insert]: after the equivalent elements. *)
Fixpoint mp_insert (x : meta_permission) (l : list meta_permission) : list meta_permission :=
  match l with
  | [] => [x]
  | y :: l' => if mp_before x y then x :: l else y :: mp_insert x l'
  end.

Definition factors (auth : authority) : list meta_permission :=
  map MWait (waits auth) ++ map MKey (keys auth) ++ map MPermission (accounts auth).

Definition meta_permissions (auth : authority) : list meta_permission :=
  fold_left (fun l x => mp_insert x l) (factors auth) [].

(** ** The checker. *)

Inductive permission_cache_status : Type :=
| being_evaluated
| permission_unsatisfied
| permission_satisfied.

Abbreviation permission_cache := (gmap permission_level permission_cache_status) (only parsing).

(** The entry of the level, or else the one of the actor with the empty permission. *)
Definition permission_status_in_cache (permissions : permission_cache) (level : permission_level)
  : option permission_cache_status :=
  match permissions !! level with
  | Some s => Some s
  | None => permissions !! (fst level, 0)
  end.

(** What a check changes: the cache of one call, and the marks of the keys. *)
Record checker := Checker {
  cached : permission_cache;
  used_keys : list bool;
}.

Section checker.
Context (permission_to_authority : permission_level -> option authority).
Context (provided_keys : list key).
Context (provided_permissions : list permission_level).
(** In microseconds. *)
Context (provided_delay : Z).

(** [weight_tally_visitor]; [rec] is the check of an authority one level deeper,
    which there is none of at the limit of the recursion depth.  An unknown
    permission is skipped: the query exception is caught. *)
Definition visit (rec : option (authority -> checker -> bool * checker)) (total_weight : Z)
    (m : meta_permission) (c : checker) : Z * checker :=
  match m with
  | MWait w =>
      if ww_wait_sec w * 1000000 <=? provided_delay
      then (u32 (total_weight + ww_weight w), c) else (total_weight, c)
  | MKey k =>
      match list_find (fun x => x = kw_key k) provided_keys with
      | Some (i, _) =>
          (u32 (total_weight + kw_weight k), Checker (cached c) (<[i := true]> (used_keys c)))
      | None => (total_weight, c)
      end
  | MPermission p =>
      match permission_status_in_cache (cached c) (plw_permission p) with
      | None =>
          match rec, permission_to_authority (plw_permission p) with
          | Some satisfied, Some auth =>
              let c := Checker (<[plw_permission p := being_evaluated]> (cached c)) (used_keys c) in
              let '(r, c) := satisfied auth c in
              if r : bool then
                (u32 (total_weight + plw_weight p),
                 Checker (<[plw_permission p := permission_satisfied]> (cached c)) (used_keys c))
              else
                (total_weight,
                 Checker (<[plw_permission p := permission_unsatisfied]> (cached c)) (used_keys c))
          | _, _ => (total_weight, c)
          end
      | Some permission_satisfied => (u32 (total_weight + plw_weight p), c)
      | Some _ => (total_weight, c)
      end
  end.

(** The loop over the factors, which stops once the threshold is reached. *)
Fixpoint tally (rec : option (authority -> checker -> bool * checker)) (threshold : Z)
    (l : list meta_permission) (total_weight : Z) (c : checker) : bool * checker :=
  match l with
  | [] => (false, c)
  | m :: l =>
      let '(total_weight, c) := visit rec total_weight m c in
      if threshold <=? total_weight then (true, c) else tally rec threshold l total_weight c
  end.

(** The check of an authority; [n] is how deep the recursion may still go.  The keys
    used on the way are released again when the authority is not satisfied. *)
Fixpoint satisfied_at (n : nat) (auth : authority) (c : checker) : bool * checker :=
  let '(r, c') := tally (match n with O => None | S n' => Some (satisfied_at n') end)
                    (threshold auth) (meta_permissions auth) 0 c in
  if r then (true, c') else (false, Checker (cached c') (used_keys c)).

Definition rec_at (n : nat) : option (authority -> checker -> bool * checker) :=
  match n with O => None | S n' => Some (satisfied_at n') end.

Definition initialize_permission_cache : permission_cache :=
  fold_left (fun c p => <[p := permission_satisfied]> c) provided_permissions ∅.

(** [satisfied( permission )]: the result and the marks of the keys. *)
Definition satisfied (recursion_depth_limit : nat) (permission : permission_level)
    (used : list bool) : bool * list bool :=
  let '(t, c) := visit (rec_at recursion_depth_limit) 0
                   (MPermission (PermissionLevelWeight permission 1))
                   (Checker initialize_permission_cache used) in
  (0 <? t, used_keys c).

Definition all_keys_used (used : list bool) : bool := forallb id used.

(** [filter_data_by_marker( provided_keys, _used_keys, marker )]. *)
Definition keys_marked (marker : bool) (used : list bool) : list key :=
  map fst (List.filter (fun x => eqb (snd x) marker) (combine provided_keys used)).
End checker.
End authority.

(** ** Validity. *)

(** Weights have 16 bits, thresholds 32. *)
Definition sum_of {A} (f : A -> Z) (l : list A) : Z := foldr (fun x acc => f x + acc) 0 l.

Lemma sum_of_app {A} (f : A -> Z) l1 l2 : sum_of f (l1 ++ l2) = sum_of f l1 + sum_of f l2.
Proof. induction l1 as [|x l1 IH]; simpl; [done|]. rewrite IH. lia. Qed.

Lemma sum_of_perm {A} (f : A -> Z) l1 l2 : l1 ≡ₚ l2 -> sum_of f l1 = sum_of f l2.
Proof. induction 1; simpl; lia. Qed.

Lemma sum_of_map {A B} (f : B -> Z) (g : A -> B) l : sum_of f (map g l) = sum_of (fun x => f (g x)) l.
Proof. induction l as [|x l IH]; simpl; [done|]. by rewrite IH. Qed.

Lemma sum_of_range {A} (f : A -> Z) n l :
  Forall (fun x => 0 <= f x <= n) l -> 0 <= sum_of f l <= n * Z.of_nat (length l).
Proof. induction 1; cbn [sum_of foldr length] in *; unfold sum_of in *; lia. Qed.

Lemma sum_of_submseteq {A} (f : A -> Z) l1 l2 :
  Forall (fun x => 0 <= f x) l2 -> l1 ⊆+ l2 -> sum_of f l1 <= sum_of f l2.
Proof.
  intros Hf [k Hk]%submseteq_Permutation. rewrite (sum_of_perm _ _ _ Hk), sum_of_app.
  rewrite Hk in Hf. apply Forall_app in Hf as [_ Hf].
  assert (0 <= sum_of f k); [|lia]. clear Hk. induction Hf; cbn [sum_of foldr]; unfold sum_of in *; lia.
Qed.

(** Consecutive entries are in order. *)
Definition ascending {A} (before : A -> A -> bool) : list A -> Prop :=
  Sorted (fun x y => before x y = true).

(** The loop accepts the entries in order, after the previous one, and adds exactly. *)
Lemma tally_sorted_spec {A} (before : A -> A -> bool) weight (l : list A) : forall prev total r,
  Forall (fun x => 0 <= weight x < 2 ^ 16) l ->
  0 <= total < 2 ^ 32 -> total + 65535 * Z.of_nat (length l) < 2 ^ 32 ->
  tally_sorted before weight prev l total = Some r <->
  ascending before (option_list prev ++ l) /\ r = total + sum_of weight l.
Proof.
  unfold ascending. induction l as [|x l IH]; intros prev total r Hw Ht Hlen; cbn [tally_sorted].
  - cbn [sum_of foldr]. rewrite app_nil_r. split.
    + intros [= ->]. split; [destruct prev; repeat constructor|lia].
    + intros [_ ->]. f_equal. lia.
  - apply Forall_cons in Hw as [Hx Hw]. cbn [length] in Hlen.
    assert (Hrec : tally_sorted before weight (Some x) l (u32 (total + weight x)) = Some r <->
      ascending before (x :: l) /\ r = total + (weight x + sum_of weight l)).
    { rewrite wrapU_small by (width_norm; lia). unfold ascending. rewrite (IH (Some x)); [|done|lia|lia].
      cbn [option_list app]. split; intros [? ->]; (split; [done|lia]). }
    cbn [sum_of foldr]. destruct prev as [p|]; cbn [option_list app]; [|exact Hrec].
    destruct (before p x) eqn:Hp; cbn [negb].
    + rewrite Hrec. unfold ascending. split; intros [Hs ->]; (split; [|done]).
      * constructor; [done|]. by constructor.
      * by inversion Hs.
    + split; [done|]. intros [Hs _]. inversion Hs as [|? ? _ Hh]; subst. inversion Hh; congruence.
Qed.

Section validity.
Context {key : Type} `{!EqDecision key} (key_lt : key -> key -> bool).
Implicit Types (auth : authority (key := key)).

Definition authority_typed auth : Prop :=
  Forall (fun k => 0 <= kw_weight k < 2 ^ 16) (keys auth) /\
  Forall (fun p => 0 <= plw_weight p < 2 ^ 16) (accounts auth) /\
  Forall (fun w => 0 <= ww_weight w < 2 ^ 16 /\ 0 <= ww_wait_sec w) (waits auth) /\
  0 <= threshold auth < 2 ^ 32.

(** All the weight an authority has. *)
Definition total_weight_of auth : Z := sum_of mp_weight (factors auth).

Lemma total_weight_parts auth :
  total_weight_of auth =
  sum_of ww_weight (waits auth) + sum_of kw_weight (keys auth) + sum_of plw_weight (accounts auth).
Proof. unfold total_weight_of, factors. rewrite !sum_of_app, !sum_of_map. unfold sum_of. simpl. lia. Qed.

Definition well_formed auth : Prop :=
  factor_count auth <= 2 ^ 16 /\ 0 < threshold auth <= total_weight_of auth /\
  ascending (key_before key_lt) (keys auth) /\ ascending account_before (accounts auth) /\
  ascending wait_before (waits auth) /\ Forall (fun w => 0 < ww_wait_sec w) (waits auth).

Lemma waits_positive (l : list wait_weight) :
  Forall (fun w => 0 <= ww_weight w < 2 ^ 16 /\ 0 <= ww_wait_sec w) l -> ascending wait_before l ->
  match l with w :: _ => ww_wait_sec w =? 0 | [] => false end = false <->
  Forall (fun w => 0 < ww_wait_sec w) l.
Proof.
  intros Hty Hs. destruct l as [|w l]; [by split|].
  rewrite Z.eqb_neq. split; [|by intros [? _]%Forall_cons; lia].
  intros Hne. apply Sorted_StronglySorted in Hs; [|intros x y z; cbv beta; unfold wait_before; lia].
  apply Forall_cons in Hty as [[_ ?] _]. inversion Hs as [|? ? _ Hall]; subst.
  constructor; [lia|]. eapply Forall_impl; [exact Hall|]. unfold wait_before. intros; simpl in *. lia.
Qed.

Lemma sum_of_lengths {A} (f : A -> Z) l :
  Forall (fun x => 0 <= f x < 2 ^ 16) l -> 0 <= sum_of f l <= 65535 * Z.of_nat (length l).
Proof. intros H. apply sum_of_range. eapply Forall_impl; [exact H|]. cbv beta. intros; lia. Qed.

(** An authority is accepted exactly when it has at most 65536 factors, its keys,
    accounts and delays are in strictly ascending order without a zero delay, and
    its positive threshold can be reached by all its weights. *)
Theorem validate_iff auth (Hty : authority_typed auth) :
  validate key_lt auth = true <-> well_formed auth.
Proof.
  destruct Hty as (Hk & Ha & Hw & Ht). unfold validate, well_formed. rewrite total_weight_parts.
  assert (Hw' : Forall (fun w => 0 <= ww_weight w < 2 ^ 16) (waits auth))
    by (eapply Forall_impl; [exact Hw|]; by intros ? []).
  pose proof (sum_of_lengths _ _ Hk) as Sk. pose proof (sum_of_lengths _ _ Ha) as Sa.
  destruct (Z.ltb_spec (2 ^ 16) (factor_count auth)) as [Hc|Hc]; [split; [done|lia]|].
  unfold factor_count in *. destruct (Z.eqb_spec (threshold auth) 0); [split; [done|lia]|].
  pose proof (fun r => tally_sorted_spec (key_before key_lt) _ _ None 0 r Hk ltac:(lia) ltac:(lia)) as Ek.
  pose proof (fun r => tally_sorted_spec account_before _ _ None (sum_of kw_weight (keys auth)) r
                Ha ltac:(lia) ltac:(lia)) as Ea.
  pose proof (fun r => tally_sorted_spec wait_before _ _ None
                (sum_of kw_weight (keys auth) + sum_of plw_weight (accounts auth)) r
                Hw' ltac:(lia) ltac:(lia)) as Ew.
  cbn [option_list app] in Ek, Ea, Ew. rewrite Z.add_0_l in Ek. split.
  - destruct (tally_sorted (key_before key_lt) _ _ _ _) as [tk|]; [|done].
    destruct (proj1 (Ek _) eq_refl) as [Hsk ->].
    destruct (tally_sorted account_before _ _ _ _) as [ta|]; [|done].
    destruct (proj1 (Ea _) eq_refl) as [Hsa ->].
    destruct (match waits auth with [] => _ | _ => _ end) eqn:Hz; [done|].
    destruct (tally_sorted wait_before _ _ _ _) as [tw|]; [|done].
    destruct (proj1 (Ew _) eq_refl) as [Hsw ->].
    intros Hle%Z.leb_le. split_and!; [lia|lia|lia|done..|]. by apply waits_positive.
  - intros (_ & [_ Hle] & Hsk & Hsa & Hsw & Hpos).
    rewrite (proj2 (Ek _) (conj Hsk eq_refl)), (proj2 (Ea _) (conj Hsa eq_refl)),
      (proj2 (waits_positive _ Hw Hsw) Hpos), (proj2 (Ew _) (conj Hsw eq_refl)). lia.
Qed.
End validity.

(** ** What it means that a permission is granted.

    The meaning of authorities without cache, order or depth: a permission is granted
    when it is provided, or when some of the factors of its authority that hold add
    up to the threshold. *)
Section meaning.
Context {key : Type} `{!EqDecision key} (key_lt : key -> key -> bool).
Context (permission_to_authority : permission_level -> option (authority (key := key))).
Context (provided_keys : list key) (provided_permissions : list permission_level).
Context (provided_delay : Z).

Inductive granted : permission_level -> Prop :=
| granted_provided p :
    p ∈ provided_permissions \/ (fst p, 0) ∈ provided_permissions -> granted p
| granted_authority p auth l :
    permission_to_authority p = Some auth ->
    l ⊆+ factors auth ->
    (forall w, MWait w ∈ l -> ww_wait_sec w * 1000000 <= provided_delay) ->
    (forall k, MKey k ∈ l -> kw_key k ∈ provided_keys) ->
    (forall q, MPermission q ∈ l -> granted (plw_permission q)) ->
    threshold auth <= sum_of mp_weight l ->
    granted p.

(** A factor holds. *)
Definition holds (m : meta_permission (key := key)) : Prop :=
  match m with
  | MWait w => ww_wait_sec w * 1000000 <= provided_delay
  | MKey k => kw_key k ∈ provided_keys
  | MPermission q => granted (plw_permission q)
  end.

Lemma granted_by p auth l :
  permission_to_authority p = Some auth -> l ⊆+ factors auth -> Forall holds l ->
  threshold auth <= sum_of mp_weight l -> granted p.
Proof.
  intros Hp Hl Hh Ht. rewrite Forall_forall in Hh.
  eapply granted_authority; [exact Hp|exact Hl|..|exact Ht]; intros x Hx; exact (Hh _ Hx).
Qed.

Lemma granted_inv p :
  granted p ->
  (p ∈ provided_permissions \/ (fst p, 0) ∈ provided_permissions) \/
  exists auth l, permission_to_authority p = Some auth /\ l ⊆+ factors auth /\ Forall holds l /\
    threshold auth <= sum_of mp_weight l.
Proof.
  intros [? ?|? auth l Hp Hl Hw Hk Hq Ht]; [by left|]. right. exists auth, l.
  split_and!; [done|done| |done]. apply Forall_forall. intros [q|k|w] Hx; simpl; auto.
Qed.

(** *** The order of the factors does not matter. *)

Lemma mp_insert_perm (x : meta_permission (key := key)) l : mp_insert x l ≡ₚ x :: l.
Proof.
  induction l as [|y l IH]; simpl; [done|]. destruct (mp_before x y); [done|].
  rewrite IH. apply perm_swap.
Qed.

Lemma meta_permissions_perm (auth : authority (key := key)) :
  meta_permissions auth ≡ₚ factors auth.
Proof.
  unfold meta_permissions. rewrite <- (app_nil_r (factors auth)) at 2. generalize (@nil (meta_permission (key := key))).
  induction (factors auth) as [|x l IH]; intros acc; simpl; [done|].
  rewrite IH, mp_insert_perm. by rewrite Permutation_middle.
Qed.

(** *** Only provided and granted permissions are cached as satisfied. *)

Definition cache_sound (c : checker) : Prop :=
  forall p, cached c !! p = Some permission_satisfied -> granted p.

(** The empty permission is in the cache only as a provided one. *)
Definition cache_named (c : checker) : Prop :=
  forall a s, cached c !! (a, 0) = Some s -> (a, 0) ∈ provided_permissions.

Definition known (c : checker) : Prop := cache_sound c /\ cache_named c.

Lemma status_satisfied c p :
  known c -> permission_status_in_cache (cached c) p = Some permission_satisfied -> granted p.
Proof.
  intros [Hs Hn] H. unfold permission_status_in_cache in H.
  destruct (cached c !! p) as [x|] eqn:Hp; [simplify_eq; by apply Hs|].
  apply granted_provided. right. by eapply Hn.
Qed.

Lemma known_insert c p x used :
  known c -> snd p <> 0 -> (x = permission_satisfied -> granted p) ->
  known (Checker (<[p := x]> (cached c)) used).
Proof.
  intros [Hs Hn] Hp Hx. split.
  - intros q Hq. cbn [cached] in Hq. apply lookup_insert_Some in Hq as [[<- ->]|[_ Hq]]; eauto.
  - intros a y Hq. cbn [cached] in Hq.
    apply lookup_insert_Some in Hq as [[-> _]|[_ Hq]]; [done|]. by eapply Hn.
Qed.

Lemma known_used c used : known c -> known (Checker (cached c) used).
Proof. done. Qed.

Section soundness.
Hypothesis Hnamed : forall a, permission_to_authority (a, 0) = None.
Hypothesis Htyped : forall p auth, permission_to_authority p = Some auth -> authority_typed auth.

Lemma Hnamed_snd p auth : permission_to_authority p = Some auth -> snd p <> 0.
Proof. intros H E. destruct p as [a x]. simpl in E. subst x. by rewrite Hnamed in H. Qed.

(** Enough factors of an authority hold. *)
Definition enough (auth : authority (key := key)) : Prop :=
  exists l, l ⊆+ factors auth /\ Forall holds l /\ threshold auth <= sum_of mp_weight l.

Definition sound_rec (rec : option (authority (key := key) -> checker -> bool * checker)) : Prop :=
  forall f auth c b c', rec = Some f -> f auth c = (b, c') -> authority_typed auth -> known c ->
    known c' /\ (b = true -> enough auth).

Abbreviation visit' := (visit permission_to_authority provided_keys provided_delay).
Abbreviation tally' := (tally permission_to_authority provided_keys provided_delay).

Lemma u32_le z : 0 <= z -> 0 <= u32 z <= z.
Proof. intros Hz. unfold wrapU. width_norm. split; [apply Z.mod_pos_bound; lia|apply Z.mod_le; lia]. Qed.

Lemma visit_sound rec t m c t' c' :
  sound_rec rec -> 0 <= t -> 0 <= mp_weight m -> known c -> visit' rec t m c = (t', c') ->
  known c' /\ 0 <= t' /\ (t' <= t \/ holds m /\ t' <= t + mp_weight m).
Proof.
  intros Hrec Ht Hw Hc H. destruct m as [p|k|w]; cbn [visit mp_weight holds] in *.
  - pose proof (u32_le (t + plw_weight p) ltac:(lia)).
    destruct (permission_status_in_cache _ _) as [[]|] eqn:Hst; simplify_eq.
    1, 2: split_and!; [done|lia|left; lia].
    + split_and!; [done|lia|right]. split; [by eapply status_satisfied|lia].
    + destruct rec as [f|]; [|simplify_eq; split_and!; [done|lia|left; lia]].
      destruct (permission_to_authority (plw_permission p)) as [auth|] eqn:Hp;
        [|simplify_eq; split_and!; [done|lia|left; lia]].
      pose proof (Hnamed_snd _ _ Hp) as Hne.
      destruct (f auth _) as [b c1] eqn:Hf.
      destruct (Hrec f auth _ _ _ eq_refl Hf) as [Hk Hb];
        [by eapply Htyped|apply known_insert; [done|done|done]|].
      destruct b; simplify_eq.
      * destruct (Hb eq_refl) as (l & Hl & Hh & Hle).
        assert (granted (plw_permission p)) by by eapply granted_by.
        split_and!; [by apply known_insert|lia|]. right. split; [done|lia].
      * split_and!; [by apply known_insert|lia|left; lia].
  - pose proof (u32_le (t + kw_weight k) ltac:(lia)).
    destruct (list_find _ _) as [[i x]|] eqn:Hk; simplify_eq; (split_and!; [done|lia|]); [|left; lia].
    right. split; [|lia]. apply list_find_Some in Hk as (Hi & <- & _).
    by eapply list_elem_of_lookup_2.
  - pose proof (u32_le (t + ww_weight w) ltac:(lia)).
    destruct (Z.leb_spec (ww_wait_sec w * 1000000) provided_delay); simplify_eq;
      (split_and!; [done|lia|]); [right; split; [done|lia]|left; lia].
Qed.

(** The weight so far is that of factors that hold. *)
Lemma tally_sound rec thr l : forall done_ lh t c b c',
  sound_rec rec -> 0 <= t -> Forall (fun m => 0 <= mp_weight m) l -> known c ->
  lh ⊆+ done_ -> Forall holds lh -> t <= sum_of mp_weight lh ->
  tally' rec thr l t c = (b, c') ->
  known c' /\ (b = true -> exists l', l' ⊆+ done_ ++ l /\ Forall holds l' /\
                                      thr <= sum_of mp_weight l').
Proof.
  induction l as [|m l IH]; intros done_ lh t c b c' Hrec Ht Hw Hc Hlh Hh Hle H;
    cbn [tally] in H; [by simplify_eq|].
  apply Forall_cons in Hw as [Hm Hw]. destruct (visit' rec t m c) as [t1 c1] eqn:Hv.
  apply visit_sound in Hv as (Hc1 & Ht1 & Hcase); [|done..].
  assert (exists lh', lh' ⊆+ done_ ++ [m] /\ Forall holds lh' /\ t1 <= sum_of mp_weight lh')
    as (lh' & Hlh' & Hh' & Hle').
  { destruct Hcase as [?|[Hhm ?]].
    - exists lh. split_and!; [|done|lia]. by apply submseteq_inserts_r.
    - exists (lh ++ [m]). split_and!; [by apply submseteq_app|by apply Forall_app; split; [|constructor]|].
      rewrite sum_of_app. cbn [sum_of foldr]. lia. }
  destruct (Z.leb_spec thr t1).
  - simplify_eq. split; [done|]. intros _. exists lh'. split_and!; [|done|lia].
    rewrite (cons_middle m done_ l), app_assoc. by apply submseteq_inserts_r.
  - eapply (IH (done_ ++ [m])) in H; [|done..]. by rewrite <- app_assoc in H.
Qed.

Lemma factors_nonneg (auth : authority (key := key)) :
  authority_typed auth -> Forall (fun m => 0 <= mp_weight m) (factors auth).
Proof.
  intros (Hk & Ha & Hw & _). unfold factors. rewrite !Forall_app, !Forall_fmap.
  split_and!; eapply Forall_impl; eauto; simpl; intros; lia.
Qed.

Lemma satisfied_at_eq n auth c :
  satisfied_at permission_to_authority provided_keys provided_delay n auth c =
  let '(r, c') := tally' (rec_at permission_to_authority provided_keys provided_delay n)
                    (threshold auth) (meta_permissions auth) 0 c in
  if r then (true, c') else (false, Checker (cached c') (used_keys c)).
Proof. by destruct n. Qed.

Lemma satisfied_at_sound n :
  sound_rec (rec_at permission_to_authority provided_keys provided_delay n).
Proof.
  induction n as [|n IH]; intros f auth c b c' Hf H Hty Hc; [done|].
  injection Hf as <-. rewrite satisfied_at_eq in H.
  destruct (tally' _ _ _ _ _) as [r c1] eqn:Ht.
  eapply (tally_sound _ _ _ [] [] 0) in Ht as [Hk Hb]; [|done|lia| |done|done|by constructor|done].
  2: { rewrite meta_permissions_perm. by apply factors_nonneg. }
  destruct r; simplify_eq; (split; [done|]); [|done]. intros _.
  destruct (Hb eq_refl) as (l & Hl & Hh & Hle). exists l. split_and!; [|done|done].
  by rewrite <- meta_permissions_perm.
Qed.

Lemma initialize_lookup (p : permission_level) s :
  initialize_permission_cache provided_permissions !! p = Some s <->
  p ∈ provided_permissions /\ s = permission_satisfied.
Proof.
  unfold initialize_permission_cache.
  assert (H : forall l (m : gmap permission_level permission_cache_status),
    fold_left (fun c q => <[q := permission_satisfied]> c) l m !! p = Some s <->
    (p ∈ l /\ s = permission_satisfied) \/ (~ p ∈ l /\ m !! p = Some s)).
  { induction l as [|q l IH]; intros m; simpl.
    - rewrite elem_of_nil. naive_solver.
    - rewrite IH, lookup_insert_Some, elem_of_cons.
      destruct (decide (p ∈ l)), (decide (p = q)); naive_solver. }
  rewrite H, lookup_empty. naive_solver.
Qed.

Lemma initialize_known used :
  known (Checker (initialize_permission_cache provided_permissions) used).
Proof.
  split; intros ? * [? _]%initialize_lookup; [apply granted_provided; by left|done].
Qed.

Lemma satisfied_sound limit p used :
  fst (satisfied permission_to_authority provided_keys provided_permissions provided_delay
         limit p used) = true -> granted p.
Proof.
  unfold satisfied. destruct (visit' _ _ _ _) as [t c] eqn:Hv. cbn [fst]. intros Ht%Z.ltb_lt.
  apply visit_sound in Hv as (_ & _ & [?|[Hh _]]); [lia|done|apply satisfied_at_sound|lia|simpl; lia|].
  apply initialize_known.
Qed.
End soundness.

(** *** Completeness, where the permissions do not depend on themselves.

    [rank] bounds how deep the accounts of an authority go: a permission that is
    being evaluated is never met again, and the depth limit is not reached. *)
Section completeness.
Hypothesis Hnamed : forall a, permission_to_authority (a, 0) = None.
Hypothesis Htyped : forall p auth, permission_to_authority p = Some auth -> authority_typed auth.
Hypothesis Hvalid : forall p auth, permission_to_authority p = Some auth ->
  validate key_lt auth = true.
Context (rank : permission_level -> nat).
Hypothesis Hrank : forall p auth q, permission_to_authority p = Some auth ->
  q ∈ accounts auth -> (rank (plw_permission q) < rank p)%nat.

(** The cache tells the truth about what it has decided, and what is being evaluated
    has at least rank [n]. *)
Definition exact (n : nat) (c : checker) : Prop :=
  known c /\
  (forall p, cached c !! p = Some permission_unsatisfied -> ~ granted p) /\
  (forall p, cached c !! p = Some being_evaluated -> (n <= rank p)%nat) /\
  (forall p, p ∈ provided_permissions -> cached c !! p = Some permission_satisfied).

(** All factors of these that are permissions have a smaller rank. *)
Definition below (n : nat) (l : list (meta_permission (key := key))) : Prop :=
  forall q, MPermission q ∈ l -> (rank (plw_permission q) < n)%nat.

Lemma exact_weaken n m c : (m <= n)%nat -> exact n c -> exact m c.
Proof. intros Hle (? & ? & Hb & ?). split_and!; try done. intros p Hp. apply Hb in Hp. lia. Qed.

Definition no_new_pending (c c' : checker) : Prop :=
  forall q, cached c' !! q = Some being_evaluated -> cached c !! q = Some being_evaluated.

Definition exact_rec (d : nat) (rec : option (authority (key := key) -> checker -> bool * checker))
  : Prop :=
  forall p auth c, permission_to_authority p = Some auth -> (rank p < d)%nat ->
    exact (rank p) c ->
    exists f b c', rec = Some f /\ f auth c = (b, c') /\ exact (rank p) c' /\
      no_new_pending c c' /\ (b = true <-> enough auth).

(** What a permission that is not in the cache depends on. *)
Lemma status_exact n c p :
  exact n c -> (rank p < n)%nat ->
  match permission_status_in_cache (cached c) p with
  | Some being_evaluated => False
  | Some permission_unsatisfied => ~ granted p
  | Some permission_satisfied => granted p
  | None => cached c !! p = None /\ ~ p ∈ provided_permissions /\
            ~ (fst p, 0) ∈ provided_permissions
  end.
Proof.
  intros (Hk & Hu & Hb & Hp) Hr. pose proof (status_satisfied c p Hk) as Hs.
  unfold permission_status_in_cache in *. destruct (cached c !! p) as [[]|] eqn:Hc.
  - apply Hb in Hc. lia.
  - by apply Hu.
  - by apply Hs.
  - destruct (cached c !! (fst p, 0)) as [x|] eqn:Hw.
    + apply Hk in Hw as Hin. rewrite (Hp _ Hin) in Hw. injection Hw as <-. by apply Hs.
    + split_and!; [done|..]; intros Hin%Hp; congruence.
Qed.

Lemma exact_insert n c p x used :
  exact n c -> snd p <> 0 -> ~ p ∈ provided_permissions ->
  (x = permission_satisfied -> granted p) -> (x = permission_unsatisfied -> ~ granted p) ->
  (x = being_evaluated -> (n <= rank p)%nat) ->
  exact n (Checker (<[p := x]> (cached c)) used).
Proof.
  intros (Hk & Hu & Hb & Hp) Hne Hnp Hs Hun Hpe. unfold exact. split_and!; [by apply known_insert|..];
    cbn [cached].
  - intros q Hq. apply lookup_insert_Some in Hq as [[<- ->]|[_ Hq]]; auto.
  - intros q Hq. apply lookup_insert_Some in Hq as [[<- ->]|[_ Hq]]; auto.
  - intros q Hq. rewrite lookup_insert_ne; [auto|]. by intros ->.
Qed.

(** A permission that is neither provided nor known is not granted. *)
Lemma not_granted p :
  ~ p ∈ provided_permissions -> ~ (fst p, 0) ∈ provided_permissions ->
  (forall auth, permission_to_authority p = Some auth -> ~ enough auth) -> ~ granted p.
Proof.
  intros H1 H2 H3 [[?|?]|(auth & l & Hp & Hl & Hh & Ht)]%granted_inv; [done|done|].
  eapply H3; [exact Hp|]. by exists l.
Qed.

Lemma exact_pending n m c :
  exact m c -> (forall p, cached c !! p = Some being_evaluated -> (n <= rank p)%nat) -> exact n c.
Proof. intros (? & ? & _ & ?) Hb. by split_and!. Qed.

(** A factor that holds is counted. *)
Lemma visit_exact d n rec t m c t' c' :
  exact_rec d rec -> exact n c -> below n [m] -> below d [m] ->
  0 <= t -> 0 <= mp_weight m -> t + mp_weight m < 2 ^ 32 ->
  visit permission_to_authority provided_keys provided_delay rec t m c = (t', c') ->
  exact n c' /\ no_new_pending c c' /\ t <= t' <= t + mp_weight m /\
  (holds m -> t + mp_weight m <= t').
Proof.
  intros Hrec Hc Hn Hd Ht Hw Hlt H. destruct m as [p|k|w]; cbn [visit mp_weight holds] in *.
  - rewrite wrapU_small in H by (width_norm; lia).
    specialize (Hn p ltac:(by left)). specialize (Hd p ltac:(by left)).
    pose proof (status_exact n c _ Hc Hn) as Hst.
    destruct (permission_status_in_cache _ _) as [[]|]; simplify_eq.
    1, 2: by split_and!; [done|by intros ?|lia|lia|intros ?].
    1: by split_and!; [done|by intros ?|lia|lia|lia].
    destruct Hst as (Hnc & Hnp & Hnw).
    destruct (permission_to_authority (plw_permission p)) as [auth|] eqn:Hp.
    2: { assert (~ granted (plw_permission p)) by (apply not_granted; [done|done|congruence]).
         destruct rec; simplify_eq; by split_and!; [done|by intros ?|lia|lia|intros ?]. }
    assert (Hne : snd (plw_permission p) <> 0).
    { intros E. destruct (plw_permission p) as [a x]. simpl in E. subst x. by rewrite Hnamed in Hp. }
    destruct (Hrec _ _ (Checker (<[plw_permission p := being_evaluated]> (cached c)) (used_keys c)) Hp Hd)
      as (f & b & c2 & -> & Hf & Hc2 & Hpend & Hb).
    { apply exact_insert; [eapply exact_weaken; [|exact Hc]; lia|done..]. }
    rewrite Hf in H.
    assert (Hnew : forall x, x <> being_evaluated ->
      no_new_pending c (Checker (<[plw_permission p := x]> (cached c2)) (used_keys c2))).
    { intros x Hx q Hq. cbn [cached] in Hq. apply lookup_insert_Some in Hq as [[_ ?]|[Hqp Hq]]; [done|].
      apply Hpend in Hq. cbn [cached] in Hq. by rewrite lookup_insert_ne in Hq. }
    assert (Hup : forall x, x <> being_evaluated ->
      (x = permission_satisfied -> granted (plw_permission p)) ->
      (x = permission_unsatisfied -> ~ granted (plw_permission p)) ->
      exact n (Checker (<[plw_permission p := x]> (cached c2)) (used_keys c2))).
    { intros x Hx H1 H2. eapply exact_pending; [by apply exact_insert|].
      intros q Hq%Hnew; [|done]. by apply Hc in Hq. }
    destruct b; simplify_eq.
    + destruct (proj1 Hb eq_refl) as (l & Hl & Hh & Hle).
      assert (granted (plw_permission p)) by by eapply granted_by.
      split_and!; [by apply Hup|by apply Hnew|lia|lia|lia].
    + assert (~ granted (plw_permission p)).
      { apply not_granted; [done|done|]. intros auth' E He. simplify_eq. by apply Hb in He. }
      by split_and!; [apply Hup|apply Hnew|lia|lia|intros ?].
  - rewrite wrapU_small in H by (width_norm; lia).
    destruct (list_find _ _) as [[i x]|] eqn:Hk; simplify_eq.
    + by split_and!; [done|by intros ?|lia|lia|lia].
    + split_and!; [done|by intros ?|lia|lia|]. intros Hin.
      apply list_find_None in Hk. rewrite Forall_forall in Hk. by apply Hk in Hin.
  - rewrite wrapU_small in H by (width_norm; lia).
    destruct (Z.leb_spec (ww_wait_sec w * 1000000) provided_delay); simplify_eq;
      split_and!; try done; try lia; by intros ?.
Qed.

Definition fits (t : Z) (l : list (meta_permission (key := key))) : Prop :=
  Forall (fun m => 0 <= mp_weight m) l /\ 0 <= t /\ t + sum_of mp_weight l < 2 ^ 32.

(** Where the loop ends without success, no choice of factors that hold is enough. *)
Lemma tally_exact d n rec thr l : forall done_ t c b c',
  exact_rec d rec -> exact n c -> below n l -> below d l -> fits t l -> t < thr ->
  (forall lh, lh ⊆+ done_ -> Forall holds lh -> sum_of mp_weight lh <= t) ->
  tally permission_to_authority provided_keys provided_delay rec thr l t c = (b, c') ->
  exact n c' /\ no_new_pending c c' /\
  (b = false -> forall lh, lh ⊆+ l ++ done_ -> Forall holds lh -> sum_of mp_weight lh < thr).
Proof.
  induction l as [|m l IH]; intros done_ t c b c' Hrec Hc Hn Hd (Hw & Ht & Hlt) Hthr Hmax H;
    cbn [tally sum_of foldr] in *.
  { simplify_eq. split_and!; [done|by intros ?|]. intros _ lh Hlh Hh. specialize (Hmax _ Hlh Hh). lia. }
  apply Forall_cons in Hw as [Hm Hw].
  assert (Hs : 0 <= sum_of mp_weight l).
  { apply (sum_of_submseteq mp_weight []); [done|apply submseteq_nil_l]. }
  destruct (visit _ _ _ rec t m c) as [t1 c1] eqn:Hv. unfold sum_of in Hlt, Hs.
  apply (visit_exact d n) in Hv as (Hc1 & Hp1 & Ht1 & Hcount); [|try done; try lia..];
    [|intros q Hq%list_elem_of_singleton; subst m; (apply Hn || apply Hd); by left..].
  assert (Hmax1 : forall lh, lh ⊆+ m :: done_ -> Forall holds lh -> sum_of mp_weight lh <= t1).
  { intros lh [Hlh|(lh' & E & Hlh)]%submseteq_cons_r Hh; [specialize (Hmax _ Hlh Hh); lia|].
    rewrite E in Hh. apply Forall_cons in Hh as [Hhm Hh]. specialize (Hmax _ Hlh Hh).
    rewrite (sum_of_perm _ _ _ E). cbn [sum_of foldr]. unfold sum_of in Hmax.
    specialize (Hcount Hhm). lia. }
  destruct (Z.leb_spec thr t1); [by simplify_eq|].
  eapply (IH (m :: done_) t1) in H as (? & Hp & Hb);
    [|exact Hrec|exact Hc1|intros q Hq; apply Hn; by right|intros q Hq; apply Hd; by right
     |split_and!; [done|lia|unfold sum_of; lia]|lia|exact Hmax1].
  split_and!; [done|intros q Hq; by apply Hp1, Hp|]. intros -> lh Hlh. apply Hb; [done|].
  rewrite Hlh. cbn [app]. by rewrite Permutation_middle.
Qed.

Lemma authority_fits p auth : permission_to_authority p = Some auth ->
  0 < threshold auth /\ fits 0 (meta_permissions auth) /\ below (rank p) (meta_permissions auth).
Proof.
  intros Hp. pose proof (Htyped _ _ Hp) as Hty.
  destruct (proj1 (validate_iff key_lt auth Hty) (Hvalid _ _ Hp)) as (Hc & Ht & _).
  split; [lia|]. split; [split_and!|].
  - rewrite meta_permissions_perm. by apply factors_nonneg.
  - done.
  - rewrite (sum_of_perm _ _ _ (meta_permissions_perm auth)).
    destruct Hty as (Hk & Ha & Hw & _). pose proof (total_weight_parts auth) as E.
    unfold total_weight_of in E. rewrite E. unfold factor_count in Hc.
    pose proof (sum_of_lengths _ _ Hk). pose proof (sum_of_lengths _ _ Ha).
    assert (Hw' : Forall (fun w => 0 <= ww_weight w < 2 ^ 16) (waits auth))
      by (eapply Forall_impl; [exact Hw|]; by intros ? []).
    pose proof (sum_of_lengths _ _ Hw'). lia.
  - intros q Hq. rewrite meta_permissions_perm in Hq. eapply Hrank; [exact Hp|].
    unfold factors in Hq. rewrite !elem_of_app, !list_elem_of_fmap in Hq. naive_solver.
Qed.

Lemma satisfied_at_exact d :
  exact_rec d (rec_at permission_to_authority provided_keys provided_delay d).
Proof.
  induction d as [|d IH]; intros p auth c Hp Hr Hc; [lia|].
  destruct (authority_fits _ _ Hp) as (Hthr & Hfit & Hbelow).
  cbn [rec_at]. do 1 eexists. destruct (satisfied_at permission_to_authority provided_keys provided_delay d auth c) as [b c'] eqn:Hs.
  exists b, c'. split; [done|]. split; [exact Hs|].
  pose proof (satisfied_at_sound Hnamed Htyped (S d) _ _ _ _ _ eq_refl Hs (Htyped _ _ Hp) (proj1 Hc))
    as [_ Hsound].
  rewrite satisfied_at_eq in Hs. destruct (tally _ _ _ _ _ _ _ _) as [r c1] eqn:Ht.
  eapply (tally_exact d (rank p) _ _ _ [] 0) in Ht as (Hc1 & Hp1 & Hb);
    [|exact IH|exact Hc|exact Hbelow|intros q Hq; apply Hbelow in Hq; lia|exact Hfit|exact Hthr|].
  2: { intros lh ->%submseteq_nil_r _. done. }
  destruct r; simplify_eq; (split_and!; [done|done|]); (split; [by auto|]); [done|].
  intros (l & Hl & Hh & Hle). rewrite app_nil_r in Hb.
  specialize (Hb eq_refl l). rewrite meta_permissions_perm in Hb. specialize (Hb Hl Hh). lia.
Qed.

Lemma satisfied_complete limit p used :
  (rank p < limit)%nat -> granted p ->
  fst (satisfied permission_to_authority provided_keys provided_permissions provided_delay
         limit p used) = true.
Proof.
  intros Hr Hg. unfold satisfied. destruct (visit _ _ _ _ _ _ _) as [t c] eqn:Hv.
  eapply (visit_exact limit limit) in Hv as (_ & _ & _ & Hcount);
    [|apply satisfied_at_exact| |..|simpl; lia|simpl; lia|simpl; lia].
  - cbn [fst]. specialize (Hcount Hg). cbn [mp_weight plw_weight] in Hcount. lia.
  - unfold exact. cbn [cached]. split_and!; [apply initialize_known|..].
    + by intros q [_ ?]%initialize_lookup.
    + by intros q [_ ?]%initialize_lookup.
    + intros q Hq. by apply initialize_lookup.
  - intros q Hq%list_elem_of_singleton. by simplify_eq.
  - intros q Hq%list_elem_of_singleton. by simplify_eq.
Qed.
End completeness.
End meaning.

(** ** Theorems. *)
Section theorems.
Context {key : Type} `{!EqDecision key} (key_lt : key -> key -> bool).

(** No permission has the empty name, and the authorities are valid: what
    [get_permission] and the native actions see to. *)
Record permissions_ok (permission_to_authority : permission_level -> option (authority (key := key)))
  : Prop := {
  ok_named : forall a, permission_to_authority (a, 0) = None;
  ok_typed : forall p auth, permission_to_authority p = Some auth -> authority_typed auth;
  ok_valid : forall p auth, permission_to_authority p = Some auth -> validate key_lt auth = true;
}.

Theorem satisfied_only_granted
  (permission_to_authority : permission_level -> option authority) (provided_keys : list key)
  (provided_permissions : list permission_level) (provided_delay : Z) (limit : nat)
  (p : permission_level) (used : list bool)
  (Hok : permissions_ok permission_to_authority)
  (Hsat : fst (satisfied permission_to_authority provided_keys provided_permissions
                 provided_delay limit p used) = true) :
  granted permission_to_authority provided_keys provided_permissions provided_delay p.
Proof. destruct Hok. by eapply satisfied_sound. Qed.

(** Where the accounts of authorities do not form cycles and the depth limit is not
    reached, the checker with its cache accepts a permission exactly when it is
    granted: it is provided, or some of the factors of its authority that hold add
    up to the threshold. *)
Theorem satisfied_iff_granted
  (permission_to_authority : permission_level -> option authority) (provided_keys : list key)
  (provided_permissions : list permission_level) (provided_delay : Z) (limit : nat)
  (p : permission_level) (used : list bool) (rank : permission_level -> nat)
  (Hok : permissions_ok permission_to_authority)
  (Hrank : forall p auth q, permission_to_authority p = Some auth -> q ∈ accounts auth ->
     (rank (plw_permission q) < rank p)%nat)
  (Hlimit : (rank p < limit)%nat) :
  fst (satisfied permission_to_authority provided_keys provided_permissions provided_delay
         limit p used) = true <->
  granted permission_to_authority provided_keys provided_permissions provided_delay p.
Proof. destruct Hok. split; [by eapply satisfied_sound|by eapply satisfied_complete]. Qed.
End theorems.

(** ** A concrete account.

    Its permission 1 needs one of two others: permission 2, which needs both
    permissions 4 and 5, or permission 3, which needs permission 4.  Keys 1 and 2
    are those of permissions 4 and 5. *)
Definition ex_account : Z := 7.
Definition ex_key (k : Z) : authority (key := Z) := Authority 1 [KeyWeight k 1] [] [].
Definition ex_needs (t : Z) (l : list Z) : authority (key := Z) :=
  Authority t [] (map (fun x => PermissionLevelWeight (ex_account, x) 1) l) [].

Definition ex_permissions (p : permission_level) : option (authority (key := Z)) :=
  if fst p =? ex_account then
    match snd p with
    | 1 => Some (ex_needs 1 [2; 3])
    | 2 => Some (ex_needs 2 [4; 5])
    | 3 => Some (ex_needs 1 [4])
    | 4 => Some (ex_key 1)
    | 5 => Some (ex_key 2)
    | _ => None
    end
  else None.

Definition ex_rank (p : permission_level) : nat :=
  match snd p with 1 => 2%nat | 2 | 3 => 1%nat | _ => 0%nat end.

Lemma ex_permissions_cases p auth :
  ex_permissions p = Some auth ->
  p = (ex_account, 1) /\ auth = ex_needs 1 [2; 3] \/
  p = (ex_account, 2) /\ auth = ex_needs 2 [4; 5] \/
  p = (ex_account, 3) /\ auth = ex_needs 1 [4] \/
  p = (ex_account, 4) /\ auth = ex_key 1 \/
  p = (ex_account, 5) /\ auth = ex_key 2.
Proof.
  destruct p as [a x]. unfold ex_permissions. cbn [fst snd].
  destruct (Z.eqb_spec a ex_account) as [->|]; [|done].
  intros H. repeat (destruct x as [|x|x]; try done); simplify_eq; naive_solver.
Qed.

Lemma ex_permissions_ok : permissions_ok Z.ltb ex_permissions.
Proof.
  split.
  - intros a. unfold ex_permissions. by destruct (_ =? _).
  - intros p auth H. apply ex_permissions_cases in H.
    destruct H as [[_ ->]|[[_ ->]|[[_ ->]|[[_ ->]|[_ ->]]]]]; by repeat constructor.
  - intros p auth H. apply ex_permissions_cases in H.
    by destruct H as [[_ ->]|[[_ ->]|[[_ ->]|[[_ ->]|[_ ->]]]]].
Qed.

Lemma validate_iff_witness : well_formed Z.ltb (ex_needs 2 [4; 5]).
Proof. apply (validate_iff Z.ltb); [by repeat constructor|by vm_compute]. Defined.

Lemma satisfied_only_granted_witness :
  granted ex_permissions [1] [] 0 (ex_account, 1).
Proof.
  apply (satisfied_only_granted Z.ltb ex_permissions [1] [] 0 3 (ex_account, 1) [false]);
    [exact ex_permissions_ok|by vm_compute].
Defined.

Lemma satisfied_iff_granted_witness :
  ~ granted ex_permissions [2] [] 0 (ex_account, 1).
Proof.
  intros H.
  eapply (satisfied_iff_granted Z.ltb ex_permissions [2] [] 0 3 (ex_account, 1) [false] ex_rank)
    in H; [by vm_compute in H|exact ex_permissions_ok| |by vm_compute; lia].
  intros p auth q Hp Hq. apply ex_permissions_cases in Hp.
  destruct Hp as [[-> ->]|[[-> ->]|[[-> ->]|[[-> ->]|[-> ->]]]]]; simpl in Hq;
    rewrite ?elem_of_cons, ?elem_of_nil in Hq; repeat destruct Hq as [->|Hq];
    try done; cbv; lia.
Defined.

(** The keys that are marked as used need not be enough: here key 1 satisfies
    permission 1, and is not marked. *)
(** The keys the checker marks as used may miss one that is needed: a key released
    with a failed authority stays released although a permission it satisfied is
    taken from the cache later. *)
Theorem used_keys_incomplete :
  satisfied ex_permissions [1] [] 0 3 (ex_account, 1) [false] = (true, [false]) /\
  fst (satisfied ex_permissions (keys_marked [1] true [false]) [] 0 3 (ex_account, 1) []) = false.
Proof. by vm_compute. Qed.
