(* ===== verification/Permissions.v ===== *)
(** * Permissions of accounts.

    The permission tree, the authorization manager ([authorization_manager.cpp],
    [permission_object.hpp]) and the native actions that change permissions
    ([eosio_contract.cpp]: newaccount, updateauth, deleteauth, linkauth,
    unlinkauth).  The size of a packed key, and the largest delay, are parameters. *)
From stdpp Require Import base gmap list strings sorting.
From Stdlib Require Import ZArith Lia.
From S2P Require Import Prelude Name Runtime Authority.

Open Scope Z_scope.

(** ** Names and sizes of [config.hpp]. *)

Definition owner_name : Z := Eval vm_compute in N_ "owner".
Definition eosio_any_name : Z := Eval vm_compute in N_ "force.any".
Definition eosio_code_name : Z := Eval vm_compute in N_ "force.code".
Definition producers_account_name : Z := Eval vm_compute in N_ "force.prods".
Definition chain_config_name : Z := Eval vm_compute in N_ "force.config".
Definition updateauth_name : Z := Eval vm_compute in N_ "updateauth".
Definition deleteauth_name : Z := Eval vm_compute in N_ "deleteauth".
Definition linkauth_name : Z := Eval vm_compute in N_ "linkauth".
Definition unlinkauth_name : Z := Eval vm_compute in N_ "unlinkauth".
Definition canceldelay_name : Z := Eval vm_compute in N_ "canceldelay".

Definition overhead_per_account_ram_bytes : Z := 2 * 1024.
Definition overhead_per_row_per_index_ram_bytes : Z := 32.
Definition fixed_overhead_shared_vector_ram_bytes : Z := 16.
Definition billable_alignment : Z := 16.

(** [billable_size_v]. *)
Definition billable_size_v (value : Z) : Z :=
  (value + billable_alignment - 1) / billable_alignment * billable_alignment.

Definition permission_level_weight_size : Z := billable_size_v 24.
Definition key_weight_size : Z := billable_size_v 8.
Definition wait_weight_size : Z := billable_size_v 16.
Definition shared_authority_size : Z :=
  billable_size_v (3 * fixed_overhead_shared_vector_ram_bytes + 4).
Definition permission_object_size : Z :=
  billable_size_v (shared_authority_size + 64 + 5 * overhead_per_row_per_index_ram_bytes).
Definition permission_link_object_size : Z :=
  billable_size_v (40 + overhead_per_row_per_index_ram_bytes * 3).

Section permissions.
Context {key : Type} `{!EqDecision key} (key_lt : key -> key -> bool).
(** [fc::raw::pack_size] of a key. *)
Context (key_size : key -> Z).
(** Whether the lists of a producing node refuse a key. *)
Context (key_allowed : key -> bool).
(** [fc::microseconds::maximum()]. *)
Context (microseconds_maximum : Z).

Abbreviation authority := (Authority.authority (key := key)) (only parsing).

(** [get_billable_size]. *)
Definition get_billable_size (auth : authority) : Z :=
  Z.of_nat (length (accounts auth)) * permission_level_weight_size
  + Z.of_nat (length (waits auth)) * wait_weight_size
  + foldr (fun k acc => key_weight_size + key_size (kw_key k) + acc) 0 (keys auth).

(** ** Objects. *)

Record permission_object := PermissionObject {
  po_usage_id : Z;
  po_parent : Z;
  po_owner : Z;
  po_name : Z;
  po_last_updated : Z;
  po_auth : authority;
}.

(** A deferred transaction, with the authorizations of the actions packed in it. *)
Record generated_transaction := GeneratedTransaction {
  gt_sender : Z;
  gt_delay_until : Z;
  gt_published : Z;
  gt_authorizations : list (list permission_level);
}.

(** The indices of the database: permissions by id and by owner, the time each was
    used last, links by account, code and action, accounts with their privilege, the
    deferred transactions, and the RAM that was charged. *)
Record auth_db := AuthDb {
  perm_index : gmap Z permission_object;
  perm_by_owner : gmap (Z * Z) Z;
  next_perm_id : Z;
  usage_index : gmap Z Z;
  next_usage_id : Z;
  link_index : gmap (Z * Z * Z) Z;
  account_index : gmap Z bool;
  deferred_index : gmap Z generated_transaction;
  ram_deltas : list (Z * Z);
}.

Definition with_perms (perms : gmap Z permission_object) (by_owner : gmap (Z * Z) Z)
    (next : Z) (usages : gmap Z Z) (next_usage : Z) (d : auth_db) : auth_db :=
  AuthDb perms by_owner next usages next_usage (link_index d) (account_index d)
    (deferred_index d) (ram_deltas d).
Definition with_links (links : gmap (Z * Z * Z) Z) (d : auth_db) : auth_db :=
  AuthDb (perm_index d) (perm_by_owner d) (next_perm_id d) (usage_index d) (next_usage_id d)
    links (account_index d) (deferred_index d) (ram_deltas d).
Definition with_account (name : Z) (privileged : bool) (d : auth_db) : auth_db :=
  AuthDb (perm_index d) (perm_by_owner d) (next_perm_id d) (usage_index d) (next_usage_id d)
    (link_index d) (<[name := privileged]> (account_index d)) (deferred_index d) (ram_deltas d).

(** [apply_context::add_ram_usage]. *)
Definition add_ram_usage (account delta : Z) (d : auth_db) : auth_db :=
  AuthDb (perm_index d) (perm_by_owner d) (next_perm_id d) (usage_index d) (next_usage_id d)
    (link_index d) (account_index d) (deferred_index d) (ram_deltas d ++ [(account, delta)]).

(** ** The authorization manager. *)

(** [create_permission]: the time of the pending block unless one is given; the
    database refuses a second permission of the same name. *)
Definition create_permission (pending_block_time account name parent : Z) (auth : authority)
    (initial_creation_time : Z) (d : auth_db) : result (Z * auth_db) :=
  let creation_time :=
    if initial_creation_time =? 0 then pending_block_time else initial_creation_time in
  match perm_by_owner d !! (account, name) with
  | Some _ => Err "could not insert object, most likely a uniqueness constraint was violated"
  | None =>
      let id := next_perm_id d in
      let p := PermissionObject (next_usage_id d) parent account name creation_time auth in
      Ok (id, with_perms (<[id := p]> (perm_index d)) (<[(account, name) := id]> (perm_by_owner d))
                (id + 1) (<[next_usage_id d := creation_time]> (usage_index d))
                (next_usage_id d + 1) d)
  end.

Definition modify_permission (id : Z) (p : permission_object) (auth : authority) (now : Z)
    (d : auth_db) : auth_db :=
  with_perms (<[id := PermissionObject (po_usage_id p) (po_parent p) (po_owner p) (po_name p) now auth]>
                (perm_index d))
    (perm_by_owner d) (next_perm_id d) (usage_index d) (next_usage_id d) d.

(** Whether a permission has children. *)
Definition has_children (id : Z) (d : auth_db) : bool :=
  existsb (fun p => po_parent (snd p) =? id) (map_to_list (perm_index d)).

Definition remove_permission (id : Z) (p : permission_object) (d : auth_db) : result auth_db :=
  (check* negb (has_children id d)
     with "Cannot remove a permission which has children. Remove the children first." in
   Ok (with_perms (delete id (perm_index d)) (delete (po_owner p, po_name p) (perm_by_owner d))
         (next_perm_id d) (delete (po_usage_id p) (usage_index d)) (next_usage_id d) d))%res.

Definition update_permission_usage (p : permission_object) (now : Z) (d : auth_db) : auth_db :=
  with_perms (perm_index d) (perm_by_owner d) (next_perm_id d)
    (<[po_usage_id p := now]> (usage_index d)) (next_usage_id d) d.

Definition get_permission_last_used (p : permission_object) (d : auth_db) : result Z :=
  of_option (usage_index d !! po_usage_id p) "unknown key".

Definition find_permission (level : permission_level) (d : auth_db)
  : result (option (Z * permission_object)) :=
  (check* negb (fst level =? 0) && negb (snd level =? 0) with "Invalid permission" in
   Ok (id ← perm_by_owner d !! level; p ← perm_index d !! id; Some (id, p)))%res.

Definition get_permission (level : permission_level) (d : auth_db)
  : result (Z * permission_object) :=
  (let* o := find_permission level d in of_option o "Failed to retrieve permission")%res.

(** [permission_object::satisfies]: the walk up the tree.  Taking a parent that is not
    in the index would dereference its end.  The fuel is the number of ids given out. *)
Fixpoint satisfies_walk (fuel : nat) (id : Z) (parent : permission_object) (d : auth_db)
  : result bool :=
  match fuel with
  | O => Err "the parents do not end"
  | S fuel =>
      if id =? po_parent parent then Ok true else
      if po_parent parent =? 0 then Ok false else
      match perm_index d !! po_parent parent with
      | Some p => satisfies_walk fuel id p d
      | None => Err "dereferences the end of the index"
      end
  end.

Definition satisfies (this other : Z * permission_object) (d : auth_db) : result bool :=
  if negb (po_owner (snd this) =? po_owner (snd other)) then Ok false else
  if (fst this =? fst other) || (fst this =? po_parent (snd other)) then Ok true else
  match perm_index d !! po_parent (snd other) with
  | Some parent => satisfies_walk (Z.to_nat (next_perm_id d)) (fst this) parent d
  | None => Err "dereferences the end of the index"
  end.

Definition lookup_linked_permission (authorizer_account scope act_name : Z) (d : auth_db)
  : option Z :=
  match link_index d !! (authorizer_account, scope, act_name) with
  | Some required => Some required
  | None => link_index d !! (authorizer_account, scope, 0)
  end.

(** The native actions that cannot be linked. *)
Definition unlinkable (act_name : Z) : bool :=
  existsb (Z.eqb act_name)
    [updateauth_name; deleteauth_name; linkauth_name; unlinkauth_name; canceldelay_name].

Definition lookup_minimum_permission (authorizer_account scope act_name : Z) (d : auth_db)
  : result (option Z) :=
  (check* negb ((scope =? config.system_account_name) && unlinkable act_name)
     with "cannot call lookup_minimum_permission on native actions that are not allowed to be linked to minimum permissions" in
   match lookup_linked_permission authorizer_account scope act_name d with
   | None => Ok (Some active)
   | Some linked => if linked =? eosio_any_name then Ok None else Ok (Some linked)
   end)%res.

(** *** The actions with an authorization rule of their own. *)

Record updateauth := Updateauth {
  ua_account : Z; ua_permission : Z; ua_parent : Z; ua_auth : authority;
}.
Record deleteauth := Deleteauth { da_account : Z; da_permission : Z }.
Record linkauth := Linkauth { la_account : Z; la_code : Z; la_type : Z; la_requirement : Z }.
Record unlinkauth := Unlinkauth { ul_account : Z; ul_code : Z; ul_type : Z }.
Record canceldelay := Canceldelay { cd_canceling_auth : permission_level; cd_trx_id : Z }.

(** The packed arguments of an action, by what they unpack to. *)
Inductive native_data : Type :=
| UpdateauthData (a : updateauth)
| DeleteauthData (a : deleteauth)
| LinkauthData (a : linkauth)
| UnlinkauthData (a : unlinkauth)
| CanceldelayData (a : canceldelay)
| OtherData.

Record chain_action := ChainAction {
  ca_account : Z;
  ca_name : Z;
  ca_authorization : list permission_level;
  ca_data : native_data;
}.

(** The only declared authorization. *)
Definition only_auth (auths : list permission_level) (msg : string) : result permission_level :=
  match auths with [auth] => Ok auth | _ => Err msg end.
Arguments only_auth auths msg%_string.

Definition require_satisfies (auth : permission_level) (min_permission : Z * permission_object)
    (msg : string) (d : auth_db) : result unit :=
  (let* p := get_permission auth d in
   let* b := satisfies p min_permission d in
   rassert b msg)%res.
Arguments require_satisfies auth min_permission msg%_string d.

Definition check_updateauth_authorization (update : updateauth) (auths : list permission_level)
    (d : auth_db) : result unit :=
  (let* auth := only_auth auths "updateauth action should only have one declared authorization" in
   check* (fst auth =? ua_account update)
     with "the owner of the affected permission needs to be the actor of the declared authorization" in
   let* found := find_permission (ua_account update, ua_permission update) d in
   let* min_permission :=
     match found with
     | Some p => Ok p
     | None => get_permission (ua_account update, ua_parent update) d
     end in
   require_satisfies auth min_permission "updateauth action declares irrelevant authority" d)%res.

Definition check_deleteauth_authorization (del : deleteauth) (auths : list permission_level)
    (d : auth_db) : result unit :=
  (let* auth := only_auth auths "deleteauth action should only have one declared authorization" in
   check* (fst auth =? da_account del)
     with "the owner of the permission to delete needs to be the actor of the declared authorization" in
   let* min_permission := get_permission (da_account del, da_permission del) d in
   require_satisfies auth min_permission "updateauth action declares irrelevant authority" d)%res.

Definition check_linkauth_authorization (link : linkauth) (auths : list permission_level)
    (d : auth_db) : result unit :=
  (let* auth := only_auth auths "link action should only have one declared authorization" in
   check* (fst auth =? la_account link)
     with "the owner of the linked permission needs to be the actor of the declared authorization" in
   check* negb (unlinkable (la_type link)) with "Cannot link the action to a minimum permission" in
   let* linked_permission_name :=
     lookup_minimum_permission (la_account link) (la_code link) (la_type link) d in
   match linked_permission_name with
   | None => Ok tt
   | Some name =>
       let* min_permission := get_permission (la_account link, name) d in
       require_satisfies auth min_permission "link action declares irrelevant authority" d
   end)%res.

Definition check_unlinkauth_authorization (unlink : unlinkauth) (auths : list permission_level)
    (d : auth_db) : result unit :=
  (let* auth := only_auth auths "unlink action should only have one declared authorization" in
   check* (fst auth =? ul_account unlink)
     with "the owner of the linked permission needs to be the actor of the declared authorization" in
   match lookup_linked_permission (ul_account unlink) (ul_code unlink) (ul_type unlink) d with
   | None => Err "cannot unlink non-existent permission link"
   | Some name =>
       if name =? eosio_any_name then Ok tt else
       let* min_permission := get_permission (ul_account unlink, name) d in
       require_satisfies auth min_permission "unlink action declares irrelevant authority" d
   end)%res.

(** The delay of the transaction to cancel. *)
Definition check_canceldelay_authorization (cancel : canceldelay) (auths : list permission_level)
    (d : auth_db) : result Z :=
  (let* auth := only_auth auths "canceldelay action should only have one declared authorization" in
   let* min_permission := get_permission (cd_canceling_auth cancel) d in
   let* _ := require_satisfies auth min_permission
               "canceldelay action declares irrelevant authority" d in
   match deferred_index d !! cd_trx_id cancel with
   | None => Err "there is no deferred transaction with that transaction id"
   | Some itr =>
       check* (gt_sender itr =? 0)
         with "there is no deferred transaction with that transaction id" in
       check* existsb (existsb (fun a => bool_decide (a = cd_canceling_auth cancel)))
                (gt_authorizations itr)
         with "canceling_auth in canceldelay action was not found as authorization in the original delayed transaction" in
       Ok (gt_delay_until itr - gt_published itr)
   end)%res.

(** *** [check_authorization]. *)

(** [std::map::emplace], keeping the smaller delay; the map is in ascending order. *)
Fixpoint emplace_delay (level : permission_level) (delay : Z)
    (m : list (permission_level * Z)) : list (permission_level * Z) :=
  match m with
  | [] => [(level, delay)]
  | (l, dl) :: m' =>
      if permission_lt level l then (level, delay) :: m
      else if bool_decide (level = l) then (l, if delay <? dl then delay else dl) :: m'
      else (l, dl) :: emplace_delay level delay m'
  end.

(** The rules of the native actions: whether there is one, and the delay it needs. *)
Definition check_special (delay : Z) (act : chain_action) (d : auth_db) : result (bool * Z) :=
  let native := ca_authorization act in
  (if negb (ca_account act =? config.system_account_name) then Ok (false, delay) else
   if ca_name act =? updateauth_name then
     match ca_data act with
     | UpdateauthData a => let* _ := check_updateauth_authorization a native d in Ok (true, delay)
     | _ => Err "unpack"
     end
   else if ca_name act =? deleteauth_name then
     match ca_data act with
     | DeleteauthData a => let* _ := check_deleteauth_authorization a native d in Ok (true, delay)
     | _ => Err "unpack"
     end
   else if ca_name act =? linkauth_name then
     match ca_data act with
     | LinkauthData a => let* _ := check_linkauth_authorization a native d in Ok (true, delay)
     | _ => Err "unpack"
     end
   else if ca_name act =? unlinkauth_name then
     match ca_data act with
     | UnlinkauthData a => let* _ := check_unlinkauth_authorization a native d in Ok (true, delay)
     | _ => Err "unpack"
     end
   else if ca_name act =? canceldelay_name then
     match ca_data act with
     | CanceldelayData a =>
         let* cancel_delay := check_canceldelay_authorization a native d in
         Ok (true, Z.max delay cancel_delay)
     | _ => Err "unpack"
     end
   else Ok (false, delay))%res.

(** One declared authorization: at least the minimum permission of the action. *)
Definition check_minimum (act : chain_action) (declared_auth : permission_level) (d : auth_db)
  : result unit :=
  (let* min_permission_name :=
     lookup_minimum_permission (fst declared_auth) (ca_account act) (ca_name act) d in
   match min_permission_name with
   | None => Ok tt
   | Some name =>
       let* min_permission := get_permission (fst declared_auth, name) d in
       require_satisfies declared_auth min_permission "action declares irrelevant authority" d
   end)%res.

Definition check_declared (satisfied_authorizations : list permission_level) (special_case : bool)
    (delay : Z) (act : chain_action) (d : auth_db) (to_satisfy : list (permission_level * Z))
    (declared_auth : permission_level) : result (list (permission_level * Z)) :=
  (let* _ := if special_case then Ok tt else check_minimum act declared_auth d in
   if bool_decide (declared_auth ∈ satisfied_authorizations) then Ok to_satisfy
   else Ok (emplace_delay declared_auth delay to_satisfy))%res.

Definition check_action (satisfied_authorizations : list permission_level)
    (effective_provided_delay : Z) (d : auth_db) (to_satisfy : list (permission_level * Z))
    (act : chain_action) : result (list (permission_level * Z)) :=
  (let* (special_case, delay) := check_special effective_provided_delay act d in
   rfold (check_declared satisfied_authorizations special_case delay act d) to_satisfy
     (ca_authorization act))%res.

(** [[&](const permission_level& p){ return get_permission(p).auth; }]. *)
Definition authority_of (d : auth_db) (p : permission_level) : option authority :=
  match get_permission p d with Ok (_, po) => Some (po_auth po) | Err _ => None end.

(** [checker.satisfied] of each level in turn; the marks of the keys are kept. *)
Definition check_levels (max_authority_depth : nat) (provided_keys : list key)
    (provided_permissions : list permission_level) (d : auth_db)
    (to_satisfy : list (permission_level * Z)) (used : list bool) : result (list bool) :=
  rfold (fun used p =>
    let '(b, used) := satisfied (authority_of d) provided_keys provided_permissions (snd p)
                        max_authority_depth (fst p) used in
    (check* b with "transaction declares authority, but does not have signatures for it" in
     Ok used)%res) used to_satisfy.

(** [fc::microseconds::maximum()] once the delay reaches the limit. *)
Definition effective_delay (max_transaction_delay provided_delay : Z) : Z :=
  if max_transaction_delay * 1000000 <=? provided_delay then microseconds_maximum
  else provided_delay.

Definition check_authorization (max_transaction_delay : Z) (max_authority_depth : nat)
    (actions : list chain_action) (provided_keys : list key)
    (provided_permissions : list permission_level) (provided_delay : Z) (allow_unused_keys : bool)
    (satisfied_authorizations : list permission_level) (d : auth_db) : result unit :=
  let effective_provided_delay := effective_delay max_transaction_delay provided_delay in
  (let* permissions_to_satisfy :=
     rfold (check_action satisfied_authorizations effective_provided_delay d) [] actions in
   let* used := check_levels max_authority_depth provided_keys provided_permissions d
                  permissions_to_satisfy (replicate (length provided_keys) false) in
   if allow_unused_keys then Ok tt
   else rassert (all_keys_used used) "transaction bears irrelevant signatures from these keys")%res.

(** The check of one permission. *)
Definition check_permission (max_transaction_delay : Z) (max_authority_depth : nat)
    (level : permission_level) (provided_keys : list key)
    (provided_permissions : list permission_level) (provided_delay : Z) (allow_unused_keys : bool)
    (d : auth_db) : result unit :=
  (let* used := check_levels max_authority_depth provided_keys provided_permissions d
                  [(level, effective_delay max_transaction_delay provided_delay)]
                  (replicate (length provided_keys) false) in
   if allow_unused_keys then Ok tt
   else rassert (all_keys_used used) "irrelevant keys provided")%res.

Definition get_required_keys (max_authority_depth : nat) (actions : list chain_action)
    (candidate_keys : list key) (provided_delay : Z) (d : auth_db) : result (list key) :=
  (let* used := check_levels max_authority_depth candidate_keys [] d
                  (map (fun p => (p, provided_delay)) (concat (map ca_authorization actions)))
                  (replicate (length candidate_keys) false) in
   Ok (keys_marked candidate_keys true used))%res.
End permissions.

(** ** The permission tree. *)
Section tree.
Context {key : Type} `{!EqDecision key}.
Implicit Types (d : auth_db (key := key)) (p q : permission_object (key := key)).

(** A permission object other than the reserved one: its parent was there before it and
    belongs to the same account; only the owner permission has none. *)
Definition node_ok d (id : Z) p : Prop :=
  0 <= po_parent p < id /\ po_owner p <> 0 /\ po_name p <> 0 /\
  (po_parent p = 0 <-> po_name p = owner_name) /\
  (exists q, perm_index d !! po_parent p = Some q /\
     (po_parent p <> 0 -> po_owner q = po_owner p) /\
     (po_name p = active -> po_name q = owner_name)) /\
  is_Some (account_index d !! po_owner p) /\
  authority_typed (po_auth p).

Record tree_ok d : Prop := {
  tk_zero : exists p, perm_index d !! 0 = Some p /\ po_parent p = 0 /\ po_owner p = 0 /\ po_name p = 0;
  tk_ids : forall id p, perm_index d !! id = Some p -> 0 <= id < next_perm_id d;
  tk_index : forall id p, perm_index d !! id = Some p ->
    perm_by_owner d !! (po_owner p, po_name p) = Some id;
  tk_back : forall k id, perm_by_owner d !! k = Some id ->
    exists p, perm_index d !! id = Some p /\ k = (po_owner p, po_name p);
  tk_node : forall id p, perm_index d !! id = Some p -> id <> 0 -> node_ok d id p;
  tk_usage : forall id p, perm_index d !! id = Some p -> id <> 0 ->
    is_Some (usage_index d !! po_usage_id p) /\ po_usage_id p < next_usage_id d;
  tk_usage_inj : forall id p id' p', perm_index d !! id = Some p -> perm_index d !! id' = Some p' ->
    id <> 0 -> id' <> 0 -> po_usage_id p = po_usage_id p' -> id = id';
}.

(** [above d a id]: [a] is [id] or one of its ancestors. *)
Inductive above d (a : Z) : Z -> Prop :=
| above_self : above d a a
| above_parent id p :
    perm_index d !! id = Some p -> po_parent p <> 0 -> above d a (po_parent p) -> above d a id.

Lemma above_inv d a id p :
  perm_index d !! id = Some p -> above d a id ->
  a = id \/ po_parent p <> 0 /\ above d a (po_parent p).
Proof. intros Hp H. inversion H; simplify_eq; eauto. Qed.

Lemma above_owner d a id p q :
  tree_ok d -> above d a id -> id <> 0 -> perm_index d !! id = Some p -> perm_index d !! a = Some q ->
  po_owner q = po_owner p.
Proof.
  intros Hok H. revert p. induction H as [|id p0 Hp Hne H IH]; intros p Hid Hpp Hq; simplify_eq; [done|].
  destruct (tk_node d Hok id _ Hp Hid) as (_ & _ & _ & _ & (r & Hr & Ho & _) & _).
  by rewrite (IH r), Ho.
Qed.

(** The walk ends within the ids given out, and finds exactly the proper ancestors. *)
Lemma satisfies_walk_spec d a : tree_ok d -> a <> 0 -> forall fuel id p,
  perm_index d !! id = Some p -> (Z.to_nat id < fuel)%nat ->
  exists r, satisfies_walk fuel a p d = Ok r /\
    (r = true <-> po_parent p <> 0 /\ above d a (po_parent p)).
Proof.
  intros Hok Ha fuel. induction fuel as [|fuel IH]; intros id p Hp Hf; [lia|].
  cbn [satisfies_walk]. destruct (Z.eqb_spec a (po_parent p)) as [->|Hne].
  { exists true. split; [done|]. split; [|done]. intros _. split; [done|constructor]. }
  destruct (Z.eqb_spec (po_parent p) 0) as [E|Hz]; [exists false; naive_solver|].
  assert (Hid : id <> 0).
  { intros ->. destruct (tk_zero d Hok) as (z & Hz' & E & _). by simplify_eq. }
  destruct (tk_node d Hok id p Hp Hid) as (Hlt & _ & _ & _ & (q & Hq & _) & _).
  rewrite Hq. destruct (IH _ _ Hq) as (r & -> & Hr); [lia|].
  exists r. split; [done|]. rewrite Hr. split.
  - intros [? ?]. split; [done|]. by eapply above_parent.
  - intros [_ H]. by destruct (above_inv _ _ _ _ Hq H).
Qed.

Lemma satisfies_spec d a pa b pb :
  tree_ok d -> perm_index d !! a = Some pa -> perm_index d !! b = Some pb -> a <> 0 -> b <> 0 ->
  exists r, satisfies (a, pa) (b, pb) d = Ok r /\ (r = true <-> above d a b).
Proof.
  intros Hok Ha Hb Hna Hnb. unfold satisfies. cbn [fst snd].
  destruct (Z.eqb_spec (po_owner pa) (po_owner pb)) as [Ho|Ho]; cbn [negb].
  2:{ exists false. split; [done|]. split; [done|]. intros H. destruct Ho. by eapply above_owner. }
  destruct (tk_node d Hok b pb Hb Hnb) as (Hlt & _ & _ & _ & (q & Hq & _) & _).
  destruct (Z.eqb_spec a b) as [->|Hab]; cbn [orb].
  { exists true. split; [done|]. split; [constructor|done]. }
  assert (Hup : above d a b <-> po_parent pb <> 0 /\ above d a (po_parent pb)).
  { split; [|by intros [? ?]; eapply above_parent]. intros H. by destruct (above_inv _ _ _ _ Hb H). }
  destruct (Z.eqb_spec a (po_parent pb)) as [->|Hap].
  { exists true. split; [done|]. split; [|done]. intros _. apply Hup. split; [done|constructor]. }
  rewrite Hq. pose proof (tk_ids d Hok _ _ Hq).
  destruct (satisfies_walk_spec d a Hok Hna (Z.to_nat (next_perm_id d)) _ _ Hq) as (r & -> & Hr); [lia|].
  exists r. split; [done|]. rewrite Hr, Hup. split.
  - intros [Hz Hab']. destruct (decide (po_parent pb = 0)) as [E|]; [|split; [done|by eapply above_parent]].
    rewrite E in Hq. destruct (tk_zero d Hok) as (z & Hz' & E' & _). by simplify_eq.
  - intros [_ Hab']. by destruct (above_inv _ _ _ _ Hq Hab').
Qed.

Lemma find_permission_ok level d o :
  find_permission level d = Ok o ->
  fst level <> 0 /\ snd level <> 0 /\
  forall id p, o = Some (id, p) <-> perm_by_owner d !! level = Some id /\ perm_index d !! id = Some p.
Proof.
  unfold find_permission. intros H. rinv. split_and!; [done|done|]. intros id p.
  destruct (perm_by_owner d !! _) as [i|]; simpl; [|naive_solver].
  destruct (perm_index d !! i) eqn:E; simpl; naive_solver.
Qed.

Lemma get_permission_ok level d id p :
  get_permission level d = Ok (id, p) ->
  fst level <> 0 /\ snd level <> 0 /\ perm_by_owner d !! level = Some id /\ perm_index d !! id = Some p.
Proof.
  unfold get_permission. intros H. apply rbind_ok in H as (o & Ho & H). apply of_option_ok in H.
  apply find_permission_ok in Ho as (? & ? & Ho). apply Ho in H. naive_solver.
Qed.

(** What a level names in a well-formed tree. *)
Definition names d (level : permission_level) (id : Z) : Prop :=
  id <> 0 /\ exists p, perm_index d !! id = Some p /\ level = (po_owner p, po_name p).

Lemma get_permission_names level d id p :
  tree_ok d -> get_permission level d = Ok (id, p) ->
  names d level id /\ perm_index d !! id = Some p /\ level = (po_owner p, po_name p).
Proof.
  intros Hok (? & ? & Hb & Hp)%get_permission_ok. destruct (tk_back d Hok _ _ Hb) as (p' & Hp' & ->).
  simplify_eq. split_and!; [|done|done]. split; [|eauto]. intros ->.
  destruct (tk_zero d Hok) as (z & Hz & _ & ? & _). by simplify_eq.
Qed.

Lemma require_satisfies_ok auth m msg d u :
  tree_ok d -> perm_index d !! fst m = Some (snd m) -> fst m <> 0 ->
  require_satisfies auth m msg d = Ok u ->
  exists id, names d auth id /\ above d id (fst m).
Proof.
  intros Hok Hm Hnz H. unfold require_satisfies in H. apply rbind_ok in H as ((id & p) & Hg & H).
  apply rbind_ok in H as (b & Hs & H). apply rassert_ok in H as ->.
  apply get_permission_names in Hg as (Hn & Hp & _); [|done]. exists id. split; [done|].
  destruct m as [b pb]. cbn [fst snd] in *.
  destruct (satisfies_spec d id p b pb Hok Hp Hm) as (r & Hr & Hiff); [by destruct Hn|done|].
  rewrite Hr in Hs. injection Hs as ->. by apply Hiff.
Qed.

(** The same, when the minimum is given by its level. *)
Lemma require_level_ok auth level msg d u :
  tree_ok d ->
  rbind (get_permission level d) (fun m => require_satisfies auth m msg d) = Ok u ->
  exists id m, names d auth id /\ names d level m /\ above d id m.
Proof.
  intros Hok H. apply rbind_ok in H as ((m & p) & Hg & H).
  apply get_permission_names in Hg as (Hn & Hp & _); [|done].
  destruct (require_satisfies_ok _ (m, p) _ _ _ Hok Hp (proj1 Hn) H) as (id & ? & ?). eauto.
Qed.

(** *** Who may do what. *)

(** The permission a level names is, or is above, the one the target names. *)
Definition controls d (level target : permission_level) : Prop :=
  exists id m, names d level id /\ names d target m /\ above d id m.

(** At least the minimum permission for an action of a contract. *)
Definition at_least_minimum d (account code type : Z) (level : permission_level) : Prop :=
  match lookup_linked_permission account code type d with
  | None => controls d level (account, active)
  | Some name => name = eosio_any_name \/ controls d level (account, name)
  end.

Definition special (act : chain_action (key := key)) : bool :=
  (ca_account act =? config.system_account_name) && unlinkable (ca_name act).

(** What the rules of the native actions, and the links for all other actions, ask of
    a declared authorization. *)
Definition entitled d (act : chain_action) (level : permission_level) : Prop :=
  if special act then
    ca_authorization act = [level] /\
    match ca_data act with
    | UpdateauthData a =>
        fst level = ua_account a /\
        (controls d level (ua_account a, ua_permission a) \/
         perm_by_owner d !! (ua_account a, ua_permission a) = None /\
         controls d level (ua_account a, ua_parent a))
    | DeleteauthData a =>
        fst level = da_account a /\ controls d level (da_account a, da_permission a)
    | LinkauthData a =>
        fst level = la_account a /\ unlinkable (la_type a) = false /\
        at_least_minimum d (la_account a) (la_code a) (la_type a) level
    | UnlinkauthData a =>
        fst level = ul_account a /\
        lookup_linked_permission (ul_account a) (ul_code a) (ul_type a) d <> None /\
        at_least_minimum d (ul_account a) (ul_code a) (ul_type a) level
    | CanceldelayData a =>
        controls d level (cd_canceling_auth a) /\
        exists trx, deferred_index d !! cd_trx_id a = Some trx /\
          exists auths, auths ∈ gt_authorizations trx /\ cd_canceling_auth a ∈ auths
    | OtherData => False
    end
  else at_least_minimum d (fst level) (ca_account act) (ca_name act) level.

Lemma only_auth_ok auths msg level : only_auth auths msg = Ok level -> auths = [level].
Proof. destruct auths as [|? []]; simpl; intros; by simplify_eq. Qed.

Lemma lookup_minimum_ok account code type level msg d u :
  tree_ok d ->
  rbind (lookup_minimum_permission account code type d) (fun o =>
    match o with
    | None => Ok tt
    | Some name => rbind (get_permission (account, name) d) (fun m => require_satisfies level m msg d)
    end) = Ok u ->
  at_least_minimum d account code type level.
Proof.
  intros Hok H. apply rbind_ok in H as (o & Ho & H). unfold lookup_minimum_permission in Ho.
  apply rbind_ok in Ho as (? & _ & Ho). unfold at_least_minimum.
  destruct (lookup_linked_permission _ _ _ _) as [name|].
  - destruct (Z.eqb_spec name eosio_any_name); [by left|]. right. injection Ho as <-.
    by eapply require_level_ok.
  - injection Ho as <-. by eapply require_level_ok.
Qed.

Lemma check_updateauth_ok a auths d u :
  tree_ok d -> check_updateauth_authorization a auths d = Ok u ->
  exists level, auths = [level] /\ fst level = ua_account a /\
    (controls d level (ua_account a, ua_permission a) \/
     perm_by_owner d !! (ua_account a, ua_permission a) = None /\
     controls d level (ua_account a, ua_parent a)).
Proof.
  intros Hok H. unfold check_updateauth_authorization in H. apply rbind_ok in H as (level & Hl & H).
  apply only_auth_ok in Hl. apply rbind_ok in H as (? & Ha & H). apply rassert_ok, Z.eqb_eq in Ha.
  exists level. split_and!; [done|done|]. apply rbind_ok in H as (o & Ho & H).
  apply find_permission_ok in Ho as (? & ? & Ho). destruct o as [[id p]|].
  - left. cbn [rbind] in H. destruct (proj1 (Ho id p) eq_refl) as [Hb Hp].
    destruct (tk_back d Hok _ _ Hb) as (p' & Hp' & Hk). assert (p' = p) as -> by congruence.
    assert (id <> 0).
    { intros ->. destruct (tk_zero d Hok) as (z & ? & _ & E & _). simplify_eq. simpl in *. congruence. }
    destruct (require_satisfies_ok _ (id, p) _ _ _ Hok Hp ltac:(done) H) as (i & ? & ?).
    exists i, id. split_and!; [done| |done]. split; [done|]. eauto.
  - right. split; [|by eapply require_level_ok].
    destruct (perm_by_owner d !! _) as [i|] eqn:Hb; [|done].
    destruct (tk_back d Hok _ _ Hb) as (p' & Hp' & _). discriminate (proj2 (Ho i p') (conj eq_refl Hp')).
Qed.

Lemma check_deleteauth_ok a auths d u :
  tree_ok d -> check_deleteauth_authorization a auths d = Ok u ->
  exists level, auths = [level] /\ fst level = da_account a /\
    controls d level (da_account a, da_permission a).
Proof.
  intros Hok H. unfold check_deleteauth_authorization in H. apply rbind_ok in H as (level & Hl & H).
  apply only_auth_ok in Hl. apply rbind_ok in H as (? & Ha & H). apply rassert_ok, Z.eqb_eq in Ha.
  exists level. split_and!; [done|done|]. by eapply require_level_ok.
Qed.

Lemma check_linkauth_ok a auths d u :
  tree_ok d -> check_linkauth_authorization a auths d = Ok u ->
  exists level, auths = [level] /\ fst level = la_account a /\ unlinkable (la_type a) = false /\
    at_least_minimum d (la_account a) (la_code a) (la_type a) level.
Proof.
  intros Hok H. unfold check_linkauth_authorization in H. apply rbind_ok in H as (level & Hl & H).
  apply only_auth_ok in Hl. apply rbind_ok in H as (? & Ha & H). apply rassert_ok, Z.eqb_eq in Ha.
  apply rbind_ok in H as (? & Hu & H). apply rassert_ok, negb_true_iff in Hu.
  exists level. split_and!; [done..|]. by eapply lookup_minimum_ok.
Qed.

Lemma check_unlinkauth_ok a auths d u :
  tree_ok d -> check_unlinkauth_authorization a auths d = Ok u ->
  exists level, auths = [level] /\ fst level = ul_account a /\
    lookup_linked_permission (ul_account a) (ul_code a) (ul_type a) d <> None /\
    at_least_minimum d (ul_account a) (ul_code a) (ul_type a) level.
Proof.
  intros Hok H. unfold check_unlinkauth_authorization in H. apply rbind_ok in H as (level & Hl & H).
  apply only_auth_ok in Hl. apply rbind_ok in H as (? & Ha & H). apply rassert_ok, Z.eqb_eq in Ha.
  exists level. unfold at_least_minimum.
  destruct (lookup_linked_permission _ _ _ _) as [name|]; [|done]. split_and!; [done..|].
  destruct (Z.eqb_spec name eosio_any_name); [by left|]. right. by eapply require_level_ok.
Qed.

Lemma check_canceldelay_ok a auths d delay :
  tree_ok d -> check_canceldelay_authorization a auths d = Ok delay ->
  exists level, auths = [level] /\ controls d level (cd_canceling_auth a) /\
    exists trx, deferred_index d !! cd_trx_id a = Some trx /\
      exists auths, auths ∈ gt_authorizations trx /\ cd_canceling_auth a ∈ auths.
Proof.
  intros Hok H. unfold check_canceldelay_authorization in H. apply rbind_ok in H as (level & Hl & H).
  apply only_auth_ok in Hl. apply rbind_ok in H as (m & Hm & H). apply rbind_ok in H as (u & Hs & H).
  exists level. split_and!; [done| |].
  - eapply require_level_ok; [done|]. rewrite Hm. exact Hs.
  - destruct (deferred_index d !! _) as [trx|]; [|done]. exists trx. split; [done|]. rinv.
    match goal with H : existsb _ _ = true |- _ => apply existsb_exists in H as (l & Hin & H);
      apply existsb_exists in H as (x & Hx & H); apply bool_decide_eq_true in H; subst x end.
    exists l. by rewrite !list_elem_of_In.
Qed.

Ltac special_case Hok H lem :=
  apply rbind_ok in H as (? & H & ?); apply lem in H as (level' & Hauths & H); [|exact Hok];
  simplify_eq; rewrite ?Hauths in *.

Lemma check_special_ok delay act d b delay' level :
  tree_ok d -> check_special delay act d = Ok (b, delay') -> level ∈ ca_authorization act ->
  b = special act /\ delay <= delay' /\ (b = true -> entitled d act level).
Proof.
  intros Hok H Hin. unfold check_special, entitled, special, unlinkable in *.
  destruct (ca_account act =? config.system_account_name); cbn [negb andb existsb] in *;
    [|by simplify_eq; split_and!; [done|lia|]].
  destruct (_ =? updateauth_name); [|destruct (_ =? deleteauth_name);
    [|destruct (_ =? linkauth_name); [|destruct (_ =? unlinkauth_name);
    [|destruct (_ =? canceldelay_name)]]]]; cbn [orb] in *;
    [..|by simplify_eq; split_and!; [done|lia|]];
    destruct (ca_data act); try done.
  - special_case Hok H check_updateauth_ok. apply list_elem_of_singleton in Hin as ->.
    split_and!; [done|lia|]. by intros _.
  - special_case Hok H check_deleteauth_ok. apply list_elem_of_singleton in Hin as ->.
    split_and!; [done|lia|]. by intros _.
  - special_case Hok H check_linkauth_ok. apply list_elem_of_singleton in Hin as ->.
    split_and!; [done|lia|]. by intros _.
  - special_case Hok H check_unlinkauth_ok. apply list_elem_of_singleton in Hin as ->.
    split_and!; [done|lia|]. by intros _.
  - special_case Hok H check_canceldelay_ok. apply list_elem_of_singleton in Hin as ->.
    split_and!; [done|lia|]. by intros _.
Qed.

(** *** What has to be satisfied. *)

(** A level is to be satisfied with at most this delay. *)
Definition demanded (m : list (permission_level * Z)) (level : permission_level) (delay : Z) : Prop :=
  exists x, (level, x) ∈ m /\ x <= delay.

Lemma emplace_demanded level delay m : demanded (emplace_delay level delay m) level delay.
Proof.
  unfold demanded. induction m as [|[l x] m IH]; cbn [emplace_delay].
  - exists delay. split; [left|lia].
  - destruct (permission_lt level l); [exists delay; split; [left|lia]|].
    case_bool_decide as E; [subst l|].
    + eexists. split; [left|]. destruct (Z.ltb_spec delay x); lia.
    + destruct IH as (y & ? & ?). exists y. split; [by right|done].
Qed.

Lemma emplace_keeps level delay m l x :
  demanded m l x -> demanded (emplace_delay level delay m) l x.
Proof.
  unfold demanded. induction m as [|[l0 x0] m IH]; cbn [emplace_delay]; intros (y & Hy & Hle).
  - by apply not_elem_of_nil in Hy.
  - destruct (permission_lt level l0); [exists y; split; [by right|done]|].
    case_bool_decide as E; [subst l0|]; apply elem_of_cons in Hy as [Hy|Hy]; simplify_eq.
    + eexists. split; [left|]. destruct (Z.ltb_spec delay x0); lia.
    + exists y. split; [by right|done].
    + exists x0. split; [left|done].
    + destruct IH as (z & ? & ?); [by exists y|]. exists z. split; [by right|done].
Qed.

Lemma check_declared_keeps sat b delay act d m a m' level x :
  demanded m level x -> check_declared sat b delay act d m a = Ok m' -> demanded m' level x.
Proof.
  intros Hm H. unfold check_declared in H. apply rbind_ok in H as (? & _ & H).
  case_bool_decide; simplify_eq; [done|by apply emplace_keeps].
Qed.

Lemma check_action_keeps sat eff d m act m' level x :
  demanded m level x -> check_action sat eff d m act = Ok m' -> demanded m' level x.
Proof.
  intros Hm H. unfold check_action in H. apply rbind_ok in H as ((b & delay) & _ & H).
  eapply (rfold_inv (fun m => demanded m level x)); [|exact Hm|exact H].
  intros. by eapply check_declared_keeps.
Qed.

(** More delay grants no less. *)
Lemma granted_delay (pta : permission_level -> option (authority (key := key))) ks ps x y level :
  x <= y -> granted pta ks ps x level -> granted pta ks ps y level.
Proof.
  intros Hle. induction 1 as [|p auth l Hp Hl Hw Hk Hq IH Ht]; [by apply granted_provided|].
  eapply granted_authority; [exact Hp|exact Hl|..|exact Ht]; auto.
  intros w Hin. apply Hw in Hin. lia.
Qed.

Lemma authority_of_ok d : tree_ok d ->
  (forall a, authority_of d (a, 0) = None) /\
  (forall level auth, authority_of d level = Some auth -> authority_typed auth).
Proof.
  intros Hok. unfold authority_of. split.
  - intros a. destruct (get_permission (a, 0) d) as [[id p]|] eqn:H; [|done].
    by apply get_permission_ok in H as (_ & ? & _).
  - intros level auth H. destruct (get_permission level d) as [[id p]|] eqn:Hg; simplify_eq.
    apply get_permission_names in Hg as ([Hnz _] & Hp & _); [|done].
    by destruct (tk_node d Hok id p Hp Hnz) as (_ & _ & _ & _ & _ & _ & ?).
Qed.

Lemma check_levels_ok depth ks ps d m used used' :
  tree_ok d -> check_levels depth ks ps d m used = Ok used' ->
  forall level x, (level, x) ∈ m -> granted (authority_of d) ks ps x level.
Proof.
  intros Hok H level x Hin. destruct (rfold_at _ _ _ Hin _ _ H) as (_ & _ & u1 & u2 & _ & _ & H2 & _).
  cbn [fst snd] in H2. destruct (satisfied _ _ _ _ _ _ _) as [b u] eqn:Hs.
  apply rbind_ok in H2 as (? & Hb & _). apply rassert_ok in Hb.
  destruct (authority_of_ok d Hok) as [Hn Ht].
  eapply (satisfied_sound _ _ _ _ Hn Ht depth level u1). by rewrite Hs.
Qed.
End tree.

(** ** Theorems. *)
Section theorems.
Context {key : Type} `{!EqDecision key} (microseconds_maximum : Z).
Implicit Types (d : auth_db (key := key)).

(** In a well-formed permission tree the walk of satisfies ends, never leaves the
    index, and answers whether the first permission is the second or one of its
    ancestors. *)
Theorem satisfies_iff_above d a pa b pb
  (Hok : tree_ok d) (Ha : perm_index d !! a = Some pa) (Hb : perm_index d !! b = Some pb)
  (Hna : a <> 0) (Hnb : b <> 0) :
  exists r, satisfies (a, pa) (b, pb) d = Ok r /\ (r = true <-> above d a b).
Proof. by apply satisfies_spec. Qed.

Lemma check_authorization_entitled max_transaction_delay max_authority_depth actions
  provided_keys provided_permissions provided_delay allow_unused_keys satisfied_authorizations d
  act level
  (Hok : tree_ok d)
  (H : check_authorization microseconds_maximum max_transaction_delay max_authority_depth actions
         provided_keys provided_permissions provided_delay allow_unused_keys
         satisfied_authorizations d = Ok tt)
  (Hact : act ∈ actions) (Hlevel : level ∈ ca_authorization act) :
  entitled d act level /\
  (level ∈ satisfied_authorizations \/
   exists delay,
     check_special (effective_delay microseconds_maximum max_transaction_delay provided_delay) act d
       = Ok (special act, delay) /\
     granted (authority_of d) provided_keys provided_permissions delay level).
Proof.
  unfold check_authorization in H. apply rbind_ok in H as (m & Hm & H).
  apply rbind_ok in H as (used & Hu & _). pose proof (check_levels_ok _ _ _ _ _ _ _ Hok Hu) as Hg.
  destruct (rfold_at _ _ _ Hact _ _ Hm) as (_ & l2 & m1 & m2 & _ & _ & Hc & Hrest).
  unfold check_action in Hc. apply rbind_ok in Hc as ((b & delay) & Hs & Hc).
  destruct (check_special_ok _ _ _ _ _ _ Hok Hs Hlevel) as (-> & _ & Hent).
  destruct (rfold_at _ _ _ Hlevel _ _ Hc) as (_ & k2 & n1 & n2 & _ & _ & Hd & Hrest').
  unfold check_declared in Hd. apply rbind_ok in Hd as (? & Hmin & Hd). split.
  - destruct (special act) eqn:Hsp; [by apply Hent|]. unfold entitled. rewrite Hsp.
    by eapply lookup_minimum_ok.
  - case_bool_decide as Hin; [by left|]. right. exists delay. split; [done|]. injection Hd as <-.
    assert (demanded m level delay) as (y & Hy & Hle).
    { eapply (rfold_inv (fun m => demanded m level delay)); [|..|exact Hrest].
      { intros. by eapply check_action_keeps. }
      eapply (rfold_inv (fun m => demanded m level delay)); [|apply emplace_demanded|exact Hrest'].
      intros. by eapply check_declared_keeps. }
    eapply granted_delay; [exact Hle|]. by apply Hg.
Qed.

(** When the authorization of a transaction is accepted, every authorization that
    one of its actions declares is entitled to it, by the rule of the native action
    or by being at least the linked minimum permission in the account's tree, and it
    is either satisfied beforehand or granted by the keys, permissions and the delay
    provided. *)
Theorem check_authorization_sound (max_transaction_delay : Z) (max_authority_depth : nat)
  (actions : list chain_action) (provided_keys : list key)
  (provided_permissions : list permission_level) (provided_delay : Z) (allow_unused_keys : bool)
  (satisfied_authorizations : list permission_level) d
  (act : chain_action) (level : permission_level)
  (Hok : tree_ok d)
  (H : check_authorization microseconds_maximum max_transaction_delay max_authority_depth actions
         provided_keys provided_permissions provided_delay allow_unused_keys
         satisfied_authorizations d = Ok tt)
  (Hact : act ∈ actions) (Hlevel : level ∈ ca_authorization act) :
  entitled d act level /\
  (level ∈ satisfied_authorizations \/
   exists delay,
     check_special (effective_delay microseconds_maximum max_transaction_delay provided_delay) act d
       = Ok (special act, delay) /\
     granted (authority_of d) provided_keys provided_permissions delay level).
Proof. by eapply check_authorization_entitled. Qed.
End theorems.
