(* ===== verification/NativeActions.v ===== *)
(** * The native actions on accounts and permissions.

    [eosio_contract.cpp]: newaccount, updateauth, deleteauth, linkauth, unlinkauth,
    and the parts of [controller.cpp] that create the native accounts and keep the
    permissions of the producers' account up to date. *)
From stdpp Require Import base gmap list strings.
From Stdlib Require Import ZArith Lia.
From S2P Require Import Prelude Name Runtime Authority Permissions.

Open Scope Z_scope.

(** [name_str.find( prefix ) == 0]. *)
Definition has_prefix (prefix : string) (name : Z) : bool :=
  bool_decide (take (String.length prefix) (Host.to_string name) = String.list_ascii_of_string prefix).
Arguments has_prefix prefix%_string name.

(** What a native action sees of its context. *)
Record native_env := NativeEnv {
  ne_authorization : list permission_level;
  ne_pending_block_time : Z;
  ne_max_transaction_delay : Z;  (* seconds *)
  ne_enforce_key_list : bool;    (* [enforce_whiteblacklist && is_producing_block()] *)
}.

Section actions.
Context {key : Type} `{!EqDecision key} (key_lt : key -> key -> bool).
Context (key_size : key -> Z) (key_allowed : key -> bool).
Context (e : native_env).

Abbreviation authority := (Authority.authority (key := key)) (only parsing).
Abbreviation auth_db := (Permissions.auth_db (key := key)) (only parsing).

(** [context.require_authorization]. *)
Definition require_authorization (account : Z) : result unit :=
  rassert (has_authorization (ne_authorization e) account) "missing authority".

Definition precondition_account (d : auth_db) (a : permission_level_weight) : result unit :=
  let '(actor, permission) := plw_permission a in
  (check* bool_decide (is_Some (account_index d !! actor)) with "account does not exist" in
   if (permission =? owner_name) || (permission =? active) then Ok tt else
   if permission =? eosio_code_name then Ok tt else
   match get_permission (actor, permission) d with
   | Ok _ => Ok tt
   | Err _ => Err "permission does not exist"
   end)%res.

Definition validate_authority_precondition (auth : authority) (d : auth_db) : result unit :=
  (let* _ := rfold (fun _ a => precondition_account d a) tt (accounts auth) in
   if ne_enforce_key_list e
   then rfold (fun _ k => rassert (key_allowed (kw_key k)) "public key is on the blacklist")
          tt (keys auth)
   else Ok tt)%res.

Record newaccount := Newaccount {
  na_creator : Z; na_name : Z; na_owner : authority; na_active : authority;
}.

(** The owner and the active permission of a new account. *)
Definition create_account_permissions (name : Z) (owner active_ : authority)
    (initial_creation_time : Z) (d : auth_db) : result auth_db :=
  (let* (owner_id, d) := create_permission (ne_pending_block_time e) name owner_name 0 owner
                           initial_creation_time d in
   let* (_, d) := create_permission (ne_pending_block_time e) name active owner_id active_
                    initial_creation_time d in
   Ok d)%res.

(** The RAM of a new account. *)
Definition account_ram (owner active_ : authority) : Z :=
  overhead_per_account_ram_bytes + 2 * permission_object_size
  + get_billable_size key_size owner + get_billable_size key_size active_.

Definition apply_system_native_newaccount (create : newaccount) (d : auth_db) : result auth_db :=
  (let* _ := require_authorization (na_creator create) in
   check* validate key_lt (na_owner create) with "Invalid owner authority" in
   check* validate key_lt (na_active create) with "Invalid active authority" in
   check* negb (na_name create =? 0) with "account name cannot be empty" in
   check* (Z.of_nat (length (Host.to_string (na_name create))) <=? 12)
     with "account names can only be 12 chars long" in
   let* privileged := of_option (account_index d !! na_creator create) "unknown key" in
   check* negb privileged with "not support privileged accounts" in
   check* (na_creator create =? config.system_account_name)
          || (na_creator create =? producers_account_name)
          || (na_creator create =? chain_config_name)
          || negb (has_prefix "force." (na_name create))
     with "only privileged accounts can have names that start with 'force.'" in
   check* (na_creator create =? config.system_account_name)
          || (na_creator create =? producers_account_name)
          || (na_creator create =? chain_config_name)
          || negb (has_prefix "codex." (na_name create))
     with "only privileged accounts can have names that start with 'codex.'" in
   check* bool_decide (account_index d !! na_name create = None)
     with "Cannot create account, as that name is already taken" in
   let d := with_account (na_name create) false d in
   let* _ := validate_authority_precondition (na_owner create) d in
   let* _ := validate_authority_precondition (na_active create) d in
   let* d := create_account_permissions (na_name create) (na_owner create) (na_active create) 0 d in
   Ok (add_ram_usage (na_name create) (account_ram (na_owner create) (na_active create)) d))%res.

Definition permission_ram (auth : authority) : Z :=
  permission_object_size + get_billable_size key_size auth.

(** The checks of [updateauth] before it looks at the permissions. *)
Definition updateauth_checks (update : updateauth) (d : auth_db) : result unit :=
  (let* _ := require_authorization (ua_account update) in
   check* negb (ua_permission update =? 0) with "Cannot create authority with empty name" in
   check* negb (has_prefix "eosio." (ua_permission update))
     with "Permission names that start with 'eosio.' are reserved" in
   check* negb (has_prefix "force." (ua_permission update))
     with "Permission names that start with 'force.' are reserved" in
   check* negb (has_prefix "codex." (ua_permission update))
     with "Permission names that start with 'codex.' are reserved" in
   check* negb (ua_permission update =? ua_parent update)
     with "Cannot set an authority as its own parent" in
   let* _ := of_option (account_index d !! ua_account update) "unknown key" in
   check* validate key_lt (ua_auth update) with "Invalid authority" in
   check* negb (ua_permission update =? active) || (ua_parent update =? owner_name)
     with "Cannot change active authority's parent from owner" in
   let* _ :=
     if ua_permission update =? owner_name
     then rassert (ua_parent update =? 0) "Cannot change owner authority's parent"
     else rassert (negb (ua_parent update =? 0)) "Only owner permission can have empty parent" in
   check* match last (waits (ua_auth update)) with
          | Some w => ww_wait_sec w <=? ne_max_transaction_delay e
          | None => true
          end
     with "Cannot set delay longer than max_transacton_delay" in
   validate_authority_precondition (ua_auth update) d)%res.

Definition apply_system_native_updateauth (update : updateauth) (d : auth_db) : result auth_db :=
  (let* _ := updateauth_checks update d in
   let* permission := find_permission (ua_account update, ua_permission update) d in
   let* parent_id :=
     if ua_permission update =? owner_name then Ok 0
     else let* (parent_id, _) := get_permission (ua_account update, ua_parent update) d in
          Ok parent_id in
   match permission with
   | Some (id, po) =>
       check* (parent_id =? po_parent po)
         with "Changing parent authority is not currently supported" in
       let old_size := permission_ram (po_auth po) in
       let d := modify_permission id po (ua_auth update) (ne_pending_block_time e) d in
       let new_size := permission_ram (ua_auth update) in
       Ok (add_ram_usage (po_owner po) (new_size - old_size) d)
   | None =>
       let* (_, d) := create_permission (ne_pending_block_time e) (ua_account update)
                        (ua_permission update) parent_id (ua_auth update) 0 d in
       Ok (add_ram_usage (ua_account update) (permission_ram (ua_auth update)) d)
   end)%res.

(** A link of the account to the permission. *)
Definition is_linked (account permission : Z) (d : auth_db) : bool :=
  existsb (fun l => (fst (fst (fst l)) =? account) && (snd l =? permission))
    (map_to_list (link_index d)).

Definition apply_system_native_deleteauth (remove : deleteauth) (d : auth_db) : result auth_db :=
  (let* _ := require_authorization (da_account remove) in
   check* negb (da_permission remove =? active) with "Cannot delete active authority" in
   check* negb (da_permission remove =? owner_name) with "Cannot delete owner authority" in
   check* negb (is_linked (da_account remove) (da_permission remove) d)
     with "Cannot delete a linked authority. Unlink the authority first." in
   let* (id, po) := get_permission (da_account remove, da_permission remove) d in
   let old_size := permission_ram (po_auth po) in
   let* d := remove_permission id po d in
   Ok (add_ram_usage (da_account remove) (- old_size) d))%res.

(** [find<permission_object, by_name>]: of any account. *)
Definition permission_named (name : Z) (d : auth_db) : bool :=
  existsb (fun p => po_name (snd p) =? name) (map_to_list (perm_index d)).

Definition apply_system_native_linkauth (requirement : linkauth) (d : auth_db) : result auth_db :=
  (check* negb (la_requirement requirement =? 0) with "Required permission cannot be empty" in
   let* _ := require_authorization (la_account requirement) in
   check* bool_decide (is_Some (account_index d !! la_account requirement))
     with "Failed to retrieve account" in
   check* bool_decide (is_Some (account_index d !! la_code requirement))
     with "Failed to retrieve code for account" in
   check* (la_requirement requirement =? eosio_any_name)
          || permission_named (la_requirement requirement) d
     with "Failed to retrieve permission" in
   let link_key := (la_account requirement, la_code requirement, la_type requirement) in
   let linked := with_links (<[link_key := la_requirement requirement]> (link_index d)) d in
   match link_index d !! link_key with
   | Some required_permission =>
       check* negb (required_permission =? la_requirement requirement)
         with "Attempting to update required authority, but new requirement is same as old" in
       Ok linked
   | None => Ok (add_ram_usage (la_account requirement) permission_link_object_size linked)
   end)%res.

Definition apply_system_native_unlinkauth (unlink : unlinkauth) (d : auth_db) : result auth_db :=
  (let* _ := require_authorization (ul_account unlink) in
   let link_key := (ul_account unlink, ul_code unlink, ul_type unlink) in
   match link_index d !! link_key with
   | None => Err "Attempting to unlink authority, but no link found"
   | Some _ =>
       let d := add_ram_usage (ul_account unlink) (- permission_link_object_size) d in
       Ok (with_links (delete link_key (link_index d)) d)
   end)%res.

(** The actions, by their arguments. *)
Inductive native_action : Type :=
| NNewaccount (a : newaccount)
| NUpdateauth (a : updateauth (key := key))
| NDeleteauth (a : deleteauth)
| NLinkauth (a : linkauth)
| NUnlinkauth (a : unlinkauth).

Definition apply_native (a : native_action) (d : auth_db) : result auth_db :=
  match a with
  | NNewaccount a => apply_system_native_newaccount a d
  | NUpdateauth a => apply_system_native_updateauth a d
  | NDeleteauth a => apply_system_native_deleteauth a d
  | NLinkauth a => apply_system_native_linkauth a d
  | NUnlinkauth a => apply_system_native_unlinkauth a d
  end.
End actions.

(** ** The controller. *)
Section controller.
Context {key : Type} `{!EqDecision key} (key_size : key -> Z).

Abbreviation authority := (Authority.authority (key := key)) (only parsing).
Abbreviation auth_db := (Permissions.auth_db (key := key)) (only parsing).

Definition prod_major : Z := Eval vm_compute in N_ "prod.major".
Definition prod_minor : Z := Eval vm_compute in N_ "prod.minor".

(** [db.modify( permission, po.auth = auth )], when it differs. *)
Definition set_authority (level : permission_level) (auth : authority) (d : auth_db)
  : result auth_db :=
  (let* (id, po) := get_permission level d in
   Ok (with_perms (<[id := PermissionObject (po_usage_id po) (po_parent po) (po_owner po)
                             (po_name po) (po_last_updated po) auth]> (perm_index d))
         (perm_by_owner d) (next_perm_id d) (usage_index d) (next_usage_id d) d))%res.

(** In 32 bits. *)
Definition calculate_threshold (num_producers numerator denominator : Z) : Z :=
  u32 (u32 (num_producers * numerator) / denominator + 1).

Definition producers_authority (producers : list Z) (threshold : Z) : authority :=
  Authority threshold [] (map (fun p => PermissionLevelWeight (p, active) 1) producers) [].

Definition update_producers_authority (producers : list Z) (d : auth_db) : result auth_db :=
  let num_producers := u32 (Z.of_nat (length producers)) in
  let auth numerator denominator :=
    producers_authority producers (calculate_threshold num_producers numerator denominator) in
  (let* d := set_authority (producers_account_name, active) (auth 2 3) d in
   let* d := set_authority (producers_account_name, prod_major) (auth 1 2) d in
   set_authority (producers_account_name, prod_minor) (auth 1 3) d)%res.

(** *** The genesis state. *)

Definition null_account_name : Z := Eval vm_compute in N_ "force.null".
Definition native_account_name : Z := Eval vm_compute in N_ "force.native".
Definition msig_account_name : Z := Eval vm_compute in N_ "force.msig".
Definition relay_account_name : Z := Eval vm_compute in N_ "force.relay".

Definition empty_authority : authority := Authority 1 [] [] [].
Definition key_authority (k : key) : authority := Authority 1 [KeyWeight k 1] [] [].
Definition accounts_authority (levels : list permission_level) : authority :=
  Authority 1 [] (map (fun l => PermissionLevelWeight l 1) levels) [].

(** [authorization_manager::initialize_database] on the empty database: reserves the
    permission 0. *)
Definition initialize_database : auth_db :=
  AuthDb {[0 := PermissionObject 0 0 0 0 0 (Authority 0 [] [] [])]} {[(0, 0) := 0]} 1 ∅ 0 ∅ ∅ ∅ [].

Definition create_native_account (e : native_env) (initial_timestamp : Z) (is_privileged : bool)
    (name : Z) (owner active_ : authority) (d : auth_db) : result auth_db :=
  (check* bool_decide (account_index d !! name = None) with "could not insert object" in
   let d := with_account name is_privileged d in
   let* d := create_account_permissions e name owner active_ initial_timestamp d in
   Ok (add_ram_usage name (account_ram key_size owner active_) d))%res.

Definition update_eosio_authority (d : auth_db) : result auth_db :=
  let auth := accounts_authority [(producers_account_name, active)] in
  (let* d := set_authority (config.system_account_name, active) auth d in
   set_authority (config.token_account_name, active) auth d)%res.

Definition update_reward_authority (d : auth_db) : result auth_db :=
  set_authority (config.reward_account_name, active)
    (accounts_authority [(config.system_account_name, eosio_code_name);
                         (config.relay_token_account_name, eosio_code_name);
                         (config.token_account_name, eosio_code_name)]) d.

Definition update_relay_authority (d : auth_db) : result auth_db :=
  set_authority (relay_account_name, active)
    (accounts_authority [(config.system_account_name, eosio_code_name);
                         (relay_account_name, eosio_code_name)]) d.

(** The accounts and permissions of [initialize_database_force]; [initialize_contract]
    sets the privilege of the system and the msig account. *)
Definition initialize_database_force (e : native_env) (initial_timestamp : Z) (initial_key : key)
    (initial_account_list : list (Z * key)) (d : auth_db) : result auth_db :=
  let create privileged name := create_native_account e initial_timestamp privileged name in
  let system_auth := key_authority initial_key in
  (let* d := create false config.token_account_name system_auth system_auth d in
   let* d := create true msig_account_name system_auth system_auth d in
   let* d := create false config.fee_account_name system_auth system_auth d in
   let* d := create false relay_account_name system_auth system_auth d in
   let* d := create false config.reward_account_name system_auth system_auth d in
   let* d := rfold (fun d account =>
                      let auth := key_authority (snd account) in
                      create false (fst account) auth auth d) d initial_account_list in
   let* d := update_eosio_authority d in
   let* d := update_reward_authority d in
   update_relay_authority d)%res.

(** The accounts and permissions of [initialize_database] of the controller. *)
Definition genesis (e : native_env) (initial_timestamp : Z) (initial_key : key)
    (initial_account_list : list (Z * key)) : result auth_db :=
  let system_auth := key_authority initial_key in
  let producers_auth := accounts_authority [(config.system_account_name, active)] in
  (let* d := create_native_account e initial_timestamp true config.system_account_name
               system_auth system_auth initialize_database in
   let* d := create_native_account e initial_timestamp true native_account_name
               system_auth system_auth d in
   let* d := initialize_database_force e initial_timestamp initial_key initial_account_list d in
   let* d := create_native_account e initial_timestamp false null_account_name
               empty_authority empty_authority d in
   let* d := create_native_account e initial_timestamp false producers_account_name
               empty_authority producers_auth d in
   let* (active_id, _) := get_permission (producers_account_name, active) d in
   let* (majority_id, d) := create_permission (ne_pending_block_time e) producers_account_name
                              prod_major active_id producers_auth initial_timestamp d in
   let* (_, d) := create_permission (ne_pending_block_time e) producers_account_name
                    prod_minor majority_id producers_auth initial_timestamp d in
   Ok d)%res.
End controller.

(** ** The permission tree is kept. *)
Section kept.
Context {key : Type} `{!EqDecision key}.
Implicit Types (d : auth_db (key := key)) (p q : permission_object (key := key)).

(** Every account has its owner and its active permission. *)
Definition accounts_ok d : Prop :=
  forall a, is_Some (account_index d !! a) -> a <> 0 /\
    is_Some (perm_by_owner d !! (a, owner_name)) /\ is_Some (perm_by_owner d !! (a, active)).

Definition db_ok d : Prop := tree_ok d /\ accounts_ok d.

(** The facts about a permission need its parent and its account only. *)
Lemma node_ok_mono d d' id p :
  node_ok d id p ->
  (forall q, perm_index d !! po_parent p = Some q ->
     exists q', perm_index d' !! po_parent p = Some q' /\ po_owner q' = po_owner q /\
       po_name q' = po_name q) ->
  (is_Some (account_index d !! po_owner p) -> is_Some (account_index d' !! po_owner p)) ->
  node_ok d' id p.
Proof.
  intros (? & ? & ? & ? & (q & Hq & Ho & Hn) & Ha & ?) Hp Hacc.
  destruct (Hp q Hq) as (q' & Hq' & Ho' & Hn').
  unfold node_ok. split_and!; [lia|lia|done|done|done| |by apply Hacc|done].
  exists q'. rewrite Ho', Hn'. done.
Qed.

Lemma tree_ok_with_account name b d : tree_ok d -> tree_ok (with_account name b d).
Proof.
  intros []. constructor; try done. intros id p Hp Hid.
  eapply node_ok_mono; [by apply tk_node|by eauto|]. intros Ha.
  cbn [account_index with_account]. rewrite lookup_insert_is_Some'. by right.
Qed.

Lemma tree_ok_with_links l d : tree_ok d -> tree_ok (with_links l d).
Proof. intros []. by constructor. Qed.

Lemma tree_ok_add_ram a x d : tree_ok d -> tree_ok (add_ram_usage a x d).
Proof. intros []. by constructor. Qed.

Lemma tree_ok_zero d p : tree_ok d -> perm_index d !! 0 = Some p -> po_owner p = 0 /\ po_parent p = 0.
Proof. intros Hok Hp. destruct (tk_zero d Hok) as (z & Hz & ? & ? & _). by simplify_eq. Qed.

(** What a parent has to be. *)
Definition parent_ok d (account name parent : Z) : Prop :=
  (parent = 0 <-> name = owner_name) /\
  exists q, perm_index d !! parent = Some q /\ (parent <> 0 -> po_owner q = account) /\
    (name = active -> po_name q = owner_name).

Lemma create_permission_ok now_ account name parent auth t d id d' :
  tree_ok d -> create_permission now_ account name parent auth t d = Ok (id, d') ->
  account <> 0 -> name <> 0 -> is_Some (account_index d !! account) -> parent_ok d account name parent ->
  authority_typed auth ->
  tree_ok d' /\ id = next_perm_id d /\ id <> 0 /\
  (exists p, perm_index d' = <[id := p]> (perm_index d) /\ po_owner p = account /\ po_name p = name /\
     po_auth p = auth) /\
  perm_by_owner d' = <[(account, name) := id]> (perm_by_owner d) /\
  account_index d' = account_index d /\ ram_deltas d' = ram_deltas d /\ link_index d' = link_index d.
Proof.
  intros Hok H Ha Hn Hacc (Hown & q & Hq & Hpo & Hact) Hty. unfold create_permission in H.
  destruct (perm_by_owner d !! (account, name)) eqn:Hnone; [done|]. injection H as <- <-.
  pose proof (tk_ids d Hok) as Hids. pose proof (Hids _ _ Hq) as Hqr.
  assert (Hnew : forall i p, perm_index d !! i = Some p -> i <> next_perm_id d).
  { intros i p Hi. apply Hids in Hi. lia. }
  destruct (tk_zero d Hok) as (z & Hz & Hz'). pose proof (Hids _ _ Hz).
  split; [|split_and!; [done|lia|by eexists; split_and!|done..]].
  constructor; cbn.
  - exists z. rewrite lookup_insert_ne by lia. done.
  - intros i p Hp. apply lookup_insert_Some in Hp as [[<- _]|[_ Hp]]; [lia|]. apply Hids in Hp. lia.
  - intros i p Hp. apply lookup_insert_Some in Hp as [[<- <-]|[Hne Hp]]; cbn.
    + by rewrite lookup_insert_eq.
    + pose proof (tk_index d Hok _ _ Hp) as Hi. rewrite lookup_insert_ne; [done|]. congruence.
  - intros k i Hk. apply lookup_insert_Some in Hk as [[<- <-]|[Hne Hk]].
    + eexists. by rewrite lookup_insert_eq.
    + destruct (tk_back d Hok _ _ Hk) as (p & Hp & ->). exists p.
      rewrite lookup_insert_ne; [done|]. apply Hnew in Hp. done.
  - intros i p Hp Hi. apply lookup_insert_Some in Hp as [[<- <-]|[Hne Hp]].
    + unfold node_ok. split_and!; cbn; [lia|lia|done|done|done| |done|done].
      exists q. rewrite lookup_insert_ne by lia. done.
    + eapply node_ok_mono; [by apply (tk_node d Hok)| |done]. intros r Hr. exists r. cbn.
      rewrite lookup_insert_ne; [done|]. apply Hnew in Hr. done.
  - intros i p Hp Hi. apply lookup_insert_Some in Hp as [[<- <-]|[Hne Hp]]; cbn.
    + rewrite lookup_insert_eq. split; [by eexists|lia].
    + destruct (tk_usage d Hok _ _ Hp Hi) as [? ?]. split; [|lia].
      rewrite lookup_insert_is_Some'. by right.
  - intros i p i' p' Hp Hp' Hi Hi' E.
    apply lookup_insert_Some in Hp as [[<- <-]|[Hne Hp]]; apply lookup_insert_Some in Hp' as [[<- <-]|[Hne' Hp']];
      [done|..|by eapply (tk_usage_inj d Hok)].
    + apply (tk_usage d Hok) in Hp' as [_ ?]; [|done]. cbn in E. lia.
    + apply (tk_usage d Hok) in Hp as [_ ?]; [|done]. cbn in E. lia.
Qed.

(** The same permission with another authority. *)
Definition same_node p p' : Prop :=
  po_usage_id p' = po_usage_id p /\ po_parent p' = po_parent p /\ po_owner p' = po_owner p /\
  po_name p' = po_name p.

Definition replaced d (id : Z) p : auth_db :=
  with_perms (<[id := p]> (perm_index d)) (perm_by_owner d) (next_perm_id d) (usage_index d)
    (next_usage_id d) d.

Lemma replaced_lookup d id p p' i q :
  perm_index d !! id = Some p -> same_node p p' -> perm_index (replaced d id p') !! i = Some q ->
  exists q0, perm_index d !! i = Some q0 /\ same_node q0 q.
Proof.
  intros Hp Hs H. cbn in H. apply lookup_insert_Some in H as [[<- <-]|[_ H]]; [by eauto|].
  exists q. by unfold same_node.
Qed.

Lemma replaced_parent d id p p' i q :
  perm_index d !! id = Some p -> same_node p p' -> perm_index d !! i = Some q ->
  exists q', perm_index (replaced d id p') !! i = Some q' /\ po_owner q' = po_owner q /\ po_name q' = po_name q.
Proof.
  intros Hp (? & ? & ? & ?) Hq. cbn. destruct (decide (i = id)) as [->|Hne].
  - rewrite lookup_insert_eq. simplify_eq. eauto.
  - rewrite lookup_insert_ne by done. eauto.
Qed.

Lemma tree_ok_replaced d id p p' :
  tree_ok d -> perm_index d !! id = Some p -> id <> 0 -> same_node p p' -> authority_typed (po_auth p') ->
  tree_ok (replaced d id p').
Proof.
  intros Hok Hp Hid Hs Hty. pose proof (replaced_lookup d id p p') as Hl. constructor.
  - destruct (tk_zero d Hok) as (z & ?). exists z. cbn. by rewrite lookup_insert_ne.
  - intros i q Hq. destruct (Hl _ _ Hp Hs Hq) as (q0 & Hq0 & _). by apply (tk_ids d Hok) in Hq0.
  - intros i q Hq. destruct (Hl _ _ Hp Hs Hq) as (q0 & Hq0 & _ & _ & -> & ->). by apply (tk_index d Hok).
  - intros k i Hk. destruct (tk_back d Hok _ _ Hk) as (q & Hq & ->).
    destruct (replaced_parent _ _ _ _ _ _ Hp Hs Hq) as (q' & ? & <- & <-). eauto.
  - intros i q Hq Hi. destruct (Hl _ _ Hp Hs Hq) as (q0 & Hq0 & E).
    assert (Hn : node_ok (replaced d id p') i q0).
    { eapply node_ok_mono; [by apply (tk_node d Hok)| |done]. intros. by eapply replaced_parent. }
    destruct E as (_ & E1 & E2 & E3). unfold node_ok in *. rewrite E1, E2, E3.
    destruct Hn as (? & ? & ? & ? & ? & ? & ?). split_and!; [lia|lia|done..|].
    cbn in Hq. apply lookup_insert_Some in Hq as [[<- <-]|[_ Hq]]; [done|].
    simplify_eq. done.
  - intros i q Hq Hi. destruct (Hl _ _ Hp Hs Hq) as (q0 & Hq0 & -> & _). by apply (tk_usage d Hok i).
  - intros i q i' q' Hq Hq' Hi Hi'. destruct (Hl _ _ Hp Hs Hq) as (q0 & Hq0 & -> & _).
    destruct (Hl _ _ Hp Hs Hq') as (q0' & Hq0' & -> & _). by apply (tk_usage_inj d Hok).
Qed.

Lemma has_children_spec id d :
  has_children id d = false <-> forall i p, perm_index d !! i = Some p -> po_parent p <> id.
Proof.
  unfold has_children. split.
  - intros H i p Hp E. apply not_true_iff_false in H. apply H, existsb_exists. exists (i, p). split; [|by apply Z.eqb_eq].
    by apply list_elem_of_In, elem_of_map_to_list.
  - intros H. apply not_true_is_false. intros ([i p] & Hin & E)%existsb_exists.
    apply list_elem_of_In, elem_of_map_to_list in Hin. apply Z.eqb_eq in E. by eapply H.
Qed.

Lemma tree_ok_remove d id p d' :
  tree_ok d -> perm_index d !! id = Some p -> id <> 0 -> remove_permission id p d = Ok d' ->
  tree_ok d' /\ perm_index d' = delete id (perm_index d) /\
  perm_by_owner d' = delete (po_owner p, po_name p) (perm_by_owner d) /\
  account_index d' = account_index d /\ link_index d' = link_index d /\ ram_deltas d' = ram_deltas d.
Proof.
  intros Hok Hp Hid H. unfold remove_permission in H. apply rbind_ok in H as (? & Hc & H).
  apply rassert_ok, negb_true_iff in Hc. rewrite has_children_spec in Hc. injection H as <-.
  split; [|done]. constructor; cbn.
  - destruct (tk_zero d Hok) as (z & ?). exists z. by rewrite lookup_delete_ne.
  - intros i q Hq. apply lookup_delete_Some in Hq as [_ Hq]. by apply (tk_ids d Hok) in Hq.
  - intros i q Hq. apply lookup_delete_Some in Hq as [Hne Hq].
    pose proof (tk_index d Hok _ _ Hq). pose proof (tk_index d Hok _ _ Hp).
    rewrite lookup_delete_ne; [done|]. congruence.
  - intros k i Hk. apply lookup_delete_Some in Hk as [Hne Hk].
    destruct (tk_back d Hok _ _ Hk) as (q & Hq & ->). exists q. split; [|done].
    rewrite lookup_delete_ne; [done|]. intros E. subst i. rewrite Hp in Hq. by injection Hq as ->.
  - intros i q Hq Hi. apply lookup_delete_Some in Hq as [Hne Hq].
    eapply node_ok_mono; [by apply (tk_node d Hok)| |done]. intros r Hr. exists r. cbn.
    rewrite lookup_delete_ne; [done|]. intros E. exact (Hc _ _ Hq (eq_sym E)).
  - intros i q Hq Hi. apply lookup_delete_Some in Hq as [Hne Hq].
    destruct (tk_usage d Hok _ _ Hq Hi). split; [|done].
    rewrite lookup_delete_ne; [done|]. intros E. apply Hne.
    by eapply (tk_usage_inj d Hok _ _ _ _ Hp Hq).
  - intros i q i' q' [_ Hq]%lookup_delete_Some [_ Hq']%lookup_delete_Some. by apply (tk_usage_inj d Hok).
Qed.

(** *** The handlers. *)

Context (key_lt : key -> key -> bool) (key_size : key -> Z) (key_allowed : key -> bool).
Context (e : native_env).

(** The arguments have the widths of their types. *)
Definition native_typed (a : native_action (key := key)) : Prop :=
  match a with
  | NNewaccount a => authority_typed (na_owner a) /\ authority_typed (na_active a)
  | NUpdateauth a => authority_typed (ua_auth a)
  | _ => True
  end.

(** Both permissions of an account, which is there already. *)
Lemma create_account_ok name owner active_ t d d' :
  tree_ok d -> name <> 0 -> is_Some (account_index d !! name) ->
  authority_typed owner -> authority_typed active_ ->
  create_account_permissions e name owner active_ t d = Ok d' ->
  tree_ok d' /\
  (exists i j p q, i <> 0 /\ j <> 0 /\ perm_index d !! i = None /\ perm_index (key := key) d !! j = None /\ i <> j /\
     perm_index d' = <[j := q]> (<[i := p]> (perm_index d)) /\
     po_owner p = name /\ po_owner q = name /\ po_auth p = owner /\ po_auth q = active_ /\
     perm_by_owner d' = <[(name, active) := j]> (<[(name, owner_name) := i]> (perm_by_owner d))) /\
  account_index d' = account_index d /\ ram_deltas d' = ram_deltas d /\ link_index d' = link_index d.
Proof.
  intros Hok Hn Ha Hto Hta H. unfold create_account_permissions in H.
  apply rbind_ok in H as ((i & d1) & H1 & H). apply rbind_ok in H as ((j & d2) & H2 & H).
  injection H as <-. destruct (tk_zero d Hok) as (z & Hz & _).
  apply create_permission_ok in H1 as (Hok1 & Hi & Hi0 & (p & Hp & Ho & Hpn & Hpa) & Hb & Hacc & Hram & Hl); try done.
  2:{ split; [done|]. exists z. done. }
  apply create_permission_ok in H2 as (Hok2 & Hj & Hj0 & (q & Hq & Ho' & Hqn & Hqa) & Hb' & Hacc' & Hram' & Hl'); try done.
  - split; [done|]. rewrite Hacc', Hacc, Hram', Hram, Hl', Hl. split; [|done].
    assert (Hni : perm_index d !! i = None).
    { destruct (perm_index d !! i) eqn:E; [|done]. apply (tk_ids d Hok) in E. lia. }
    assert (Hnj : perm_index d1 !! j = None).
    { destruct (perm_index d1 !! j) eqn:E; [|done]. apply (tk_ids d1 Hok1) in E. lia. }
    rewrite Hp in Hnj. apply lookup_insert_None in Hnj as [Hnj Hne].
    exists i, j, p, q. rewrite Hq, Hp, Hb', Hb. split_and!; done.
  - by rewrite Hacc.
  - split; [by split|]. exists p. rewrite Hp, lookup_insert_eq. split_and!; done.
Qed.

Lemma accounts_ok_mono d d' :
  accounts_ok d -> account_index d' = account_index d ->
  (forall k, is_Some (perm_by_owner d !! k) -> snd k = owner_name \/ snd k = active ->
     is_Some (perm_by_owner d' !! k)) ->
  accounts_ok d'.
Proof.
  intros Hok Ha Hb a Hs. rewrite Ha in Hs. destruct (Hok a Hs) as (? & ? & ?).
  split_and!; [done|apply Hb; simpl; auto..].
Qed.

Lemma newaccount_db_ok a d d' :
  db_ok d -> native_typed (NNewaccount a) ->
  apply_system_native_newaccount key_lt key_size key_allowed e a d = Ok d' -> db_ok d'.
Proof.
  intros [Hok Hacc] [Hto Hta] H. unfold apply_system_native_newaccount in H.
  do 12 (apply rbind_ok in H as (? & ? & H)). apply rbind_ok in H as (d1 & Hc & H). injection H as <-.
  rinv. apply create_account_ok in Hc as (Hok1 & (i & j & p & q & _ & _ & _ & _ & _ & _ & _ & _ & _ & _ & Hb) & Ha & _ & _);
    [|by apply tree_ok_with_account|done|by cbn; rewrite lookup_insert_eq|done|done].
  split; [by apply tree_ok_add_ram|]. intros x Hx. cbn in Hx |- *. rewrite Ha in Hx. cbn in Hx.
  rewrite Hb. rewrite !lookup_insert_is_Some'. apply lookup_insert_is_Some' in Hx as [<-|Hx].
  - split_and!; [done|auto..].
  - destruct (Hacc x Hx) as (? & ? & ?). split_and!; [done|auto..].
Qed.

Lemma updateauth_db_ok a d d' :
  db_ok d -> native_typed (NUpdateauth a) ->
  apply_system_native_updateauth key_lt key_size key_allowed e a d = Ok d' -> db_ok d'.
Proof.
  intros [Hok Hacc] Hty H. unfold apply_system_native_updateauth in H.
  apply rbind_ok in H as (? & Hck & H). apply rbind_ok in H as (o & Ho & H).
  apply rbind_ok in H as (parent & Hpar & H). apply find_permission_ok in Ho as (Hz1 & Hz2 & Ho).
  destruct o as [[id p]|].
  - apply rbind_ok in H as (? & _ & H). injection H as <-.
    destruct (proj1 (Ho id p) eq_refl) as [Hb Hp].
    assert (id <> 0).
    { intros ->. destruct (tk_back d Hok _ _ Hb) as (p' & Hp' & Hk).
      destruct (tree_ok_zero _ _ Hok Hp'). simpl in *. congruence. }
    split; [apply tree_ok_add_ram, (tree_ok_replaced d id p); done|].
    eapply accounts_ok_mono; [exact Hacc|done|]. done.
  - apply rbind_ok in H as ((i & d1) & Hc & H). injection H as <-. unfold updateauth_checks in Hck.
    rinv. apply create_permission_ok in Hc as (Hok1 & _ & _ & _ & Hb & Ha & _ & _); try done.
    + split; [by apply tree_ok_add_ram|]. eapply accounts_ok_mono; [exact Hacc|done|].
      intros k Hk _. cbn. rewrite Hb. rewrite lookup_insert_is_Some'. by right.
    + destruct (Z.eqb_spec (ua_permission a) owner_name) as [E|E].
      * injection Hpar as <-. split; [done|]. destruct (tk_zero d Hok) as (z & Hz & _).
        exists z. split_and!; [done|done|]. intros E'. by rewrite E in E'.
      * apply rbind_ok in Hpar as ((i' & q) & Hq & Hi). injection Hi as ->.
        apply get_permission_names in Hq as ([Hnz _] & Hq & Hk); [|done]. injection Hk as Hk1 Hk2.
        split; [done|]. exists q. split_and!; [done|done|]. intros E'. 
        match goal with H : _ || _ = true |- _ => rewrite E' in H; simpl in H; apply Z.eqb_eq in H end. congruence.
Qed.

Lemma deleteauth_db_ok a d d' :
  db_ok d -> apply_system_native_deleteauth key_size e a d = Ok d' -> db_ok d'.
Proof.
  intros [Hok Hacc] H. unfold apply_system_native_deleteauth in H.
  do 4 (apply rbind_ok in H as (? & ? & H)). apply rbind_ok in H as ((id & p) & Hg & H).
  apply rbind_ok in H as (d1 & Hr & H). injection H as <-.
  apply get_permission_names in Hg as ([Hnz _] & Hp & Hk); [|done]. injection Hk as Hk1 Hk2.
  apply tree_ok_remove in Hr as (Hok1 & _ & Hb & Ha & _ & _); [|done..].
  split; [by apply tree_ok_add_ram|]. eapply accounts_ok_mono; [exact Hacc|done|].
  intros [k1 k2] Hk Hy. cbn in *. rewrite Hb. rewrite lookup_delete_ne; [done|]. rinv.
  intros [= E1 E2]. destruct Hy; congruence.
Qed.

Lemma linkauth_db_ok a d d' :
  db_ok d -> apply_system_native_linkauth e a d = Ok d' -> db_ok d'.
Proof.
  intros [Hok Hacc] H. unfold apply_system_native_linkauth in H.
  do 5 (apply rbind_ok in H as (? & _ & H)). destruct (link_index d !! _).
  - apply rbind_ok in H as (? & _ & H). injection H as <-. split; [by apply tree_ok_with_links|done].
  - injection H as <-. split; [by apply tree_ok_add_ram, tree_ok_with_links|done].
Qed.

Lemma unlinkauth_db_ok a d d' :
  db_ok d -> apply_system_native_unlinkauth e a d = Ok d' -> db_ok d'.
Proof.
  intros [Hok Hacc] H. unfold apply_system_native_unlinkauth in H.
  apply rbind_ok in H as (? & _ & H). destruct (link_index d !! _); [|done]. injection H as <-.
  split; [by apply tree_ok_with_links, tree_ok_add_ram|done].
Qed.

Lemma apply_native_db_ok a d d' :
  db_ok d -> native_typed a -> apply_native key_lt key_size key_allowed e a d = Ok d' -> db_ok d'.
Proof.
  intros Hok Hty H. destruct a; cbn [apply_native] in H.
  - by eapply newaccount_db_ok.
  - by eapply updateauth_db_ok.
  - by eapply deleteauth_db_ok.
  - by eapply linkauth_db_ok.
  - by eapply unlinkauth_db_ok.
Qed.

(** *** The controller. *)

Lemma set_authority_db_ok level auth d d' :
  db_ok d -> authority_typed auth -> set_authority level auth d = Ok d' -> db_ok d'.
Proof.
  intros [Hok Hacc] Hty H. unfold set_authority in H. apply rbind_ok in H as ((id & p) & Hg & H).
  injection H as <-. apply get_permission_names in Hg as ([Hnz _] & Hp & _); [|done].
  split; [by apply (tree_ok_replaced d id p)|]. by eapply accounts_ok_mono.
Qed.

Lemma producers_authority_typed l t : authority_typed (producers_authority (key := key) l (u32 t)).
Proof.
  unfold authority_typed, producers_authority. cbn. split_and!; [constructor| |constructor|..].
  - apply Forall_map, Forall_true. simpl. lia.
  - by apply wrapU_range.
  - by apply wrapU_range.
Qed.

Lemma accounts_authority_typed l : authority_typed (accounts_authority (key := key) l).
Proof.
  unfold authority_typed, accounts_authority. cbn. split_and!; [constructor| |constructor|lia|lia].
  apply Forall_map, Forall_true. simpl. lia.
Qed.

Lemma key_authority_typed (k : key) : authority_typed (key_authority k).
Proof. unfold authority_typed. cbn. split_and!; repeat constructor; simpl; lia. Qed.

Lemma empty_authority_typed : authority_typed (empty_authority (key := key)).
Proof. unfold authority_typed. cbn. split_and!; repeat constructor; simpl; lia. Qed.

Lemma update_producers_db_ok l d d' : db_ok d -> update_producers_authority l d = Ok d' -> db_ok d'.
Proof.
  intros Hok H. unfold update_producers_authority in H. apply rbind_ok in H as (d1 & H1 & H).
  apply rbind_ok in H as (d2 & H2 & H).
  eapply set_authority_db_ok; [|apply producers_authority_typed|exact H].
  eapply set_authority_db_ok; [|apply producers_authority_typed|exact H2].
  by eapply set_authority_db_ok; [|apply producers_authority_typed|exact H1].
Qed.

Lemma native_account_db_ok t b name owner active_ d d' :
  db_ok d -> name <> 0 -> authority_typed owner -> authority_typed active_ ->
  create_native_account key_size e t b name owner active_ d = Ok d' -> db_ok d'.
Proof.
  intros [Hok Hacc] Hn Hto Hta H. unfold create_native_account in H.
  apply rbind_ok in H as (? & ? & H). apply rbind_ok in H as (d1 & Hc & H). injection H as <-.
  apply create_account_ok in Hc as (Hok1 & (i & j & p & q & _ & _ & _ & _ & _ & _ & _ & _ & _ & _ & Hb) & Ha & _ & _);
    [|by apply tree_ok_with_account|done|by cbn; rewrite lookup_insert_eq|done|done].
  split; [by apply tree_ok_add_ram|]. intros y Hy. cbn in Hy |- *. rewrite Ha in Hy. cbn in Hy.
  rewrite Hb. rewrite !lookup_insert_is_Some'. apply lookup_insert_is_Some' in Hy as [<-|Hy].
  - split_and!; [done|auto..].
  - destruct (Hacc y Hy) as (? & ? & ?). split_and!; [done|auto..].
Qed.

Lemma initialize_database_ok : db_ok (initialize_database (key := key)).
Proof.
  unfold initialize_database. split.
  - constructor; cbn.
    + eexists. by rewrite lookup_singleton_eq.
    + intros i p Hp. rows_of Hp. lia.
    + intros i p Hp. rows_of Hp. cbn. done.
    + intros k i Hk. rows_of Hk. eexists. by rewrite lookup_singleton_eq.
    + intros i p Hp. rows_of Hp. done.
    + intros i p Hp. rows_of Hp. done.
    + intros i p i' p' Hp. rows_of Hp. done.
  - intros a Ha. cbn in Ha. rewrite lookup_empty in Ha. by destruct Ha.
Qed.

Create HintDb auth_db.
#[local] Hint Resolve accounts_authority_typed key_authority_typed empty_authority_typed : auth_db.

(** Goes back over the step that made a database. *)
Ltac db_step :=
  match goal with
  | H : create_native_account _ _ _ _ _ _ _ _ = Ok ?d |- db_ok ?d =>
      eapply native_account_db_ok; [|..|exact H]; [|done|auto with auth_db..]
  | H : set_authority _ _ _ = Ok ?d |- db_ok ?d =>
      eapply set_authority_db_ok; [| |exact H]; [|auto with auth_db]
  | |- db_ok initialize_database => apply initialize_database_ok
  end.

Lemma initialize_force_db_ok t k l d d' :
  Forall (fun x => fst x <> 0) l -> db_ok d ->
  initialize_database_force key_size e t k l d = Ok d' -> db_ok d'.
Proof.
  intros Hl Hok H. unfold initialize_database_force in H.
  do 5 (apply rbind_ok in H as (? & ? & H)). apply rbind_ok in H as (d1 & Hf & H).
  apply rbind_ok in H as (d2 & He & H). apply rbind_ok in H as (d3 & Hr & H).
  unfold update_eosio_authority in He. apply rbind_ok in He as (d4 & Hs & He).
  unfold update_reward_authority in Hr. unfold update_relay_authority in H.
  assert (db_ok d1).
  { eapply (rfold_inv db_ok); [|..|exact Hf].
    - intros d0 [name k0] d0' Hin Hd0 Hc. rewrite Forall_forall in Hl. specialize (Hl _ Hin).
      by db_step.
    - by repeat db_step. }
  by repeat db_step.
Qed.

Lemma genesis_db_ok t k l d :
  Forall (fun x => fst x <> 0) l -> genesis key_size e t k l = Ok d -> db_ok d.
Proof.
  intros Hl H. unfold genesis in H. apply rbind_ok in H as (d1 & H1 & H).
  apply rbind_ok in H as (d2 & H2 & H). apply rbind_ok in H as (d3 & H3 & H).
  apply rbind_ok in H as (d4 & H4 & H). apply rbind_ok in H as (d5 & H5 & H).
  apply rbind_ok in H as ((a & p) & Ha & H). apply rbind_ok in H as ((m & d6) & H6 & H).
  apply rbind_ok in H as ((n & d7) & H7 & H). injection H as <-.
  assert (db_ok d2) by (by repeat db_step).
  assert (db_ok d3) by (by eapply initialize_force_db_ok).
  assert (db_ok d5) as [Hok Hacc] by (by repeat db_step).
  apply get_permission_names in Ha as ([Hnz _] & Hp & Hk); [|done]. injection Hk as Hk1 Hk2.
  assert (Hpo : is_Some (account_index d5 !! producers_account_name)).
  { destruct (tk_node d5 Hok a p Hp Hnz) as (_ & _ & _ & _ & _ & Hs & _). by rewrite Hk1. }
  apply create_permission_ok in H6
    as (Hok6 & _ & Hm & (q & Hq & Hqo & Hqn & _) & Hb6 & Ha6 & _ & _);
    [|done|done|done|done| |apply accounts_authority_typed].
  2:{ split; [done|]. exists p. done. }
  apply create_permission_ok in H7 as (Hok7 & _ & _ & _ & Hb7 & Ha7 & _ & _);
    [|done|done|done|by rewrite Ha6| |apply accounts_authority_typed].
  - split; [done|]. eapply accounts_ok_mono; [exact Hacc|by rewrite Ha7|].
    intros y Hy _. rewrite Hb7, Hb6, !lookup_insert_is_Some'. auto.
  - split; [done|]. exists q. rewrite Hq, lookup_insert_eq. done.
Qed.
End kept.

(** ** Reachable permission databases. *)
Section reachable.
Context {key : Type} `{!EqDecision key}.
Context (key_lt : key -> key -> bool) (key_size : key -> Z) (key_allowed : key -> bool).

(** From the genesis state, by native actions in any context, and by the update of the
    producers' permissions at the start of a block. *)
Inductive auth_reachable : auth_db (key := key) -> Prop :=
| reach_genesis e t k l d :
    Forall (fun x => fst x <> 0) l -> genesis key_size e t k l = Ok d -> auth_reachable d
| reach_native e a d d' :
    auth_reachable d -> native_typed a -> apply_native key_lt key_size key_allowed e a d = Ok d' ->
    auth_reachable d'
| reach_producers l d d' :
    auth_reachable d -> update_producers_authority l d = Ok d' -> auth_reachable d'.

(** In every database reached from the genesis state by native actions and updates
    of the producers' permissions, the permissions of each account form a tree under
    its owner permission whose parents were there first, the indices agree, every
    account has its owner and active permission, and each permission has a usage
    record of its own. *)
Theorem auth_reachable_ok d (Hd : auth_reachable d) : db_ok d.
Proof.
  induction Hd as [e t k l d Hl H|e a d d' _ IH Hty H|l d d' _ IH H].
  - by eapply genesis_db_ok.
  - by eapply apply_native_db_ok.
  - by eapply update_producers_db_ok.
Qed.
End reachable.

(** ** The RAM that is charged. *)
Section ram.
#[local] Arguments sum_of : simpl never.
Context {key : Type} `{!EqDecision key}.
Context (key_lt : key -> key -> bool) (key_size : key -> Z) (key_allowed : key -> bool).
Context (e : native_env).
Implicit Types (d : auth_db (key := key)) (p q : permission_object (key := key)).

Definition permission_bytes (account : Z) (_ : Z) p : Z :=
  if po_owner p =? account then permission_ram key_size (po_auth p) else 0.
Definition link_bytes (account : Z) (k : Z * Z * Z) (_ : Z) : Z :=
  if fst (fst k) =? account then permission_link_object_size else 0.
Definition account_bytes (m : gmap Z bool) (account : Z) : Z :=
  match m !! account with Some _ => overhead_per_account_ram_bytes | None => 0 end.

(** The bytes an account's objects take, and the bytes it was charged for. *)
Definition stored d (account : Z) : Z :=
  map_sum (permission_bytes account) (perm_index d) + map_sum (link_bytes account) (link_index d)
  + account_bytes (account_index d) account.
Definition charged d (account : Z) : Z :=
  sum_of (fun x => if fst x =? account then snd x else 0) (ram_deltas d).

Lemma charged_add a x d account :
  charged (add_ram_usage a x d) account = charged d account + (if a =? account then x else 0).
Proof. unfold charged, add_ram_usage. cbn [ram_deltas]. rewrite sum_of_app. unfold sum_of at 2. simpl. lia. Qed.

Lemma stored_add a x d account : stored (add_ram_usage a x d) account = stored d account.
Proof. done. Qed.

(** What is stored and not charged for. *)
Definition unpaid d (account : Z) : Z := stored d account - charged d account.

Lemma newaccount_unpaid a d d' account :
  db_ok d -> native_typed (NNewaccount a) ->
  apply_system_native_newaccount key_lt key_size key_allowed e a d = Ok d' ->
  unpaid d' account = unpaid d account.
Proof.
  intros [Hok _] [Hto Hta] H. unfold apply_system_native_newaccount in H.
  do 12 (apply rbind_ok in H as (? & ? & H)). apply rbind_ok in H as (d1 & Hc & H). injection H as <-.
  rinv. apply create_account_ok in Hc
    as (_ & (i & j & p & q & _ & _ & Hi & Hj & Hij & Hx & Ho & Ho' & Hpa & Hqa & _) & Ha & Hr & Hl);
    [|by apply tree_ok_with_account|done|by cbn; rewrite lookup_insert_eq|done|done].
  unfold unpaid. rewrite charged_add, stored_add. unfold stored, charged. rewrite Hx, Hr, Hl, Ha. cbn.
  cbn in Hi, Hj. rewrite !map_sum_insert_None by (rewrite ?lookup_insert_None; auto).
  unfold permission_bytes at 1 2. rewrite Ho, Ho', Hpa, Hqa. unfold account_bytes, account_ram, permission_ram.
  destruct (Z.eqb_spec (na_name a) account) as [<-|Hne].
  - rewrite lookup_insert_eq. match goal with H : _ = None |- _ => rewrite H end. lia.
  - rewrite lookup_insert_ne by done. lia.
Qed.

Lemma updateauth_unpaid a d d' account :
  db_ok d -> native_typed (NUpdateauth a) ->
  apply_system_native_updateauth key_lt key_size key_allowed e a d = Ok d' ->
  unpaid d' account = unpaid d account.
Proof.
  intros [Hok _] Hty H. unfold apply_system_native_updateauth in H.
  apply rbind_ok in H as (? & Hck & H). apply rbind_ok in H as (o & Ho & H).
  apply rbind_ok in H as (parent & _ & H). apply find_permission_ok in Ho as (_ & _ & Ho).
  unfold unpaid. destruct o as [[id p]|].
  - apply rbind_ok in H as (? & _ & H). injection H as <-.
    destruct (proj1 (Ho id p) eq_refl) as [_ Hp]. rewrite charged_add, stored_add.
    unfold stored, charged, modify_permission. cbn. rewrite map_sum_insert, (at_key_Some _ _ _ _ Hp).
    unfold permission_bytes at 2 3. cbn. destruct (_ =? _); lia.
  - apply rbind_ok in H as ((i & d1) & Hc & H). injection H as <-. rewrite charged_add, stored_add.
    unfold create_permission in Hc. destruct (perm_by_owner d !! _); [done|]. injection Hc as <- <-.
    unfold stored, charged. cbn. rewrite map_sum_insert_None.
    + unfold permission_bytes at 1. cbn. destruct (_ =? _); lia.
    + destruct (perm_index d !! next_perm_id d) eqn:E; [|done]. apply (tk_ids d Hok) in E. lia.
Qed.

Lemma deleteauth_unpaid a d d' account :
  db_ok d -> apply_system_native_deleteauth key_size e a d = Ok d' ->
  unpaid d' account = unpaid d account.
Proof.
  intros [Hok _] H. unfold apply_system_native_deleteauth in H.
  do 4 (apply rbind_ok in H as (? & ? & H)). apply rbind_ok in H as ((id & p) & Hg & H).
  apply rbind_ok in H as (d1 & Hr & H). injection H as <-.
  apply get_permission_names in Hg as ([Hnz _] & Hp & Hk); [|done]. injection Hk as Hk1 Hk2.
  apply tree_ok_remove in Hr as (_ & Hx & _ & Ha & Hl & Hram); [|done..].
  unfold unpaid. rewrite charged_add, stored_add. unfold stored, charged. rewrite Hx, Ha, Hl, Hram.
  rewrite map_sum_delete, (at_key_Some _ _ _ _ Hp). unfold permission_bytes at 2. rewrite Hk1.
  destruct (po_owner p =? account); lia.
Qed.

Lemma linkauth_unpaid a d d' account :
  apply_system_native_linkauth e a d = Ok d' -> unpaid d' account = unpaid d account.
Proof.
  intros H. unfold apply_system_native_linkauth in H. do 5 (apply rbind_ok in H as (? & _ & H)).
  unfold unpaid. destruct (link_index d !! _) eqn:E.
  - apply rbind_ok in H as (? & _ & H). injection H as <-. unfold stored, charged. cbn.
    rewrite map_sum_insert, (at_key_Some _ _ _ _ E). unfold link_bytes at 2 3. lia.
  - injection H as <-. rewrite charged_add, stored_add. unfold stored, charged. cbn.
    rewrite map_sum_insert_None by done. unfold link_bytes at 1. cbn. destruct (_ =? _); lia.
Qed.

Lemma unlinkauth_unpaid a d d' account :
  apply_system_native_unlinkauth e a d = Ok d' -> unpaid d' account = unpaid d account.
Proof.
  intros H. unfold apply_system_native_unlinkauth in H. apply rbind_ok in H as (? & _ & H).
  destruct (link_index d !! _) eqn:E; [|done]. injection H as <-. unfold unpaid.
  match goal with |- context [charged (with_links ?l ?x)] => change (charged (with_links l x)) with (charged x) end.
  rewrite charged_add. unfold stored, charged. cbn. rewrite map_sum_delete, (at_key_Some _ _ _ _ E). unfold link_bytes at 2. cbn.
  destruct (_ =? _); lia.
Qed.

(** Every native action charges each account exactly for the change in the bytes
    its account, permission and link objects take. *)
Theorem native_charges_ram a d d' account
  (Hok : db_ok d) (Hty : native_typed a)
  (H : apply_native key_lt key_size key_allowed e a d = Ok d') :
  stored d' account - stored d account = charged d' account - charged d account.
Proof.
  cut (unpaid d' account = unpaid d account); [unfold unpaid; lia|].
  destruct a; cbn [apply_native] in H.
  - by apply (newaccount_unpaid _ _ _ account) in H.
  - by apply (updateauth_unpaid _ _ _ account) in H.
  - by apply (deleteauth_unpaid _ _ _ account) in H.
  - by apply (linkauth_unpaid _ _ _ account) in H.
  - by apply (unlinkauth_unpaid _ _ _ account) in H.
Qed.
End ram.

(** ** The producers' permissions. *)
Section quorum.
Context {key : Type} `{!EqDecision key}.
Implicit Types (d : auth_db (key := key)).

Lemma authority_of_set level auth d d' level' :
  tree_ok d -> set_authority level auth d = Ok d' ->
  authority_of d' level' = if decide (level' = level) then Some auth else authority_of d level'.
Proof.
  intros Hok H. unfold set_authority in H. apply rbind_ok in H as ((id & p) & Hg & H).
  injection H as <-. pose proof Hg as Hg'. apply get_permission_ok in Hg' as (H1 & H2 & Hb & Hp).
  unfold authority_of, get_permission, find_permission. cbn.
  case_decide as E; [subst level'|].
  - apply Z.eqb_neq in H1, H2. rewrite H1, H2. cbn. rewrite Hb. cbn. by rewrite lookup_insert_eq.
  - destruct (negb _ && negb _); [|done]. cbn.
    destruct (perm_by_owner d !! level') as [i|] eqn:Hi; [|done]. cbn.
    rewrite lookup_insert_ne; [done|]. intros ->.
    destruct (tk_back d Hok _ _ Hi) as (? & ? & ->). destruct (tk_back d Hok _ _ Hb) as (? & ? & ->).
    simplify_eq.
Qed.

(** What is under a map comes from a part of the list. *)
Lemma submseteq_map_inv {A B} (f : A -> B) l ps :
  l ⊆+ map f ps -> exists l0, l = map f l0 /\ l0 ⊆+ ps.
Proof.
  intros (k & Hk)%submseteq_Permutation.
  destruct (Permutation_map_inv f _ (symmetry Hk)) as (l3 & E & Hp).
  symmetry in E. apply map_eq_app in E as (l1 & l2 & -> & <- & <-). exists l1. split; [done|].
  rewrite Hp. by apply submseteq_inserts_r.
Qed.

Lemma submseteq_map {A B} (f : A -> B) l ps : l ⊆+ ps -> map f l ⊆+ map f ps.
Proof.
  intros (k & Hk)%submseteq_Permutation. rewrite Hk, map_app. by apply submseteq_inserts_r.
Qed.

Lemma sum_of_ones (l : list Z) :
  sum_of mp_weight (map (fun p => MPermission (key := key) (PermissionLevelWeight (p, active) 1)) l)
  = Z.of_nat (length l).
Proof. induction l as [|x l IH]; [done|]. cbn [map sum_of foldr mp_weight plw_weight length] in *. unfold sum_of in *. lia. Qed.

(** A quorum of the producers grants their authority. *)
Lemma producers_authority_granted (pta : permission_level -> option (authority (key := key)))
    keys perms delay level producers t :
  pta level = Some (producers_authority producers t) ->
  ~ level ∈ perms -> ~ (fst level, 0) ∈ perms ->
  granted pta keys perms delay level <->
  exists l, l ⊆+ producers /\ (forall p, p ∈ l -> granted pta keys perms delay (p, active)) /\
    t <= Z.of_nat (length l).
Proof.
  intros Hl Hn1 Hn2.
  assert (Hf : factors (producers_authority (key := key) producers t)
               = map (fun p => MPermission (PermissionLevelWeight (p, active) 1)) producers).
  { unfold factors, producers_authority. cbn. by rewrite map_map. }
  split.
  - intros [[?|?]|(auth & l & Ha & Hsub & Hh & Ht)]%granted_inv; [done|done|].
    rewrite Hl in Ha. injection Ha as <-. rewrite Hf in Hsub.
    apply submseteq_map_inv in Hsub as (l0 & -> & Hsub). exists l0. split_and!; [done| |].
    + intros p Hp. rewrite Forall_map, Forall_forall in Hh. exact (Hh p Hp).
    + by rewrite sum_of_ones in Ht.
  - intros (l & Hsub & Hg & Ht).
    eapply (granted_by _ _ _ _ _ _ (map (fun p => MPermission (PermissionLevelWeight (p, active) 1)) l));
      [exact Hl| |..].
    + rewrite Hf. by apply submseteq_map.
    + rewrite Forall_map, Forall_forall. exact Hg.
    + by rewrite sum_of_ones.
Qed.

Lemma calculate_threshold_spec n num den k :
  0 <= n < 2 ^ 30 -> 0 < num <= 2 -> 0 < den ->
  calculate_threshold n num den <= k <-> n * num < den * k.
Proof.
  intros Hn Hnum Hden. unfold calculate_threshold. change (2 ^ 30) with 1073741824 in Hn.
  rewrite (wrapU_small 32 (n * num)) by (width_norm; nia).
  assert (0 <= n * num / den <= n * num) by (split; [apply Z.div_pos; nia|apply Z.div_le_upper_bound; nia]).
  rewrite wrapU_small by (width_norm; nia).
  pose proof (Z.mul_div_le (n * num) den Hden). pose proof (Z.mul_succ_div_gt (n * num) den Hden).
  split; nia.
Qed.

(** The permissions, and the share of the producers they stand for. *)
Definition quorums : list (Z * (Z * Z)) := [(active, (2, 3)); (prod_major, (1, 2)); (prod_minor, (1, 3))].

Lemma update_producers_authorities producers d d' name num den :
  db_ok d -> update_producers_authority producers d = Ok d' -> (name, (num, den)) ∈ quorums ->
  authority_of d' (producers_account_name, name) =
  Some (producers_authority producers
          (calculate_threshold (u32 (Z.of_nat (length producers))) num den)) /\ 0 < num <= 2 /\ 0 < den.
Proof.
  intros Hok H Hin. unfold update_producers_authority in H. apply rbind_ok in H as (d1 & H1 & H).
  apply rbind_ok in H as (d2 & H2 & H).
  pose proof (set_authority_db_ok _ _ _ _ Hok (producers_authority_typed _ _) H1) as Hok1.
  pose proof (set_authority_db_ok _ _ _ _ Hok1 (producers_authority_typed _ _) H2) as Hok2.
  rewrite (authority_of_set _ _ _ _ (producers_account_name, name) (proj1 Hok2) H).
  rewrite (authority_of_set _ _ _ _ (producers_account_name, name) (proj1 Hok1) H2).
  rewrite (authority_of_set _ _ _ _ (producers_account_name, name) (proj1 Hok) H1).
  unfold quorums in Hin. rewrite !elem_of_cons in Hin.
  destruct Hin as [?|[?|[?|Hn]]]; [simplify_eq..|by apply not_elem_of_nil in Hn];
    (split; [|lia]); repeat case_decide; done.
Qed.

(** After the producers' permissions are updated, the active permission of the
    producers' account is granted exactly by more than two thirds of the producers,
    its majority permission by more than one half and its minority permission by
    more than one third. *)
Theorem producers_quorum (producers : list Z) d d' (keys : list key)
  (perms : list permission_level) (delay name num den : Z)
  (Hok : db_ok d) (Hup : update_producers_authority producers d = Ok d')
  (Hlen : Z.of_nat (length producers) < 2 ^ 30)
  (Hname : (name, (num, den)) ∈ quorums)
  (Hp1 : ~ (producers_account_name, name) ∈ perms) (Hp2 : ~ (producers_account_name, 0) ∈ perms) :
  granted (authority_of d') keys perms delay (producers_account_name, name) <->
  exists l, l ⊆+ producers /\
    (forall p, p ∈ l -> granted (authority_of d') keys perms delay (p, active)) /\
    Z.of_nat (length producers) * num < den * Z.of_nat (length l).
Proof.
  destruct (update_producers_authorities _ _ _ _ _ _ Hok Hup Hname) as (Ha & Hnum & Hden).
  rewrite (producers_authority_granted _ _ _ _ _ _ _ Ha Hp1 Hp2).
  rewrite wrapU_small by (change (2 ^ 30) with 1073741824 in Hlen; width_norm; lia).
  split; intros (l & ? & ? & Ht); exists l; (split_and!; [done|done|]);
    (eapply calculate_threshold_spec; [|exact Hnum|exact Hden|exact Ht]; lia).
Qed.
End quorum.

(** ** A concrete chain.

    Keys are numbers.  The genesis accounts are alice with key 2 and bob with key 3. *)
Definition alice : Z := Eval vm_compute in N_ "alice".
Definition bob : Z := Eval vm_compute in N_ "bob".
Definition custom : Z := Eval vm_compute in N_ "custom".
Definition hi : Z := Eval vm_compute in N_ "hi".

Definition ex_env (actor : Z) : native_env := NativeEnv [(actor, active)] 1000 3600 false.
Definition ex_apply (actor : Z) (a : native_action) (d : auth_db) : result (auth_db (key := Z)) :=
  apply_native Z.ltb (fun _ => 34) (fun _ => true) (ex_env actor) a d.
Definition ex_of (r : result (auth_db (key := Z))) : auth_db :=
  match r with Ok d => d | Err _ => initialize_database end.

Definition ex_initial : list (Z * Z) := [(alice, 2); (bob, 3)].
Definition ex_genesis : auth_db := ex_of (genesis (fun _ => 34) (ex_env alice) 5 1 ex_initial).

Lemma ex_genesis_eq : genesis (fun _ => 34) (ex_env alice) 5 1 ex_initial = Ok ex_genesis.
Proof. by vm_compute. Qed.

Lemma ex_initial_named : Forall (fun x => fst x <> 0) ex_initial.
Proof. by repeat constructor. Qed.

Lemma ex_genesis_ok : db_ok ex_genesis.
Proof. eapply genesis_db_ok; [exact ex_initial_named|exact ex_genesis_eq]. Qed.

Definition ex_perm (id : Z) : permission_object :=
  default (PermissionObject 0 0 0 0 0 (Authority 0 [] [] [])) (perm_index ex_genesis !! id).

Definition ex_call : chain_action (key := Z) := ChainAction bob hi [(alice, active)] OtherData.

(** bob makes a permission "custom"; alice links bob::hi to it, which alice does not have. *)
Definition ex_custom : native_action :=
  NUpdateauth (Updateauth bob custom active (key_authority 4)).
Definition ex_link : linkauth := Linkauth alice bob hi custom.
Definition ex_db1 : auth_db := ex_of (ex_apply bob ex_custom ex_genesis).
Definition ex_db2 : auth_db := ex_of (ex_apply alice (NLinkauth ex_link) ex_db1).

Lemma satisfies_iff_above_witness :
  exists r, satisfies (1, ex_perm 1) (2, ex_perm 2) ex_genesis = Ok r /\
    (r = true <-> above ex_genesis 1 2).
Proof.
  apply satisfies_iff_above; [apply ex_genesis_ok|by vm_compute|by vm_compute|done|done].
Defined.

Lemma check_authorization_sound_witness :
  entitled ex_genesis ex_call (alice, active) /\
  ((alice, active) ∈ [] \/
   exists delay,
     check_special (effective_delay (2 ^ 63 - 1) 3600 0) ex_call ex_genesis
       = Ok (special ex_call, delay) /\
     granted (authority_of ex_genesis) [2] [] delay (alice, active)).
Proof.
  apply (check_authorization_sound (2 ^ 63 - 1) 3600 6 [ex_call] [2] [] 0 false []);
    [apply ex_genesis_ok|by vm_compute|left|left].
Defined.

Lemma auth_reachable_ok_witness : db_ok ex_db2.
Proof.
  apply (auth_reachable_ok Z.ltb (fun _ => 34) (fun _ => true)).
  apply (reach_native _ _ _ (ex_env alice) (NLinkauth ex_link) ex_db1); [|done|by vm_compute].
  apply (reach_native _ _ _ (ex_env bob) ex_custom ex_genesis);
    [|apply key_authority_typed|by vm_compute].
  apply (reach_genesis _ _ _ (ex_env alice) 5 1 ex_initial);
    [exact ex_initial_named|exact ex_genesis_eq].
Defined.

Lemma native_charges_ram_witness :
  stored (fun _ => 34) ex_db1 bob - stored (fun _ => 34) ex_genesis bob
  = charged ex_db1 bob - charged ex_genesis bob.
Proof.
  apply (native_charges_ram Z.ltb (fun _ => 34) (fun _ => true) (ex_env bob) ex_custom);
    [apply ex_genesis_ok|apply key_authority_typed|by vm_compute].
Defined.

Definition ex_producers : auth_db := ex_of (update_producers_authority [alice; bob] ex_genesis).

Lemma producers_quorum_witness :
  granted (authority_of ex_producers) [2; 3] [] 0 (producers_account_name, active) <->
  exists l, l ⊆+ [alice; bob] /\
    (forall p, p ∈ l -> granted (authority_of ex_producers) [2; 3] [] 0 (p, active)) /\
    2 * 2 < 3 * Z.of_nat (length l).
Proof.
  apply (producers_quorum [alice; bob] ex_genesis ex_producers [2; 3] [] 0 active 2 3);
    [apply ex_genesis_ok|by vm_compute|done|left|by apply not_elem_of_nil|by apply not_elem_of_nil].
Defined.

(** An account can link an action to a permission that only another account has;
    from then on it can neither authorize that action, nor change or remove the
    link. *)
Theorem link_to_missing_permission (p : Z) :
  check_authorization (2 ^ 63 - 1) 3600 6
    [ChainAction config.system_account_name linkauth_name [(alice, active)] (LinkauthData ex_link)]
    [2] [] 0 false [] ex_db1 = Ok tt /\
  ex_apply alice (NLinkauth ex_link) ex_db1 = Ok ex_db2 /\
  perm_by_owner ex_db2 !! (alice, custom) = None /\
  is_ok (check_minimum ex_call (alice, p) ex_db2) = false /\
  is_ok (check_linkauth_authorization (Linkauth alice bob hi active) [(alice, p)] ex_db2) = false /\
  is_ok (check_unlinkauth_authorization (Unlinkauth alice bob hi) [(alice, p)] ex_db2) = false.
Proof. by vm_compute. Qed.
