(* ===== verification/Inline.v ===== *)
(** * Inline actions.

    [apply_context::execute_inline]: which inline actions the code of an account may
    send, by the permissions of the chain.  On a producing node this discharges the
    assumption on permissions under which the system account stays solvent. *)
From stdpp Require Import base gmap list strings.
From Stdlib Require Import ZArith Lia.
From S2P Require Import Prelude Name Asset Runtime Token SystemState Voting Staking Bandwidth Exec.
From S2P Require Import World Authority Permissions NativeActions.

Open Scope Z_scope.

(** The node and the transaction an inline action is sent in. *)
Record node := Node {
  is_producing_block : bool;
  skip_auth_check : bool;
  enforce_whiteblacklist : bool;
  max_transaction_delay : Z;
  max_authority_depth : nat;
  elapsed : Z;  (* [pending_block_time() - trx_context.published] *)
}.

Section inline.
Context {key : Type} `{!EqDecision key}.
Context (microseconds_maximum : Z).
(** [controller::check_actor_list]: the lists a producing node was configured with. *)
Context (actor_allowed : Z -> bool).
Context (n : node).
Abbreviation auth_db := (Permissions.auth_db (key := key)) (only parsing).

(** One declared authorization of the inline action. *)
Definition inline_auth_exists (d : auth_db) (auth : permission_level) : result unit :=
  (check* bool_decide (is_Some (account_index d !! fst auth))
     with "inline action's authorizing actor does not exist" in
   let* o := find_permission auth d in
   rassert (bool_decide (o <> None))
     "inline action's authorizations include a non-existent permission")%res.

(** [receiver] runs the code, for the action [act]; [a] is what it sends. *)
Definition execute_inline (d : auth_db) (privileged : bool) (receiver : Z)
    (act a : chain_action (key := key)) : result unit :=
  (check* bool_decide (is_Some (account_index d !! ca_account a))
     with "inline action's code account does not exist" in
   let send_to_self := ca_account a =? receiver in
   let inherit_parent_authorizations :=
     send_to_self && (receiver =? ca_account act) && is_producing_block n in
   let* _ := rfold (fun _ auth => inline_auth_exists d auth) tt (ca_authorization a) in
   let inherited_authorizations :=
     if inherit_parent_authorizations
     then List.filter (fun auth => bool_decide (auth ∈ ca_authorization act)) (ca_authorization a)
     else [] in
   check* negb (enforce_whiteblacklist n && is_producing_block n)
          || forallb (fun auth => actor_allowed (fst auth)) (ca_authorization a)
     with "authorizing actor of transaction is on the blacklist" in
   if skip_auth_check n || privileged then Ok tt else
   match check_authorization microseconds_maximum (max_transaction_delay n) (max_authority_depth n)
           [a] [] [(receiver, eosio_code_name)] (elapsed n) false inherited_authorizations d with
   | Ok _ => Ok tt
   | Err m =>
       if negb send_to_self then Err m
       else if is_producing_block n
       then Err "Authorization failure with inline action sent to self"
       else Ok tt
   end)%res.

Lemma inline_checked d receiver act a level :
  tree_ok d -> skip_auth_check n = false -> is_producing_block n = true \/ ca_account a <> receiver ->
  execute_inline d false receiver act a = Ok tt -> level ∈ ca_authorization a ->
  entitled d a level /\
  (level ∈ ca_authorization act \/
   exists delay, granted (authority_of d) [] [(receiver, eosio_code_name)] delay level).
Proof.
  intros Hok Hskip Hself H Hl. unfold execute_inline in H.
  do 3 (apply rbind_ok in H as (? & _ & H)). rewrite Hskip in H. cbn [orb] in H.
  destruct (check_authorization _ _ _ _ _ _ _ _ _ _) as [[]|m] eqn:Hc.
  - destruct (check_authorization_entitled _ _ _ _ _ _ _ _ _ _ _ _ Hok Hc ltac:(left) Hl) as [? Hg].
    split; [done|]. destruct Hg as [Hin|(delay & _ & Hg)]; [left|right; eauto].
    destruct (_ && _ && _); [|by apply not_elem_of_nil in Hin].
    apply list_elem_of_In, filter_In in Hin as [_ Hin]. by apply bool_decide_eq_true in Hin.
  - destruct (Z.eqb_spec (ca_account a) receiver); cbn [negb] in H; [|done].
    destruct Hself as [Hp|?]; [|done]. by rewrite Hp in H.
Qed.

(** The actions of the contracts; none of them has an authorization rule of its own. *)
Definition to_chain (a : action) : chain_action (key := key) :=
  ChainAction (act_account a) (act_name a) (act_authorization a) OtherData.

(** [exec_one] takes the privilege of the receiver's account. *)
Definition is_privileged (d : auth_db) (receiver : Z) : bool :=
  default false (account_index d !! receiver).

Definition inline_allowed_by (d : auth_db) (receiver : Z) (parent act : action) : bool :=
  is_ok (execute_inline d (is_privileged d receiver) receiver (to_chain parent) (to_chain act)).

(** No account but the system account is privileged, and no code but the system
    contract's is granted a permission of the system account. *)
Definition system_protected (d : auth_db) : Prop :=
  forall receiver, receiver <> sys_acct ->
    is_privileged d receiver = false /\
    forall permission delay,
      ~ granted (authority_of d) [] [(receiver, eosio_code_name)] delay (sys_acct, permission).

Lemma producing_not_delegated d :
  tree_ok d -> skip_auth_check n = false -> is_producing_block n = true -> system_protected d ->
  not_delegated (inline_allowed_by d).
Proof.
  intros Hok Hskip Hprod Hsys receiver parent act Hr H Hf. unfold inline_allowed_by in H.
  destruct (Hsys receiver Hr) as [Hpriv Hno]. rewrite Hpriv in H.
  destruct (execute_inline _ _ _ _ _) as [[]|] eqn:He; [|done].
  unfold foreign, has_authorization in *. apply not_true_iff_false. intros (p & Hp & E)%existsb_exists.
  apply Z.eqb_eq in E. apply list_elem_of_In in Hp.
  destruct (inline_checked _ _ _ _ p Hok Hskip (or_introl Hprod) He Hp) as [_ [Hin|(delay & Hg)]].
  - apply not_true_iff_false in Hf. apply Hf, existsb_exists. exists p.
    split; [by apply list_elem_of_In|by apply Z.eqb_eq].
  - destruct p as [a perm]. simpl in E. subst a. by eapply Hno.
Qed.
End inline.

(** ** Theorems. *)

Section theorems.
Context {key : Type} `{!EqDecision key}.
Context (microseconds_maximum : Z) (actor_allowed : Z -> bool) (n : node).
Implicit Types (d : auth_db (key := key)).

(** An inline action that passes the check, other than one an account sends to
    itself on a validating node, carries only authorizations that its sender
    inherited from the action it runs or that the permissions of the chain grant to
    the sender's code. *)
Theorem inline_only_authorized d (receiver : Z) (act a : chain_action) (level : permission_level)
  (Hok : tree_ok d) (Hskip : skip_auth_check n = false)
  (Hself : is_producing_block n = true \/ ca_account a <> receiver)
  (H : execute_inline microseconds_maximum actor_allowed n d false receiver act a = Ok tt)
  (Hlevel : level ∈ ca_authorization a) :
  entitled d a level /\
  (level ∈ ca_authorization act \/
   exists delay, granted (authority_of d) [] [(receiver, eosio_code_name)] delay level).
Proof. by eapply inline_checked. Qed.

(** On a producing node the check of inline actions implements the assumption of
    solvency: if no other code is granted a permission of the system account, every
    run of actions keeps what the system account holds for its users covered. *)
(** C1: On a node that produces blocks and checks authorizations, in every run of token,
    staking and bandwidth actions with all the inline transfers they send, the
    balance of the system account in the token contract keeps covering what it holds
    for its users: frozen, unstaking and voted stakes, delegated bandwidth and
    pending refunds. The actions that start the run do not carry the authority of
    the system account and have amounts below 2^62; the permissions form well-formed
    trees, and neither privilege nor a permission of the system account is given to
    other code; the build has no multiple votes, as by default. On a validating node
    the check of actions sent to oneself is skipped, and the same fails (theorem
    self_bypass_theft). *)
Theorem producing_node_solvent d (fuel depth : nat) (w w' : world) (acts : list (chain_env * action))
  (Hok : tree_ok d) (Hskip : skip_auth_check n = false) (Hprod : is_producing_block n = true)
  (Hsys : system_protected d) (Hw : covered 0 w)
  (Hacts : Forall (fun x => act_typed (snd x) /\ foreign (snd x)) acts)
  (Hrun : run_all (inline_allowed_by microseconds_maximum actor_allowed n d) fuel depth w acts = Ok w') :
  covered 0 w'.
Proof.
  assert (Hnd : not_delegated (inline_allowed_by microseconds_maximum actor_allowed n d))
    by by apply producing_not_delegated.
  eapply (rfold_inv (covered 0)); [|exact Hw|exact Hrun].
  intros w1 [ce act] w2 Hx Hw1 H. rewrite Forall_forall in Hacts.
  destruct (Hacts _ Hx) as [Hty Hf]. by eapply exec_covered.
Qed.
End theorems.

(** ** A concrete chain.

    The accounts of [World]'s example, each with one key; only the system account is
    privileged. *)
Definition ex_keys : list (Z * Z) :=
  [(config.token_account_name, 2); (ex_voter, 3); (ex_bp, 4); (config.match_account_name, 5)].
Definition ex_create (privileged : bool) (name k : Z) (d : auth_db) : result (auth_db (key := Z)) :=
  create_native_account (fun _ => 34) (ex_env sys_acct) 5 privileged name (key_authority k)
    (key_authority k) d.
Definition ex_system : auth_db := ex_of (ex_create true sys_acct 1 initialize_database).
Definition ex_chain : auth_db :=
  ex_of (rfold (fun d x => ex_create false (fst x) (snd x) d) ex_system ex_keys).

Lemma ex_keys_named : Forall (fun x => fst x <> 0) ex_keys.
Proof. by repeat constructor. Qed.

Lemma sys_named : sys_acct <> 0.
Proof. done. Qed.

Lemma ex_chain_ok : db_ok ex_chain.
Proof.
  assert (H1 : ex_create true sys_acct 1 initialize_database = Ok ex_system) by by vm_compute.
  assert (H2 : rfold (fun d x => ex_create false (fst x) (snd x) d) ex_system ex_keys = Ok ex_chain)
    by by vm_compute.
  eapply (rfold_inv db_ok); [|..|exact H2].
  - intros d1 [name k] d2 Hin Hd1 H. eapply native_account_db_ok; [exact Hd1|..|exact H];
      [|apply key_authority_typed..].
    pose proof ex_keys_named as Hn. rewrite Forall_forall in Hn. exact (Hn _ Hin).
  - unfold ex_create in H1. eapply native_account_db_ok; [apply initialize_database_ok|exact sys_named|apply key_authority_typed..|exact H1].
Qed.

(** Its authorities ask for keys only. *)
Definition keys_only (auth : authority (key := Z)) : bool :=
  (0 <? threshold auth) && bool_decide (accounts auth = []) && bool_decide (waits auth = []).

Lemma ex_chain_keys level auth : authority_of ex_chain level = Some auth -> keys_only auth = true.
Proof.
  intros H. unfold authority_of in H. destruct (get_permission level ex_chain) as [[id p]|] eqn:E; [|done].
  injection H as <-. apply get_permission_names in E as ([Hnz _] & Hp & _); [|apply ex_chain_ok].
  assert (Hall : forallb (fun x => (fst x =? 0) || keys_only (po_auth (snd x)))
                   (map_to_list (perm_index ex_chain)) = true) by by vm_compute.
  rewrite forallb_forall in Hall. apply elem_of_map_to_list, list_elem_of_In, Hall in Hp.
  cbn [fst snd] in Hp. apply Z.eqb_neq in Hnz. by rewrite Hnz in Hp.
Qed.

Lemma no_key_not_granted level perms delay :
  ~ level ∈ perms -> ~ (fst level, 0) ∈ perms ->
  ~ granted (authority_of ex_chain) [] perms delay level.
Proof.
  intros H1 H2 [[?|?]|(auth & l & Ha & Hsub & Hh & Ht)]%granted_inv; [done|done|].
  apply ex_chain_keys in Ha. unfold keys_only in Ha. rinv.
  destruct l as [|m l]; [cbn in Ht; lia|]. apply Forall_cons in Hh as [Hm _].
  assert (Hin : m ∈ factors auth) by (eapply elem_of_submseteq; [left|exact Hsub]).
  unfold factors in Hin. repeat match goal with H : _ = [] |- _ => rewrite H in Hin end.
  cbn in Hin. rewrite app_nil_r in Hin. apply list_elem_of_fmap in Hin as (k & -> & _).
  cbn in Hm. by apply not_elem_of_nil in Hm.
Qed.

Lemma ex_chain_protected : system_protected ex_chain.
Proof.
  intros receiver Hr. split.
  - unfold is_privileged. destruct (account_index ex_chain !! receiver) as [b|] eqn:E; [|done]. cbn.
    assert (Hall : forallb (fun x => (fst x =? sys_acct) || negb (snd x))
                     (map_to_list (account_index ex_chain)) = true) by by vm_compute.
    rewrite forallb_forall in Hall. apply elem_of_map_to_list, list_elem_of_In, Hall in E.
    cbn in E. apply Z.eqb_neq in Hr. rewrite Hr in E. by destruct b.
  - intros permission delay. apply no_key_not_granted; rewrite list_elem_of_singleton; by intros [=].
Qed.

(** A producing and a validating node. *)
Definition ex_node (producing : bool) : node := Node producing false false 3600 6 0.
Definition ex_allowed (producing : bool) : Z -> action -> action -> bool :=
  inline_allowed_by (2 ^ 63 - 1) (fun _ => true) (ex_node producing) ex_chain.

(** The actions of [World]'s example, checked by a producing node. *)
Definition ex_paid : world :=
  match run_all (ex_allowed true) 3 1 ex_world ex_acts with Ok w => w | Err _ => ex_world end.

Lemma inline_only_authorized_witness :
  entitled ex_chain (ChainAction ex_bp active [(ex_voter, active)] OtherData) (ex_voter, active) /\
  ((ex_voter, active) ∈ [(ex_voter, active)] \/
   exists delay, granted (authority_of ex_chain) [] [(ex_bp, eosio_code_name)] delay (ex_voter, active)).
Proof.
  apply (inline_only_authorized (2 ^ 63 - 1) (fun _ => true) (ex_node true) ex_chain ex_bp
           (ChainAction ex_bp active [(ex_voter, active)] OtherData));
    [apply ex_chain_ok|done|by left|by vm_compute|left].
Defined.

Lemma producing_node_solvent_witness : covered 0 ex_paid /\ sys_balance ex_paid = 11020000.
Proof.
  split; [|by vm_compute].
  apply (producing_node_solvent (2 ^ 63 - 1) (fun _ => true) (ex_node true) ex_chain 3 1 ex_world
           ex_paid ex_acts);
    [apply ex_chain_ok|done|done|apply ex_chain_protected|apply ex_world_covered|exact ex_acts_typed|by vm_compute].
Defined.

(** The voter trades what belongs to the system account. *)
Definition ex_theft : list (chain_env * action) :=
  [(ChainEnv {[sys_acct; ex_voter; ex_bp; config.match_account_name]} 100 1000,
    Action config.token_account_name (N_ "trade") [(ex_voter, active)]
      (trade_args sys_acct config.match_account_name (Asset 9000000 CORE_SYMBOL)
         Token.func_type_match "mine"))].
Definition ex_stolen : world :=
  match run_all (ex_allowed false) 3 1 ex_world ex_theft with Ok w => w | Err _ => ex_world end.

(** A validating node accepts a block in which an account trades the tokens of the
    system account away without its authority: trade sends a transfer to the token
    contract itself, and outside block production the failed authorization of an
    action sent to oneself is ignored. A producing node refuses the same action. *)
Theorem self_bypass_theft :
  system_protected ex_chain /\ Forall (fun x => foreign (snd x)) ex_theft /\
  is_ok (run_all (ex_allowed true) 3 1 ex_world ex_theft) = false /\
  run_all (ex_allowed false) 3 1 ex_world ex_theft = Ok ex_stolen /\
  sys_balance ex_world = 9000000 /\ sys_balance ex_stolen = 0.
Proof.
  split_and!; [exact ex_chain_protected|by repeat constructor|by vm_compute..].
Qed.
