(* ===== verification/Merkle.v ===== *)
(** * Merkle roots.

    [merkle.cpp] and [incremental_merkle.hpp]: the root of a list of digests, and the
    tree that block ids are appended to one at a time.  The hash of a pair of digests
    is the sha256 of a library, and a parameter. *)
From stdpp Require Import base list.
From Stdlib Require Import ZArith Lia.
From S2P Require Import Prelude.

Open Scope Z_scope.

(** The four 64-bit words of a digest. *)
Record digest_type := Digest { hash0 : Z; hash1 : Z; hash2 : Z; hash3 : Z }.

#[global] Instance digest_eq_dec : EqDecision digest_type.
Proof. solve_decision. Defined.

(** [digest_type()]. *)
Definition zero_digest : digest_type := Digest 0 0 0 0.

Definition make_canonical_left (val : digest_type) : digest_type :=
  Digest (Z.land (hash0 val) 0xFFFFFFFFFFFFFF7F) (hash1 val) (hash2 val) (hash3 val).
Definition make_canonical_right (val : digest_type) : digest_type :=
  Digest (Z.lor (hash0 val) 0x0000000000000080) (hash1 val) (hash2 val) (hash3 val).
Definition is_canonical_left (val : digest_type) : bool :=
  Z.land (hash0 val) 0x0000000000000080 =? 0.
Definition is_canonical_right (val : digest_type) : bool :=
  negb (Z.land (hash0 val) 0x0000000000000080 =? 0).

(** ** Depths. *)

Definition next_power_of_2 (value : Z) : Z :=
  let value := u64 (value - 1) in
  let value := Z.lor value (Z.shiftr value 1) in
  let value := Z.lor value (Z.shiftr value 2) in
  let value := Z.lor value (Z.shiftr value 4) in
  let value := Z.lor value (Z.shiftr value 8) in
  let value := Z.lor value (Z.shiftr value 16) in
  let value := Z.lor value (Z.shiftr value 32) in
  u64 (value + 1).

Definition clz_power_2 (value : Z) : Z :=
  let drop_if lz mask n := if Z.land value mask =? 0 then lz else lz - n in
  let lz := 64 in
  let lz := if value =? 0 then lz else lz - 1 in
  let lz := drop_if lz 0x00000000FFFFFFFF 32 in
  let lz := drop_if lz 0x0000FFFF0000FFFF 16 in
  let lz := drop_if lz 0x00FF00FF00FF00FF 8 in
  let lz := drop_if lz 0x0F0F0F0F0F0F0F0F 4 in
  let lz := drop_if lz 0x3333333333333333 2 in
  drop_if lz 0x5555555555555555 1.

Definition calcluate_max_depth (node_count : Z) : Z :=
  if node_count =? 0 then 0 else
  let implied_count := next_power_of_2 node_count in
  clz_power_2 implied_count + 1.

Section merkle.
(** [digest_type::hash] of a pair. *)
Context (hash : digest_type * digest_type -> digest_type).

Definition make_canonical_pair (l r : digest_type) : digest_type * digest_type :=
  (make_canonical_left l, make_canonical_right r).

(** The node over two others. *)
Definition node (l r : digest_type) : digest_type := hash (make_canonical_pair l r).

(** ** [merkle]. *)

(** One round of the loop: the last digest is doubled where their number is odd. *)
Fixpoint pair_up (ids : list digest_type) : list digest_type :=
  match ids with
  | x :: y :: ids => node x y :: pair_up ids
  | [x] => [node x x]
  | [] => []
  end.

(** The loop halves the number of digests; the fuel is their number. *)
Fixpoint merkle_loop (fuel : nat) (ids : list digest_type) : option digest_type :=
  match ids with
  | [x] => Some x
  | _ =>
      match fuel with
      | O => None
      | S fuel => merkle_loop fuel (pair_up ids)
      end
  end.

Definition merkle (ids : list digest_type) : option digest_type :=
  match ids with
  | [] => Some zero_digest
  | _ => merkle_loop (length ids) ids
  end.

(** ** [incremental_merkle]. *)

Record incremental_merkle := IncrementalMerkle {
  node_count : Z;
  active_nodes : list digest_type;
}.

Definition empty_merkle : incremental_merkle := IncrementalMerkle 0 [].

(** The variables of the loop of [append]. *)
Record append_loop := AppendLoop {
  al_partial : bool;
  al_index : Z;
  al_top : digest_type;
  al_active_iter : list digest_type;
  al_updated : list digest_type;
}.

(** One level up.  There is no step where the iterator is at the end. *)
Definition append_level (s : append_loop) : option append_loop :=
  let index := Z.shiftr (al_index s) 1 in
  if Z.land (al_index s) 0x1 =? 0 then
    Some (AppendLoop true index (node (al_top s) (al_top s)) (al_active_iter s)
            (if al_partial s then al_updated s else al_updated s ++ [al_top s]))
  else
    match al_active_iter s with
    | [] => None
    | left_value :: active_iter =>
        Some (AppendLoop (al_partial s) index (node left_value (al_top s)) active_iter
                (if al_partial s then al_updated s ++ [left_value] else al_updated s))
    end.

Fixpoint append_levels (current_depth : nat) (s : append_loop) : option append_loop :=
  match current_depth with
  | O => Some s
  | S current_depth => s ← append_level s; append_levels current_depth s
  end.

Definition append (digest : digest_type) (m : incremental_merkle) : option incremental_merkle :=
  let max_depth := calcluate_max_depth (u64 (node_count m + 1)) in
  s ← append_levels (Z.to_nat (max_depth - 1))
        (AppendLoop false (node_count m) digest (active_nodes m) []);
  Some (IncrementalMerkle (u64 (node_count m + 1)) (al_updated s ++ [al_top s])).

(** [_active_nodes.back()] is not defined where there is none. *)
Definition get_root (m : incremental_merkle) : option digest_type :=
  if 0 <? node_count m then last (active_nodes m) else Some zero_digest.

(** Appends in turn. *)
Fixpoint append_all (ids : list digest_type) (m : incremental_merkle) : option incremental_merkle :=
  match ids with
  | [] => Some m
  | x :: ids => m ← append x m; append_all ids m
  end.

(** ** The tree of a list of digests. *)

(** The root of the tree of depth [d] over at most [2 ^ d] digests; a right half that
    is missing is implied to be the left one. *)
Fixpoint tree_root (d : nat) (l : list digest_type) : digest_type :=
  match d with
  | O => default zero_digest (head l)
  | S d =>
      if (length l <=? 2 ^ d)%nat then let t := tree_root d l in node t t
      else node (tree_root d (take (2 ^ d)%nat l)) (tree_root d (drop (2 ^ d)%nat l))
  end.

(** The complete subtrees to the left of the next digest, lowest first. *)
Fixpoint pending (d : nat) (l : list digest_type) : list digest_type :=
  match d with
  | O => []
  | S d =>
      if (length l <? 2 ^ d)%nat then pending d l
      else if (length l <? 2 ^ S d)%nat
      then pending d (drop (2 ^ d)%nat l) ++ [tree_root d (take (2 ^ d)%nat l)]
      else []
  end.
End merkle.

(** ** The bit arithmetic of the depths. *)

(** [y] has the bits of [x] and of [x] shifted right by less than [m]. *)
Definition smeared (m x y : Z) : Prop :=
  0 <= y /\ forall i, 0 <= i ->
    Z.testbit y i = true <-> exists j, 0 <= j < m /\ Z.testbit x (i + j) = true.

Lemma smeared_refl x : 0 <= x -> smeared 1 x x.
Proof.
  intros Hx. split; [done|]. intros i Hi. split.
  - intros H. exists 0. rewrite Z.add_0_r. split; [lia|done].
  - intros (j & Hj & H). replace (i + j) with i in H by lia. done.
Qed.

Lemma smeared_double m x y :
  0 < m -> smeared m x y -> smeared (2 * m) x (Z.lor y (Z.shiftr y m)).
Proof.
  intros Hm [Hy H]. split; [apply Z.lor_nonneg; split; [done|by apply Z.shiftr_nonneg]|].
  intros i Hi. rewrite Z.lor_spec, Z.shiftr_spec, orb_true_iff, H, H by lia. split.
  - intros [(j & ? & Hj)|(j & ? & Hj)].
    + exists j. split; [lia|done].
    + exists (j + m). split; [lia|]. by replace (i + (j + m)) with (i + m + j) by lia.
  - intros (j & ? & Hj). destruct (Z.lt_ge_cases j m).
    + left. exists j. split; [lia|done].
    + right. exists (j - m). split; [lia|]. by replace (i + m + (j - m)) with (i + j) by lia.
Qed.

(** All the bits below the highest one are set. *)
Lemma smeared_ones x y : 0 < x < 2 ^ 64 -> smeared 64 x y -> y = Z.ones (Z.log2 x + 1).
Proof.
  intros Hx [Hy H]. apply Z.bits_inj'. intros i Hi.
  assert (Hlog : Z.log2 x < 64) by (apply Z.log2_lt_pow2; lia). pose proof (Z.log2_nonneg x).
  destruct (Z.lt_ge_cases i (Z.log2 x + 1)).
  - rewrite Z.ones_spec_low by lia. apply H; [done|]. exists (Z.log2 x - i). split; [lia|].
    replace (i + (Z.log2 x - i)) with (Z.log2 x) by lia. apply Z.bit_log2. lia.
  - rewrite Z.ones_spec_high by lia. apply not_true_is_false. rewrite H by done. intros (j & Hj & E).
    rewrite Z.bits_above_log2 in E by lia. done.
Qed.

Lemma next_power_of_2_spec v : 1 <= v <= 2 ^ 63 -> next_power_of_2 v = 2 ^ Z.log2_up v.
Proof.
  intros Hv. unfold next_power_of_2. rewrite (wrapU_small 64 (v - 1)) by (width_norm; lia).
  destruct (Z.eq_dec v 1) as [->|Hne]; [by vm_compute|].
  set (x := v - 1). assert (Hx : 0 < x < 2 ^ 63) by (unfold x; lia).
  pose proof (smeared_refl x ltac:(lia)) as H.
  apply smeared_double in H; [|lia]. change (2 * 1) with 2 in H.
  apply smeared_double in H; [|lia]. change (2 * 2) with 4 in H.
  apply smeared_double in H; [|lia]. change (2 * 4) with 8 in H.
  apply smeared_double in H; [|lia]. change (2 * 8) with 16 in H.
  apply smeared_double in H; [|lia]. change (2 * 16) with 32 in H.
  apply smeared_double in H; [|lia]. change (2 * 32) with 64 in H.
  apply smeared_ones in H; [|width_norm; lia]. rewrite H. clear H.
  assert (Hl : Z.log2_up v = Z.log2 x + 1) by
    (rewrite Z.log2_up_eqn by lia; replace (Z.pred v) with x by (unfold x; lia); lia).
  rewrite Hl. assert (Z.log2 x < 63) by (apply Z.log2_lt_pow2; lia). pose proof (Z.log2_nonneg x).
  rewrite Z.ones_equiv. replace (Z.pred (2 ^ (Z.log2 x + 1)) + 1) with (2 ^ (Z.log2 x + 1)) by lia.
  apply wrapU_small. split; [lia|]. apply Z.pow_lt_mono_r; lia.
Qed.

(** The count is that of the zeros after the bit, not before it. *)
Lemma clz_power_2_spec k : 0 <= k < 64 -> clz_power_2 (2 ^ k) = k.
Proof.
  intros Hk.
  assert (Hall : forallb (fun n => clz_power_2 (2 ^ Z.of_nat n) =? Z.of_nat n) (seq 0 64) = true)
    by by vm_compute.
  rewrite forallb_forall in Hall. specialize (Hall (Z.to_nat k)).
  rewrite Z2Nat.id in Hall by lia. apply Z.eqb_eq, Hall, in_seq. lia.
Qed.

(** The number of levels over the digests. *)
Definition levels (n : nat) : nat := Nat.log2_up n.

Lemma log2_up_levels n : (0 < n)%nat -> Z.log2_up (Z.of_nat n) = Z.of_nat (levels n).
Proof.
  intros Hn. destruct (Nat.eq_dec n 1) as [->|]; [done|]. unfold levels.
  assert (0 < Nat.log2_up n)%nat by (apply Nat.log2_up_pos; lia).
  destruct (Nat.log2_up_spec n ltac:(lia)) as [H1 H2].
  apply Z.log2_up_unique; [lia|]. rewrite <- Nat2Z.inj_pred by lia.
  change 2 with (Z.of_nat 2). rewrite <- !Nat2Z.inj_pow. lia.
Qed.

Lemma calcluate_max_depth_spec n :
  (0 < n)%nat -> Z.of_nat n <= 2 ^ 63 ->
  calcluate_max_depth (Z.of_nat n) = Z.of_nat (levels n) + 1.
Proof.
  intros Hn Hb. unfold calcluate_max_depth. rewrite (proj2 (Z.eqb_neq _ 0)) by lia.
  rewrite next_power_of_2_spec by lia.
  assert (Z.log2_up (Z.of_nat n) <= 63) by (apply Z.log2_up_le_pow2; lia).
  pose proof (Z.log2_up_nonneg (Z.of_nat n)). rewrite clz_power_2_spec by lia.
  by rewrite log2_up_levels.
Qed.

Lemma levels_spec n : (0 < n)%nat -> (n <= 2 ^ levels n)%nat.
Proof. intros Hn. unfold levels. destruct (Nat.eq_dec n 1) as [->|]; [done|]. apply Nat.log2_up_spec. lia. Qed.

Lemma levels_least n d : (n <= 2 ^ d)%nat -> (levels n <= d)%nat.
Proof. intros H. unfold levels. rewrite <- (Nat.log2_up_pow2 d) by lia. by apply Nat.log2_up_le_mono. Qed.

Lemma levels_above n d : (2 ^ d < n)%nat -> (d < levels n)%nat.
Proof. intros H. unfold levels. apply Nat.log2_up_lt_pow2; lia. Qed.

(** ** Both compute the root of the tree. *)
Section roots.
Context (hash : digest_type * digest_type -> digest_type).
Abbreviation pair_up := (pair_up hash).
Abbreviation tree_root := (tree_root hash).
Abbreviation pending := (pending hash).

Lemma pair_up_length l : length (pair_up l) = ((length l + 1) / 2)%nat.
Proof.
  cut (forall n l, (length l <= n)%nat -> length (pair_up l) = ((length l + 1) / 2)%nat); [eauto|].
  clear l. induction n as [|n IH]; intros l Hl; destruct l as [|x [|y l]]; cbn [length Merkle.pair_up] in *;
    try done; [lia|].
  rewrite IH by lia. replace (S (S (length l)) + 1)%nat with (length l + 1 + 1 * 2)%nat by lia.
  rewrite Nat.div_add by lia. lia.
Qed.

Lemma pair_up_bound d l : (length l <= 2 ^ S d)%nat <-> (length (pair_up l) <= 2 ^ d)%nat.
Proof.
  rewrite pair_up_length, Nat.pow_succ_r'. split; intros H.
  - apply Nat.lt_succ_r, Nat.Div0.div_lt_upper_bound. lia.
  - pose proof (Nat.div_mod_eq (length l + 1) 2). pose proof (Nat.mod_upper_bound (length l + 1) 2). lia.
Qed.

Lemma pair_up_take m : forall l, pair_up (take (2 * m) l) = take m (pair_up l).
Proof.
  induction m as [|m IH]; intros l; [done|].
  replace (2 * S m)%nat with (S (S (2 * m))) by lia.
  destruct l as [|x [|y l]]; cbn; [done|by rewrite firstn_nil|]. f_equal. apply IH.
Qed.

Lemma pair_up_drop m : forall l, pair_up (drop (2 * m) l) = drop m (pair_up l).
Proof.
  induction m as [|m IH]; intros l; [done|].
  replace (2 * S m)%nat with (S (S (2 * m))) by lia.
  destruct l as [|x [|y l]]; cbn; [done|by rewrite skipn_nil|]. apply IH.
Qed.

Lemma tree_root_S d l :
  tree_root (S d) l =
  if (length l <=? 2 ^ d)%nat then node hash (tree_root d l) (tree_root d l)
  else node hash (tree_root d (take (2 ^ d)%nat l)) (tree_root d (drop (2 ^ d)%nat l)).
Proof. done. Qed.

(** One round on the digests takes one level off the tree. *)
Lemma tree_root_pair_up d : forall l,
  (0 < length l <= 2 ^ S d)%nat -> tree_root (S d) l = tree_root d (pair_up l).
Proof.
  induction d as [|d IH]; intros l Hl.
  - destruct l as [|x [|y [|z l]]]; simpl in *; try done; lia.
  - rewrite (tree_root_S (S d)), (tree_root_S d (pair_up l)).
    destruct (Nat.leb_spec (length l) (2 ^ S d)) as [Hle|Hgt].
    + pose proof (proj1 (pair_up_bound d l) Hle) as Hp. apply Nat.leb_le in Hp. rewrite Hp.
      rewrite IH by lia. done.
    + assert (Hp : (length (pair_up l) <=? 2 ^ d)%nat = false).
      { apply Nat.leb_gt. destruct (Nat.lt_ge_cases (2 ^ d) (length (pair_up l))) as [|H]; [done|].
        apply (proj2 (pair_up_bound _ _)) in H. lia. }
      rewrite Hp, !IH; [|rewrite length_drop|rewrite length_take];
        rewrite ?(Nat.pow_succ_r' 2 (S d)) in *; [|lia|lia].
      rewrite (Nat.pow_succ_r' 2 d), pair_up_take, pair_up_drop. done.
Qed.

Lemma merkle_loop_root fuel : forall d l,
  (0 < length l <= 2 ^ d)%nat -> (d = 0 \/ 2 ^ (d - 1) < length l)%nat -> (d <= fuel)%nat ->
  merkle_loop hash fuel l = Some (tree_root d l).
Proof.
  induction fuel as [|fuel IH]; intros d l Hl Hd Hf.
  - assert (d = 0%nat) as -> by lia. destruct l as [|x [|y l]]; simpl in *; try done; lia.
  - destruct d as [|d]; [destruct l as [|x [|y l]]; simpl in *; try done; lia|].
    destruct Hd as [?|Hd]; [lia|]. replace (S d - 1)%nat with d in Hd by lia.
    rewrite tree_root_pair_up by done.
    destruct l as [|x [|y l]]; [simpl in *; lia|pose proof (Nat.pow_nonzero 2 d); simpl in *; lia|].
    change (merkle_loop hash fuel (pair_up (x :: y :: l)) = Some (tree_root d (pair_up (x :: y :: l)))).
    apply IH; [|destruct d as [|d]; [by left|right]|lia].
    + split; [cbn; lia|]. apply (proj1 (pair_up_bound _ _)). lia.
    + replace (S d - 1)%nat with d by lia.
      destruct (Nat.lt_ge_cases (2 ^ d) (length (pair_up (x :: y :: l)))) as [|H]; [done|].
      apply (proj2 (pair_up_bound _ _)) in H. lia.
Qed.

Lemma merkle_root l : l <> [] -> merkle hash l = Some (tree_root (levels (length l)) l).
Proof.
  intros Hne. destruct l as [|x l]; [done|]. cbn [merkle].
  assert (Hn : (0 < length (x :: l))%nat) by (cbn; lia). apply merkle_loop_root.
  - pose proof (levels_spec _ Hn). lia.
  - destruct (levels (length (x :: l))) as [|d] eqn:E; [by left|right].
    replace (S d - 1)%nat with d by lia.
    destruct (Nat.lt_ge_cases (2 ^ d) (length (x :: l))) as [|H]; [done|].
    apply levels_least in H. lia.
  - apply levels_least. assert (length (x :: l) < 2 ^ length (x :: l))%nat by (apply Nat.pow_gt_lin_r; lia).
    lia.
Qed.

(** *** The incremental tree. *)

Lemma append_levels_top d : forall s,
  append_levels hash (S d) s = s' ← append_levels hash d s; append_level hash s'.
Proof.
  induction d as [|d IH]; intros s; cbn [append_levels].
  - cbn. by destruct (append_level hash s).
  - destruct (append_level hash s) as [s'|]; [|done]. cbn. apply IH.
Qed.

Lemma pending_S d l :
  pending (S d) l =
  if (length l <? 2 ^ d)%nat then pending d l
  else if (length l <? 2 ^ S d)%nat
  then pending d (drop (2 ^ d)%nat l) ++ [tree_root d (take (2 ^ d)%nat l)]
  else [].
Proof. done. Qed.

Lemma pending_nil d : pending d [] = [].
Proof.
  induction d as [|d IH]; [done|]. cbn [Merkle.pending length]. pose proof (Nat.pow_nonzero 2 d).
  by rewrite (proj2 (Nat.ltb_lt 0 _)) by lia.
Qed.

Lemma pending_full d l : length l = (2 ^ d)%nat -> pending d l = [].
Proof.
  intros Hl. destruct d as [|d]; [done|]. cbn [Merkle.pending]. rewrite Hl.
  pose proof (Nat.pow_nonzero 2 d). rewrite !(proj2 (Nat.ltb_ge _ _)); [done|lia|].
  rewrite Nat.pow_succ_r'. lia.
Qed.

Lemma land_1_even k : Z.land (2 * k) 1 =? 0 = true.
Proof. change 1 with (Z.ones 1). rewrite Z.land_ones by lia. apply Z.eqb_eq. rewrite Z.mul_comm. by apply Z.mod_mul. Qed.

Lemma land_1_odd k : Z.land (2 * k + 1) 1 =? 0 = false.
Proof.
  change (Z.land (2 * k + 1) 1) with (Z.land (2 * k + 1) (Z.ones 1)). rewrite Z.land_ones by lia.
  apply Z.eqb_neq. change (2 ^ 1) with 2. rewrite Z.add_comm, Z.mul_comm, Z.mod_add by lia. done.
Qed.

Lemma shiftr_even k : Z.shiftr (2 * k) 1 = k.
Proof. rewrite Z.shiftr_div_pow2 by lia. change (2 ^ 1) with 2. rewrite Z.mul_comm. by apply Z.div_mul. Qed.

Lemma shiftr_odd k : Z.shiftr (2 * k + 1) 1 = k.
Proof.
  rewrite Z.shiftr_div_pow2 by lia. change (2 ^ 1) with 2.
  rewrite Z.add_comm, (Z.mul_comm 2), Z.div_add by lia. done.
Qed.

(** The loop collapses the new digest with the pending subtrees, over [d] levels. *)
Lemma append_levels_spec d : forall l x rest k,
  (length l < 2 ^ d)%nat ->
  append_levels hash d
    (AppendLoop false (Z.of_nat (length l) + k * 2 ^ Z.of_nat d) x (pending d l ++ rest) []) =
  Some (AppendLoop (length (l ++ [x]) <? 2 ^ d)%nat k (tree_root d (l ++ [x])) rest
          (pending d (l ++ [x]))).
Proof.
  induction d as [|d IH]; intros l x rest k Hl.
  - destruct l; [|simpl in *; lia]. cbn. do 2 f_equal. lia.
  - rewrite append_levels_top. rewrite Nat2Z.inj_succ, Z.pow_succ_r by lia.
    rewrite Nat.pow_succ_r' in Hl. destruct (Nat.lt_ge_cases (length l) (2 ^ d)) as [Hlt|Hge].
    + replace (k * (2 * 2 ^ Z.of_nat d)) with ((2 * k) * 2 ^ Z.of_nat d) by lia.
      rewrite !pending_S, tree_root_S, (proj2 (Nat.ltb_lt (length l) _) Hlt), IH by done.
      cbn [mbind option_bind].
      unfold append_level. cbn [al_index al_top al_partial al_active_iter al_updated].
      rewrite land_1_even, shiftr_even. rewrite !length_app, Nat.pow_succ_r'.
      cbn [length]. do 2 f_equal.
      * symmetry. apply Nat.ltb_lt. lia.
      * by rewrite (proj2 (Nat.leb_le _ _)) by lia.
      * destruct (Nat.ltb_spec (length l + 1) (2 ^ d)); [done|].
        assert (Hf : length (l ++ [x]) = (2 ^ d)%nat) by (rewrite length_app; cbn; lia).
        rewrite (proj2 (Nat.ltb_lt _ _)) by lia. rewrite take_ge, drop_ge by lia.
        by rewrite pending_nil, (pending_full d _ Hf).
    + set (R := drop (2 ^ d) l).
      assert (HR : length l = (2 ^ d + length R)%nat) by (unfold R; rewrite length_drop; lia).
      assert (HRx : drop (2 ^ d) (l ++ [x]) = R ++ [x]) by (unfold R; by rewrite drop_app_le).
      assert (Hidx : Z.of_nat (length l) + k * (2 * 2 ^ Z.of_nat d)
                     = Z.of_nat (length R) + (2 * k + 1) * 2 ^ Z.of_nat d).
      { rewrite HR, Nat2Z.inj_add, Nat2Z.inj_pow. lia. }
      rewrite Hidx, !pending_S, tree_root_S. fold R.
      rewrite (proj2 (Nat.ltb_ge (length l) _) Hge), (proj2 (Nat.ltb_lt (length l) (2 ^ S d)))
        by (rewrite Nat.pow_succ_r'; lia).
      rewrite <- app_assoc, IH by lia. cbn [mbind option_bind].
      unfold append_level. cbn [al_index al_top al_partial al_active_iter al_updated].
      rewrite land_1_odd, shiftr_odd, HRx, take_app_le by done. cbn [app].
      rewrite !length_app, Nat.pow_succ_r'. cbn [length]. do 2 f_equal.
      * apply eq_true_iff_eq. rewrite !Nat.ltb_lt. lia.
      * by rewrite (proj2 (Nat.leb_gt _ _)) by lia.
      * rewrite (proj2 (Nat.ltb_ge (length l + 1) _)) by lia.
        destruct (Nat.ltb_spec (length R + 1) (2 ^ d));
          [by rewrite (proj2 (Nat.ltb_lt _ _)) by lia|].
        rewrite (proj2 (Nat.ltb_ge (length l + 1) _)) by lia.
        apply pending_full. rewrite length_app. cbn. lia.
Qed.

(** What the tree stores after these digests. *)
Definition merkle_of (l : list digest_type) : incremental_merkle :=
  IncrementalMerkle (Z.of_nat (length l))
    (match l with
     | [] => []
     | _ => pending (levels (length l)) l ++ [tree_root (levels (length l)) l]
     end).

(** The stored nodes begin with those the next append takes. *)
Lemma merkle_of_active l :
  exists rest, active_nodes (merkle_of l) = pending (levels (length l + 1)) l ++ rest.
Proof.
  destruct l as [|y l']; [by exists []|]. set (l := y :: l').
  assert (Hn : (0 < length l)%nat) by (cbn; lia).
  change (active_nodes (merkle_of l)) with (pending (levels (length l)) l ++ [tree_root (levels (length l)) l]).
  pose proof (levels_spec _ Hn) as Hs. pose proof (levels_spec (length l + 1) ltac:(lia)) as Hs'.
  destruct (Nat.eq_dec (length l) (2 ^ levels (length l))) as [Hf|Hf].
  - assert (levels (length l + 1) = S (levels (length l))) as ->.
    { apply Nat.le_antisymm; [apply levels_least; rewrite Nat.pow_succ_r'; lia|].
      apply levels_above. lia. }
    exists []. rewrite pending_S, (proj2 (Nat.ltb_ge _ _)), (proj2 (Nat.ltb_lt _ _)) by
      (rewrite ?Nat.pow_succ_r'; lia).
    by rewrite app_nil_r, drop_ge, take_ge, pending_nil, pending_full by lia.
  - assert (levels (length l + 1) = levels (length l)) as ->; [|by eauto].
    apply Nat.le_antisymm; [apply levels_least; lia|]. apply levels_least. lia.
Qed.

Lemma append_merkle_of x l :
  Z.of_nat (length l) < 2 ^ 63 -> append hash x (merkle_of l) = Some (merkle_of (l ++ [x])).
Proof.
  intros Hb. unfold append. change (node_count (merkle_of l)) with (Z.of_nat (length l)).
  replace (Z.of_nat (length l) + 1) with (Z.of_nat (length l + 1)) by lia.
  rewrite (wrapU_small 64 (Z.of_nat (length l + 1))) by (width_norm; lia).
  rewrite calcluate_max_depth_spec by lia. rewrite Z.add_simpl_r, Nat2Z.id.
  destruct (merkle_of_active l) as [rest ->].
  pose proof (append_levels_spec (levels (length l + 1)) l x rest 0) as H.
  rewrite Z.mul_0_l, Z.add_0_r in H. rewrite H.
  - cbn [mbind option_bind]. unfold merkle_of. rewrite length_app. cbn [length].
    destruct l; done.
  - pose proof (levels_spec (length l + 1)). lia.
Qed.

Lemma append_all_merkle_of ids : forall l,
  Z.of_nat (length (l ++ ids)) <= 2 ^ 63 ->
  append_all hash ids (merkle_of l) = Some (merkle_of (l ++ ids)).
Proof.
  induction ids as [|x ids IH]; intros l Hb; cbn [append_all]; [by rewrite app_nil_r|].
  rewrite length_app in Hb. cbn [length] in Hb. rewrite append_merkle_of by lia. cbn [mbind option_bind].
  rewrite IH; rewrite <- app_assoc; [done|]. rewrite length_app. cbn [app length]. lia.
Qed.
End roots.

(** ** Theorem. *)
(** C37: Appending digests one by one to the incremental tree yields, after each of
    them, the root that the plain algorithm computes from the whole list; no append
    reads past the stored nodes. *)
Theorem incremental_merkle_correct (hash : digest_type * digest_type -> digest_type)
  (ids : list digest_type) (Hlen : Z.of_nat (length ids) <= 2 ^ 63) :
  exists m, append_all hash ids empty_merkle = Some m /\
    node_count m = Z.of_nat (length ids) /\ get_root m = merkle hash ids.
Proof.
  exists (merkle_of hash ids). split_and!; [|done|].
  - apply (append_all_merkle_of hash ids []). done.
  - unfold get_root. change (node_count (merkle_of hash ids)) with (Z.of_nat (length ids)).
    destruct ids as [|x ids]; [done|]. rewrite (proj2 (Z.ltb_lt _ _)) by (cbn; lia).
    rewrite merkle_root by done. cbn [merkle_of active_nodes]. by rewrite last_snoc.
Qed.

Lemma incremental_merkle_correct_witness :
  exists m, append_all fst [Digest 1 2 3 4; Digest 5 6 7 8; Digest 9 10 11 12] empty_merkle = Some m /\
    node_count m = 3 /\
    get_root m = merkle fst [Digest 1 2 3 4; Digest 5 6 7 8; Digest 9 10 11 12].
Proof. apply (incremental_merkle_correct fst [Digest 1 2 3 4; Digest 5 6 7 8; Digest 9 10 11 12]). done. Defined.
