(* ===== verification/BlockState.v ===== *)
(** * Block headers and the state they build.

    [block_header_state.cpp] with [block_header.hpp], [producer_schedule.hpp] and
    [block_timestamp.hpp]: which producer may sign the next block, the confirmations
    that producers give to earlier blocks, and which blocks become irreversible.  The
    hashes of headers and schedules, and the recovery of the key a digest was signed
    with, belong to a library and are parameters. *)
From stdpp Require Import base gmap list sorting strings.
From Stdlib Require Import ZArith Lia.
From S2P Require Import Prelude Merkle.

Open Scope Z_scope.

(** ** Configuration, as the build script sets it. *)
Definition block_interval_ms : Z := 1000.
Definition block_timestamp_epoch : Z := 946684800000.
Definition producer_repetitions : Z := 3.
Definition max_producers : Z := 21.
Definition maximum_tracked_dpos_confirmations : nat := 1024.

(** ** [block_timestamp]: the number of the slot, in 32 bits. *)

(** [operator fc::time_point], in microseconds. *)
Definition to_time_point (slot : Z) : Z := i64 (slot * block_interval_ms + block_timestamp_epoch) * 1000.

(** [set_time_point]: the arithmetic is unsigned, the epoch being an [uint64_t]. *)
Definition from_time_point (t : Z) : Z :=
  let msec_since_epoch := Z.quot t 1000 in
  u32 (u64 (msec_since_epoch - block_timestamp_epoch) / block_interval_ms).

Definition timestamp_next (slot : Z) : result Z :=
  (check* (1 <=? 2 ^ 32 - 1 - slot) with "block timestamp overflow" in Ok (slot + 1))%res.

Section state.
Context {key signature : Type} `{!EqDecision key}.

Record producer_key := ProducerKey { producer_name : Z; pk_signing_key : key }.
Record producer_schedule_type := ProducerSchedule { version : Z; producers : list producer_key }.

(** Nothing where the source returns the empty key. *)
Definition get_producer_key (schedule : producer_schedule_type) (p : Z) : option key :=
  pk_signing_key <$> List.find (fun i => producer_name i =? p) (producers schedule).

Record signed_block_header := Header {
  timestamp : Z;
  producer : Z;
  confirmed : Z;
  previous : digest_type;
  transaction_mroot : digest_type;
  action_mroot : digest_type;
  schedule_version : Z;
  new_producers : option producer_schedule_type;
  header_extensions : list (list Z);
  producer_signature : option signature;
}.

Definition empty_header : signed_block_header :=
  Header 0 0 1 zero_digest zero_digest zero_digest 0 None [] None.

Record header_confirmation := HeaderConfirmation {
  hc_block_id : digest_type;
  hc_producer : Z;
  hc_producer_signature : signature;
}.

(** The digest leaves the signature out. *)
Context (header_digest : signed_block_header -> digest_type).
Context (schedule_digest : producer_schedule_type -> digest_type).
Context (hash_pair : digest_type * digest_type -> digest_type).
(** [fc::crypto::public_key( signature, digest )]. *)
Context (recover : signature -> digest_type -> option key).
(** [fc::endian_reverse_u32]. *)
Context (endian_reverse_u32 : Z -> Z).

Definition num_from_id (id : digest_type) : Z := endian_reverse_u32 (u32 (hash0 id)).

Definition header_block_num (h : signed_block_header) : Z := u32 (num_from_id (previous h) + 1).

(** [block_header::id]: the number of the block in place of the lowest 32 bits. *)
Definition header_id (h : signed_block_header) : digest_type :=
  let result := header_digest h in
  Digest (u64 (Z.land (hash0 result) 0xffffffff00000000 + endian_reverse_u32 (header_block_num h)))
    (hash1 result) (hash2 result) (hash3 result).

Record block_header_state := BlockHeaderState {
  id : digest_type;
  block_num : Z;
  header : signed_block_header;
  dpos_proposed_irreversible_blocknum : Z;
  dpos_irreversible_blocknum : Z;
  bft_irreversible_blocknum : Z;
  pending_schedule_lib_num : Z;
  pending_schedule_hash : digest_type;
  pending_schedule : producer_schedule_type;
  active_schedule : producer_schedule_type;
  blockroot_merkle : incremental_merkle;
  producer_to_last_produced : gmap Z Z;
  producer_to_last_implied_irb : gmap Z Z;
  block_signing_key : option key;
  confirm_count : list Z;
  confirmations : list header_confirmation;
}.

Definition with_header (h : signed_block_header) (s : block_header_state) : block_header_state :=
  BlockHeaderState (id s) (block_num s) h (dpos_proposed_irreversible_blocknum s)
    (dpos_irreversible_blocknum s) (bft_irreversible_blocknum s) (pending_schedule_lib_num s)
    (pending_schedule_hash s) (pending_schedule s) (active_schedule s) (blockroot_merkle s)
    (producer_to_last_produced s) (producer_to_last_implied_irb s) (block_signing_key s)
    (confirm_count s) (confirmations s).

Definition with_confirmed (proposed : Z) (counts : list Z) (s : block_header_state) : block_header_state :=
  BlockHeaderState (id s) (block_num s) (header s) proposed
    (dpos_irreversible_blocknum s) (bft_irreversible_blocknum s) (pending_schedule_lib_num s)
    (pending_schedule_hash s) (pending_schedule s) (active_schedule s) (blockroot_merkle s)
    (producer_to_last_produced s) (producer_to_last_implied_irb s) (block_signing_key s)
    counts (confirmations s).

Definition with_schedules (lib_num : Z) (hash : digest_type) (pending active : producer_schedule_type)
    (last_produced last_implied : gmap Z Z) (s : block_header_state) : block_header_state :=
  BlockHeaderState (id s) (block_num s) (header s) (dpos_proposed_irreversible_blocknum s)
    (dpos_irreversible_blocknum s) (bft_irreversible_blocknum s) lib_num hash pending active
    (blockroot_merkle s) last_produced last_implied (block_signing_key s) (confirm_count s)
    (confirmations s).

(** ** Producers and irreversibility. *)

Definition has_pending_producers (s : block_header_state) : bool :=
  negb (length (producers (pending_schedule s)) =? 0)%nat.

Definition is_active_producer (n : Z) (s : block_header_state) : bool :=
  bool_decide (is_Some (producer_to_last_produced s !! n)).

(** The remainder of a division by zero where there is no producer. *)
Definition get_scheduled_producer (t : Z) (s : block_header_state) : result producer_key :=
  let n := Z.of_nat (length (producers (active_schedule s))) in
  (check* negb (n =? 0) with "division by zero" in
   of_option (producers (active_schedule s) !! Z.to_nat (t mod (n * producer_repetitions) / producer_repetitions))
     "out of range")%res.

(** The number at one third of the sorted list. *)
Definition third (blocknums : list Z) : Z :=
  match blocknums with
  | [] => 0
  | _ => default 0 (merge_sort Z.le blocknums !! ((length blocknums - 1) / 3)%nat)
  end.

Definition calc_dpos_last_irreversible (last_implied : gmap Z Z) : Z :=
  third (map snd (map_to_list last_implied)).

(** [confirm_count] with the new block at its end; the oldest entry goes where all
    are tracked. *)
Definition grow_confirm_count (confirm_count : list Z) (required_confs : Z) : list Z :=
  if (length confirm_count <? maximum_tracked_dpos_confirmations)%nat
  then confirm_count ++ [u8 required_confs]
  else tail confirm_count ++ [u8 required_confs].

Definition required_confs (s : block_header_state) : Z :=
  Z.of_nat (length (producers (active_schedule s))) * 2 / 3 + 1.

(** [generate_next]; [when] is zero for the slot after this one. *)
Definition generate_next (when : Z) (s : block_header_state) : result block_header_state :=
  (let* when :=
     if negb (when =? 0)
     then check* (timestamp (header s) <? when) with "next block must be in the future" in Ok when
     else Ok (u32 (timestamp (header s) + 1)) in
   let* prokey := get_scheduled_producer when s in
   let block_num' := u32 (block_num s + 1) in
   let last_implied :=
     <[producer_name prokey := dpos_proposed_irreversible_blocknum s]> (producer_to_last_implied_irb s) in
   let* merkle := of_option (append hash_pair (id s) (blockroot_merkle s)) "reads past the active nodes" in
   Ok (BlockHeaderState zero_digest block_num'
         (Header when (producer_name prokey) 1 (id s) zero_digest zero_digest
            (version (active_schedule s)) None [] None)
         (dpos_proposed_irreversible_blocknum s)
         (calc_dpos_last_irreversible last_implied)
         (bft_irreversible_blocknum s) (pending_schedule_lib_num s) (pending_schedule_hash s)
         (pending_schedule s) (active_schedule s) merkle
         (<[producer_name prokey := block_num']> (producer_to_last_produced s))
         last_implied (Some (pk_signing_key prokey))
         (grow_confirm_count (confirm_count s) (required_confs s)) []))%res.

(** The maps of the new producers: what is known of each, or the irreversible block. *)
Definition for_producers (l : list producer_key) (known : gmap Z Z) (lib : Z) : gmap Z Z :=
  fold_left (fun m pro => <[producer_name pro := default lib (known !! producer_name pro)]> m) l ∅.

Definition maybe_promote_pending (s : block_header_state) : block_header_state * bool :=
  if negb (length (producers (pending_schedule s)) =? 0)%nat
     && (pending_schedule_lib_num s <=? dpos_irreversible_blocknum s) then
    let active := pending_schedule s in
    let lib := dpos_irreversible_blocknum s in
    (with_schedules (pending_schedule_lib_num s) (pending_schedule_hash s)
       (ProducerSchedule (version active) []) active
       (<[producer (header s) := block_num s]>
          (for_producers (producers active) (producer_to_last_produced s) lib))
       (for_producers (producers active) (producer_to_last_implied_irb s) lib) s, true)
  else (s, false).

Definition set_new_producers (pending : producer_schedule_type) (s : block_header_state)
  : result block_header_state :=
  (check* (version pending =? u32 (version (active_schedule s) + 1))
     with "wrong producer schedule version specified" in
   check* (length (producers (pending_schedule s)) =? 0)%nat
     with "cannot set new pending producers until last pending is confirmed" in
   let h := header s in
   Ok (with_header (Header (timestamp h) (producer h) (confirmed h) (previous h) (transaction_mroot h)
                      (action_mroot h) (schedule_version h) (Some pending) (header_extensions h)
                      (producer_signature h))
         (with_schedules (block_num s) (schedule_digest pending) pending (active_schedule s)
            (producer_to_last_produced s) (producer_to_last_implied_irb s) s)))%res.

(** The loop of [set_confirmed]: [n] entries are left, the newest of them is next.
    Gives the entry that came down to zero. *)
Fixpoint confirm_loop (n : nat) (blocks_to_confirm : Z) (counts : list Z) : list Z * option nat :=
  match n with
  | O => (counts, None)
  | S i =>
      if blocks_to_confirm =? 0 then (counts, None) else
      let c := u8 (default 0 (counts !! i) - 1) in
      let counts := <[i := c]> counts in
      if c =? 0 then (counts, Some i) else confirm_loop i (blocks_to_confirm - 1) counts
  end.

Definition set_header_confirmed (num_prev_blocks : Z) (s : block_header_state) : block_header_state :=
  let h := header s in
  with_header (Header (timestamp h) (producer h) num_prev_blocks (previous h) (transaction_mroot h)
                 (action_mroot h) (schedule_version h) (new_producers h) (header_extensions h)
                 (producer_signature h)) s.

Definition set_confirmed (num_prev_blocks : Z) (s : block_header_state) : block_header_state :=
  let s := set_header_confirmed num_prev_blocks s in
  let size := length (confirm_count s) in
  let '(counts, zero) := confirm_loop size (num_prev_blocks + 1) (confirm_count s) in
  match zero with
  | Some i =>
      let block_num_for_i := u32 (block_num s - Z.of_nat (size - 1 - i)) in
      with_confirmed block_num_for_i (drop (S i) counts) s
  | None => with_confirmed (dpos_proposed_irreversible_blocknum s) counts s
  end.

Definition sig_digest (s : block_header_state) : option digest_type :=
  root ← get_root (blockroot_merkle s);
  Some (hash_pair (hash_pair (header_digest (header s), root), pending_schedule_hash s)).

Definition signee (s : block_header_state) : option key :=
  sig ← producer_signature (header s); d ← sig_digest s; recover sig d.

(** [sign]: the block is signed, and the signature checked against the expected key. *)
Definition sign (signer : digest_type -> signature) (s : block_header_state) : result block_header_state :=
  (let* d := of_option (sig_digest s) "no root" in
   let sig := signer d in
   check* bool_decide (is_Some (recover sig d) /\ block_signing_key s = recover sig d)
     with "block is signed with unexpected key" in
   let h := header s in
   Ok (with_header (Header (timestamp h) (producer h) (confirmed h) (previous h) (transaction_mroot h)
                      (action_mroot h) (schedule_version h) (new_producers h) (header_extensions h)
                      (Some sig)) s))%res.

Definition verify_signee (s : block_header_state) : result unit :=
  rassert (bool_decide (is_Some (signee s) /\ block_signing_key s = signee s))
    "block not signed by expected key".

(** The parts of the header that the state does not determine. *)
Definition finish_header (h : signed_block_header) (s : block_header_state) : block_header_state :=
  let g := header s in
  let g := Header (timestamp g) (producer g) (confirmed g) (previous g) (transaction_mroot h)
             (action_mroot h) (schedule_version g) (new_producers g) (header_extensions g)
             (producer_signature h) in
  BlockHeaderState (header_id g) (block_num s) g (dpos_proposed_irreversible_blocknum s)
    (dpos_irreversible_blocknum s) (bft_irreversible_blocknum s) (pending_schedule_lib_num s)
    (pending_schedule_hash s) (pending_schedule s) (active_schedule s) (blockroot_merkle s)
    (producer_to_last_produced s) (producer_to_last_implied_irb s) (block_signing_key s)
    (confirm_count s) (confirmations s).

Definition next (h : signed_block_header) (skip_validate_signee : bool) (s : block_header_state)
  : result block_header_state :=
  (check* negb (timestamp h =? 0) with "block without a time" in
   check* (length (header_extensions h) =? 0)%nat with "no supported extensions" in
   check* (timestamp (header s) <? timestamp h) with "block must be later in time" in
   check* bool_decide (previous h = id s) with "block must link to current state" in
   let* result := generate_next (timestamp h) s in
   check* (producer (header result) =? producer h) with "wrong producer specified" in
   check* (schedule_version (header result) =? schedule_version h)
     with "schedule_version in signed block is corrupted" in
   check* match producer_to_last_produced s !! producer h with
          | Some last => last <? u32 (block_num result - confirmed h)
          | None => true
          end
     with "producer double-confirming known range" in
   let result := set_confirmed (confirmed h) result in
   let '(result, was_pending_promoted) := maybe_promote_pending result in
   let* result :=
     match new_producers h with
     | Some pending =>
         check* negb was_pending_promoted
           with "cannot set pending producer schedule in the same block in which pending was promoted to active" in
         set_new_producers pending result
     | None => Ok result
     end in
   let result := finish_header h result in
   let* _ := if skip_validate_signee then Ok tt else verify_signee result in
   Ok result)%res.

Definition add_confirmation (conf : header_confirmation) (s : block_header_state)
  : result block_header_state :=
  (check* forallb (fun c => negb (hc_producer c =? hc_producer conf)) (confirmations s)
     with "block already confirmed by this producer" in
   let* k := of_option (get_producer_key (active_schedule s) (hc_producer conf))
               "producer not in current schedule" in
   let* d := of_option (sig_digest s) "no root" in
   let* signer := of_option (recover (hc_producer_signature conf) d) "invalid signature" in
   check* bool_decide (signer = k) with "confirmation not signed by expected key" in
   Ok (BlockHeaderState (id s) (block_num s) (header s) (dpos_proposed_irreversible_blocknum s)
         (dpos_irreversible_blocknum s) (bft_irreversible_blocknum s) (pending_schedule_lib_num s)
         (pending_schedule_hash s) (pending_schedule s) (active_schedule s) (blockroot_merkle s)
         (producer_to_last_produced s) (producer_to_last_implied_irb s) (block_signing_key s)
         (confirm_count s) (confirmations s ++ [conf])))%res.
End state.

(** ** Timestamps. *)

Theorem timestamp_roundtrip (slot : Z) (Hslot : 0 <= slot < 2 ^ 32) :
  from_time_point (to_time_point slot) = slot.
Proof.
  unfold from_time_point, to_time_point, block_interval_ms, block_timestamp_epoch.
  width_norm. rewrite (wrapS_small 64) by (width_norm; lia). rewrite Z.quot_mul by lia.
  replace (slot * 1000 + 946684800000 - 946684800000) with (slot * 1000) by lia.
  rewrite (wrapU_small 64) by (width_norm; lia). rewrite Z.div_mul by lia.
  apply wrapU_small. width_norm. lia.
Qed.

Lemma timestamp_roundtrip_witness : from_time_point (to_time_point 7) = 7.
Proof. apply (timestamp_roundtrip 7). lia. Defined.

(** ** The number at one third. *)

(** How many numbers are at least [w]. *)
Definition count_ge (w : Z) (l : list Z) : nat := length (filter (fun x => w <= x) l).

Lemma count_ge_perm w l l' : l ≡ₚ l' -> count_ge w l = count_ge w l'.
Proof. intros H. unfold count_ge. by rewrite H. Qed.

Lemma count_ge_app w l l' : count_ge w (l ++ l') = (count_ge w l + count_ge w l')%nat.
Proof. unfold count_ge. by rewrite filter_app, length_app. Qed.

Lemma count_ge_cons w x l :
  count_ge w (x :: l) = ((if decide (w <= x)%Z then 1 else 0) + count_ge w l)%nat.
Proof. unfold count_ge. rewrite filter_cons. by case_decide. Qed.

Lemma count_ge_all w l : Forall (fun x => w <= x) l -> count_ge w l = length l.
Proof.
  induction 1 as [|x l Hx _ IH]; [done|]. rewrite count_ge_cons, IH. cbn [length].
  by rewrite decide_True.
Qed.

Lemma count_ge_none w l : Forall (fun x => x < w) l -> count_ge w l = 0%nat.
Proof.
  induction 1 as [|x l Hx _ IH]; [done|]. rewrite count_ge_cons, IH. by rewrite decide_False by lia.
Qed.

Lemma count_ge_le w l : (count_ge w l <= length l)%nat.
Proof. apply length_filter. Qed.

(** The greatest number that more than two thirds reach. *)
Lemma third_iff w l :
  l <> [] -> (2 * length l < 3 * count_ge w l)%nat <-> w <= third l.
Proof.
  intros Hne. unfold third. destruct l as [|x0 l0]; [done|]. set (l := x0 :: l0) in *.
  set (k := ((length l - 1) / 3)%nat). set (s := merge_sort Z.le l).
  assert (Hp : s ≡ₚ l) by apply merge_sort_Permutation.
  assert (Hlen : length s = length l) by by rewrite Hp.
  assert (Hpos : (0 < length l)%nat) by (cbn; lia).
  assert (Hk : (3 * k <= length l - 1 < 3 * k + 3)%nat).
  { unfold k. pose proof (Nat.div_mod_eq (length l - 1) 3).
    pose proof (Nat.mod_upper_bound (length l - 1) 3). lia. }
  assert (Hs : StronglySorted Z.le s).
  { apply Sorted_StronglySorted; [intros ???; lia|]. apply Sorted_merge_sort. intros ??; lia. }
  destruct (lookup_lt_is_Some_2 s k) as [v Hv]; [lia|]. rewrite Hv. cbn [default].
  rewrite <- (count_ge_perm w _ _ Hp). pose proof (take_drop_middle s k v Hv) as E.
  rewrite <- E in Hs |- *. rewrite count_ge_app, count_ge_cons.
  apply StronglySorted_app in Hs as (Hlow & _ & Hs). apply StronglySorted_inv in Hs as [_ Hhigh].
  assert (Ht : length (take k s) = k) by (rewrite length_take; lia).
  assert (Hd : length (drop (S k) s) = (length l - S k)%nat) by (rewrite length_drop; lia).
  pose proof (count_ge_le w (take k s)). pose proof (count_ge_le w (drop (S k) s)).
  case_decide as Hw.
  - split; [done|]. intros _. rewrite (count_ge_all w (drop (S k) s)); [lia|].
    eapply Forall_impl; [exact Hhigh|]. intros ? ?; simpl in *; lia.
  - split; [|done]. rewrite (count_ge_none w (take k s)); [lia|].
    apply Forall_forall. intros x Hx. assert (x <= v); [|lia]. apply Hlow; [done|left].
Qed.

(** ** Confirmations. *)

Definition count_ok (c : Z) : Prop := 1 <= c <= 255.

(** What is left of an entry after [b] confirmations. *)
Definition less_if (b : bool) (c : Z) : Z := if b then c - 1 else c.

Lemma confirm_loop_spec n : forall k counts counts' z,
  (n <= length counts)%nat -> Forall count_ok counts -> 0 <= k ->
  confirm_loop n k counts = (counts', z) ->
  length counts' = length counts /\
  (forall j c, (match z with Some i => (i < j)%nat | None => True end) -> counts !! j = Some c ->
     let hit := bool_decide (Z.of_nat n - k <= Z.of_nat j < Z.of_nat n) in
     counts' !! j = Some (less_if hit c) /\ (hit = true -> 1 < c)) /\
  match z with
  | Some i => (i < n)%nat /\ Z.of_nat n - k <= Z.of_nat i /\ counts !! i = Some 1
  | None => True
  end.
Proof.
  induction n as [|i IH]; intros k counts counts' z Hn Hok Hk H; cbn [confirm_loop] in H.
  { injection H as <- <-. split_and!; [done| |done]. intros j c _ Hj. cbn zeta.
    rewrite bool_decide_eq_false_2 by lia. done. }
  destruct (Z.eqb_spec k 0) as [->|Hk0].
  { injection H as <- <-. split_and!; [done| |done]. intros j c _ Hj. cbn zeta.
    rewrite bool_decide_eq_false_2 by lia. done. }
  destruct (lookup_lt_is_Some_2 counts i) as [c0 Hc0]; [lia|]. rewrite Hc0 in H.
  change (default 0 (Some c0)) with c0 in H.
  pose proof (Forall_lookup_1 _ _ _ _ Hok Hc0) as Hr. unfold count_ok in Hr.
  rewrite (wrapU_small 8 (c0 - 1)) in H by (width_norm; lia).
  destruct (Z.eqb_spec (c0 - 1) 0) as [E|E].
  - injection H as <- <-. split_and!; [by rewrite length_insert| |lia|lia|rewrite Hc0; f_equal; lia].
    intros j c Hj Hc. cbn zeta. rewrite bool_decide_eq_false_2 by lia.
    rewrite list_lookup_insert_ne by lia. done.
  - apply IH in H as (Hlen & Hall & Hz); [|rewrite length_insert; lia| |lia].
    2:{ apply Forall_insert; [done|]. unfold count_ok. lia. }
    rewrite length_insert in Hlen. split_and!; [done| |].
    + intros j c Hj Hc. cbn zeta. destruct (decide (j = i)) as [->|Hne].
      * rewrite Hc0 in Hc. injection Hc as <-.
        destruct (Hall i (c0 - 1) Hj) as [-> _]; [by apply list_lookup_insert_eq; lia|]. cbn zeta.
        rewrite bool_decide_eq_false_2 by lia. rewrite bool_decide_eq_true_2 by lia. cbn. split; [done|lia].
      * destruct (Hall j c Hj) as [-> Hgt]; [by rewrite list_lookup_insert_ne|]. cbn zeta in *.
        assert (Hb : bool_decide (Z.of_nat i - (k - 1) <= Z.of_nat j < Z.of_nat i)
                     = bool_decide (Z.of_nat (S i) - k <= Z.of_nat j < Z.of_nat (S i)))
          by (apply bool_decide_ext; lia).
        by rewrite <- Hb.
    + destruct z as [i'|]; [|done]. destruct Hz as (Hlt & Hge & Hi').
      split_and!; [lia|lia|]. by rewrite list_lookup_insert_ne in Hi' by lia.
Qed.

Section steps.
Context {key signature : Type} `{!EqDecision key}.
Context (header_digest : signed_block_header (key := key) (signature := signature) -> digest_type).
Context (schedule_digest : producer_schedule_type (key := key) -> digest_type).
Context (hash_pair : digest_type * digest_type -> digest_type).
Context (recover : signature -> digest_type -> option key).
Context (endian_reverse_u32 : Z -> Z).
Implicit Types (s g r : block_header_state (key := key) (signature := signature)).
Implicit Types (h : signed_block_header (key := key) (signature := signature)).

Abbreviation next := (next header_digest schedule_digest hash_pair recover endian_reverse_u32).
Abbreviation generate_next := (generate_next hash_pair).

(** The confirmations a block still needs, while it is tracked. *)
Definition needed s (blk : Z) : option Z :=
  let first := block_num s - Z.of_nat (length (confirm_count s)) in
  if decide (first < blk <= block_num s) then confirm_count s !! Z.to_nat (blk - first - 1) else None.

Record tracking s : Prop := {
  tr_counts : Forall count_ok (confirm_count s);
  tr_proposed : 0 <= dpos_proposed_irreversible_blocknum s
                <= block_num s - Z.of_nat (length (confirm_count s));
}.

Lemma needed_lookup s j c :
  confirm_count s !! j = Some c ->
  needed s (block_num s - Z.of_nat (length (confirm_count s)) + Z.of_nat j + 1) = Some c.
Proof.
  intros H. pose proof (lookup_lt_Some _ _ _ H). unfold needed. rewrite decide_True by lia.
  replace (Z.to_nat _) with j by lia. done.
Qed.

Lemma needed_inv s blk c :
  needed s blk = Some c ->
  exists j, confirm_count s !! j = Some c /\
    blk = block_num s - Z.of_nat (length (confirm_count s)) + Z.of_nat j + 1.
Proof.
  unfold needed. case_decide as Hd; [|done]. intros H. eexists. split; [exact H|lia].
Qed.

(** A block confirms itself and those before it. *)
Definition confirms (n : Z) h (blk : Z) : bool := bool_decide (n - confirmed h <= blk <= n).

Lemma grow_needed s s1 blk c :
  block_num s1 = block_num s + 1 ->
  confirm_count s1 = grow_confirm_count (confirm_count s) (required_confs s) ->
  needed s1 blk = Some c ->
  blk = block_num s1 /\ c = u8 (required_confs s) \/ needed s blk = Some c.
Proof.
  intros Hb Hc Hn. apply needed_inv in Hn as (j & Hj & ->). rewrite Hc, Hb in *. clear Hc.
  unfold grow_confirm_count in *. case_match eqn:Hlt.
  - rewrite length_app in *. cbn [length] in *. apply lookup_app_Some in Hj as [Hj|[Hge Hj]].
    + right. apply needed_lookup in Hj. rewrite <- Hj. f_equal. lia.
    + apply list_lookup_singleton_Some in Hj as [Hj <-]. left. split; [lia|done].
  - apply Nat.ltb_ge in Hlt. unfold maximum_tracked_dpos_confirmations in Hlt.
    destruct (confirm_count s) as [|c0 counts] eqn:E; [cbn in Hlt; lia|]. cbn [tail] in *.
    rewrite length_app in *. cbn [length] in *. apply lookup_app_Some in Hj as [Hj|[Hge Hj]].
    + right. assert (Hj' : confirm_count s !! S j = Some c) by by rewrite E.
      apply needed_lookup in Hj'. rewrite <- Hj'. f_equal. rewrite E. cbn [length]. lia.
    + apply list_lookup_singleton_Some in Hj as [Hj <-]. left. split; [lia|done].
Qed.

Lemma grow_length s :
  (length (grow_confirm_count (confirm_count s) (required_confs s)) <= S (length (confirm_count s)))%nat.
Proof.
  unfold grow_confirm_count. case_match; rewrite length_app; cbn [length]; [lia|].
  destruct (confirm_count s); cbn; lia.
Qed.

(** What the loop leaves of the entries after the one that came down to zero. *)
Lemma confirm_loop_kept n counts counts' z j c' :
  Forall count_ok counts -> 0 <= n ->
  confirm_loop (length counts) (n + 1) counts = (counts', z) ->
  match z with Some i => (i < j)%nat | None => True end -> counts' !! j = Some c' ->
  exists c, counts !! j = Some c /\ count_ok c' /\
    c' = less_if (bool_decide (Z.of_nat (length counts) - (n + 1) <= Z.of_nat j)) c.
Proof.
  intros Hc Hn Hl Hz Hj. apply confirm_loop_spec in Hl as (Hlen & Hall & _); [|done|done|lia].
  pose proof (lookup_lt_Some _ _ _ Hj). destruct (lookup_lt_is_Some_2 counts j) as [c Hcj]; [lia|].
  destruct (Hall _ _ Hz Hcj) as [Hj' Hgt]. cbn zeta in *. rewrite Hj in Hj'. injection Hj' as ->.
  pose proof (Forall_lookup_1 _ _ _ _ Hc Hcj) as Hr. exists c.
  rewrite (bool_decide_ext _ (Z.of_nat (length counts) - (n + 1) <= Z.of_nat j)) in * by lia.
  split_and!; [done| |done]; unfold less_if, count_ok in *; case_bool_decide; try lia;
    specialize (Hgt eq_refl); lia.
Qed.

Lemma set_confirmed_ok n s :
  tracking s -> 0 <= n -> block_num s < 2 ^ 32 ->
  let s' := set_confirmed n s in
  tracking s' /\
  (forall blk c', needed s' blk = Some c' ->
     exists c, needed s blk = Some c /\ c' = less_if (bool_decide (block_num s - n <= blk)) c) /\
  (dpos_proposed_irreversible_blocknum s' = dpos_proposed_irreversible_blocknum s \/
   dpos_proposed_irreversible_blocknum s < dpos_proposed_irreversible_blocknum s' /\
   block_num s - n <= dpos_proposed_irreversible_blocknum s' <= block_num s /\
   needed s (dpos_proposed_irreversible_blocknum s') = Some 1).
Proof.
  intros [Hc Hp] Hn Hb. unfold set_confirmed. cbn zeta.
  change (confirm_count (set_header_confirmed n s)) with (confirm_count s).
  change (block_num (set_header_confirmed n s)) with (block_num s).
  destruct (confirm_loop _ _ _) as [counts z] eqn:Hl.
  pose proof (fun j c' => confirm_loop_kept n _ _ _ j c' Hc Hn Hl) as Hin.
  apply confirm_loop_spec in Hl as (Hlen & _ & Hz); [|lia|done|lia].
  set (size := length (confirm_count s)) in *. destruct z as [i|].
  - destruct Hz as (Hi & Hge & H1).
    rewrite (wrapU_small 32 (block_num s - Z.of_nat (size - 1 - i))) by (width_norm; lia).
    assert (Hdl : length (drop (S i) counts) = (size - S i)%nat) by (rewrite length_drop; lia).
    split_and!.
    + split; cbn; [|rewrite Hdl; lia]. apply Forall_lookup. intros j c' Hj. rewrite lookup_drop in Hj.
      by destruct (Hin (S i + j)%nat c' ltac:(lia) Hj) as (c & _ & ? & _).
    + intros blk c' H. apply needed_inv in H as (j & Hj & ->). cbn in Hj |- *. rewrite lookup_drop in Hj.
      destruct (Hin (S i + j)%nat c' ltac:(lia) Hj) as (c & Hcj & _ & ->). exists c.
      apply needed_lookup in Hcj. fold size in Hcj. rewrite <- Hcj, Hdl. split; [f_equal; lia|].
      f_equal. apply bool_decide_ext. lia.
    + right. cbn. split_and!; [lia|lia|lia|]. apply needed_lookup in H1. fold size in H1.
      rewrite <- H1. f_equal. lia.
  - split_and!; [|intros blk c' H|by left].
    + split; cbn; [|lia]. apply Forall_lookup. intros j c' Hj.
      by destruct (Hin _ c' I Hj) as (c & _ & ? & _).
    + apply needed_inv in H as (j & Hj & ->). cbn in Hj |- *.
      destruct (Hin _ c' I Hj) as (c & Hcj & _ & ->). exists c.
      apply needed_lookup in Hcj. fold size in Hcj. rewrite <- Hcj. split; [f_equal; lia|].
      f_equal. apply bool_decide_ext. lia.
Qed.

(** ** The next block. *)

Lemma generate_next_ok t s g :
  t <> 0 -> generate_next t s = Ok g ->
  exists prokey,
    get_scheduled_producer t s = Ok prokey /\ timestamp (header s) < t /\
    block_num g = u32 (block_num s + 1) /\ timestamp (header g) = t /\
    producer (header g) = producer_name prokey /\ block_signing_key g = Some (pk_signing_key prokey) /\
    schedule_version (header g) = version (active_schedule s) /\
    dpos_proposed_irreversible_blocknum g = dpos_proposed_irreversible_blocknum s /\
    producer_to_last_implied_irb g =
      <[producer_name prokey := dpos_proposed_irreversible_blocknum s]> (producer_to_last_implied_irb s) /\
    dpos_irreversible_blocknum g = calc_dpos_last_irreversible (producer_to_last_implied_irb g) /\
    producer_to_last_produced g =
      <[producer_name prokey := block_num g]> (producer_to_last_produced s) /\
    active_schedule g = active_schedule s /\ pending_schedule g = pending_schedule s /\
    confirm_count g = grow_confirm_count (confirm_count s) (required_confs s).
Proof.
  intros Ht H. unfold BlockState.generate_next in H. rewrite (proj2 (Z.eqb_neq t 0) Ht) in H.
  apply rbind_ok in H as (t' & H1 & H). cbn [negb] in H1. apply rbind_ok in H1 as (u & H1 & Ht').
  apply rassert_ok, Z.ltb_lt in H1. injection Ht' as <-. apply rbind_ok in H as (pk & Hpk & H).
  apply rbind_ok in H as (mk & _ & H). injection H as <-. exists pk. done.
Qed.

(** What [next] does where no schedule is pending and the block proposes none. *)
Definition steady s h : Prop := producers (pending_schedule s) = [] /\ new_producers h = None.

Lemma next_steady h skip s s' :
  steady s h -> next h skip s = Ok s' ->
  exists g,
    timestamp h <> 0 /\ generate_next (timestamp h) s = Ok g /\ producer (header g) = producer h /\
    (forall last, producer_to_last_produced s !! producer h = Some last ->
       last < u32 (block_num g - confirmed h)) /\
    s' = finish_header header_digest endian_reverse_u32 h (set_confirmed (confirmed h) g).
Proof.
  intros [Hp Hn] H. unfold BlockState.next in H. do 4 (apply rbind_ok in H as (? & ? & H)).
  apply rbind_ok in H as (g & Hg & H). do 3 (apply rbind_ok in H as (? & ? & H)). rinv.
  exists g. split_and!; [done|done|done| |].
  - intros last Hl. match goal with E : match _ with Some _ => _ | None => true end = true |- _ =>
      rewrite Hl in E; by apply Z.ltb_lt in E end.
  - destruct (generate_next_ok _ _ _ ltac:(done) Hg) as (pk & Hr). decompose [and] Hr.
    assert (Hpend : producers (pending_schedule (set_confirmed (confirmed h) g)) = []).
    { unfold set_confirmed. destruct (confirm_loop _ _ _) as [? [?|]]; cbn; congruence. }
    unfold maybe_promote_pending in H. rewrite Hpend in H. cbn in H. rewrite Hn in H. cbn in H.
    apply rbind_ok in H as (? & _ & H). by injection H as <-.
Qed.

Lemma required_range s :
  (length (producers (active_schedule s)) <= 255)%nat -> 1 <= required_confs s <= 171.
Proof.
  intros Hlen. unfold required_confs. set (n := Z.of_nat (length (producers (active_schedule s)))).
  assert (0 <= n * 2 / 3) by (apply Z.div_pos; lia).
  assert (n * 2 / 3 <= 170); [|lia]. apply Z.lt_succ_r, Z.div_lt_upper_bound; lia.
Qed.

Lemma set_confirmed_keeps n s :
  block_num (set_confirmed n s) = block_num s /\
  active_schedule (set_confirmed n s) = active_schedule s /\
  pending_schedule (set_confirmed n s) = pending_schedule s /\
  producer_to_last_produced (set_confirmed n s) = producer_to_last_produced s /\
  producer_to_last_implied_irb (set_confirmed n s) = producer_to_last_implied_irb s /\
  dpos_irreversible_blocknum (set_confirmed n s) = dpos_irreversible_blocknum s.
Proof. unfold set_confirmed. destruct (confirm_loop _ _ _) as [? [?|]]; done. Qed.

Lemma grow_tracking s g :
  tracking s -> 1 <= required_confs s <= 171 ->
  block_num g = block_num s + 1 ->
  dpos_proposed_irreversible_blocknum g = dpos_proposed_irreversible_blocknum s ->
  confirm_count g = grow_confirm_count (confirm_count s) (required_confs s) -> tracking g.
Proof.
  intros [Hc Hp] Hreq Hb Hpr Hcc. split; rewrite Hcc.
  - unfold grow_confirm_count. rewrite wrapU_small by (width_norm; lia).
    assert (Forall count_ok [required_confs s]) by (repeat constructor; lia).
    case_match; apply Forall_app; split; try done. by apply Forall_tail.
  - pose proof (grow_length s). rewrite Hpr, Hb. lia.
Qed.

(** One block of a run without changes of the schedule. *)
Lemma steady_step h skip s s' :
  tracking s -> block_num s + 1 < 2 ^ 32 -> 0 <= confirmed h <= block_num s ->
  (length (producers (active_schedule s)) <= 255)%nat -> steady s h -> next h skip s = Ok s' ->
  tracking s' /\ block_num s' = block_num s + 1 /\ active_schedule s' = active_schedule s /\
  producers (pending_schedule s') = [] /\
  producer_to_last_produced s' = <[producer h := block_num s']> (producer_to_last_produced s) /\
  (forall last, producer_to_last_produced s !! producer h = Some last ->
     last < block_num s' - confirmed h) /\
  (forall blk c', needed s' blk = Some c' ->
     exists c, (blk = block_num s' /\ c = required_confs s \/ needed s blk = Some c) /\
       c' = less_if (confirms (block_num s') h blk) c) /\
  (dpos_proposed_irreversible_blocknum s' = dpos_proposed_irreversible_blocknum s \/
   dpos_proposed_irreversible_blocknum s < dpos_proposed_irreversible_blocknum s' /\
   let blk := dpos_proposed_irreversible_blocknum s' in
   confirms (block_num s') h blk = true /\
   (blk = block_num s' /\ required_confs s = 1 \/ needed s blk = Some 1)).
Proof.
  intros [Hc Hp] Hb Hcf Hlen Hst H. apply next_steady in H as (g & Ht & Hg & Hprod & Hlast & ->); [|done].
  apply generate_next_ok in Hg as (pk & _ & _ & Hbg & _ & Hpg & _ & _ & Hpr & _ & _ & Hlp & Has & Hps & Hcc); [|done].
  rewrite wrapU_small in Hbg by (width_norm; lia).
  pose proof (required_range s Hlen) as Hreq.
  assert (Hu8 : u8 (required_confs s) = required_confs s) by (apply wrapU_small; width_norm; lia).
  assert (Htr : tracking g) by (by eapply (grow_tracking s); [split|..]).
  destruct (set_confirmed_ok (confirmed h) g Htr ltac:(lia) ltac:(width_norm; lia)) as (Htr' & Hnd & Hpp).
  destruct (set_confirmed_keeps (confirmed h) g) as (F1 & F2 & F3 & F4 & _ & _).
  assert (Hgn : forall blk c, needed g blk = Some c ->
    blk = block_num g /\ c = required_confs s \/ needed s blk = Some c).
  { intros blk c Hn. rewrite <- Hu8. by eapply grow_needed. }
  assert (Hle : forall blk c, needed (set_confirmed (confirmed h) g) blk = Some c -> blk <= block_num g).
  { intros blk c Hn. apply needed_inv in Hn as (j & Hj & ->). apply lookup_lt_Some in Hj. rewrite F1. lia. }
  split_and!.
  - destruct Htr'. by split.
  - cbn. rewrite F1. done.
  - cbn. by rewrite F2.
  - cbn. rewrite F3, Hps. apply Hst.
  - cbn. rewrite F1, F4, Hlp. by rewrite <- Hprod, Hpg.
  - intros last Hl. apply Hlast in Hl. cbn. rewrite F1, Hbg in *.
    rewrite wrapU_small in Hl by (width_norm; lia). done.
  - intros blk c' Hn. change (needed (set_confirmed (confirmed h) g) blk = Some c') in Hn. cbn. rewrite F1.
    pose proof (Hle _ _ Hn). destruct (Hnd _ _ Hn) as (c & Hc' & ->). exists c. split; [by apply Hgn|].
    f_equal. unfold confirms. apply bool_decide_ext. lia.
  - cbn. rewrite F1, <- Hpr. destruct Hpp as [->|(Hlt & Hrange & Hn)]; [by left|right].
    split; [done|]. split; [unfold confirms; apply bool_decide_eq_true_2; lia|].
    destruct (Hgn _ _ Hn) as [[-> ->]|?]; [by left|by right].
Qed.

(** ** Chains of blocks. *)

(** The blocks after [s0], with their numbers, that lead to a state. *)
Inductive chain skip s0 : list (Z * signed_block_header) -> block_header_state -> Prop :=
| chain_nil : chain skip s0 [] s0
| chain_snoc l s h s' :
    chain skip s0 l s -> next h skip s = Ok s' -> chain skip s0 (l ++ [(block_num s', h)]) s'.

(** The producers of the blocks that confirm a block. *)
Definition confirmers (l : list (Z * signed_block_header (key := key) (signature := signature)))
    (blk : Z) : list Z :=
  map (fun x => producer (snd x)) (List.filter (fun x => confirms (fst x) (snd x) blk) l).

Lemma confirmers_snoc l n h blk :
  confirmers (l ++ [(n, h)]) blk = confirmers l blk ++ (if confirms n h blk then [producer h] else []).
Proof.
  unfold confirmers. rewrite List.filter_app, map_app. f_equal. cbn. by destruct (confirms n h blk).
Qed.

Lemma confirmers_in l blk p :
  p ∈ confirmers l blk <-> exists n h, (n, h) ∈ l /\ producer h = p /\ confirms n h blk = true.
Proof.
  unfold confirmers. rewrite list_elem_of_In, in_map_iff. split.
  - intros ([n h] & <- & [Hin Hc]%filter_In). exists n, h. by rewrite list_elem_of_In.
  - intros (n & h & Hin & <- & Hc). exists (n, h). split; [done|]. apply filter_In.
    by rewrite <- list_elem_of_In.
Qed.

(** Blocks that propose no producers and confirm no more than there are. *)
Definition plain (x : Z * signed_block_header (key := key) (signature := signature)) : Prop :=
  new_producers (snd x) = None /\ 0 <= confirmed (snd x) < fst x.

Record chain_ok s0 (l : list (Z * signed_block_header)) s : Prop := {
  ch_tracking : tracking s;
  ch_num : block_num s = block_num s0 + Z.of_nat (length l);
  ch_schedule : active_schedule s = active_schedule s0;
  ch_pending : producers (pending_schedule s) = [];
  ch_needed : forall blk c, block_num s0 < blk -> needed s blk = Some c ->
    c + Z.of_nat (length (confirmers l blk)) = required_confs s0;
  ch_proposed : block_num s0 < dpos_proposed_irreversible_blocknum s ->
    required_confs s0 <= Z.of_nat (length (confirmers l (dpos_proposed_irreversible_blocknum s)));
  ch_range : forall n h, (n, h) ∈ l -> n <= block_num s /\
    exists last, producer_to_last_produced s !! producer h = Some last /\ n <= last;
  ch_distinct : forall blk, NoDup (confirmers l blk);
}.

Lemma chain_ok_nil s0 : tracking s0 -> producers (pending_schedule s0) = [] -> chain_ok s0 [] s0.
Proof.
  intros Htr Hp. split; try done.
  - cbn. lia.
  - intros blk c Hb Hn. apply needed_inv in Hn as (j & Hj & ->). apply lookup_lt_Some in Hj. lia.
  - destruct Htr. lia.
  - intros n h Hin. by apply not_elem_of_nil in Hin.
  - intros blk. constructor.
Qed.

(** No producer confirms a block twice. *)
Lemma not_confirmed_again s0 l s h n blk :
  chain_ok s0 l s ->
  (forall last, producer_to_last_produced s !! producer h = Some last -> last < n - confirmed h) ->
  confirms n h blk = true -> ~ producer h ∈ confirmers l blk.
Proof.
  intros Hch Hlast Hc Hin. apply confirmers_in in Hin as (n' & h' & Hin & Hp & Hc').
  destruct (ch_range _ _ _ Hch _ _ Hin) as (_ & last & Hl & Hle). rewrite Hp in Hl.
  apply Hlast in Hl. apply bool_decide_eq_true in Hc, Hc'. lia.
Qed.

(** No tracked block after the first state has been confirmed before it exists. *)
Lemma confirmers_new s0 l s blk :
  chain_ok s0 l s -> block_num s < blk -> confirmers l blk = [].
Proof.
  intros Hch Hb. destruct (confirmers l blk) as [|p ps] eqn:E; [done|].
  assert (Hin : p ∈ confirmers l blk) by (rewrite E; left).
  apply confirmers_in in Hin as (n & h & Hin & _ & Hc). apply bool_decide_eq_true in Hc.
  destruct (ch_range _ _ _ Hch _ _ Hin). lia.
Qed.

Lemma chain_ok_step s0 l s h skip s' :
  chain_ok s0 l s -> (length (producers (active_schedule s0)) <= 255)%nat ->
  block_num s + 1 < 2 ^ 32 -> plain (block_num s + 1, h) -> next h skip s = Ok s' ->
  chain_ok s0 (l ++ [(block_num s', h)]) s'.
Proof.
  intros Hch Hlen Hb [Hnp Hcf] H. cbn [fst snd] in Hcf.
  assert (Hreq : required_confs s = required_confs s0)
    by (unfold required_confs; by rewrite (ch_schedule _ _ _ Hch)).
  apply steady_step in H as (Htr & Hnum & Has & Hps & Hlp & Hlast & Hnd & Hpr);
    [|apply Hch|lia|lia|by rewrite (ch_schedule _ _ _ Hch)|split; [apply Hch|done]].
  assert (Hsum : forall blk c, block_num s0 < blk ->
    blk = block_num s' /\ c = required_confs s \/ needed s blk = Some c ->
    c + Z.of_nat (length (confirmers l blk)) = required_confs s0).
  { intros blk c Hlt [[-> ->]|Hn]; [|by eapply (ch_needed _ _ _ Hch)].
    rewrite (confirmers_new _ _ _ _ Hch) by lia. cbn. lia. }
  split; try done.
  - rewrite Hnum, (ch_num _ _ _ Hch), length_app. cbn. lia.
  - by rewrite Has, (ch_schedule _ _ _ Hch).
  - intros blk c' Hlt Hn. destruct (Hnd _ _ Hn) as (c & Hc & ->). apply Hsum in Hc; [|done].
    rewrite confirmers_snoc, length_app. unfold less_if. destruct (confirms _ _ _); cbn; lia.
  - intros Hlt. rewrite confirmers_snoc, length_app. destruct Hpr as [E|(_ & Hc & Hn)].
    + rewrite E in Hlt |- *. pose proof (ch_proposed _ _ _ Hch Hlt). lia.
    + rewrite Hc. cbn. rewrite Nat2Z.inj_add.
      rewrite <- (Hsum _ 1 Hlt); [cbn; lia|]. destruct Hn as [[? <-]|?]; [by left|by right].
  - intros n h' Hin. rewrite Hlp. apply elem_of_app in Hin as [Hin|Hin].
    + destruct (ch_range _ _ _ Hch _ _ Hin) as (Hn & last & Hl & Hle). split; [lia|].
      destruct (decide (producer h = producer h')) as [->|Hne].
      * exists (block_num s'). rewrite lookup_insert_eq. split; [done|lia].
      * exists last. by rewrite lookup_insert_ne.
    + apply list_elem_of_singleton in Hin. injection Hin as -> ->. split; [done|].
      exists (block_num s'). rewrite lookup_insert_eq. split; [done|lia].
  - intros blk. rewrite confirmers_snoc. destruct (confirms (block_num s') h blk) eqn:Hc;
      [|rewrite app_nil_r; apply (ch_distinct _ _ _ Hch)].
    apply NoDup_app. split_and!; [apply (ch_distinct _ _ _ Hch)| |apply NoDup_singleton].
    intros p Hp ->%list_elem_of_singleton. by eapply not_confirmed_again.
Qed.

Lemma next_ok h skip s s' :
  next h skip s = Ok s' ->
  exists g r b,
    timestamp h <> 0 /\ timestamp (header s) < timestamp h /\ previous h = id s /\
    generate_next (timestamp h) s = Ok g /\ producer (header g) = producer h /\
    schedule_version (header g) = schedule_version h /\
    maybe_promote_pending (set_confirmed (confirmed h) g) = (r, b) /\
    (exists r', s' = finish_header header_digest endian_reverse_u32 h r' /\
       match new_producers h with
       | Some pending => b = false /\ set_new_producers schedule_digest pending r = Ok r'
       | None => r' = r
       end) /\
    (skip = false -> verify_signee header_digest hash_pair recover s' = Ok tt).
Proof.
  intros H. unfold BlockState.next in H. apply rbind_ok in H as (? & H1 & H).
  apply rbind_ok in H as (? & _ & H). apply rbind_ok in H as (? & H2 & H).
  apply rbind_ok in H as (? & H3 & H). apply rbind_ok in H as (g & Hg & H).
  apply rbind_ok in H as (? & H4 & H). apply rbind_ok in H as (? & H5 & H).
  apply rbind_ok in H as (? & _ & H). destruct (maybe_promote_pending _) as [r b] eqn:Hp.
  apply rbind_ok in H as (r' & Hr & H). apply rbind_ok in H as (u & Hv & H). injection H as <-.
  rinv. exists g, r, b. split_and!; try done.
  - exists r'. split; [done|]. destruct (new_producers h); [|by injection Hr as <-].
    apply rbind_ok in Hr as (? & Hb & Hr). apply rassert_ok, negb_true_iff in Hb. done.
  - intros ->. exact Hv.
Qed.

Lemma promote_keeps s r b :
  maybe_promote_pending s = (r, b) ->
  block_num r = block_num s /\ header r = header s /\ block_signing_key r = block_signing_key s /\
  blockroot_merkle r = blockroot_merkle s.
Proof. unfold maybe_promote_pending. case_match; by intros [= <- <-]. Qed.

Lemma set_new_keeps pending r r' :
  set_new_producers schedule_digest pending r = Ok r' ->
  block_num r' = block_num r /\ timestamp (header r') = timestamp (header r) /\
  producer (header r') = producer (header r) /\ previous (header r') = previous (header r) /\
  block_signing_key r' = block_signing_key r.
Proof.
  unfold set_new_producers. intros H. apply rbind_ok in H as (? & _ & H).
  apply rbind_ok in H as (? & _ & H). by injection H as <-.
Qed.

Lemma set_confirmed_header n s :
  timestamp (header (set_confirmed n s)) = timestamp (header s) /\
  producer (header (set_confirmed n s)) = producer (header s) /\
  previous (header (set_confirmed n s)) = previous (header s) /\
  block_signing_key (set_confirmed n s) = block_signing_key s.
Proof. unfold set_confirmed. destruct (confirm_loop _ _ _) as [? [?|]]; done. Qed.

(** What the next state has from the block. *)
Lemma next_fields h skip s s' :
  next h skip s = Ok s' ->
  exists prokey,
    get_scheduled_producer (timestamp h) s = Ok prokey /\ producer_name prokey = producer h /\
    timestamp (header s) < timestamp h /\ previous h = id s /\
    block_num s' = u32 (block_num s + 1) /\ timestamp (header s') = timestamp h /\
    producer (header s') = producer h /\ previous (header s') = id s /\
    producer_signature (header s') = producer_signature h /\
    block_signing_key s' = Some (pk_signing_key prokey) /\
    id s' = header_id header_digest endian_reverse_u32 (header s').
Proof.
  intros H. apply next_ok in H as (g & r & b & Ht & Hlt & Hprev & Hg & Hprod & _ & Hp & (r' & -> & Hr) & _).
  pose proof Hg as Hg'. apply generate_next_ok in Hg as (pk & Hpk & _ & Hn & Htg & Hpg & Hk & _); [|done].
  assert (Hpv : previous (header g) = id s).
  { unfold BlockState.generate_next in Hg'. apply rbind_ok in Hg' as (? & _ & Hg').
    apply rbind_ok in Hg' as (? & _ & Hg'). apply rbind_ok in Hg' as (? & _ & Hg'). by injection Hg' as <-. }
  apply promote_keeps in Hp as (B1 & B2 & B3 & _).
  destruct (set_confirmed_header (confirmed h) g) as (C1 & C2 & C3 & C4).
  destruct (set_confirmed_keeps (confirmed h) g) as (C5 & _).
  assert (Hr' : block_num r' = block_num r /\ timestamp (header r') = timestamp (header r) /\
    producer (header r') = producer (header r) /\ previous (header r') = previous (header r) /\
    block_signing_key r' = block_signing_key r).
  { destruct (new_producers h); [destruct Hr as [_ Hr]; by apply set_new_keeps in Hr|by subst]. }
  destruct Hr' as (D1 & D2 & D3 & D4 & D5). exists pk. rewrite B2 in *. cbn.
  split_and!; try done; congruence.
Qed.

(** Runs without changes of the schedule keep track. *)
Lemma chain_is_ok skip s0 l s :
  chain skip s0 l s -> tracking s0 -> producers (pending_schedule s0) = [] ->
  (length (producers (active_schedule s0)) <= 255)%nat ->
  block_num s0 + Z.of_nat (length l) < 2 ^ 32 -> Forall plain l -> chain_ok s0 l s.
Proof.
  intros Hch Htr Hp Hlen. induction Hch as [|l s h s' _ IH H]; intros Hb Hpl; [by apply chain_ok_nil|].
  rewrite length_app in Hb. cbn [length] in Hb. apply Forall_app in Hpl as [Hpl Hh].
  apply Forall_cons in Hh as [Hh _].
  assert (Hok : chain_ok s0 l s) by (apply IH; [lia|done]). pose proof (ch_num _ _ _ Hok) as Hnum.
  destruct Htr. assert (Hn : block_num s' = block_num s + 1).
  { destruct (next_fields _ _ _ _ H) as (? & _ & _ & _ & _ & -> & _). apply wrapU_small. width_norm. lia. }
  eapply chain_ok_step; [done|done|lia| |done]. by rewrite <- Hn.
Qed.

(** C29: Along a chain of blocks without a change of the schedule, each confirming fewer
    blocks than there are, a block becomes proposed irreversible only once more than
    two thirds of the producers have produced a block that confirms it. *)
Theorem proposed_needs_quorum skip s0 l s
  (Hchain : chain skip s0 l s) (Htr : tracking s0) (Hpend : producers (pending_schedule s0) = [])
  (Hlen : (length (producers (active_schedule s0)) <= 255)%nat)
  (Hnum : block_num s0 + Z.of_nat (length l) < 2 ^ 32) (Hplain : Forall plain l)
  (Hnew : block_num s0 < dpos_proposed_irreversible_blocknum s) :
  exists ps : list Z, NoDup ps /\
    2 * Z.of_nat (length (producers (active_schedule s0))) < 3 * Z.of_nat (length ps) /\
    forall p, p ∈ ps -> exists n h, (n, h) ∈ l /\ producer h = p /\
      n - confirmed h <= dpos_proposed_irreversible_blocknum s <= n.
Proof.
  pose proof (chain_is_ok _ _ _ _ Hchain Htr Hpend Hlen Hnum Hplain) as Hok.
  exists (confirmers l (dpos_proposed_irreversible_blocknum s)).
  split_and!; [apply (ch_distinct _ _ _ Hok)| |].
  - pose proof (ch_proposed _ _ _ Hok Hnew) as Hq. unfold required_confs in Hq.
    set (n := Z.of_nat (length (producers (active_schedule s0)))) in *.
    pose proof (Z.mul_succ_div_gt (n * 2) 3). lia.
  - intros p (n & h & Hin & Hp & Hc)%confirmers_in. apply bool_decide_eq_true in Hc. eauto.
Qed.

(** An accepted block is signed with the key of the producer scheduled for its
    slot, is later than and linked to the current block, and has the next number. *)
Theorem next_block h s s' (H : next h false s = Ok s') :
  exists prokey sig digest,
    get_scheduled_producer (timestamp h) s = Ok prokey /\ producer_name prokey = producer h /\
    timestamp (header s) < timestamp h /\ previous h = id s /\
    block_num s' = u32 (block_num s + 1) /\
    producer_signature h = Some sig /\ sig_digest header_digest hash_pair s' = Some digest /\
    recover sig digest = Some (pk_signing_key prokey).
Proof.
  pose proof (next_fields _ _ _ _ H) as (pk & Hpk & Hn & Ht & Hpv & Hb & _ & _ & _ & Hsig & Hk & _).
  apply next_ok in H as (_ & _ & _ & _ & _ & _ & _ & _ & _ & _ & _ & Hv).
  specialize (Hv eq_refl). unfold verify_signee in Hv. apply rassert_ok, bool_decide_eq_true in Hv as [Hs Hv].
  rewrite Hk in Hv. unfold signee in Hv. rewrite Hsig in Hv.
  destruct (producer_signature h) as [sig|]; [|done]. cbn in Hv.
  destruct (sig_digest header_digest hash_pair s') as [digest|] eqn:Hd; [|done]. cbn in Hv.
  exists pk, sig, digest. done.
Qed.

(** ** The last irreversible block. *)

Lemma calc_insert_mono (m : gmap Z Z) k v v' :
  m !! k = Some v -> v <= v' ->
  calc_dpos_last_irreversible m <= calc_dpos_last_irreversible (<[k := v']> m).
Proof.
  intros Hk Hv. unfold calc_dpos_last_irreversible.
  set (l := map snd (map_to_list (delete k m))).
  assert (E : map snd (map_to_list m) ≡ₚ v :: l).
  { unfold l. rewrite <- (insert_delete_id m k v Hk) at 1.
    rewrite map_to_list_insert by apply lookup_delete_eq. done. }
  assert (E' : map snd (map_to_list (<[k := v']> m)) ≡ₚ v' :: l).
  { unfold l. rewrite <- insert_delete_eq. rewrite map_to_list_insert by apply lookup_delete_eq. done. }
  assert (Hne : map snd (map_to_list m) <> [])
    by (intros E0; rewrite E0 in E; by apply Permutation_nil_cons in E).
  assert (Hne' : map snd (map_to_list (<[k := v']> m)) <> [])
    by (intros E0; rewrite E0 in E'; by apply Permutation_nil_cons in E').
  apply (third_iff _ _ Hne'). set (w := third _).
  pose proof (proj2 (third_iff w _ Hne) ltac:(lia)) as H.
  rewrite (count_ge_perm _ _ _ E') , E'. rewrite (count_ge_perm _ _ _ E), E in H.
  rewrite count_ge_cons in *. cbn [length] in *. repeat case_decide; lia.
Qed.

Lemma calc_upper (m : gmap Z Z) b :
  m <> ∅ -> (forall k v, m !! k = Some v -> v <= b) -> calc_dpos_last_irreversible m <= b.
Proof.
  intros Hm Hb. unfold calc_dpos_last_irreversible. set (l := map snd (map_to_list m)).
  assert (Hne : l <> []).
  { unfold l. intros E. apply map_eq_nil in E. by apply map_to_list_empty_iff in E. }
  pose proof (proj2 (third_iff (third l) l Hne) ltac:(lia)) as H.
  destruct (decide (third l <= b)) as [|Hgt]; [done|]. rewrite count_ge_none in H; [lia|].
  apply Forall_forall. intros x Hx. unfold l in Hx. apply list_elem_of_fmap in Hx as ([k v] & -> & Hin).
  apply elem_of_map_to_list, Hb in Hin. cbn. lia.
Qed.

(** Every producer has said a block to be irreversible that was proposed before, and the
    irreversible block follows from what they said. *)
Record implied_ok s : Prop := {
  im_known : forall pk, pk ∈ producers (active_schedule s) ->
    is_Some (producer_to_last_implied_irb s !! producer_name pk);
  im_proposed : forall k v, producer_to_last_implied_irb s !! k = Some v ->
    v <= dpos_proposed_irreversible_blocknum s;
  im_irreversible : dpos_irreversible_blocknum s
    <= calc_dpos_last_irreversible (producer_to_last_implied_irb s);
}.

Lemma scheduled_in t s pk : get_scheduled_producer t s = Ok pk -> pk ∈ producers (active_schedule s).
Proof.
  unfold get_scheduled_producer. intros H. apply rbind_ok in H as (? & _ & H).
  apply of_option_ok in H. by eapply list_elem_of_lookup_2.
Qed.

Lemma implied_step h skip s s' :
  implied_ok s -> tracking s -> block_num s + 1 < 2 ^ 32 -> 0 <= confirmed h <= block_num s ->
  (length (producers (active_schedule s)) <= 255)%nat -> steady s h -> next h skip s = Ok s' ->
  implied_ok s' /\ dpos_irreversible_blocknum s <= dpos_irreversible_blocknum s' /\
  dpos_irreversible_blocknum s' <= dpos_proposed_irreversible_blocknum s'.
Proof.
  intros [Hk Hp Hi] Htr Hb Hcf Hlen Hst H.
  pose proof (steady_step _ _ _ _ Htr Hb Hcf Hlen Hst H) as (_ & _ & _ & _ & _ & _ & _ & Hpr).
  apply next_steady in H as (g & Ht & Hg & _ & _ & ->); [|done].
  apply generate_next_ok in Hg as (pk & Hpk & _ & _ & _ & _ & _ & _ & _ & Him & Hcalc & _ & Has & _ & _); [|done].
  destruct (set_confirmed_keeps (confirmed h) g) as (_ & F2 & _ & _ & F5 & F6).
  destruct (Hk pk (scheduled_in _ _ _ Hpk)) as [v Hv].
  set (s' := finish_header _ _ _ _) in *.
  assert (E1 : producer_to_last_implied_irb s' = producer_to_last_implied_irb g) by (unfold s'; cbn; done).
  assert (E2 : dpos_irreversible_blocknum s' = dpos_irreversible_blocknum g) by (unfold s'; cbn; done).
  assert (E3 : active_schedule s' = active_schedule s) by (unfold s'; cbn; by rewrite F2).
  assert (Hall : forall k x, producer_to_last_implied_irb g !! k = Some x ->
    x <= dpos_proposed_irreversible_blocknum s).
  { intros k x. rewrite Him. intros [[<- <-]|[_ Hx]]%lookup_insert_Some; [done|by apply Hp in Hx]. }
  assert (Hle : dpos_proposed_irreversible_blocknum s <= dpos_proposed_irreversible_blocknum s')
    by (destruct Hpr as [->|[? _]]; lia).
  pose proof (calc_insert_mono _ _ _ _ Hv (Hp _ _ Hv)) as Hm. rewrite <- Him, <- Hcalc in Hm.
  split_and!; [split|lia|].
  - intros pk' Hin. rewrite E3 in Hin. rewrite E1, Him, lookup_insert_is_Some'. right. by apply Hk.
  - intros k x Hx. rewrite E1 in Hx. apply Hall in Hx. lia.
  - rewrite E1, E2, Hcalc. done.
  - rewrite E2, Hcalc. etrans; [|exact Hle]. apply calc_upper; [|exact Hall].
    rewrite Him. apply insert_non_empty.
Qed.

(** C36: Along a chain of blocks without a change of the schedule, each confirming fewer
    blocks than there are, from a state in which every producer of the schedule has
    an entry of what it last implied, none above the proposed irreversible number,
    and the irreversible number is at most what these entries give: the irreversible
    number never decreases, stays at or below the proposed one, and the state keeps
    this form. Right after the promotion of a schedule it may not have it (theorem
    irreversible_decreases). *)
Theorem irreversible_never_decreases skip s0 l s
  (Hchain : chain skip s0 l s) (Hpos : l <> []) (Htr : tracking s0) (Him : implied_ok s0)
  (Hpend : producers (pending_schedule s0) = [])
  (Hlen : (length (producers (active_schedule s0)) <= 255)%nat)
  (Hnum : block_num s0 + Z.of_nat (length l) < 2 ^ 32) (Hplain : Forall plain l) :
  dpos_irreversible_blocknum s0 <= dpos_irreversible_blocknum s <= dpos_proposed_irreversible_blocknum s /\ implied_ok s.
Proof.
  cut (implied_ok s /\ dpos_irreversible_blocknum s0 <= dpos_irreversible_blocknum s /\
    (l <> [] -> dpos_irreversible_blocknum s <= dpos_proposed_irreversible_blocknum s)); [naive_solver|].
  clear Hpos. induction Hchain as [|l s h s' Hch IH H]; [by split_and!|].
  rewrite length_app in Hnum. cbn [length] in Hnum. apply Forall_app in Hplain as [Hpl Hh].
  apply Forall_cons in Hh as [[Hnp Hcf] _]. cbn [fst snd] in *.
  destruct IH as (Him' & Hle & _); [lia|done|].
  pose proof (chain_is_ok _ _ _ _ Hch Htr Hpend Hlen ltac:(lia) Hpl) as Hok.
  pose proof (ch_num _ _ _ Hok) as Hn. destruct Htr as [_ Htp].
  assert (Hn' : block_num s' = block_num s + 1).
  { destruct (next_fields _ _ _ _ H) as (? & _ & _ & _ & _ & -> & _). apply wrapU_small. width_norm. lia. }
  apply implied_step in H as (? & ? & ?);
    [|done|apply Hok|lia|lia|by rewrite (ch_schedule _ _ _ Hok)|split; [apply Hok|done]].
  split_and!; [done|lia|done].
Qed.

(** ** Progress. *)

(** The tracked blocks are the last ones; they go back to the proposed irreversible one. *)
Lemma set_confirmed_window n s :
  tracking s -> 0 <= n -> block_num s < 2 ^ 32 ->
  let s' := set_confirmed n s in
  length (confirm_count s') = length (confirm_count s)
  /\ dpos_proposed_irreversible_blocknum s' = dpos_proposed_irreversible_blocknum s \/
  (length (confirm_count s') <= length (confirm_count s))%nat
  /\ dpos_proposed_irreversible_blocknum s' = block_num s - Z.of_nat (length (confirm_count s')).
Proof.
  intros [Hc Hp] Hn Hb. unfold set_confirmed. cbn zeta.
  change (confirm_count (set_header_confirmed n s)) with (confirm_count s).
  change (block_num (set_header_confirmed n s)) with (block_num s).
  destruct (confirm_loop _ _ _) as [counts z] eqn:Hl.
  apply confirm_loop_spec in Hl as (Hlen & _ & Hz); [|lia|done|lia].
  destruct z as [i|]; [right|by left]. destruct Hz as (Hi & _ & _). cbn. rewrite length_drop, Hlen.
  rewrite wrapU_small by (width_norm; lia). lia.
Qed.

Lemma steady_window h skip s s' :
  tracking s -> block_num s + 1 < 2 ^ 32 -> 0 <= confirmed h <= block_num s ->
  (length (producers (active_schedule s)) <= 255)%nat -> steady s h ->
  (length (confirm_count s) < maximum_tracked_dpos_confirmations)%nat -> next h skip s = Ok s' ->
  (length (confirm_count s') <= S (length (confirm_count s)))%nat /\
  block_num s' - Z.of_nat (length (confirm_count s'))
  <= Z.max (block_num s - Z.of_nat (length (confirm_count s))) (dpos_proposed_irreversible_blocknum s').
Proof.
  intros Htr Hb Hcf Hlen Hst Hw H. apply next_steady in H as (g & Ht & Hg & _ & _ & ->); [|done].
  apply generate_next_ok in Hg as (pk & _ & _ & Hbg & _ & _ & _ & _ & Hpr & _ & _ & _ & _ & _ & Hcc); [|done].
  rewrite wrapU_small in Hbg by (destruct Htr; width_norm; lia).
  assert (Htg : tracking g) by (eapply (grow_tracking s); [done|by apply required_range|done..]).
  unfold grow_confirm_count in Hcc. rewrite (proj2 (Nat.ltb_lt _ _) Hw) in Hcc.
  assert (Hlg : length (confirm_count g) = S (length (confirm_count s)))
    by (rewrite Hcc, length_app; cbn; lia).
  destruct (set_confirmed_keeps (confirmed h) g) as (F1 & _).
  pose proof (set_confirmed_window (confirmed h) g Htg ltac:(lia) ltac:(width_norm; lia)) as Hs.
  cbn in Hs |- *. rewrite F1. destruct Hs as [[-> ->]|[? ->]]; lia.
Qed.

Lemma chain_window skip s0 l s :
  chain skip s0 l s -> tracking s0 -> producers (pending_schedule s0) = [] ->
  (length (producers (active_schedule s0)) <= 255)%nat ->
  block_num s0 + Z.of_nat (length l) < 2 ^ 32 -> Forall plain l ->
  (length (confirm_count s0) + length l <= maximum_tracked_dpos_confirmations)%nat ->
  (length (confirm_count s) <= length (confirm_count s0) + length l)%nat /\
  block_num s - Z.of_nat (length (confirm_count s))
  <= Z.max (block_num s0) (dpos_proposed_irreversible_blocknum s).
Proof.
  intros Hch Htr Hp Hlen. induction Hch as [|l s h s' Hch IH H]; intros Hb Hpl Hw; [lia|].
  rewrite length_app in *. cbn [length] in *. apply Forall_app in Hpl as [Hpl Hh].
  apply Forall_cons in Hh as [[Hnp Hcf] _]. cbn [fst snd] in *.
  destruct IH as [IH1 IH2]; [lia|done|lia|].
  pose proof (chain_is_ok _ _ _ _ Hch Htr Hp Hlen ltac:(lia) Hpl) as Hok.
  pose proof (ch_num _ _ _ Hok) as Hn. destruct Htr as [_ Htp].
  assert (Hn' : block_num s' = block_num s + 1).
  { destruct (next_fields _ _ _ _ H) as (? & _ & _ & _ & _ & -> & _). apply wrapU_small. width_norm. lia. }
  assert (Hlen' : (length (producers (active_schedule s)) <= 255)%nat) by by rewrite (ch_schedule _ _ _ Hok).
  assert (Hst : steady s h) by (split; [apply Hok|done]).
  pose proof (steady_window h skip s s' (ch_tracking _ _ _ Hok) ltac:(lia) ltac:(lia) Hlen' Hst ltac:(lia) H).
  pose proof (steady_step h skip s s' (ch_tracking _ _ _ Hok) ltac:(lia) ltac:(lia) Hlen' Hst H)
    as (_ & _ & _ & _ & _ & _ & _ & Hpr).
  lia.
Qed.

(** Enough confirmations of a block after the first state make it proposed irreversible. *)
Lemma confirmed_is_proposed skip s0 l s blk :
  chain skip s0 l s -> tracking s0 -> producers (pending_schedule s0) = [] ->
  (length (producers (active_schedule s0)) <= 255)%nat ->
  block_num s0 + Z.of_nat (length l) < 2 ^ 32 -> Forall plain l ->
  (length (confirm_count s0) + length l <= maximum_tracked_dpos_confirmations)%nat ->
  block_num s0 < blk -> required_confs s0 <= Z.of_nat (length (confirmers l blk)) ->
  blk <= dpos_proposed_irreversible_blocknum s.
Proof.
  intros Hch Htr Hp Hlen Hb Hpl Hw Hblk Hq.
  pose proof (chain_is_ok _ _ _ _ Hch Htr Hp Hlen Hb Hpl) as Hok.
  pose proof (chain_window _ _ _ _ Hch Htr Hp Hlen Hb Hpl Hw) as [_ Hwin].
  pose proof (required_range s0 Hlen) as Hreq.
  destruct (decide (blk <= dpos_proposed_irreversible_blocknum s)) as [|Hgt]; [done|exfalso].
  assert (Hle : blk <= block_num s).
  { destruct (decide (blk <= block_num s)) as [|Hg]; [done|].
    rewrite (confirmers_new _ _ _ _ Hok) in Hq by lia. cbn in Hq. lia. }
  remember (block_num s - Z.of_nat (length (confirm_count s))) as first eqn:Hf.
  destruct (lookup_lt_is_Some_2 (confirm_count s) (Z.to_nat (blk - first - 1))) as [c Hc]; [lia|].
  assert (Hn : needed s blk = Some c) by (unfold needed; rewrite <- Hf; by rewrite decide_True by lia).
  pose proof (ch_needed _ _ _ Hok _ _ Hblk Hn).
  pose proof (Forall_lookup_1 _ _ _ _ (tr_counts _ (ch_tracking _ _ _ Hok)) Hc) as Hr.
  unfold count_ok in Hr. lia.
Qed.

Lemma chain_split skip s0 l1 l2 s :
  chain skip s0 (l1 ++ l2) s -> exists s1, chain skip s0 l1 s1 /\ chain skip s1 l2 s.
Proof.
  revert s. induction l2 as [|x l2 IH] using rev_ind; intros s H.
  { rewrite app_nil_r in H. exists s. split; [done|constructor]. }
  rewrite app_assoc in H. inversion H as [E|l s' h s'' Hch Hn E]; [by destruct (l1 ++ l2)|].
  apply app_inj_tail in E as [-> <-]. apply IH in Hch as (s1 & Ha & Hb).
  subst. exists s1. split; [done|by eapply chain_snoc].
Qed.

(** What a block of a run without changes says of the irreversible blocks. *)
Lemma steady_implied h skip s s' :
  tracking s -> block_num s + 1 < 2 ^ 32 -> 0 <= confirmed h <= block_num s ->
  (length (producers (active_schedule s)) <= 255)%nat -> steady s h -> next h skip s = Ok s' ->
  producer h ∈ map producer_name (producers (active_schedule s)) /\
  producer_to_last_implied_irb s' =
    <[producer h := dpos_proposed_irreversible_blocknum s]> (producer_to_last_implied_irb s) /\
  dpos_irreversible_blocknum s' = calc_dpos_last_irreversible (producer_to_last_implied_irb s') /\
  dpos_proposed_irreversible_blocknum s <= dpos_proposed_irreversible_blocknum s'.
Proof.
  intros Htr Hb Hcf Hlen Hst H.
  pose proof (steady_step _ _ _ _ Htr Hb Hcf Hlen Hst H) as (_ & _ & _ & _ & _ & _ & _ & Hpr).
  pose proof (next_fields _ _ _ _ H) as (pk & Hpk & Hn & _).
  apply next_steady in H as (g & Ht & Hg & _ & _ & ->); [|done].
  apply generate_next_ok in Hg as (pk' & Hpk' & _ & _ & _ & _ & _ & _ & _ & Him & Hcalc & _); [|done].
  assert (pk' = pk) as -> by congruence. rewrite Hn in Him.
  destruct (set_confirmed_keeps (confirmed h) g) as (_ & _ & _ & _ & F5 & F6).
  split_and!.
  - rewrite <- Hn. apply list_elem_of_fmap. exists pk. split; [done|by eapply scheduled_in].
  - cbn. by rewrite F5.
  - cbn. rewrite F5, F6. done.
  - destruct Hpr as [->|[? _]]; lia.
Qed.

(** The producers of a run say at least what was proposed at its start. *)
Lemma chain_implied skip s0 l s :
  chain skip s0 l s -> tracking s0 -> producers (pending_schedule s0) = [] ->
  (length (producers (active_schedule s0)) <= 255)%nat ->
  block_num s0 + Z.of_nat (length l) < 2 ^ 32 -> Forall plain l ->
  let names := map producer_name (producers (active_schedule s0)) in
  (forall k, is_Some (producer_to_last_implied_irb s0 !! k) -> k ∈ names) ->
  (forall k, is_Some (producer_to_last_implied_irb s !! k) -> k ∈ names) /\
  dpos_proposed_irreversible_blocknum s0 <= dpos_proposed_irreversible_blocknum s /\
  (l <> [] -> dpos_irreversible_blocknum s = calc_dpos_last_irreversible (producer_to_last_implied_irb s)) /\
  (forall n h, (n, h) ∈ l -> exists v, producer_to_last_implied_irb s !! producer h = Some v /\
     dpos_proposed_irreversible_blocknum s0 <= v).
Proof.
  intros Hch Htr Hp Hlen Hb Hpl names Hdom. induction Hch as [|l s h s' Hch IH H].
  { split_and!; [done|lia|done|]. intros n h Hin. by apply not_elem_of_nil in Hin. }
  rewrite length_app in Hb. cbn [length] in Hb. apply Forall_app in Hpl as [Hpl Hh].
  apply Forall_cons in Hh as [[Hnp Hcf] _]. cbn [fst snd] in *.
  destruct IH as (IHd & IHp & _ & IHv); [lia|done|].
  pose proof (chain_is_ok _ _ _ _ Hch Htr Hp Hlen ltac:(lia) Hpl) as Hok.
  pose proof (ch_num _ _ _ Hok) as Hn. destruct Htr as [_ Htp].
  assert (Hn' : block_num s' = block_num s + 1).
  { destruct (next_fields _ _ _ _ H) as (? & _ & _ & _ & _ & -> & _). apply wrapU_small. width_norm. lia. }
  assert (Hst : steady s h) by (split; [apply Hok|done]).
  apply steady_implied in H as (Hin & Him & Hcalc & Hle);
    [|apply Hok|lia|lia|by rewrite (ch_schedule _ _ _ Hok)|done].
  rewrite (ch_schedule _ _ _ Hok) in Hin. split_and!.
  - intros k. rewrite Him, lookup_insert_is_Some'. intros [<-|Hk]; [done|by apply IHd].
  - lia.
  - done.
  - intros n h' [Hin'|Hin']%elem_of_app; rewrite Him.
    + destruct (decide (producer h = producer h')) as [->|Hne]; [eexists; rewrite lookup_insert_eq; split; [done|lia]|].
      rewrite lookup_insert_ne by done. by eapply IHv.
    + apply list_elem_of_singleton in Hin'. injection Hin' as -> ->. eexists. rewrite lookup_insert_eq. split; [done|lia].
Qed.

Lemma count_ge_snd w (l : list (Z * Z)) :
  count_ge w (map snd l) = length (filter (fun x => w <= snd x) l).
Proof.
  induction l as [|x l IH]; [done|]. cbn [map]. rewrite count_ge_cons, IH, filter_cons.
  repeat case_decide; done.
Qed.

(** A number that the entries of more than two thirds of the producers reach. *)
Lemma calc_quorum (m : gmap Z Z) (names ps : list Z) w :
  (forall k, is_Some (m !! k) -> k ∈ names) -> NoDup ps ->
  (forall p, p ∈ ps -> exists v, m !! p = Some v /\ w <= v) ->
  (2 * length names < 3 * length ps)%nat -> w <= calc_dpos_last_irreversible m.
Proof.
  intros Hdom Hnd Hps Hq. unfold calc_dpos_last_irreversible.
  assert (Hsize : (size m <= length names)%nat).
  { rewrite <- length_map_to_list, <- (length_fmap fst).
    apply submseteq_length, NoDup_submseteq; [apply NoDup_fst_map_to_list|].
    intros k ([k' v] & -> & Hin)%list_elem_of_fmap. apply Hdom. exists v. by apply elem_of_map_to_list. }
  assert (Hcount : (length ps <= count_ge w (map snd (map_to_list m)))%nat).
  { rewrite count_ge_snd, <- (length_fmap fst). apply submseteq_length, NoDup_submseteq; [done|].
    intros p (v & Hv & Hw)%Hps. apply list_elem_of_fmap. exists (p, v). split; [done|].
    apply list_elem_of_filter. split; [done|]. by apply elem_of_map_to_list. }
  apply third_iff.
  - intros E. rewrite E in Hcount. cbn in Hcount. lia.
  - rewrite length_map, length_map_to_list. lia.
Qed.

(** C31: Along a chain of blocks without a change of the schedule, each confirming fewer
    blocks than there are, and with at most 1024 blocks tracked until then, once
    more than two thirds of the producers have confirmed a block, and after that
    more than two thirds have produced another block, the block is irreversible. *)
Theorem confirmed_blocks_become_irreversible skip s0 l1 l2 s blk (ps qs : list Z)
  (Hchain : chain skip s0 (l1 ++ l2) s) (Htr : tracking s0) (Hpend : producers (pending_schedule s0) = [])
  (Hlen : (length (producers (active_schedule s0)) <= 255)%nat)
  (Hnum : block_num s0 + Z.of_nat (length (l1 ++ l2)) < 2 ^ 32) (Hplain : Forall plain (l1 ++ l2))
  (Hwindow : (length (confirm_count s0) + length l1 <= maximum_tracked_dpos_confirmations)%nat)
  (Hdom : forall k, is_Some (producer_to_last_implied_irb s0 !! k) ->
            k ∈ map producer_name (producers (active_schedule s0)))
  (Hblk : block_num s0 < blk) (Hps : NoDup ps) (Hqs : NoDup qs)
  (Hpq : (2 * length (producers (active_schedule s0)) < 3 * length ps)%nat)
  (Hqq : (2 * length (producers (active_schedule s0)) < 3 * length qs)%nat)
  (Hconf : forall p, p ∈ ps -> exists n h, (n, h) ∈ l1 /\ producer h = p /\ n - confirmed h <= blk <= n)
  (Hprod : forall q, q ∈ qs -> exists n h, (n, h) ∈ l2 /\ producer h = q) :
  blk <= dpos_irreversible_blocknum s.
Proof.
  apply chain_split in Hchain as (s1 & H1 & H2). rewrite length_app in Hnum.
  apply Forall_app in Hplain as [Hp1 Hp2].
  pose proof (chain_is_ok _ _ _ _ H1 Htr Hpend Hlen ltac:(lia) Hp1) as Hok.
  assert (Hprop : blk <= dpos_proposed_irreversible_blocknum s1).
  { eapply confirmed_is_proposed; [done..|lia|done|done|done|].
    assert (Hsub : (length ps <= length (confirmers l1 blk))%nat).
    { apply submseteq_length, NoDup_submseteq; [done|]. intros p (n & h & Hin & <- & Hc)%Hconf.
      apply confirmers_in. exists n, h. split_and!; [done|done|]. by apply bool_decide_eq_true. }
    unfold required_confs. assert (Z.of_nat (length (producers (active_schedule s0))) * 2 / 3 < Z.of_nat (length ps));
      [apply Z.div_lt_upper_bound; lia|lia]. }
  pose proof (chain_implied _ _ _ _ H1 Htr Hpend Hlen ltac:(lia) Hp1 Hdom) as (Hdom1 & _).
  pose proof (ch_num _ _ _ Hok) as Hn1. rewrite <- (ch_schedule _ _ _ Hok) in Hdom1, Hlen, Hqq.
  apply chain_implied in H2 as (Hdom2 & _ & Hcalc & Hv);
    [|apply Hok|apply Hok|done|lia|done|done].
  rewrite Hcalc.
  - eapply calc_quorum; [exact Hdom2|exact Hqs| |by rewrite length_map].
    intros q (n & h & Hin & <-)%Hprod. destruct (Hv _ _ Hin) as (v & ? & ?). exists v. split; [done|lia].
  - intros ->. destruct qs as [|q qs]; [cbn in Hqq; lia|].
    destruct (Hprod q ltac:(left)) as (n & h & Hin & _). by apply not_elem_of_nil in Hin.
Qed.

(** ** No block number is ahead of the block. *)
Record sound s : Prop := {
  sd_tracked : Z.of_nat (length (confirm_count s)) <= block_num s;
  sd_proposed : dpos_proposed_irreversible_blocknum s <= block_num s;
  sd_implied : forall k v, producer_to_last_implied_irb s !! k = Some v -> v <= block_num s;
  sd_irreversible : dpos_irreversible_blocknum s <= block_num s;
}.

Lemma confirm_loop_shape n : forall k counts counts' z,
  confirm_loop n k counts = (counts', z) ->
  length counts' = length counts /\ match z with Some i => (i < n)%nat | None => True end.
Proof.
  induction n as [|i IH]; intros k counts counts' z H; cbn [confirm_loop] in H; [by injection H as <- <-|].
  destruct (k =? 0); [by injection H as <- <-|]. destruct (_ =? 0).
  - injection H as <- <-. rewrite length_insert. split; [done|lia].
  - apply IH in H as [-> Hz]. rewrite length_insert. split; [done|]. destruct z; [lia|done].
Qed.

Lemma set_confirmed_sound n s :
  sound s -> block_num s < 2 ^ 32 -> sound (set_confirmed n s).
Proof.
  intros [Ht Hp Hi Hd] Hb. destruct (set_confirmed_keeps n s) as (F1 & _ & _ & _ & F5 & F6).
  split; [| |intros k v; rewrite F5; rewrite F1; by apply Hi|by rewrite F1, F6];
    rewrite F1; unfold set_confirmed;
    change (confirm_count (set_header_confirmed n s)) with (confirm_count s);
    change (block_num (set_header_confirmed n s)) with (block_num s);
    destruct (confirm_loop _ _ _) as [counts z] eqn:Hl; apply confirm_loop_shape in Hl as [Hlen Hz];
    destruct z as [i|]; cbn; try rewrite length_drop; try lia.
  rewrite wrapU_small by (width_norm; lia). lia.
Qed.

Lemma for_producers_upper (l : list producer_key) (known : gmap Z Z) lib b :
  lib <= b -> (forall k v, known !! k = Some v -> v <= b) ->
  forall k v, for_producers (key := key) l known lib !! k = Some v -> v <= b.
Proof.
  intros Hlib Hk. unfold for_producers.
  assert (H0 : forall k v, (∅ : gmap Z Z) !! k = Some v -> v <= b) by (intros k v; by rewrite lookup_empty).
  revert H0. generalize (∅ : gmap Z Z) as m. induction l as [|pro l IH]; intros m Hm k v; cbn; [by apply Hm|].
  apply IH. intros k' v' [[<- <-]|[_ Hx]]%lookup_insert_Some; [|by eapply Hm].
  destruct (known !! producer_name pro) eqn:E; cbn; [by eapply Hk|done].
Qed.

Lemma promote_sound s r b : maybe_promote_pending s = (r, b) -> sound s -> sound r.
Proof.
  unfold maybe_promote_pending. case_match; intros [= <- <-]; [|done]. intros [Ht Hp Hi Hd].
  split; cbn; try done. by apply for_producers_upper.
Qed.

Lemma promote_bft s r b :
  maybe_promote_pending s = (r, b) -> bft_irreversible_blocknum r = bft_irreversible_blocknum s.
Proof. unfold maybe_promote_pending. case_match; by intros [= <- <-]. Qed.

Lemma next_bft h skip s s' :
  next h skip s = Ok s' -> bft_irreversible_blocknum s' = bft_irreversible_blocknum s.
Proof.
  intros H. apply next_ok in H as (g & r & b & _ & _ & _ & Hg & _ & _ & Hp & (r' & -> & Hr) & _).
  assert (E1 : bft_irreversible_blocknum g = bft_irreversible_blocknum s).
  { unfold BlockState.generate_next in Hg. apply rbind_ok in Hg as (? & _ & Hg).
    apply rbind_ok in Hg as (? & _ & Hg). apply rbind_ok in Hg as (? & _ & Hg). by injection Hg as <-. }
  assert (E2 : bft_irreversible_blocknum r = bft_irreversible_blocknum g).
  { apply promote_bft in Hp as ->. unfold set_confirmed. by destruct (confirm_loop _ _ _) as [? [?|]]. }
  cbn. destruct (new_producers h); [|by rewrite Hr, E2].
  destruct Hr as [_ Hr]. unfold set_new_producers in Hr. apply rbind_ok in Hr as (? & _ & Hr).
  apply rbind_ok in Hr as (? & _ & Hr). injection Hr as <-. cbn. congruence.
Qed.

Lemma next_sound h skip s s' :
  sound s -> 0 <= block_num s -> block_num s + 1 < 2 ^ 32 -> next h skip s = Ok s' -> sound s'.
Proof.
  intros [Ht Hp Hi Hd] H0 Hb H.
  apply next_ok in H as (g & r & b & Htm & _ & _ & Hg & _ & _ & Hpr & (r' & -> & Hr) & _).
  apply generate_next_ok in Hg as (pk & _ & _ & Hbg & _ & _ & _ & _ & Hpg & Him & Hcalc & _ & _ & _ & Hcc); [|done].
  rewrite wrapU_small in Hbg by (width_norm; lia).
  assert (Hig : forall k v, producer_to_last_implied_irb g !! k = Some v -> v <= block_num s).
  { intros k v. rewrite Him. intros [[<- <-]|[_ Hx]]%lookup_insert_Some; [done|by eapply Hi]. }
  assert (Hsg : sound g).
  { split; [rewrite Hcc; pose proof (grow_length s); lia|lia|intros k v Hv; apply Hig in Hv; lia|].
    rewrite Hcalc. etrans; [apply calc_upper; [rewrite Him; apply insert_non_empty|exact Hig]|lia]. }
  assert (Hsr : sound r) by (eapply promote_sound; [exact Hpr|]; apply set_confirmed_sound; [done|lia]).
  assert (Hsr' : sound r').
  { destruct (new_producers h); [|by subst]. destruct Hr as [_ Hr]. unfold set_new_producers in Hr.
    apply rbind_ok in Hr as (? & _ & Hr). apply rbind_ok in Hr as (? & _ & Hr). injection Hr as <-.
    destruct Hsr. by split. }
  destruct Hsr'. by split.
Qed.

(** ** Block numbers in ids. *)

(** What reversing the bytes of 32 bits does, as far as ids rely on it. *)
Definition reverses (f : Z -> Z) : Prop :=
  forall x, 0 <= x < 2 ^ 32 -> 0 <= f x < 2 ^ 32 /\ f (f x) = x.

Lemma low_word_zero x : Z.land x 0xffffffff00000000 mod 2 ^ 32 = 0.
Proof. rewrite <- Z.land_ones by lia. rewrite <- Z.land_assoc. change (Z.land _ (Z.ones 32)) with 0. apply Z.land_0_r. Qed.

Lemma num_from_header_id (h : signed_block_header) :
  reverses endian_reverse_u32 ->
  num_from_id endian_reverse_u32 (header_id header_digest endian_reverse_u32 h)
  = header_block_num endian_reverse_u32 h.
Proof.
  intros Hrev. unfold num_from_id, header_id. cbn [hash0].
  assert (Hn : 0 <= header_block_num endian_reverse_u32 h < 2 ^ 32) by by apply wrapU_range.
  destruct (Hrev _ Hn) as [Hr Hinv]. set (r := endian_reverse_u32 _) in *.
  assert (E : u32 (u64 (Z.land (hash0 (header_digest h)) 0xffffffff00000000 + r)) = r); [|by rewrite E].
  unfold wrapU. rewrite Z.mod_mod_divide by (by exists (2 ^ 32)).
  rewrite Z.add_mod, low_word_zero, Z.add_0_l, Z.mod_mod by (width_norm; lia). by apply Z.mod_small.
Qed.

(** The id of every accepted block carries the number of the block in its first 32
    bits. *)
Theorem id_holds_number h skip s s'
  (Hrev : reverses endian_reverse_u32) (Hid : num_from_id endian_reverse_u32 (id s) = block_num s)
  (H : next h skip s = Ok s') :
  num_from_id endian_reverse_u32 (id s') = block_num s'.
Proof.
  destruct (next_fields _ _ _ _ H) as (? & _ & _ & _ & _ & -> & _ & _ & Hpv & _ & _ & ->).
  rewrite num_from_header_id by done. unfold header_block_num. by rewrite Hpv, Hid.
Qed.
End steps.

(** ** Concrete chains.

    Keys and signatures are numbers, a signature being the key itself; the digests of
    headers and schedules and the hash of pairs are constant. *)
Definition ex_digest {A} (_ : A) : digest_type := zero_digest.
Definition ex_recover (sig : Z) (_ : digest_type) : option Z := Some sig.

(** The bytes of 32 bits in reverse order. *)
Definition byte_swap (x : Z) : Z :=
  x mod 256 * 2 ^ 24 + x / 2 ^ 8 mod 256 * 2 ^ 16 + x / 2 ^ 16 mod 256 * 2 ^ 8 + x / 2 ^ 24 mod 256.

Lemma byte_swap_reverses : reverses byte_swap.
Proof.
  intros x Hx. unfold byte_swap. width_norm. change (2 ^ 24) with 16777216.
  assert (E : x = x mod 256 + 256 * (x / 256 mod 256) + 65536 * (x / 65536 mod 256) + 16777216 * (x / 16777216 mod 256)).
  { Z.div_mod_to_equations. lia. }
  set (a := x mod 256) in *. set (b := x / 256 mod 256) in *. set (c := x / 65536 mod 256) in *.
  set (d := x / 16777216 mod 256) in *.
  assert (0 <= a < 256) by (apply Z.mod_pos_bound; lia). assert (0 <= b < 256) by (apply Z.mod_pos_bound; lia).
  assert (0 <= c < 256) by (apply Z.mod_pos_bound; lia). assert (0 <= d < 256) by (apply Z.mod_pos_bound; lia).
  split; [lia|]. etrans; [|symmetry; exact E]. clearbody a b c d. clear E Hx.
  set (y := a * 16777216 + b * 65536 + c * 256 + d).
  assert (y mod 256 = d) as -> by (unfold y; Z.div_mod_to_equations; lia).
  assert (y / 256 mod 256 = c) as -> by (unfold y; Z.div_mod_to_equations; lia).
  assert (y / 65536 mod 256 = b) as -> by (unfold y; Z.div_mod_to_equations; lia).
  assert (y / 16777216 mod 256 = a) as -> by (unfold y; Z.div_mod_to_equations; lia). lia.
Qed.

Abbreviation ex_state := (block_header_state (key := Z) (signature := Z)) (only parsing).
Definition ex_next (h : signed_block_header (key := Z) (signature := Z)) (s : ex_state) : result ex_state :=
  next ex_digest ex_digest ex_digest ex_recover byte_swap h false s.
Definition ex_ok (r : result ex_state) (s : ex_state) : ex_state := match r with Ok s' => s' | Err _ => s end.

(** Producers by name, whose key is ten more. *)
Definition ex_schedule (v : Z) (names : list Z) : producer_schedule_type (key := Z) :=
  ProducerSchedule v (map (fun n => ProducerKey n (n + 10)) names).

(** A block in the slot [t], confirming [n] more. *)
Definition ex_header (t prod n v : Z) (prev : digest_type) : signed_block_header (key := Z) (signature := Z) :=
  Header t prod n prev zero_digest zero_digest v None [] (Some (prod + 10)).

Definition ex_id (n : Z) : digest_type := Digest (byte_swap n) 0 0 0.

(** Block 10 on the slot 11, with four producers, none of which has confirmed anything. *)
Definition ex_start : ex_state :=
  BlockHeaderState (ex_id 10) 10 (ex_header 11 4 0 1 zero_digest) 0 0 0 0 zero_digest
    (ex_schedule 1 []) (ex_schedule 1 [1; 2; 3; 4]) (IncrementalMerkle 0 [])
    {[1 := 1; 2 := 4; 3 := 7; 4 := 10]} {[1 := 0; 2 := 0; 3 := 0; 4 := 0]} (Some 14) [] [].

(** Three blocks of three producers. *)
Definition ex_h1 := ex_header 12 1 0 1 (ex_id 10).
Definition ex_h2 := ex_header 15 2 1 1 (ex_id 11).
Definition ex_h3 := ex_header 18 3 2 1 (ex_id 12).
Definition ex_s1 : ex_state := ex_ok (ex_next ex_h1 ex_start) ex_start.
Definition ex_s2 : ex_state := ex_ok (ex_next ex_h2 ex_s1) ex_start.
Definition ex_s3 : ex_state := ex_ok (ex_next ex_h3 ex_s2) ex_start.
Definition ex_blocks := [(11, ex_h1); (12, ex_h2); (13, ex_h3)].

Abbreviation ex_chain := (chain ex_digest ex_digest ex_digest ex_recover byte_swap false ex_start) (only parsing).

Lemma ex_chain_snoc (l : list (Z * signed_block_header (key := Z) (signature := Z))) s h s' n :
  ex_chain l s -> ex_next h s = Ok s' -> block_num s' = n -> ex_chain (l ++ [(n, h)]) s'.
Proof. intros ? ? <-. by eapply chain_snoc. Qed.

Lemma ex_chain_run : ex_chain ex_blocks ex_s3.
Proof.
  apply (ex_chain_snoc [(11, ex_h1); (12, ex_h2)] ex_s2 ex_h3 ex_s3 13); [|by vm_compute..].
  apply (ex_chain_snoc [(11, ex_h1)] ex_s1 ex_h2 ex_s2 12); [|by vm_compute..].
  apply (ex_chain_snoc [] ex_start ex_h1 ex_s1 11); [|by vm_compute..]. constructor.
Qed.

Lemma ex_start_tracking : tracking ex_start.
Proof. split; [constructor|cbn; lia]. Qed.

Lemma ex_start_implied : implied_ok ex_start.
Proof.
  split.
  - intros pk Hin. cbn in Hin |- *. rewrite !elem_of_cons in Hin.
    destruct Hin as [->|[->|[->|[->|Hn]]]]; [by eexists..|by apply not_elem_of_nil in Hn].
  - intros k v Hk. cbn in Hk. rows_of Hk; cbn; lia.
  - by vm_compute.
Qed.

Lemma ex_blocks_plain : Forall plain ex_blocks.
Proof. repeat constructor; cbn; lia. Qed.

Lemma proposed_needs_quorum_witness :
  dpos_proposed_irreversible_blocknum ex_s3 = 11 /\
  exists ps : list Z, NoDup ps /\ 2 * 4 < 3 * Z.of_nat (length ps) /\
    forall p, p ∈ ps -> exists n h, (n, h) ∈ ex_blocks /\ producer h = p /\
      n - confirmed h <= dpos_proposed_irreversible_blocknum ex_s3 <= n.
Proof.
  split; [by vm_compute|].
  apply (proposed_needs_quorum ex_digest ex_digest ex_digest ex_recover byte_swap false ex_start
           ex_blocks ex_s3 ex_chain_run ex_start_tracking);
    [done|cbn; lia|done|exact ex_blocks_plain|by vm_compute].
Defined.

(** Three more, of three producers. *)
Definition ex_h4 := ex_header 21 4 3 1 (ex_id 13).
Definition ex_h5 := ex_header 24 1 3 1 (ex_id 14).
Definition ex_h6 := ex_header 27 2 3 1 (ex_id 15).
Definition ex_s4 : ex_state := ex_ok (ex_next ex_h4 ex_s3) ex_start.
Definition ex_s5 : ex_state := ex_ok (ex_next ex_h5 ex_s4) ex_start.
Definition ex_s6 : ex_state := ex_ok (ex_next ex_h6 ex_s5) ex_start.
Definition ex_more := [(14, ex_h4); (15, ex_h5); (16, ex_h6)].

Lemma ex_chain_more : ex_chain (ex_blocks ++ ex_more) ex_s6.
Proof.
  apply (ex_chain_snoc (ex_blocks ++ [(14, ex_h4); (15, ex_h5)]) ex_s5 ex_h6 ex_s6 16); [|by vm_compute..].
  apply (ex_chain_snoc (ex_blocks ++ [(14, ex_h4)]) ex_s4 ex_h5 ex_s5 15); [|by vm_compute..].
  apply (ex_chain_snoc ex_blocks ex_s3 ex_h4 ex_s4 14); [exact ex_chain_run|by vm_compute..].
Qed.

Lemma ex_more_plain : Forall plain (ex_blocks ++ ex_more).
Proof. repeat constructor; cbn; lia. Qed.

Lemma irreversible_never_decreases_witness :
  dpos_irreversible_blocknum ex_s6 = 11 /\ 0 <= 11 <= dpos_proposed_irreversible_blocknum ex_s6 /\ implied_ok ex_s6.
Proof.
  split; [by vm_compute|].
  apply (irreversible_never_decreases ex_digest ex_digest ex_digest ex_recover byte_swap false ex_start
           (ex_blocks ++ ex_more) ex_s6 ex_chain_more);
    [done|exact ex_start_tracking|exact ex_start_implied|done|cbn; lia|done|exact ex_more_plain].
Defined.

Lemma confirmed_blocks_become_irreversible_witness : 11 <= dpos_irreversible_blocknum ex_s6.
Proof.
  apply (confirmed_blocks_become_irreversible ex_digest ex_digest ex_digest ex_recover byte_swap false
           ex_start ex_blocks ex_more ex_s6 11 [1; 2; 3] [4; 1; 2] ex_chain_more ex_start_tracking);
    [done|cbn; lia|done|exact ex_more_plain|unfold maximum_tracked_dpos_confirmations; cbn; lia| |done|by apply (bool_decide_unpack _)
    |by apply (bool_decide_unpack _)|cbn; lia|cbn; lia| |].
  - intros k [v Hv]. cbn in Hv. rows_of Hv; cbn; set_solver.
  - intros p Hp. rewrite !elem_of_cons in Hp. destruct Hp as [->|[->|[->|Hn]]]; [| | |by apply not_elem_of_nil in Hn].
    + exists 11, ex_h1. split; [left|cbn; lia].
    + exists 12, ex_h2. split; [right; left|cbn; lia].
    + exists 13, ex_h3. split; [right; right; left|cbn; lia].
  - intros p Hp. rewrite !elem_of_cons in Hp. destruct Hp as [->|[->|[->|Hn]]]; [| | |by apply not_elem_of_nil in Hn].
    + exists 14, ex_h4. split; [left|done].
    + exists 15, ex_h5. split; [right; left|done].
    + exists 16, ex_h6. split; [right; right; left|done].
Defined.

Lemma next_block_witness :
  exists prokey sig digest,
    get_scheduled_producer 12 ex_start = Ok prokey /\ producer_name prokey = 1 /\
    11 < 12 /\ ex_id 10 = ex_id 10 /\ block_num ex_s1 = u32 (10 + 1) /\
    Some 11 = Some sig /\ sig_digest ex_digest ex_digest ex_s1 = Some digest /\
    ex_recover sig digest = Some (pk_signing_key prokey).
Proof.
  apply (next_block ex_digest ex_digest ex_digest ex_recover byte_swap ex_h1 ex_start ex_s1).
  by vm_compute.
Defined.

Lemma id_holds_number_witness : num_from_id byte_swap (id ex_s1) = block_num ex_s1.
Proof.
  apply (id_holds_number ex_digest ex_digest ex_digest ex_recover byte_swap ex_h1 false ex_start ex_s1
           byte_swap_reverses); by vm_compute.
Defined.

(** *** Confirmations that wrap around.

    Producer 1 alone makes three blocks, each of which claims to confirm 65535 blocks
    before it: the range starts below zero, in 32 bits above all numbers. *)
Definition ex_w1 := ex_header 12 1 65535 1 (ex_id 10).
Definition ex_w2 := ex_header 13 1 65535 1 (ex_id 11).
Definition ex_w3 := ex_header 14 1 65535 1 (ex_id 12).

(** A producer that claims to confirm more blocks than there are passes the check
    against double confirmations, because the start of the range wraps around in 32
    bits: three blocks of one of four producers make a block proposed irreversible. *)
Theorem confirmation_wraps :
  exists s1 s2 s3,
    ex_next ex_w1 ex_start = Ok s1 /\ ex_next ex_w2 s1 = Ok s2 /\ ex_next ex_w3 s2 = Ok s3 /\
    dpos_proposed_irreversible_blocknum s3 = 11 /\ required_confs ex_start = 3.
Proof.
  exists (ex_ok (ex_next ex_w1 ex_start) ex_start).
  exists (ex_ok (ex_next ex_w2 (ex_ok (ex_next ex_w1 ex_start) ex_start)) ex_start).
  eexists. split_and!; by vm_compute.
Qed.

(** *** A new schedule.

    Seven producers; the blocks up to 100 are irreversible for five of them.  The new
    schedule has the other two. *)
Definition ex_old : ex_state :=
  BlockHeaderState (ex_id 200) 200 (ex_header 20 7 0 1 zero_digest) 100 100 0 50 zero_digest
    (ex_schedule 2 [6; 7]) (ex_schedule 1 [1; 2; 3; 4; 5; 6; 7]) (IncrementalMerkle 0 [])
    {[1 := 190; 2 := 190; 3 := 190; 4 := 190; 5 := 190; 6 := 10; 7 := 10]}
    {[1 := 100; 2 := 100; 3 := 100; 4 := 100; 5 := 100; 6 := 5; 7 := 5]} (Some 17) [] [].

Definition ex_n1 := ex_header 21 1 0 1 (ex_id 200).
Definition ex_n2 := ex_header 24 6 0 2 (ex_id 201).
Definition ex_new1 : ex_state := ex_ok (ex_next ex_n1 ex_old) ex_old.
Definition ex_new2 : ex_state := ex_ok (ex_next ex_n2 ex_new1) ex_old.

(** When a new schedule consists of producers that have lagged behind, the
    irreversible block number goes down. *)
Theorem irreversible_decreases :
  ex_next ex_n1 ex_old = Ok ex_new1 /\ ex_next ex_n2 ex_new1 = Ok ex_new2 /\
  dpos_irreversible_blocknum ex_old = 100 /\ dpos_irreversible_blocknum ex_new1 = 100 /\
  dpos_irreversible_blocknum ex_new2 = 5.
Proof. split_and!; by vm_compute. Qed.
