(* ===== verification/ForkDb.v ===== *)
(** * The fork database.

    [fork_database.cpp] and [block_state.cpp]: the blocks that are not irreversible yet,
    the choice of the best of their branches, and the blocks that become irreversible
    and leave.  The blocks are shared objects, so the database is a store of objects
    with an index of the ones it holds.  The container that orders them belongs to a
    library; what is used of it is the class [OrderedIndex]. *)
From stdpp Require Import base gmap list sorting strings.
From Stdlib Require Import ZArith Lia.
From S2P Require Import Prelude Merkle BlockState.

Open Scope Z_scope.

Definition total_preorder {A} (le : A -> A -> bool) : Prop :=
  (forall a b, le a b = true \/ le b a = true) /\
  (forall a b c, le a b = true -> le b c = true -> le a c = true).

(** A container with ordered indices: each lists the elements by its order, in which
    erasing some elements does not move the others; the hashed index lists them in no
    particular order. *)
Class OrderedIndex (A : Type) := {
  ordered : (A -> A -> bool) -> list A -> list A;
  hashed : list A -> list A;
  ordered_perm le l : ordered le l ≡ₚ l;
  ordered_sorted le l : total_preorder le -> StronglySorted (fun a b => le a b = true) (ordered le l);
  ordered_filter le (P : A -> Prop) `{!forall a, Decision (P a)} l : total_preorder le ->
    ordered le (filter P l) = filter P (ordered le l);
  hashed_perm l : hashed l ≡ₚ l;
}.

(** The address of a shared object. *)
Definition block_state_ptr := nat.

(** ** Removing blocks and what builds on them. *)

(** The loop of [remove] over its queue of ids; nothing when the fuel is used up. *)
Fixpoint remove_loop (ids prevs : block_state_ptr -> digest_type) (fuel : nat)
    (remove_queue : list digest_type) (ls : list block_state_ptr) : option (list block_state_ptr) :=
  match remove_queue, fuel with
  | [], _ => Some ls
  | _, O => None
  | i :: rest, S fuel =>
      let ls := filter (fun l => ids l <> i) ls in
      remove_loop ids prevs fuel (rest ++ map ids (filter (fun l => prevs l = i) ls)) ls
  end.

(** The blocks of [ls] that have one of the ids, or build on it directly or not. *)
Inductive builds_on (ids prevs : block_state_ptr -> digest_type) (ls : list block_state_ptr)
    (roots : list digest_type) : block_state_ptr -> Prop :=
| builds_self l : l ∈ ls -> ids l ∈ roots -> builds_on ids prevs ls roots l
| builds_prev l : l ∈ ls -> prevs l ∈ roots -> builds_on ids prevs ls roots l
| builds_step l l' : l ∈ ls -> builds_on ids prevs ls roots l' -> prevs l = ids l' ->
    builds_on ids prevs ls roots l.

Section remove.
Context (ids prevs : block_state_ptr -> digest_type).
Implicit Types (ls : list block_state_ptr) (queue : list digest_type).

Lemma builds_on_in ls roots l : builds_on ids prevs ls roots l -> l ∈ ls.
Proof. by destruct 1. Qed.

Definition unique_ids ls : Prop := forall l l', l ∈ ls -> l' ∈ ls -> ids l = ids l' -> l = l'.

Lemma unique_ids_filter ls (P : block_state_ptr -> Prop) `{!forall l, Decision (P l)} :
  unique_ids ls -> unique_ids (filter P ls).
Proof. intros Hu l l' [_ ?]%list_elem_of_filter [_ ?]%list_elem_of_filter. by apply Hu. Qed.

(** One round: what builds on the first id builds on it, or on one of its children. *)
Lemma builds_round ls i rest l :
  let ls' := filter (fun l => ids l <> i) ls in
  unique_ids ls -> l ∈ ls' ->
  builds_on ids prevs ls (i :: rest) l
  <-> builds_on ids prevs ls' (rest ++ map ids (filter (fun l => prevs l = i) ls')) l.
Proof.
  intros ls' Hu Hl. set (children := filter (fun l => prevs l = i) ls').
  assert (Hchild : forall l, l ∈ children <-> prevs l = i /\ l ∈ ls').
  { intros x. unfold children. by rewrite list_elem_of_filter. }
  assert (Hls : forall l, l ∈ ls' <-> ids l <> i /\ l ∈ ls).
  { intros x. unfold ls'. by rewrite list_elem_of_filter. }
  assert (Hof : forall x, x ∈ children -> ids x ∈ rest ++ map ids children).
  { intros x Hx. apply elem_of_app. right. apply list_elem_of_fmap. eauto. }
  split; intros Hb.
  - induction Hb as [l Hin Hr|l Hin Hr|l l' Hin Hb IH Heq].
    + apply builds_self; [done|]. apply elem_of_cons in Hr as [E|Hr]; [by apply Hls in Hl as []|].
      apply elem_of_app. by left.
    + apply elem_of_cons in Hr as [E|Hr].
      * apply builds_self; [done|]. by apply Hof, Hchild.
      * apply builds_prev; [done|]. apply elem_of_app. by left.
    + destruct (decide (ids l' = i)) as [E|Hne].
      * apply builds_self; [done|]. apply Hof, Hchild. split; [congruence|done].
      * eapply builds_step; [done| |exact Heq]. apply IH. apply Hls.
        split; [done|by eapply builds_on_in].
  - assert (Hx : forall x, x ∈ children -> builds_on ids prevs ls (i :: rest) x).
    { intros x [Hp [_ Hx]%Hls]%Hchild. apply builds_prev; [done|]. rewrite Hp. by left. }
    clear Hl. induction Hb as [l Hin Hr|l Hin Hr|l l' Hin Hb IH Heq]; apply Hls in Hin as [Hne Hin].
    + apply elem_of_app in Hr as [Hr|Hr]; [apply builds_self; [done|by right]|].
      apply list_elem_of_fmap in Hr as (x & E & Hr). pose proof (Hx _ Hr) as Hbx.
      by rewrite (Hu l x Hin (builds_on_in _ _ _ Hbx) E).
    + apply elem_of_app in Hr as [Hr|Hr]; [apply builds_prev; [done|by right]|].
      apply list_elem_of_fmap in Hr as (x & E & Hr). eapply builds_step; [done|by apply Hx|done].
    + by eapply builds_step.
Qed.

Lemma builds_nil ls l : ~ builds_on ids prevs ls [] l.
Proof. induction 1 as [? ? H|? ? H|]; [by apply not_elem_of_nil in H..|done]. Qed.

(** The loop keeps exactly the blocks that build on none of the ids, in their order. *)
Lemma remove_loop_spec fuel : forall queue ls ls',
  unique_ids ls -> remove_loop ids prevs fuel queue ls = Some ls' ->
  ls' `sublist_of` ls /\ forall l, l ∈ ls' <-> l ∈ ls /\ ~ builds_on ids prevs ls queue l.
Proof.
  induction fuel as [|fuel IH]; intros [|i rest] ls ls' Hu H; cbn in H; try done.
  1,2: injection H as <-; split; [done|]; intros l; pose proof (builds_nil ls l); tauto.
  apply IH in H as [Hsub Hin]; [|by apply unique_ids_filter]. split.
  - etrans; [exact Hsub|]. apply sublist_filter.
  - intros l. rewrite Hin. split.
    + intros [Hl Hb]. assert (Hl' := Hl). apply list_elem_of_filter in Hl' as [_ Hl'].
      split; [done|]. by rewrite builds_round.
    + intros [Hl Hb]. assert (Hne : ids l <> i).
      { intros E. apply Hb, builds_self; [done|]. rewrite E. by left. }
      assert (Hf : l ∈ filter (fun l => ids l <> i) ls) by by apply list_elem_of_filter.
      split; [done|]. by rewrite <- builds_round.
Qed.

Lemma remove_loop_gone fuel : forall queue ls ls' l,
  unique_ids ls -> remove_loop ids prevs fuel queue ls = Some ls' -> l ∈ ls -> l ∉ ls' ->
  builds_on ids prevs ls queue l.
Proof.
  induction fuel as [|fuel IH]; intros [|i rest] ls ls' l Hu H Hl Hl'; cbn in H; try done.
  1,2: by injection H as <-.
  destruct (decide (ids l = i)) as [E|Hne]; [apply builds_self; [done|rewrite E; by left]|].
  assert (Hf : l ∈ filter (fun l => ids l <> i) ls) by by apply list_elem_of_filter.
  rewrite builds_round by done. eapply IH; [by apply unique_ids_filter|exact H|done|done].
Qed.

(** A queue of children of erased blocks: the loop erases one block for each of them. *)
Lemma remove_loop_children fuel : forall queue ls,
  unique_ids ls -> NoDup ls -> NoDup queue -> (forall i, i ∈ queue -> exists l, l ∈ ls /\ ids l = i) ->
  (forall l, l ∈ ls -> ids l ∈ queue -> forall l', l' ∈ ls -> ids l' <> prevs l) ->
  (length ls <= fuel)%nat -> is_Some (remove_loop ids prevs fuel queue ls).
Proof.
  induction fuel as [|fuel IH]; intros [|i rest] ls Hu Hls Hq Hin Hgone Hlen; cbn; eauto.
  { destruct (Hin i ltac:(left)) as (l & Hl & _). destruct ls; [by apply not_elem_of_nil in Hl|cbn in Hlen; lia]. }
  destruct (Hin i ltac:(left)) as (li & Hli & Hi). apply NoDup_cons in Hq as [Hni Hq].
  set (ls' := filter (fun l => ids l <> i) ls).
  assert (Hls' : forall l, l ∈ ls' <-> ids l <> i /\ l ∈ ls).
  { intros x. unfold ls'. by rewrite list_elem_of_filter. }
  assert (Hc : forall x, x ∈ map ids (filter (fun l => prevs l = i) ls') ->
            exists l, ids l = x /\ prevs l = i /\ l ∈ ls').
  { intros x (l & -> & [Hp Hl]%list_elem_of_filter)%list_elem_of_fmap. eauto. }
  apply IH.
  - by apply unique_ids_filter.
  - by apply NoDup_filter.
  - apply NoDup_app. split_and!; [done| |].
    + intros x Hx (l & <- & Hp & [_ Hl]%Hls')%Hc. apply (Hgone l Hl ltac:(by right) li Hli). congruence.
    + apply NoDup_fmap_2_strong; [|by repeat apply NoDup_filter].
      intros x y [_ [_ Hx]%Hls']%list_elem_of_filter [_ [_ Hy]%Hls']%list_elem_of_filter. by apply Hu.
  - intros x [Hx|(l & <- & Hp & Hl)%Hc]%elem_of_app; [|eauto].
    destruct (Hin x ltac:(by right)) as (l & Hl & <-). exists l. split; [|done].
    apply Hls'. split; [|done]. intros E. by rewrite E in Hx.
  - intros l [Hne Hl]%Hls' Hx l' [Hne' Hl']%Hls'. apply elem_of_app in Hx as [Hx|(x & E & Hp & [_ Hx]%Hls')%Hc].
    + apply Hgone; [done|by right|done].
    + rewrite <- (Hu x l Hx Hl E). congruence.
  - assert (length ls' < length ls)%nat; [|lia]. apply (length_filter_lt _ _ li); [done|]. intros ?. done.
Qed.

Lemma remove_loop_total ls i :
  unique_ids ls -> NoDup ls -> is_Some (remove_loop ids prevs (S (length ls)) [i] ls).
Proof.
  intros Hu Hls. cbn. set (ls' := filter (fun l => ids l <> i) ls).
  assert (Hls' : forall l, l ∈ ls' <-> ids l <> i /\ l ∈ ls).
  { intros x. unfold ls'. by rewrite list_elem_of_filter. }
  assert (Hu' : unique_ids ls') by by apply unique_ids_filter.
  assert (Hc : forall x, x ∈ map ids (filter (fun l => prevs l = i) ls') ->
            exists l, ids l = x /\ prevs l = i /\ l ∈ ls').
  { intros x (l & -> & [Hp Hl]%list_elem_of_filter)%list_elem_of_fmap. eauto. }
  apply remove_loop_children.
  - done.
  - by apply NoDup_filter.
  - apply NoDup_fmap_2_strong; [|by repeat apply NoDup_filter].
    intros x y [_ Hx]%list_elem_of_filter [_ Hy]%list_elem_of_filter. by apply Hu'.
  - intros x (l & <- & Hp & Hl)%Hc. eauto.
  - intros l Hl (x & E & Hp & Hx)%Hc l' [Hne _]%Hls'. rewrite <- (Hu' x l Hx Hl E). congruence.
  - apply length_filter.
Qed.
End remove.

Section fork_db.
Context {key signature payload trx : Type} `{!EqDecision key}.
Context (header_digest : signed_block_header (key := key) (signature := signature) -> digest_type).
Context (schedule_digest : producer_schedule_type (key := key) -> digest_type).
Context (hash_pair : digest_type * digest_type -> digest_type).
Context (recover : signature -> digest_type -> option key).
Context (endian_reverse_u32 : Z -> Z).
Context `{!OrderedIndex block_state_ptr}.

Abbreviation block_header_state := (block_header_state (key := key) (signature := signature)).
Abbreviation signed_block_header := (signed_block_header (key := key) (signature := signature)).
Abbreviation header_id := (header_id header_digest endian_reverse_u32).
Abbreviation next := (next header_digest schedule_digest hash_pair recover endian_reverse_u32).

(** A block: its header, and what is in it. *)
Record signed_block := SignedBlock {
  block_header : signed_block_header;
  block_payload : payload;
}.

Record block_state := BlockStateOf {
  header_state : block_header_state;
  block : signed_block;
  validated : bool;
  in_current_chain : bool;
  trxs : list trx;
}.

(** The constructor of a block state from the state before it and a block. *)
Definition make_block_state (prev : block_header_state) (b : signed_block) (skip_validate_signee : bool)
  : result block_state :=
  (let* s := next (block_header b) skip_validate_signee prev in Ok (BlockStateOf s b false false []))%res.

(** The constructor of the state of a block to be produced. *)
Definition start_block_state (prev : block_header_state) (when : Z) (empty : payload)
  : result block_state :=
  (let* s := generate_next hash_pair when prev in
   let h := header s in
   Ok (BlockStateOf s
         (SignedBlock (Header (timestamp h) (producer h) (confirmed h) (previous h) (transaction_mroot h)
                         (action_mroot h) (schedule_version h) (new_producers h) (header_extensions h) None)
            empty) false false []))%res.

(** [irreversible] records the blocks the signal was given for. *)
Record fork_database := ForkDatabase {
  store : block_state_ptr -> block_state;
  allocated : nat;
  index : list block_state_ptr;
  fork_head : option block_state_ptr;
  irreversible : list block_state_ptr;
}.
Implicit Types (db : fork_database) (l h n : block_state_ptr).

Definition with_store (f : block_state_ptr -> block_state) db : fork_database :=
  ForkDatabase f (allocated db) (index db) (fork_head db) (irreversible db).
Definition with_index (ls : list block_state_ptr) db : fork_database :=
  ForkDatabase (store db) (allocated db) ls (fork_head db) (irreversible db).
Definition with_head l db : fork_database :=
  ForkDatabase (store db) (allocated db) (index db) (Some l) (irreversible db).
Definition signal_irreversible l db : fork_database :=
  ForkDatabase (store db) (allocated db) (index db) (fork_head db) (irreversible db ++ [l]).

Definition update_at l (f : block_state -> block_state) db : fork_database :=
  with_store (fun l' => if (l' =? l)%nat then f (store db l') else store db l') db.

(** [std::make_shared]. *)
Definition make_shared (s : block_state) db : block_state_ptr * fork_database :=
  (allocated db,
   ForkDatabase (fun l' => if (l' =? allocated db)%nat then s else store db l') (S (allocated db))
     (index db) (fork_head db) (irreversible db)).

Definition state_at db l : block_header_state := header_state (store db l).
Definition id_at db l : digest_type := id (state_at db l).
Definition num_at db l : Z := block_num (state_at db l).
Definition prev_at db l : digest_type := previous (header (state_at db l)).

(** The indices: the best branch first, and by number with the current chain first. *)
Definition lib_le db l l' : bool :=
  let s := state_at db l in
  let s' := state_at db l' in
  (dpos_irreversible_blocknum s' <? dpos_irreversible_blocknum s)
  || (dpos_irreversible_blocknum s' =? dpos_irreversible_blocknum s)
     && ((bft_irreversible_blocknum s' <? bft_irreversible_blocknum s)
         || (bft_irreversible_blocknum s' =? bft_irreversible_blocknum s) && (block_num s' <=? block_num s)).

Definition num_le db l l' : bool :=
  (num_at db l <? num_at db l')
  || (num_at db l =? num_at db l')
     && implb (in_current_chain (store db l')) (in_current_chain (store db l)).

Definition by_lib_block_num db : list block_state_ptr := ordered (lib_le db) (index db).
Definition by_block_num db : list block_state_ptr := ordered (num_le db) (index db).

(** The dereferenced beginning of an index. *)
Definition first_of (ls : list block_state_ptr) : result block_state_ptr :=
  of_option (List.hd_error ls) "beginning of an empty index".

(** [get_block]: nothing where the source returns a null pointer. *)
Definition get_block (i : digest_type) db : option block_state_ptr :=
  List.find (fun l => bool_decide (id_at db l = i)) (index db).

Definition insert_index l db : option fork_database :=
  match get_block (id_at db l) db with
  | Some _ => None
  | None => Some (with_index (index db ++ [l]) db)
  end.

Definition erase l db : fork_database := with_index (filter (fun l' => l' <> l) (index db)) db.

(** [set]. *)
Definition set_block l db : result fork_database :=
  (check* bool_decide (id_at db l = header_id (header (state_at db l)))
     with "block state id is different from block state header id" in
   let* db := of_option (insert_index l db) "unable to insert block state, duplicate state detected" in
   match fork_head db with
   | None => Ok (with_head l db)
   | Some h => Ok (if num_at db h <? num_at db l then with_head l db else db)
   end)%res.

(** ** Removing branches. *)

Definition remove (i : digest_type) db : result fork_database :=
  (let* ls := of_option (remove_loop (id_at db) (prev_at db) (S (length (index db))) [i] (index db))
                "out of fuel" in
   let db := with_index ls db in
   let* h := first_of (by_lib_block_num db) in
   Ok (with_head h db))%res.

Definition set_validity h (valid : bool) db : result fork_database :=
  if negb valid then remove (id_at db h) db
  else Ok (update_at h (fun s => BlockStateOf (header_state s) (block s) true (in_current_chain s) (trxs s)) db).

Definition mark_in_current_chain h (b : bool) db : result fork_database :=
  if Bool.eqb (in_current_chain (store db h)) b then Ok db else
  (let* l := of_option (get_block (id_at db h) db) "could not find block in fork database" in
   Ok (update_at l (fun s => BlockStateOf (header_state s) (block s) (validated s) b (trxs s)) db))%res.

(** ** Irreversible blocks. *)

(** The iterator after an element of an index. *)
Fixpoint after l (ls : list block_state_ptr) : option block_state_ptr :=
  match ls with
  | [] => None
  | l' :: ls => if (l' =? l)%nat then List.hd_error ls else after l ls
  end.

(** The loop of [prune] over the other blocks of the number: [nitr] is an iterator, nothing
    at the end.  Removing a block removes what builds on it, and with it may go the block
    the iterator is at: what follows is undefined. *)
Fixpoint prune_forks (fuel : nat) (num : Z) (nitr : option block_state_ptr) db : result fork_database :=
  match nitr, fuel with
  | None, _ => Ok db
  | Some _, O => Err "out of fuel"
  | Some l, S fuel =>
      (check* bool_decide (l ∈ index db) with "iterator to an erased block" in
       if negb (num_at db l =? num) then Ok db else
       let nitr := after l (by_block_num db) in
       let* db := remove (id_at db l) db in
       prune_forks fuel num nitr db)%res
  end.

Definition lower_bound (num : Z) db : option block_state_ptr :=
  List.find (fun l => num <=? num_at db l) (by_block_num db).

(** [prune] after its first loop. *)
Definition prune_at h db : result fork_database :=
  let num := num_at db h in
  let db :=
    match get_block (id_at db h) db with
    | Some l => erase l (signal_irreversible l db)
    | None => db
    end in
  prune_forks (S (length (index db))) num (lower_bound num db) db.

(** [prune]: first all blocks with a lower number. *)
Fixpoint prune (fuel : nat) h db : result fork_database :=
  match fuel with
  | O => Err "out of fuel"
  | S fuel =>
      match by_block_num db with
      | l :: _ =>
          if num_at db l <? num_at db h
          then (let* db := prune fuel l db in prune fuel h db)%res
          else prune_at h db
      | [] => prune_at h db
      end
  end.

Definition prune_fuel db : nat := S (S (length (index db))).

(** ** Adding blocks. *)

(** [add] of a block state. *)
Definition add_state n (skip_validate_previous : bool) db : result fork_database :=
  (check* bool_decide (is_Some (fork_head db)) with "no head block set" in
   check* skip_validate_previous
          || bool_decide (is_Some (get_block (previous (block_header (block (store db n)))) db))
     with "unlinkable block" in
   let* db := of_option (insert_index n db) "duplicate block added?" in
   let* h := first_of (by_lib_block_num db) in
   let db := with_head h db in
   let lib := dpos_irreversible_blocknum (state_at db h) in
   let* oldest := first_of (by_block_num db) in
   if num_at db oldest <? lib then prune (prune_fuel db) oldest db else Ok db)%res.

(** [add] of a block: the state of the block is made from the one it builds on. *)
Definition add_block (b : signed_block) (skip_validate_signee : bool) db : result fork_database :=
  (check* bool_decide (is_Some (fork_head db)) with "no head block set" in
   check* bool_decide (get_block (header_id (block_header b)) db = None)
     with "we already know about this block" in
   let* prior := of_option (get_block (previous (block_header b)) db) "unlinkable block" in
   let* s := make_block_state (state_at db prior) b skip_validate_signee in
   let (n, db) := make_shared s db in
   add_state n true db)%res.

(** ** Branches. *)

(** The first two loops of [fetch_branch_from]: up to the number of the other block.
    Where there is no block before, the message of the failed assertion dereferences
    the null pointer. *)
Fixpoint climb (fuel : nat) (target : Z) l (branch : list block_state_ptr) db
  : result (list block_state_ptr * block_state_ptr) :=
  match fuel with
  | O => Err "out of fuel"
  | S fuel =>
      if target <? num_at db l then
        (let* l' := of_option (get_block (prev_at db l) db) "null pointer" in
         climb fuel target l' (branch ++ [l]) db)%res
      else Ok (branch, l)
  end.

(** The third loop: both go back until they build on the same block. *)
Fixpoint climb_both (fuel : nat) l1 l2 (branch1 branch2 : list block_state_ptr) db
  : result (list block_state_ptr * list block_state_ptr) :=
  match fuel with
  | O => Err "out of fuel"
  | S fuel =>
      if bool_decide (prev_at db l1 = prev_at db l2) then Ok (branch1 ++ [l1], branch2 ++ [l2]) else
      (let* l1' := of_option (get_block (prev_at db l1) db) "null pointer" in
       let* l2' := of_option (get_block (prev_at db l2) db) "null pointer" in
       climb_both fuel l1' l2' (branch1 ++ [l1]) (branch2 ++ [l2]) db)%res
  end.

(** Each step goes down one number. *)
Definition climb_fuel db l : nat := S (Z.to_nat (num_at db l)).

Definition fetch_branch_from (first second : digest_type) db
  : result (list block_state_ptr * list block_state_ptr) :=
  (let* l1 := of_option (get_block first db) "null pointer" in
   let* l2 := of_option (get_block second db) "null pointer" in
   let* (branch1, l1) := climb (climb_fuel db l1) (num_at db l2) l1 [] db in
   let* (branch2, l2) := climb (climb_fuel db l2) (num_at db l1) l2 [] db in
   climb_both (climb_fuel db l1) l1 l2 branch1 branch2 db)%res.

Definition get_block_in_current_chain_by_num (num : Z) db : option block_state_ptr :=
  l ← lower_bound num db;
  if (num_at db l =? num) && in_current_chain (store db l) then Some l else None.

(** ** Confirmations. *)

Definition set_bft num (s : block_state) : block_state :=
  let g := header_state s in
  BlockStateOf
    (BlockHeaderState (id g) (block_num g) (header g) (dpos_proposed_irreversible_blocknum g)
       (dpos_irreversible_blocknum g) num (pending_schedule_lib_num g) (pending_schedule_hash g)
       (pending_schedule g) (active_schedule g) (blockroot_merkle g) (producer_to_last_produced g)
       (producer_to_last_implied_irb g) (block_signing_key g) (confirm_count g) (confirmations g))
    (block s) (validated s) (in_current_chain s) (trxs s).

(** The blocks that build on [i] are raised to [num]; gives the ids of the changed ones. *)
Definition update_children num db (i : digest_type) : fork_database * list digest_type :=
  foldl (fun '(db, updated) l =>
           if bft_irreversible_blocknum (state_at db l) <? num
           then (update_at l (set_bft num) db, updated ++ [id_at db l]) else (db, updated))
    (db, []) (filter (fun l => prev_at db l = i) (index db)).

Definition update_layer num db (layer : list digest_type) : fork_database * list digest_type :=
  foldl (fun '(db, updated) i =>
           let (db', more) := update_children num db i in (db', updated ++ more)) (db, []) layer.

Fixpoint update_layers (fuel : nat) num (queue : list digest_type) db : option fork_database :=
  match queue, fuel with
  | [], _ => Some db
  | _, O => None
  | _, S fuel => let (db', queue') := update_layer num db queue in update_layers fuel num queue' db'
  end.

Definition set_bft_irreversible (i : digest_type) db : result fork_database :=
  (let* l := of_option (get_block i db) "null pointer" in
   let num := num_at db l in
   let db := update_at l (set_bft num) db in
   of_option (update_layers (S (length (index db))) num [i] db) "out of fuel")%res.

(** [add] of a confirmation. *)
Definition add_header_confirmation (c : header_confirmation) db : result fork_database :=
  (let* l := of_option (get_block (hc_block_id c) db) "unable to find block id" in
   let* s := add_confirmation header_digest hash_pair recover c (state_at db l) in
   let db := update_at l (fun b => BlockStateOf s (block b) (validated b) (in_current_chain b) (trxs b)) db in
   if (bft_irreversible_blocknum s <? block_num s)
      && (Z.of_nat (length (producers (active_schedule s))) * 2 / 3 + 1
          <=? Z.of_nat (length (confirmations s)))
   then set_bft_irreversible (hc_block_id c) db else Ok db)%res.

(** ** Saving and loading. *)

(** What [close] writes: all blocks and the id of the head. *)
Record fork_db_image := ForkDbImage {
  saved_blocks : list block_state;
  saved_head : digest_type;
}.

Definition save db : fork_db_image :=
  ForkDbImage (map (store db) (hashed (index db)))
    match fork_head db with Some h => id_at db h | None => zero_digest end.

(** [close]: nothing is written where there are no blocks. *)
Definition close db : result (option fork_db_image * fork_database) :=
  if (length (index db) =? 0)%nat then Ok (None, db) else
  (let* h := of_option (fork_head db) "null pointer" in
   let lib := dpos_irreversible_blocknum (state_at db h) in
   let* oldest := first_of (by_block_num db) in
   let* db' := if num_at db oldest <=? lib then prune (prune_fuel db) oldest db else Ok db in
   Ok (Some (save db), with_index [] db'))%res.

(** The constructor with the file that was written. *)
Definition load (image : fork_db_image) db : result fork_database :=
  (let* db := rfold (fun db s => let (l, db) := make_shared s db in set_block l db) db (saved_blocks image) in
   Ok (ForkDatabase (store db) (allocated db) (index db) (get_block (saved_head image) db)
         (irreversible db)))%res.


(** ** The indices. *)

Lemma lib_le_order db : total_preorder (lib_le db).
Proof.
  unfold lib_le. split; intros *; rewrite !orb_true_iff, !andb_true_iff, !orb_true_iff, !andb_true_iff,
    ?Z.ltb_lt, ?Z.eqb_eq, ?Z.leb_le; lia.
Qed.

Lemma num_le_order db : total_preorder (num_le db).
Proof.
  unfold num_le. split; intros *; rewrite !orb_true_iff, !andb_true_iff, ?Z.ltb_lt, ?Z.eqb_eq.
  - destruct (Z.lt_total (num_at db a) (num_at db b)) as [|[|]]; [naive_solver| |naive_solver].
    destruct (in_current_chain (store db a)), (in_current_chain (store db b)); naive_solver.
  - intros [?|[? ?]] [?|[? ?]]; [left; lia..|right]. split; [lia|].
    destruct (in_current_chain (store db a)), (in_current_chain (store db b)), (in_current_chain (store db c)); naive_solver.
Qed.

Lemma first_of_ordered le ls l :
  total_preorder le -> first_of (ordered le ls) = Ok l -> l ∈ ls /\ forall l', l' ∈ ls -> le l l' = true.
Proof.
  intros Hle H. apply of_option_ok in H. pose proof (ordered_sorted le ls Hle) as Hs.
  pose proof (ordered_perm le ls) as Hp. destruct (ordered le ls) as [|x xs]; [done|].
  injection H as ->. apply StronglySorted_inv in Hs as [_ Hs]. split.
  - rewrite <- Hp. by left.
  - intros l' Hl'. rewrite <- Hp in Hl'. apply elem_of_cons in Hl' as [->|Hl'].
    + destruct Hle as [Ht _]. by destruct (Ht l l).
    + by eapply Forall_forall in Hs.
Qed.

Lemma first_of_some le ls : ls <> [] -> exists l, first_of (ordered le ls) = Ok l.
Proof.
  intros Hne. pose proof (ordered_perm le ls) as Hp. destruct (ordered le ls) as [|x xs].
  - by apply Permutation_nil_l in Hp.
  - by exists x.
Qed.

Lemma get_block_Some i db l : get_block i db = Some l -> l ∈ index db /\ id_at db l = i.
Proof. unfold get_block. intros [Hin Hb]%find_some. apply bool_decide_eq_true in Hb. by rewrite list_elem_of_In. Qed.

Lemma get_block_None i db : get_block i db = None <-> forall l, l ∈ index db -> id_at db l <> i.
Proof.
  unfold get_block. split.
  - intros H l Hl E. apply list_elem_of_In, (find_none _ _ H) in Hl. by rewrite bool_decide_eq_false in Hl.
  - intros H. destruct (List.find _ _) as [l|] eqn:E; [|done]. apply get_block_Some in E as [Hl E].
    by apply H in Hl.
Qed.

Lemma get_block_at db l : unique_ids (id_at db) (index db) -> l ∈ index db -> get_block (id_at db l) db = Some l.
Proof.
  intros Hu Hl. destruct (get_block (id_at db l) db) as [l'|] eqn:E.
  - apply get_block_Some in E as [Hl' E]. by rewrite (Hu l' l).
  - rewrite get_block_None in E. by apply E in Hl.
Qed.

(** ** The blocks form a tree. *)

Section invariant.
Context (Hrev : reverses endian_reverse_u32).
Abbreviation num_from_id := (num_from_id endian_reverse_u32).

(** What holds of every block in the index. *)
Record block_ok (s : block_header_state) : Prop := {
  bk_header : id s = header_id (header s);
  bk_num : num_from_id (id s) = block_num s;
  bk_small : block_num s < 2 ^ 32 - 1;
  bk_sound : sound s;
}.

(** The ids are unique, and the blocks build on each other or on one block before them. *)
Record db_ok db : Prop := {
  ok_alloc : forall l, l ∈ index db -> (l < allocated db)%nat;
  ok_nodup : NoDup (index db);
  ok_unique : unique_ids (id_at db) (index db);
  ok_block : forall l, l ∈ index db -> block_ok (state_at db l);
  ok_root : exists r, forall l, l ∈ index db ->
    prev_at db l = r \/ exists l', l' ∈ index db /\ id_at db l' = prev_at db l;
}.

Lemma block_num_prev s : block_ok s -> block_num s = u32 (num_from_id (previous (header s)) + 1).
Proof. intros [Hh Hn _ _]. rewrite <- Hn, Hh. by rewrite num_from_header_id. Qed.

Lemma block_num_nonneg s : block_ok s -> 0 <= block_num s.
Proof. intros H. rewrite block_num_prev by done. by apply wrapU_range. Qed.

Lemma num_link db l l' :
  db_ok db -> l ∈ index db -> l' ∈ index db -> id_at db l' = prev_at db l -> num_at db l = num_at db l' + 1.
Proof.
  intros Hok Hl Hl' E. pose proof (ok_block _ Hok _ Hl) as Hb. pose proof (ok_block _ Hok _ Hl') as Hb'.
  unfold num_at. rewrite (block_num_prev _ Hb). unfold prev_at in E. rewrite <- E. unfold id_at.
  rewrite (bk_num _ Hb'). pose proof (block_num_nonneg _ Hb'). destruct Hb' as [_ _ Hs _].
  apply wrapU_small. width_norm. lia.
Qed.

(** The number of the blocks that build on the block before all others is the lowest. *)
Lemma num_lowest db r l :
  db_ok db ->
  (forall l, l ∈ index db -> prev_at db l = r \/ exists l', l' ∈ index db /\ id_at db l' = prev_at db l) ->
  l ∈ index db -> u32 (num_from_id r + 1) <= num_at db l.
Proof.
  intros Hok Hr. assert (H : forall k l, Z.to_nat (num_at db l) = k -> l ∈ index db -> u32 (num_from_id r + 1) <= num_at db l);
    [|by eapply H].
  induction k as [k IH] using lt_wf_ind. intros x Hk Hx.
  pose proof (ok_block _ Hok _ Hx) as Hb. pose proof (block_num_nonneg _ Hb) as Hge.
  destruct (Hr _ Hx) as [E|(x' & Hx' & E)].
  - rewrite <- E. unfold num_at, prev_at. rewrite (block_num_prev _ Hb). lia.
  - pose proof (num_link _ _ _ Hok Hx Hx' E) as Hn. pose proof (block_num_nonneg _ (ok_block _ Hok _ Hx')) as Hge'.
    unfold num_at in *. specialize (IH (Z.to_nat (num_at db x')) ltac:(unfold num_at; lia) x' eq_refl Hx').
    unfold num_at in IH. lia.
Qed.

(** *** Operations that keep the store and shrink the index. *)

Definition same_store db db' : Prop :=
  store db' = store db /\ allocated db' = allocated db.

Lemma same_store_at db db' : same_store db db' ->
  state_at db' = state_at db /\ id_at db' = id_at db /\ prev_at db' = prev_at db /\ num_at db' = num_at db /\
  lib_le db' = lib_le db /\ num_le db' = num_le db.
Proof.
  intros [E _]. unfold lib_le, num_le, id_at, prev_at, num_at, state_at. rewrite E. done.
Qed.

(** No kept block builds on one that is gone. *)
Definition closed db (ls : list block_state_ptr) : Prop :=
  forall l l', l ∈ ls -> l' ∈ index db -> id_at db l' = prev_at db l -> l' ∈ ls.

Definition best db h : Prop := h ∈ index db /\ forall l, l ∈ index db -> lib_le db h l = true.

Lemma remove_ok i db db' :
  unique_ids (id_at db) (index db) -> remove i db = Ok db' ->
  same_store db db' /\ irreversible db' = irreversible db /\ index db' `sublist_of` index db /\
  (forall l, l ∈ index db' <-> l ∈ index db /\ ~ builds_on (id_at db) (prev_at db) (index db) [i] l) /\
  (forall l, l ∈ index db -> l ∉ index db' -> builds_on (id_at db) (prev_at db) (index db) [i] l) /\
  closed db (index db') /\ exists h, fork_head db' = Some h /\ best db' h.
Proof.
  intros Hu H. unfold remove in H. apply rbind_ok in H as (ls & Hls & H). apply of_option_ok in Hls.
  apply rbind_ok in H as (h & Hh & H). injection H as <-. cbn.
  pose proof (fun l => remove_loop_gone _ _ _ _ _ _ l Hu Hls) as Hgone.
  apply remove_loop_spec in Hls as [Hsub Hls]; [|done]. split_and!; try done.
  - intros l l' Hl Hl' E. apply Hls in Hl as [Hl Hb]. apply Hls. split; [done|]. intros Hb'.
    apply Hb. by eapply builds_step.
  - exists h. split; [done|]. apply first_of_ordered in Hh as [? ?]; [|apply lib_le_order]. by split.
Qed.

Lemma remove_total i db :
  unique_ids (id_at db) (index db) -> NoDup (index db) ->
  (exists l, l ∈ index db /\ ~ builds_on (id_at db) (prev_at db) (index db) [i] l) ->
  exists db', remove i db = Ok db'.
Proof.
  intros Hu Hnd (l & Hl & Hb). unfold remove.
  destruct (remove_loop_total (id_at db) (prev_at db) (index db) i Hu Hnd) as [ls Hls]. rewrite Hls. cbn.
  apply remove_loop_spec in Hls as [_ Hls]; [|done].
  destruct (first_of_some (lib_le db) ls) as [h Hh].
  { intros ->. assert (l ∈ []) as Hn by by apply Hls. by apply not_elem_of_nil in Hn. }
  exists (with_head h (with_index ls db)). unfold by_lib_block_num. cbn.
  change (lib_le (with_index ls db)) with (lib_le db). by rewrite Hh.
Qed.

Lemma shrink_ok db db' :
  db_ok db -> same_store db db' -> index db' `sublist_of` index db -> closed db (index db') -> db_ok db'.
Proof.
  intros [Ha Hn Hu Hb [r Hr]] [Es Ea] Hsub Hc.
  assert (Hin : forall l, l ∈ index db' -> l ∈ index db) by (intros l Hl; by eapply elem_of_sublist).
  destruct (same_store_at db db') as (Est & Eid & Ep & _); [done|].
  split.
  - intros l Hl. rewrite Ea. by apply Ha, Hin.
  - by eapply sublist_NoDup.
  - rewrite Eid. intros l l' Hl Hl'. by apply Hu; apply Hin.
  - intros l Hl. rewrite Est. by apply Hb, Hin.
  - exists r. intros l Hl. rewrite Eid, Ep. destruct (Hr _ (Hin _ Hl)) as [?|(l' & Hl' & E)]; [by left|right].
    exists l'. split; [by eapply Hc|done].
Qed.

(** *** Pruning. *)

Lemma builds_on_mono ids prevs ls ls' roots l :
  ls' ⊆ ls -> builds_on ids prevs ls' roots l -> builds_on ids prevs ls roots l.
Proof.
  intros Hsub. induction 1; [apply builds_self|apply builds_prev|eapply builds_step]; eauto.
Qed.

Lemma sublist_as_filter (ls' ls : list block_state_ptr) :
  NoDup ls -> ls' `sublist_of` ls -> ls' = filter (fun l => l ∈ ls') ls.
Proof.
  intros Hnd Hsub. induction Hsub as [|x ls' ls Hsub IH|x ls' ls Hsub IH]; [done| |].
  - apply NoDup_cons in Hnd as [Hx Hnd]. rewrite filter_cons_True by by left. f_equal.
    rewrite (IH Hnd) at 1. apply filter_ext_in. intros y Hy.
    rewrite elem_of_cons. split; [by right|]. intros [->|?]; done.
  - apply NoDup_cons in Hnd as [Hx Hnd]. rewrite filter_cons_False; [by apply IH|].
    intros Hin. apply Hx. by eapply elem_of_sublist.
Qed.

(** Where the loop stands: the blocks before the iterator have lower numbers. *)
Definition iterator_at (num : Z) (nitr : option block_state_ptr) db : Prop :=
  match nitr with
  | None => forall l, l ∈ index db -> num_at db l < num
  | Some l => num <= num_at db l /\
      (l ∈ index db -> exists pre post, by_block_num db = pre ++ l :: post /\ forall x, x ∈ pre -> num_at db x < num)
  end.

Lemma num_le_num db l l' : num_le db l l' = true -> num_at db l <= num_at db l'.
Proof. unfold num_le. rewrite orb_true_iff, andb_true_iff, Z.ltb_lt, Z.eqb_eq. lia. Qed.

Lemma by_num_perm db : by_block_num db ≡ₚ index db.
Proof. apply ordered_perm. Qed.

Lemma by_num_after db pre l post x :
  by_block_num db = pre ++ l :: post -> x ∈ post -> num_at db l <= num_at db x.
Proof.
  intros E Hx. pose proof (ordered_sorted (num_le db) (index db) (num_le_order db)) as Hs.
  fold (by_block_num db) in Hs. rewrite E in Hs. apply StronglySorted_app in Hs as (_ & _ & Hs).
  apply StronglySorted_inv in Hs as [_ Hs]. eapply Forall_forall in Hs; [|exact Hx]. by apply num_le_num.
Qed.

Lemma after_app pre l post : l ∉ pre -> after l (pre ++ l :: post) = List.hd_error post.
Proof.
  induction pre as [|x pre IH]; cbn; intros Hn; [by rewrite Nat.eqb_refl|].
  apply not_elem_of_cons in Hn as [Hne Hn]. rewrite (proj2 (Nat.eqb_neq x l)) by done. by apply IH.
Qed.

Lemma iterator_lower num db : iterator_at num (lower_bound num db) db.
Proof.
  unfold lower_bound. pose proof (by_num_perm db) as Hp.
  destruct (List.find _ (by_block_num db)) as [l|] eqn:E; cbn.
  - apply find_some in E as Hf. destruct Hf as [_ Hf%Z.leb_le]. split; [done|]. intros _.
    clear Hp Hf. induction (by_block_num db) as [|x ls IH]; [done|]. cbn in E.
    destruct (num <=? num_at db x) eqn:Hx.
    + injection E as ->. exists [], ls. split; [done|]. intros y Hy. by apply not_elem_of_nil in Hy.
    + destruct (IH E) as (pre & post & -> & Hpre). exists (x :: pre), post. split; [done|].
      intros y [->|Hy]%elem_of_cons; [by apply Z.leb_gt in Hx|by apply Hpre].
  - intros l Hl. rewrite <- Hp in Hl. apply list_elem_of_In, (find_none _ _ E), Z.leb_gt in Hl. done.
Qed.

(** The iterator after the erased block. *)
Lemma iterator_next num l pre post db db' :
  NoDup (index db) -> num_at db l = num -> by_block_num db = pre ++ l :: post ->
  (forall x, x ∈ pre -> num_at db x < num) -> same_store db db' -> index db' `sublist_of` index db ->
  l ∉ index db' -> iterator_at num (after l (by_block_num db)) db'.
Proof.
  intros Hnd Hl E Hpre Hst Hsub Hgone. destruct (same_store_at _ _ Hst) as (_ & _ & _ & En & _ & Enle).
  assert (Hnd' : NoDup (pre ++ l :: post)) by (rewrite <- E, by_num_perm; done).
  assert (Hpl : l ∉ pre).
  { apply NoDup_app in Hnd' as (_ & Hd & _). intros Hin. apply (Hd _ Hin). by left. }
  rewrite E, after_app by done.
  assert (E' : by_block_num db' = filter (fun x => x ∈ index db') pre ++ filter (fun x => x ∈ index db') post).
  { unfold by_block_num at 1. rewrite (sublist_as_filter _ _ Hnd Hsub) at 1. rewrite ordered_filter, Enle by apply num_le_order.
    fold (by_block_num db). rewrite E, filter_app, filter_cons_False by done. done. }
  destruct post as [|x post]; cbn.
  - intros y Hy. rewrite <- (by_num_perm db'), E' in Hy. cbn in Hy. rewrite app_nil_r in Hy.
    apply list_elem_of_filter in Hy as [_ Hy]. rewrite En. by apply Hpre.
  - rewrite En. split; [rewrite <- Hl; eapply by_num_after; [exact E|by left]|].
    intros Hx. rewrite filter_cons_True in E' by done. eexists _, _. split; [exact E'|].
    intros y [_ Hy]%list_elem_of_filter. by apply Hpre.
Qed.

Lemma prune_forks_ok fuel : forall num nitr db db',
  unique_ids (id_at db) (index db) -> NoDup (index db) -> iterator_at num nitr db ->
  prune_forks fuel num nitr db = Ok db' ->
  same_store db db' /\ irreversible db' = irreversible db /\ index db' `sublist_of` index db /\
  closed db (index db') /\ (forall l, l ∈ index db' -> num_at db l <> num) /\
  (forall l, l ∈ index db -> l ∉ index db' -> exists x, x ∈ index db /\ num_at db x = num /\
     builds_on (id_at db) (prev_at db) (index db) [id_at db x] l) /\
  (index db' = index db /\ fork_head db' = fork_head db \/ exists h, fork_head db' = Some h /\ best db' h).
Proof.
  induction fuel as [|fuel IH]; intros num [l|] db db' Hu Hnd Hit H; cbn in H; try done.
  1,3: injection H as <-; split_and!; try done; [by intros ?; naive_solver| |by left];
    intros l Hl E; apply Hit in Hl; lia.
  apply rbind_ok in H as (u & Hin & H). apply rassert_ok, bool_decide_eq_true in Hin.
  destruct Hit as [Hge Hit]. destruct (Hit Hin) as (pre & post & E & Hpre).
  destruct (Z.eqb_spec (num_at db l) num) as [Hl|Hl]; cbn [negb] in H.
  2:{ injection H as <-. split_and!; try done; [by intros ?; naive_solver| |by left].
      intros x Hx. rewrite <- (by_num_perm db), E in Hx. apply elem_of_app in Hx as [Hx|Hx].
      - apply Hpre in Hx. lia.
      - apply elem_of_cons in Hx as [->|Hx]; [done|]. pose proof (by_num_after _ _ _ _ _ E Hx). lia. }
  apply rbind_ok in H as (db1 & H1 & H). apply remove_ok in H1 as (Hst & Hirr & Hsub & Hls & Hbs & Hc & Hh); [|done].
  destruct (same_store_at _ _ Hst) as (_ & Eid & Ep & En & Elib & _).
  assert (Hgone : l ∉ index db1).
  { intros [_ Hb]%Hls. apply Hb, builds_self; [done|by left]. }
  apply IH in H as (Hst' & Hirr' & Hsub' & Hc' & Hnum & Hrem & Hh').
  - destruct Hst as [S1 S2], Hst' as [S3 S4]. rewrite Eid, Ep, En in Hrem. rewrite En in Hnum.
    split_and!; [split; congruence|congruence|by etrans|..|exact Hnum| |].
    + intros x x' Hx Hx' Ex. apply (Hc' x x'); [done| |by rewrite Eid, Ep].
      apply (Hc x x'); [by eapply elem_of_sublist|done|done].
    + intros x Hx Hx'. destruct (decide (x ∈ index db1)) as [Hx1|Hx1].
      * destruct (Hrem x Hx1 Hx') as (y & Hy & Hny & Hby). exists y.
        split_and!; [by eapply elem_of_sublist|done|]. eapply builds_on_mono; [|exact Hby].
        by apply sublist_subseteq.
      * exists l. split_and!; [done|done|by apply Hbs].
    + right. destruct Hh' as [[Ei Eh]|Hh']; [|done]. destruct Hh as (h & Hh & Hbest).
      exists h. split; [congruence|]. unfold best. rewrite Ei.
      replace (lib_le db') with (lib_le db1); [done|]. unfold lib_le, state_at. by rewrite S3.
  - rewrite Eid. intros x y Hx Hy. apply Hu; by eapply elem_of_sublist.
  - by eapply sublist_NoDup.
  - by eapply iterator_next.
Qed.

(** The root block of the tree is one of those with the lowest number. *)
Lemma lowest_builds_on_root db r h :
  db_ok db ->
  (forall l, l ∈ index db -> prev_at db l = r \/ exists l', l' ∈ index db /\ id_at db l' = prev_at db l) ->
  h ∈ index db -> (forall l, l ∈ index db -> num_at db h <= num_at db l) ->
  num_at db h = u32 (num_from_id r + 1).
Proof.
  intros Hok Hr Hh Hmin. destruct (Hr _ Hh) as [E|(l' & Hl' & E)].
  - rewrite <- E. by apply block_num_prev, ok_block.
  - pose proof (num_link _ _ _ Hok Hh Hl' E). apply Hmin in Hl'. lia.
Qed.

(** Pruning the oldest block leaves only what builds on it. *)
Lemma prune_at_ok db h db' :
  db_ok db -> h ∈ index db -> (forall l, l ∈ index db -> num_at db h <= num_at db l) ->
  prune_at h db = Ok db' ->
  db_ok db' /\ same_store db db' /\ irreversible db' = irreversible db ++ [h] /\
  index db' `sublist_of` index db /\
  (forall l, l ∈ index db' -> num_at db h < num_at db l /\
     builds_on (id_at db) (prev_at db) (index db) [id_at db h] l) /\
  (fork_head db' = fork_head db /\ index db' = filter (fun l => l <> h) (index db) \/
   exists h', fork_head db' = Some h' /\ best db' h').
Proof.
  intros Hok Hh Hmin H. unfold prune_at in H. rewrite get_block_at in H by (done || apply Hok).
  set (db1 := erase h (signal_irreversible h db)) in *.
  assert (Hst1 : same_store db db1) by by split. destruct (same_store_at _ _ Hst1) as (_ & Eid & Ep & En & _).
  assert (Hin1 : forall l, l ∈ index db1 <-> l <> h /\ l ∈ index db).
  { intros l. cbn. by rewrite list_elem_of_filter. }
  assert (Hsub1 : index db1 `sublist_of` index db) by apply sublist_filter.
  apply prune_forks_ok in H as (Hst & Hirr & Hsub & Hc & Hnum & _ & Hhd).
  2:{ rewrite Eid. intros l l' [_ Hl]%Hin1 [_ Hl']%Hin1. by apply Hok. }
  2:{ eapply sublist_NoDup; [|exact Hsub1]. apply Hok. }
  2:{ apply iterator_lower. }
  rewrite En in Hnum.
  assert (Hst' : same_store db db') by (destruct Hst1, Hst; split; congruence).
  assert (Hin : forall l, l ∈ index db' -> l <> h /\ l ∈ index db).
  { intros l Hl. apply Hin1. by eapply elem_of_sublist. }
  (* a kept block builds on the pruned one or on a kept one *)
  assert (Hpar : forall l, l ∈ index db' ->
    prev_at db l = id_at db h \/ exists l', l' ∈ index db' /\ id_at db l' = prev_at db l).
  { intros l Hl. destruct (Hin _ Hl) as [Hne Hl0]. destruct (ok_root _ Hok) as [r Hr].
    destruct (Hr _ Hl0) as [E|(l' & Hl' & E)].
    - exfalso. apply (Hnum _ Hl). rewrite (lowest_builds_on_root _ _ _ Hok Hr Hh Hmin), <- E.
      by apply block_num_prev, ok_block.
    - destruct (decide (l' = h)) as [->|Hne']; [by left|right]. exists l'. split; [|done].
      apply (Hc l l'); [done|by apply Hin1|by rewrite Eid, Ep]. }
  destruct (same_store_at _ _ Hst') as (Est & Eid' & Ep' & _).
  split_and!; try done.
  - split.
    + intros l [_ Hl]%Hin. destruct Hst' as [_ ->]. by apply Hok.
    + eapply sublist_NoDup; [apply Hok|]. by etrans.
    + rewrite Eid'. intros l l' [_ Hl]%Hin [_ Hl']%Hin. by apply Hok.
    + intros l [_ Hl]%Hin. rewrite Est. by apply Hok.
    + exists (id_at db h). rewrite Eid', Ep'. exact Hpar.
  - by etrans.
  - assert (Hlt : forall l, l ∈ index db' -> num_at db h < num_at db l).
    { intros l Hl. pose proof (Hnum _ Hl). destruct (Hin _ Hl) as [_ Hl0]. apply Hmin in Hl0. lia. }
    intros l Hl. split; [by apply Hlt|].
    assert (Hind : forall k l, Z.to_nat (num_at db l) = k -> l ∈ index db' ->
      builds_on (id_at db) (prev_at db) (index db) [id_at db h] l); [|by eapply Hind].
    clear l Hl. induction k as [k IH] using lt_wf_ind. intros l Hk Hl. destruct (Hin _ Hl) as [_ Hl0].
    destruct (Hpar _ Hl) as [E|(l' & Hl' & E)]; [apply builds_prev; [done|rewrite E; by left]|].
    eapply builds_step; [done| |symmetry; exact E]. destruct (Hin _ Hl') as [_ Hl0'].
    pose proof (num_link _ _ _ Hok Hl0 Hl0' E). pose proof (block_num_nonneg _ (ok_block _ Hok _ Hl0')) as Hge.
    fold (num_at db l') in Hge. eapply IH; [|reflexivity|done]. lia.
  - destruct Hhd as [[-> ->]|Hb]; [by left|by right].
Qed.

Lemma prune_oldest fuel db h :
  first_of (by_block_num db) = Ok h -> prune (S fuel) h db = prune_at h db.
Proof.
  intros H. apply of_option_ok in H. cbn. destruct (by_block_num db) as [|l ls]; [done|].
  injection H as ->. by rewrite Z.ltb_irrefl.
Qed.

(** *** Adding blocks. *)

Definition head_ok db : Prop := exists h, fork_head db = Some h /\ best db h.

(** A state object that may be added: its block builds on one of the index. *)
Definition addable db n : Prop :=
  (n < allocated db)%nat /\ block_ok (state_at db n) /\
  exists l, l ∈ index db /\ id_at db l = prev_at db n.

Lemma insert_ok n db db1 :
  db_ok db -> addable db n -> insert_index n db = Some db1 ->
  db1 = with_index (index db ++ [n]) db /\ db_ok db1.
Proof.
  intros Hok (Ha & Hb & l0 & Hl0 & E0) H. unfold insert_index in H.
  destruct (get_block (id_at db n) db) eqn:Hg; [done|]. injection H as <-. split; [done|].
  rewrite get_block_None in Hg. destruct Hok as [Hal Hnd Hu Hbl [r Hr]].
  assert (Hin : forall l, l ∈ index db ++ [n] <-> l ∈ index db \/ l = n).
  { intros l. by rewrite elem_of_app, list_elem_of_singleton. }
  split; cbn.
  - intros l [Hl| ->]%Hin; [by apply Hal|done].
  - apply NoDup_app. split_and!; [done| |apply NoDup_singleton].
    intros l Hl ->%list_elem_of_singleton. by apply Hg in Hl.
  - intros l l' [Hl| ->]%Hin [Hl'| ->]%Hin E; [by apply Hu| | |done].
    + by apply Hg in Hl.
    + apply Hg in Hl'. by symmetry in E.
  - intros l [Hl| ->]%Hin; [by apply Hbl|done].
  - exists r. intros l [Hl| ->]%Hin.
    + destruct (Hr _ Hl) as [?|(l' & Hl' & E)]; [by left|right]. exists l'. rewrite Hin. auto.
    + right. exists l0. rewrite Hin. auto.
Qed.

Lemma add_state_ok n skip db db' :
  db_ok db -> addable db n -> add_state n skip db = Ok db' -> db_ok db' /\ head_ok db' /\ same_store db db'.
Proof.
  intros Hok Hadd H. unfold add_state in H. apply rbind_ok in H as (? & _ & H).
  apply rbind_ok in H as (? & _ & H). apply rbind_ok in H as (db1 & H1 & H). apply of_option_ok in H1.
  apply insert_ok in H1 as [E1 Hok1]; [|done..].
  apply rbind_ok in H as (h & Hh & H). apply first_of_ordered in Hh as [Hh Hbest]; [|apply lib_le_order].
  apply rbind_ok in H as (oldest & Hold & H).
  set (db2 := with_head h db1) in *. assert (Hst2 : same_store db db2) by (unfold db2; by rewrite E1).
  assert (Hok2 : db_ok db2) by (destruct Hok1; by split).
  assert (Hb2 : best db2 h) by by split.
  destruct (num_at db2 oldest <? _) eqn:Hlt.
  2:{ injection H as <-. split_and!; [done|by exists h|done]. }
  apply Z.ltb_lt in Hlt. unfold prune_fuel in H. rewrite (prune_oldest _ _ _ Hold) in H.
  apply first_of_ordered in Hold as [Ho Hmin]; [|apply num_le_order].
  apply prune_at_ok in H as (Hok' & Hst' & _ & Hsub & _ & Hhd); [|done|done|].
  2:{ intros l Hl. by apply num_le_num, Hmin. }
  split_and!; [done| |destruct Hst2, Hst'; split; congruence].
  destruct Hhd as [[Eh Ei]|?]; [|done]. exists h. split; [by rewrite Eh|].
  assert (Hne : h <> oldest).
  { intros <-. pose proof (sd_irreversible _ (bk_sound _ (ok_block _ Hok2 _ Hh))) as Hd. unfold num_at in Hlt. lia. }
  destruct (same_store_at _ _ Hst') as (_ & _ & _ & _ & Elib & _). unfold best. rewrite Ei, Elib. split.
  - by apply list_elem_of_filter.
  - intros l [_ Hl]%list_elem_of_filter. by apply Hb2.
Qed.

(** What depends only on the states of the blocks in the index. *)
Lemma agree_ok db db' :
  (forall l, l ∈ index db -> state_at db' l = state_at db l) -> index db' = index db ->
  (allocated db <= allocated db')%nat -> db_ok db -> db_ok db'.
Proof.
  intros Hs Ei Ha [Hal Hnd Hu Hb [r Hr]]. split; rewrite ?Ei.
  - intros l Hl. apply Hal in Hl. lia.
  - done.
  - intros l l' Hl Hl'. unfold id_at. rewrite !Hs by done. by apply Hu.
  - intros l Hl. rewrite Hs by done. by apply Hb.
  - exists r. intros l Hl. unfold prev_at. rewrite Hs by done.
    destruct (Hr _ Hl) as [?|(l' & Hl' & E)]; [by left|right]. exists l'. split; [done|].
    unfold id_at. by rewrite Hs.
Qed.

Lemma agree_head db db' :
  (forall l, l ∈ index db -> state_at db' l = state_at db l) -> index db' = index db ->
  fork_head db' = fork_head db -> head_ok db -> head_ok db'.
Proof.
  intros Hs Ei Eh (h & Hh & Hin & Hbest). exists h. split; [congruence|]. split; [by rewrite Ei|].
  intros l Hl. rewrite Ei in Hl. unfold lib_le. rewrite !Hs by done. by apply Hbest.
Qed.

Lemma make_shared_agree s db n db' :
  db_ok db -> make_shared s db = (n, db') ->
  (forall l, l ∈ index db -> state_at db' l = state_at db l) /\ index db' = index db /\
  fork_head db' = fork_head db /\ (allocated db <= allocated db')%nat.
Proof.
  intros Hok [= <- <-]. cbn. split_and!; [|done|done|lia]. intros l Hl. unfold state_at. cbn.
  apply Hok in Hl. by rewrite (proj2 (Nat.eqb_neq l (allocated db))) by lia.
Qed.

(** The state made from a block of the index may be added. *)
Lemma make_block_state_ok prior b skip s :
  block_ok prior -> block_num prior < 2 ^ 32 - 2 -> make_block_state prior b skip = Ok s ->
  block_ok (header_state s) /\ previous (header (header_state s)) = id prior.
Proof.
  intros Hb Hs H. unfold make_block_state in H. apply rbind_ok in H as (g & Hg & H). injection H as <-. cbn.
  pose proof (block_num_nonneg _ Hb) as Hge.
  pose proof (next_fields _ _ _ _ _ _ _ _ _ Hg) as (_ & _ & _ & _ & _ & Hn & _ & _ & Hp & _ & _ & Hid).
  rewrite wrapU_small in Hn by (width_norm; lia). split; [|done]. split.
  - done.
  - rewrite Hid, num_from_header_id by done. unfold header_block_num. rewrite Hp, (bk_num _ Hb), Hn.
    apply wrapU_small. width_norm. lia.
  - rewrite Hn. lia.
  - eapply next_sound; [apply Hb|done|lia|exact Hg].
Qed.

Lemma add_block_ok b skip db db' :
  db_ok db -> (forall l, l ∈ index db -> num_at db l < 2 ^ 32 - 2) -> add_block b skip db = Ok db' ->
  db_ok db' /\ head_ok db'.
Proof.
  intros Hok Hsmall H. unfold add_block in H. apply rbind_ok in H as (? & _ & H).
  apply rbind_ok in H as (? & _ & H). apply rbind_ok in H as (prior & Hp & H). apply of_option_ok in Hp.
  apply rbind_ok in H as (s & Hs & H). destruct (make_shared s db) as [n db1] eqn:Hm.
  apply get_block_Some in Hp as [Hp _]. pose proof (make_shared_agree _ _ _ _ Hok Hm) as (Ha & Ei & _ & Hal).
  apply make_block_state_ok in Hs as [Hb Hprev]; [|by apply Hok|by apply Hsmall].
  assert (Hok1 : db_ok db1) by by eapply agree_ok.
  apply add_state_ok in H as (? & ? & _); [done|done|].
  assert (En : state_at db1 n = header_state s).
  { injection Hm as <- <-. unfold state_at. cbn. by rewrite Nat.eqb_refl. }
  split_and!.
  - injection Hm as <- <-. cbn. lia.
  - by rewrite En.
  - exists prior. rewrite Ei. split; [done|]. unfold prev_at, id_at. rewrite En, Ha by done. by rewrite Hprev.
Qed.

(** *** All operations of a node. *)
Inductive fork_reachable : fork_database -> Prop :=
| fork_started db l db' :
    index db = [] -> fork_head db = None -> (l < allocated db)%nat -> block_ok (state_at db l) ->
    set_block l db = Ok db' -> fork_reachable db'
| fork_made db s : fork_reachable db -> fork_reachable (make_shared s db).2
| fork_added_state db n skip db' :
    fork_reachable db -> addable db n -> add_state n skip db = Ok db' -> fork_reachable db'
| fork_added_block db b skip db' :
    fork_reachable db -> (forall l, l ∈ index db -> num_at db l < 2 ^ 32 - 2) ->
    add_block b skip db = Ok db' -> fork_reachable db'
| fork_removed db i db' : fork_reachable db -> remove i db = Ok db' -> fork_reachable db'
| fork_validity db l v db' : fork_reachable db -> set_validity l v db = Ok db' -> fork_reachable db'
| fork_marked db l v db' : fork_reachable db -> mark_in_current_chain l v db = Ok db' -> fork_reachable db'.

Lemma set_block_ok db l db' :
  index db = [] -> fork_head db = None -> (l < allocated db)%nat -> block_ok (state_at db l) ->
  set_block l db = Ok db' -> db_ok db' /\ head_ok db'.
Proof.
  intros Ei Eh Ha Hb H. unfold set_block in H. apply rbind_ok in H as (? & _ & H).
  apply rbind_ok in H as (db1 & H1 & H). apply of_option_ok in H1. unfold insert_index in H1.
  destruct (get_block _ _); [done|]. injection H1 as <-. cbn in H. rewrite Eh in H. injection H as <-.
  rewrite Ei. cbn. assert (Hin : forall l', l' ∈ [l] -> l' = l) by (intros l'; apply list_elem_of_singleton).
  split; [split; cbn|exists l; split; [done|split; cbn]].
  - by intros l' ->%Hin.
  - apply NoDup_singleton.
  - by intros l1 l2 ->%Hin ->%Hin.
  - by intros l' ->%Hin.
  - exists (prev_at db l). intros l' ->%Hin. by left.
  - by apply list_elem_of_singleton.
  - intros l' ->%Hin. destruct (lib_le_order (with_head l (with_index [l] db))) as [Ht _]. by destruct (Ht l l).
Qed.

Lemma remove_keeps_ok i db db' : db_ok db -> remove i db = Ok db' -> db_ok db' /\ head_ok db'.
Proof.
  intros Hok H. apply remove_ok in H as (Hst & _ & Hsub & _ & _ & Hc & Hh); [|apply Hok].
  split; [by eapply shrink_ok|done].
Qed.

Lemma update_at_state l f db l' :
  (forall s, header_state (f s) = header_state s) -> state_at (update_at l f db) l' = state_at db l'.
Proof. intros Hf. unfold state_at. cbn. destruct (l' =? l)%nat; [apply Hf|done]. Qed.

Lemma fork_reachable_invariant db : fork_reachable db -> db_ok db /\ head_ok db.
Proof.
  induction 1 as [db l db' ???? H|db s _ [IH1 IH2]|db n skip db' _ [IH1 IH2] Hadd H
    |db b skip db' _ [IH1 IH2] Hs H|db i db' _ [IH1 IH2] H|db l v db' _ [IH1 IH2] H|db l v db' _ [IH1 IH2] H].
  - by eapply set_block_ok.
  - destruct (make_shared s db) as [n db'] eqn:Hm. cbn.
    pose proof (make_shared_agree _ _ _ _ IH1 Hm) as (? & ? & ? & ?).
    split; [by eapply agree_ok|by eapply agree_head].
  - by apply add_state_ok in H as (? & ? & _).
  - by eapply add_block_ok.
  - by eapply remove_keeps_ok.
  - unfold set_validity in H. destruct v; cbn in H; [injection H as <-|by eapply remove_keeps_ok].
    split; [apply (agree_ok db)|apply (agree_head db)]; try done; intros; by apply update_at_state.
  - unfold mark_in_current_chain in H. destruct (Bool.eqb _ _); [by injection H as <-|].
    apply rbind_ok in H as (x & _ & H). injection H as <-.
    split; [apply (agree_ok db)|apply (agree_head db)]; try done; intros; by apply update_at_state.
Qed.

(** ** Branches. *)

(** The blocks from [l] back to one that builds on [p]. *)
Inductive path db : block_state_ptr -> list block_state_ptr -> digest_type -> Prop :=
| path_last l p : l ∈ index db -> prev_at db l = p -> path db l [l] p
| path_step l l' b p : l ∈ index db -> l' ∈ index db -> id_at db l' = prev_at db l -> path db l' b p ->
    path db l (l :: b) p.

Section branches.
Context db (Hok : db_ok db) (r : digest_type).
Context (Hr : forall l, l ∈ index db -> prev_at db l = r \/ exists l', l' ∈ index db /\ id_at db l' = prev_at db l).
Abbreviation lowest := (u32 (num_from_id r + 1)).

Lemma parent_exists l :
  l ∈ index db -> lowest < num_at db l ->
  exists l', get_block (prev_at db l) db = Some l' /\ l' ∈ index db /\ id_at db l' = prev_at db l /\
    num_at db l = num_at db l' + 1.
Proof.
  intros Hl Hlt. destruct (Hr _ Hl) as [E|(l' & Hl' & E)].
  - exfalso. pose proof (block_num_prev _ (ok_block _ Hok _ Hl)) as Hn. unfold prev_at in E.
    rewrite E in Hn. unfold num_at in Hlt. lia.
  - exists l'. split_and!; [|done|done|by apply num_link]. rewrite <- E. by apply get_block_at, Hl'; apply Hok.
Qed.

Lemma lowest_root l : l ∈ index db -> num_at db l <= lowest -> prev_at db l = r.
Proof.
  intros Hl Hle. destruct (Hr _ Hl) as [E|(l' & Hl' & E)]; [done|].
  pose proof (num_link _ _ _ Hok Hl Hl' E). pose proof (num_lowest _ _ _ Hok Hr Hl'). lia.
Qed.

Lemma climb_ok fuel : forall target l b,
  l ∈ index db -> lowest <= target -> (Z.to_nat (num_at db l - target) < fuel)%nat ->
  exists b' l', climb fuel target l b db = Ok (b ++ b', l') /\ l' ∈ index db /\
    num_at db l' = Z.min (num_at db l) target /\
    (forall x, x ∈ b' -> target < num_at db x <= num_at db l) /\
    (forall b2 p, path db l' b2 p -> path db l (b' ++ b2) p).
Proof.
  induction fuel as [|fuel IH]; intros target l b Hl Hlow Hf; [lia|]. cbn [climb].
  destruct (Z.ltb_spec target (num_at db l)) as [Hlt|Hge].
  - destruct (parent_exists l Hl ltac:(lia)) as (l1 & Hg & Hl1 & E & Hn). rewrite Hg. cbn [of_option rbind].
    destruct (IH target l1 (b ++ [l]) Hl1 Hlow ltac:(lia)) as (b' & l' & -> & Hl' & Hn' & Hb & Hp).
    exists (l :: b'), l'. rewrite <- app_assoc. split_and!; [done|done|lia| |].
    + intros x [->|Hx]%elem_of_cons; [lia|]. apply Hb in Hx. lia.
    + intros b2 p H2. cbn. eapply path_step; [done|exact Hl1|done|by apply Hp].
  - exists [], l. rewrite app_nil_r. split_and!; [done|done|lia| |done].
    intros x Hx. by apply not_elem_of_nil in Hx.
Qed.

Lemma climb_both_ok fuel : forall l1 l2 b1 b2,
  l1 ∈ index db -> l2 ∈ index db -> num_at db l1 = num_at db l2 ->
  (Z.to_nat (num_at db l1 - lowest) < fuel)%nat ->
  exists c1 c2 p, climb_both fuel l1 l2 b1 b2 db = Ok (b1 ++ c1, b2 ++ c2) /\
    path db l1 c1 p /\ path db l2 c2 p /\ (forall x, x ∈ c1 -> x ∈ c2 -> prev_at db x = p) /\
    (forall x, x ∈ c1 \/ x ∈ c2 -> num_at db x <= num_at db l1).
Proof.
  induction fuel as [|fuel IH]; intros l1 l2 b1 b2 H1 H2 Hn Hf; [lia|]. cbn [climb_both].
  case_bool_decide as E.
  - exists [l1], [l2], (prev_at db l1).
    split_and!; [done|by apply path_last|by apply path_last|by intros x ->%list_elem_of_singleton|].
    intros x [->%list_elem_of_singleton| ->%list_elem_of_singleton]; lia.
  - assert (Hlow : lowest < num_at db l1).
    { destruct (decide (num_at db l1 <= lowest)) as [Hle|]; [|lia]. exfalso. apply E.
      rewrite (lowest_root _ H1 Hle). symmetry. apply (lowest_root _ H2). lia. }
    destruct (parent_exists l1 H1 Hlow) as (l1' & G1 & H1' & E1 & N1). rewrite G1. cbn [of_option rbind].
    destruct (parent_exists l2 H2 ltac:(lia)) as (l2' & G2 & H2' & E2 & N2). rewrite G2. cbn [of_option rbind].
    destruct (IH l1' l2' (b1 ++ [l1]) (b2 ++ [l2]) H1' H2' ltac:(lia) ltac:(lia))
      as (c1 & c2 & p & -> & P1 & P2 & Hd & Hb).
    exists (l1 :: c1), (l2 :: c2), p. rewrite <- !app_assoc. split_and!.
    + done.
    + by apply (path_step db l1 l1').
    + by apply (path_step db l2 l2').
    + intros x [->|Hx1]%elem_of_cons [Ex|Hx2]%elem_of_cons.
      * by rewrite Ex in E.
      * pose proof (Hb _ (or_intror Hx2)). lia.
      * subst x. pose proof (Hb _ (or_introl Hx1)). lia.
      * by apply Hd.
    + intros x [[->|Hx]%elem_of_cons|[->|Hx]%elem_of_cons]; [lia| |lia|].
      * pose proof (Hb _ (or_introl Hx)). lia.
      * pose proof (Hb _ (or_intror Hx)). lia.
Qed.
End branches.

Lemma fetch_branch_ok db l1 l2 :
  db_ok db -> l1 ∈ index db -> l2 ∈ index db ->
  exists b1 b2 p, fetch_branch_from (id_at db l1) (id_at db l2) db = Ok (b1, b2) /\
    path db l1 b1 p /\ path db l2 b2 p /\ (forall x, x ∈ b1 -> x ∈ b2 -> prev_at db x = p).
Proof.
  intros Hok H1 H2. destruct (ok_root _ Hok) as [r Hr].
  pose proof (num_lowest _ _ _ Hok Hr H1) as L1. pose proof (num_lowest _ _ _ Hok Hr H2) as L2.
  pose proof (wrapU_range 32 (num_from_id r + 1) ltac:(lia)) as [Hlow _].
  unfold fetch_branch_from. rewrite !get_block_at by (done || apply Hok). cbn [of_option rbind].
  destruct (climb_ok db Hok r Hr (climb_fuel db l1) (num_at db l2) l1 [] H1 L2 ltac:(unfold climb_fuel; lia))
    as (c1 & l1' & -> & H1' & N1 & B1 & P1). cbn [rbind app].
  destruct (climb_ok db Hok r Hr (climb_fuel db l2) (num_at db l1') l2 [] H2 ltac:(lia) ltac:(unfold climb_fuel; lia))
    as (c2 & l2' & -> & H2' & N2 & B2 & P2). cbn [rbind app].
  destruct (climb_both_ok db Hok r Hr (climb_fuel db l1') l1' l2' c1 c2 H1' H2' ltac:(lia) ltac:(unfold climb_fuel; lia))
    as (d1 & d2 & p & -> & Q1 & Q2 & Hd & Hb).
  exists (c1 ++ d1), (c2 ++ d2), p. split_and!; [done|by apply P1|by apply P2|].
  intros x [Hx1|Hx1]%elem_of_app [Hx2|Hx2]%elem_of_app.
  - apply B1 in Hx1. apply B2 in Hx2. lia.
  - apply B1 in Hx1. pose proof (Hb _ (or_intror Hx2)). lia.
  - apply B2 in Hx2. pose proof (Hb _ (or_introl Hx1)). lia.
  - by apply Hd.
Qed.

(** C35: In every reachable fork database the head is one of its blocks, and none has a
    later irreversible block, or the same and a higher number. *)
Theorem head_is_best db (H : fork_reachable db) :
  exists h, fork_head db = Some h /\ h ∈ index db /\
    forall l, l ∈ index db -> lib_le db h l = true.
Proof. apply fork_reachable_invariant in H as [_ (h & Hh & Hin & Hb)]. by exists h. Qed.

(** C34: In every reachable fork database, fetch_branch_from ends for any two blocks
    without dereferencing a null pointer, and gives for each the blocks back to one
    that builds on the same block, sharing at most this last one. *)
Theorem branches_meet db l1 l2 (H : fork_reachable db) (H1 : l1 ∈ index db) (H2 : l2 ∈ index db) :
  exists b1 b2 p, fetch_branch_from (id_at db l1) (id_at db l2) db = Ok (b1, b2) /\
    path db l1 b1 p /\ path db l2 b2 p /\ forall x, x ∈ b1 -> x ∈ b2 -> prev_at db x = p.
Proof. apply fork_reachable_invariant in H as [Hok _]. by apply fetch_branch_ok. Qed.

Theorem remove_exact db i (H : fork_reachable db)
  (Hkeep : exists l, l ∈ index db /\ ~ builds_on (id_at db) (prev_at db) (index db) [i] l) :
  exists db', remove i db = Ok db' /\
    forall l, l ∈ index db' <-> l ∈ index db /\ ~ builds_on (id_at db) (prev_at db) (index db) [i] l.
Proof.
  apply fork_reachable_invariant in H as [Hok _].
  destruct (remove_total i db) as [db' Hdb']; [apply Hok..|done|]. exists db'. split; [done|].
  by apply remove_ok in Hdb' as (_ & _ & _ & ? & _); [|apply Hok].
Qed.

(** ** Saving and loading. *)

Abbreviation state_id := (fun s : block_state => id (header_state s)).

Lemma set_block_fresh s db :
  (forall l, l ∈ index db -> (l < allocated db)%nat) ->
  id (header_state s) = header_id (header (header_state s)) ->
  id (header_state s) ∉ map state_id (map (store db) (index db)) ->
  exists db', (let (l, db1) := make_shared s db in set_block l db1) = Ok db' /\
    (forall l, l ∈ index db' -> (l < allocated db')%nat) /\
    map (store db') (index db') = map (store db) (index db) ++ [s].
Proof.
  intros Ha Hid Hnew. cbn.
  set (db1 := ForkDatabase _ _ _ _ _).
  assert (Hn : store db1 (allocated db) = s) by (cbn; by rewrite Nat.eqb_refl).
  assert (Hold : forall l, l ∈ index db -> store db1 l = store db l).
  { intros l Hl. cbn. apply Ha in Hl. by rewrite (proj2 (Nat.eqb_neq l (allocated db))) by lia. }
  assert (Hg : get_block (id_at db1 (allocated db)) db1 = None).
  { apply get_block_None. intros l Hl E. apply Hnew. unfold id_at, state_at in E.
    rewrite Hn, (Hold l Hl) in E. rewrite <- E. apply list_elem_of_fmap. exists (store db l).
    split; [done|]. apply list_elem_of_fmap. eauto. }
  unfold set_block. rewrite bool_decide_eq_true_2 by (unfold id_at, state_at; by rewrite Hn). cbn [rassert rbind].
  unfold insert_index. rewrite Hg. cbn [of_option rbind].
  assert (Hok : forall db', index db' = index db1 ++ [allocated db] -> store db' = store db1 ->
    allocated db' = allocated db1 -> (forall l, l ∈ index db' -> (l < allocated db')%nat) /\
    map (store db') (index db') = map (store db) (index db) ++ [s]).
  { intros db' Ei Es Ea. rewrite Ei, Es, Ea. split.
    - intros l [Hl|Hl]%elem_of_app; [apply Ha in Hl; cbn; lia|].
      apply list_elem_of_singleton in Hl as ->. cbn. lia.
    - rewrite map_app. f_equal; [|cbn [map]; by rewrite Hn].
      apply list_fmap_ext. intros i l Hl. apply Hold. by eapply list_elem_of_lookup_2. }
  case_match; eexists; (split; [reflexivity|]); [case_match; by apply Hok|by apply Hok].
Qed.

Lemma load_blocks ss : forall db,
  (forall l, l ∈ index db -> (l < allocated db)%nat) ->
  Forall (fun s => id (header_state s) = header_id (header (header_state s))) ss ->
  NoDup (map state_id (map (store db) (index db) ++ ss)) ->
  exists db', rfold (fun db s => let (l, db) := make_shared s db in set_block l db) db ss = Ok db' /\
    map (store db') (index db') = map (store db) (index db) ++ ss.
Proof.
  induction ss as [|s ss IH]; intros db Ha Hid Hnd.
  { exists db. by rewrite app_nil_r. }
  apply Forall_cons in Hid as [Hs Hid]. destruct (set_block_fresh s db Ha Hs) as (db1 & H1 & Ha1 & E1).
  { rewrite map_app in Hnd. apply NoDup_app in Hnd as (_ & Hd & _). intros Hin. apply (Hd _ Hin). by left. }
  destruct (IH db1) as (db' & H' & E'); [done|done|by rewrite E1, <- app_assoc|].
  exists db'. cbn [rfold]. rewrite H1. cbn [rbind]. split; [done|]. by rewrite E', E1, <- app_assoc.
Qed.

(** A fork database that is saved and loaded has the same blocks and the same head. *)
Theorem reload_same db db0 (H : fork_reachable db) (Hempty : index db0 = []) :
  exists db' h h', load (save db) db0 = Ok db' /\
    map (store db') (index db') ≡ₚ map (store db) (index db) /\
    fork_head db = Some h /\ fork_head db' = Some h' /\ store db' h' = store db h.
Proof.
  apply fork_reachable_invariant in H as [Hok (h & Hh & Hin & _)].
  assert (Hp : map (store db) (hashed (index db)) ≡ₚ map (store db) (index db))
    by (apply Permutation_map, hashed_perm).
  assert (Hnd : NoDup (map state_id (map (store db) (hashed (index db))))).
  { rewrite Hp. rewrite map_map. apply NoDup_fmap_2_strong; [|apply Hok]. intros l l' Hl Hl'. by apply Hok. }
  destruct (load_blocks (map (store db) (hashed (index db))) db0) as (db1 & H1 & E1).
  { rewrite Hempty. intros l Hl. by apply not_elem_of_nil in Hl. }
  { rewrite Hp. apply Forall_forall. intros s (l & -> & Hl)%list_elem_of_fmap.
    apply (bk_header _ (ok_block _ Hok _ Hl)). }
  { by rewrite Hempty. }
  rewrite Hempty in E1. cbn in E1.
  assert (Hsh : store db h ∈ map (store db1) (index db1)).
  { rewrite E1, Hp. apply list_elem_of_fmap. eauto. }
  apply list_elem_of_fmap in Hsh as (h' & Eh & Hh').
  assert (Hu : unique_ids (id_at db1) (index db1)).
  { rewrite <- E1, map_map in Hnd. intros l l' Hl Hl' E.
    apply list_elem_of_lookup in Hl as [i Hi]. apply list_elem_of_lookup in Hl' as [j Hj].
    assert (i = j) as ->; [|congruence]. eapply NoDup_lookup; [exact Hnd| |].
    - apply list_lookup_fmap_Some. eauto.
    - apply list_lookup_fmap_Some. eauto. }
  eexists _, h, h'. unfold load. cbn [saved_blocks save saved_head]. rewrite H1. cbn [rbind].
  split; [reflexivity|]. cbn [store index fork_head]. split_and!; [by rewrite E1|done| |done].
  rewrite Hh. replace (id_at db h) with (id_at db1 h'); [by apply get_block_at|].
  unfold id_at, state_at. by rewrite Eh.
Qed.
End invariant.
End fork_db.

(** ** A container: elements of equal rank stay in the order of their insertion. *)
Section insertion.
Context {A : Type}.
Implicit Types (le : A -> A -> bool) (l : list A).

Fixpoint insert_ordered le (x : A) l : list A :=
  match l with
  | [] => [x]
  | y :: l' => if le x y then x :: l else y :: insert_ordered le x l'
  end.

Definition insertion_sort le l : list A := foldr (insert_ordered le) [] l.

Lemma insert_ordered_perm le x l : insert_ordered le x l ≡ₚ x :: l.
Proof.
  induction l as [|y l IH]; cbn; [done|]. destruct (le x y); [done|]. rewrite IH. apply Permutation_swap.
Qed.

Lemma insertion_sort_perm le l : insertion_sort le l ≡ₚ l.
Proof. induction l as [|x l IH]; cbn; [done|]. by rewrite insert_ordered_perm, IH. Qed.

Abbreviation sorted le := (StronglySorted (fun a b => le a b = true)).

Lemma insert_ordered_sorted le x l : total_preorder le -> sorted le l -> sorted le (insert_ordered le x l).
Proof.
  intros [Ht Htr] Hs. induction Hs as [|y l Hs IH Hy]; cbn; [by repeat constructor|].
  destruct (le x y) eqn:E; constructor; try done; [by constructor| |].
  - constructor; [done|]. eapply Forall_impl; [exact Hy|]. intros z. by apply Htr.
  - rewrite insert_ordered_perm. constructor; [|done]. by destruct (Ht x y); [congruence|].
Qed.

Lemma insertion_sort_sorted le l : total_preorder le -> sorted le (insertion_sort le l).
Proof. intros Hle. induction l; cbn; [constructor|by apply insert_ordered_sorted]. Qed.

Lemma insert_ordered_filter le (P : A -> Prop) `{!forall a, Decision (P a)} x l :
  total_preorder le -> sorted le l ->
  filter P (insert_ordered le x l) = if decide (P x) then insert_ordered le x (filter P l) else filter P l.
Proof.
  intros [Ht Htr] Hs. induction Hs as [|y l Hs IH Hy]; cbn [insert_ordered].
  - rewrite filter_cons, filter_nil. by case_decide.
  - destruct (le x y) eqn:E.
    + rewrite filter_cons. case_decide as Hx; [|done].
      assert (Hall : Forall (fun z => le x z = true) (filter P (y :: l))).
      { apply Forall_forall. intros z [_ [->|Hz]%elem_of_cons]%list_elem_of_filter; [done|].
        eapply Htr; [exact E|]. by eapply Forall_forall in Hy. }
      destruct (filter P (y :: l)) as [|z zs]; [done|]. apply Forall_cons in Hall as [Hz _].
      cbn. by rewrite Hz.
    + rewrite !(filter_cons _ y), IH. case_decide as Hpy; [|done]. case_decide; [|done]. cbn. by rewrite E.
Qed.

Lemma insertion_sort_filter le (P : A -> Prop) `{!forall a, Decision (P a)} l :
  total_preorder le -> insertion_sort le (filter P l) = filter P (insertion_sort le l).
Proof.
  intros Hle. induction l as [|x l IH]; [done|].
  change (insertion_sort le (x :: l)) with (insert_ordered le x (insertion_sort le l)).
  rewrite insert_ordered_filter by (done || by apply insertion_sort_sorted).
  rewrite filter_cons, <- IH. by case_decide.
Qed.

#[export] Program Instance insertion_index : OrderedIndex A := {|
  ordered := insertion_sort;
  hashed := fun l => l;
  ordered_perm := insertion_sort_perm;
|}.
Next Obligation. intros. by apply insertion_sort_sorted. Qed.
Next Obligation. intros. by apply insertion_sort_filter. Qed.
Next Obligation. done. Qed.
End insertion.

(** ** Concrete forks.

    Keys and signatures are numbers; the digest of a header holds its time, so that blocks
    of the same number differ. *)
Definition fx_digest (h : signed_block_header (key := Z) (signature := Z)) : digest_type :=
  Digest 0 (timestamp h) 0 0.
Definition fx_id (n t : Z) : digest_type := Digest (byte_swap n) t 0 0.

Abbreviation fx_block := (signed_block (key := Z) (signature := Z) (payload := unit)).
Abbreviation fx_database := (fork_database (key := Z) (signature := Z) (payload := unit) (trx := Z)).
Abbreviation fx_add_block := (add_block fx_digest ex_digest ex_digest ex_recover byte_swap).
Abbreviation fx_reachable := (fork_reachable fx_digest ex_digest ex_digest ex_recover byte_swap (payload := unit) (trx := Z)).

(** The block in the slot [t], confirming [n] more. *)
Definition fx_on (prev : digest_type) (t prod n : Z) : fx_block := SignedBlock (ex_header t prod n 1 prev) tt.

(** Block 10 in the slot 11, with four producers. *)
Definition fx_start_state : ex_state :=
  BlockHeaderState (fx_id 10 11) 10 (ex_header 11 4 0 1 (fx_id 9 8)) 0 0 0 0 zero_digest
    (ex_schedule 1 []) (ex_schedule 1 [1; 2; 3; 4]) (IncrementalMerkle 0 [])
    {[1 := 1; 2 := 4; 3 := 7; 4 := 10]} {[1 := 0; 2 := 0; 3 := 0; 4 := 0]} (Some 14) [] [].

Definition fx_empty : fx_database :=
  ForkDatabase (fun _ => BlockStateOf fx_start_state (fx_on (fx_id 9 8) 11 4 0) true false []) 1 [] None [].

Definition fx_ok (r : result fx_database) : fx_database := match r with Ok db => db | Err _ => fx_empty end.
Definition fx_start : fx_database := fx_ok (set_block fx_digest byte_swap 0%nat fx_empty).
Definition fx_add (b : fx_block) (db : fx_database) : fx_database := fx_ok (fx_add_block b false db).

Lemma fx_ok_eq r : is_ok r = true -> r = Ok (fx_ok r).
Proof. by destruct r. Qed.

Lemma fx_start_ok : block_ok fx_digest byte_swap fx_start_state.
Proof.
  split; [done|done|cbn; lia|]. split; cbn; [lia|lia| |lia]. intros k v Hk. rows_of Hk; cbn; lia.
Qed.

Lemma fx_start_reachable : fx_reachable fx_start.
Proof.
  eapply (fork_started _ _ _ _ _ fx_empty 0%nat); [done|done|cbn; lia|exact fx_start_ok|].
  by apply fx_ok_eq.
Qed.

(** Producer 1 makes two blocks that come too late for producer 2, who also builds on
    the block 10; the other producers follow producer 2. *)
Definition fx_a11 := fx_on (fx_id 10 11) 12 1 0.
Definition fx_a12 := fx_on (fx_id 11 12) 13 1 0.
Definition fx_b11 := fx_on (fx_id 10 11) 15 2 0.
Definition fx_b12 := fx_on (fx_id 11 15) 18 3 1.
Definition fx_b13 := fx_on (fx_id 12 18) 21 4 2.
Definition fx_b14 := fx_on (fx_id 13 21) 24 1 0.
Definition fx_b15 := fx_on (fx_id 14 24) 27 2 3.
Definition fx_b16 := fx_on (fx_id 15 27) 30 3 3.
Definition fx_b17 := fx_on (fx_id 16 30) 33 4 3.
Definition fx_b18 := fx_on (fx_id 17 33) 36 1 3.

Definition fx_fork : fx_database := fx_add fx_b12 (fx_add fx_b11 (fx_add fx_a12 (fx_add fx_a11 fx_start))).

Lemma fx_step b db :
  fx_reachable db -> forallb (fun l => num_at db l <? 100) (index db) = true ->
  is_ok (fx_add_block b false db) = true -> fx_reachable (fx_add b db).
Proof.
  intros Hr Hn Hb. eapply (fork_added_block _ _ _ _ _ db b false); [done| |by apply fx_ok_eq].
  intros l Hl. apply list_elem_of_In in Hl. eapply forallb_forall in Hn; [|exact Hl]. apply Z.ltb_lt in Hn. lia.
Qed.

Lemma fx_fork_reachable : fx_reachable fx_fork.
Proof.
  repeat (apply fx_step; [|by vm_compute|by vm_compute]). exact fx_start_reachable.
Qed.

Lemma head_is_best_witness :
  exists h, fork_head fx_fork = Some h /\ h ∈ index fx_fork /\
    forall l, l ∈ index fx_fork -> lib_le fx_fork h l = true.
Proof.
  apply (head_is_best fx_digest ex_digest ex_digest ex_recover byte_swap byte_swap_reverses fx_fork).
  exact fx_fork_reachable.
Defined.

(** The blocks 12 of the two branches: addresses 2 and 4. *)
Lemma branches_meet_witness :
  exists b1 b2 p, fetch_branch_from (id_at fx_fork 2%nat) (id_at fx_fork 4%nat) fx_fork = Ok (b1, b2) /\
    path fx_fork 2%nat b1 p /\ path fx_fork 4%nat b2 p /\ forall x, x ∈ b1 -> x ∈ b2 -> prev_at fx_fork x = p.
Proof.
  apply (branches_meet fx_digest ex_digest ex_digest ex_recover byte_swap byte_swap_reverses fx_fork 2%nat 4%nat
           fx_fork_reachable); apply (bool_decide_unpack _); by vm_compute.
Defined.

Lemma fx_root_stays :
  ~ builds_on (id_at fx_fork) (prev_at fx_fork) (index fx_fork) [fx_id 11 15] 0%nat.
Proof.
  intros H. inversion H as [l Hl Hr|l Hl Hr|l l' Hl Hb E]; subst.
  - apply list_elem_of_singleton in Hr. by vm_compute in Hr.
  - apply list_elem_of_singleton in Hr. by vm_compute in Hr.
  - apply builds_on_in in Hb. change (index fx_fork) with [0; 1; 2; 3; 4]%nat in Hb.
    rewrite !elem_of_cons in Hb. destruct Hb as [->|[->|[->|[->|[->|Hb]]]]];
      [by vm_compute in E..|by apply not_elem_of_nil in Hb].
Qed.

Lemma remove_exact_witness :
  exists db', remove (fx_id 11 15) fx_fork = Ok db' /\
    forall l, l ∈ index db' <-> l ∈ index fx_fork /\
      ~ builds_on (id_at fx_fork) (prev_at fx_fork) (index fx_fork) [fx_id 11 15] l.
Proof.
  apply (remove_exact fx_digest ex_digest ex_digest ex_recover byte_swap byte_swap_reverses fx_fork
           (fx_id 11 15) fx_fork_reachable).
  exists 0%nat. split; [apply (bool_decide_unpack _); by vm_compute|exact fx_root_stays].
Defined.

Lemma reload_same_witness :
  exists db' h h', load fx_digest byte_swap (save fx_fork) fx_empty = Ok db' /\
    map (store db') (index db') ≡ₚ map (store fx_fork) (index fx_fork) /\
    fork_head fx_fork = Some h /\ fork_head db' = Some h' /\ store db' h' = store fx_fork h.
Proof.
  apply (reload_same fx_digest ex_digest ex_digest ex_recover byte_swap byte_swap_reverses fx_fork fx_empty
           fx_fork_reachable). done.
Defined.

(** *** The block of a losing fork becomes irreversible.

    Where no block is marked to be in the current chain, as on a node that applies only
    irreversible blocks, the oldest block is the first of its number that was added. *)
Definition fx_late : fx_database :=
  fx_add fx_b17 (fx_add fx_b16 (fx_add fx_b15 (fx_add fx_b14 (fx_add fx_b13 fx_fork)))).
Definition fx_last : fx_database := fx_add fx_b18 fx_late.

(** Where no block is marked to be in the current chain, a block of a losing fork
    is declared irreversible: the oldest block is chosen by the order of arrival,
    and the branch of the best head, which has made another block of that number
    irreversible, is removed. *)
Theorem losing_fork_irreversible :
  (exists b1 b2, fetch_branch_from (fx_id 17 33) (fx_id 12 13) fx_late = Ok (b1, b2) /\
     map (id_at fx_late) b1 = [fx_id 17 33; fx_id 16 30; fx_id 15 27; fx_id 14 24; fx_id 13 21; fx_id 12 18; fx_id 11 15] /\
     map (id_at fx_late) b2 = [fx_id 12 13; fx_id 11 12]) /\
  (exists l s, get_block (fx_id 17 33) fx_late = Some l /\
     next fx_digest ex_digest ex_digest ex_recover byte_swap (block_header fx_b18) false (state_at fx_late l) = Ok s /\
     dpos_irreversible_blocknum s = 12) /\
  fx_add_block fx_b18 false fx_late = Ok fx_last /\
  map (id_at fx_last) (irreversible fx_last) = [fx_id 10 11; fx_id 11 12] /\
  map (id_at fx_last) (index fx_last) = [fx_id 12 13].
Proof.
  split_and!.
  - exists [9; 8; 7; 6; 5; 4; 3]%nat, [2; 1]%nat. split_and!; by vm_compute.
  - exists 9%nat, (ex_ok (next fx_digest ex_digest ex_digest ex_recover byte_swap (block_header fx_b18) false
                      (state_at fx_late 9%nat)) fx_start_state).
    split_and!; by vm_compute.
  - by apply fx_ok_eq.
  - by vm_compute.
  - by vm_compute.
Qed.

(** With the blocks 12 in the other order, the loop over the blocks 11 goes on from a block
    that has been erased. *)
Definition fx_late' : fx_database :=
  fx_add fx_b17 (fx_add fx_b16 (fx_add fx_b15 (fx_add fx_b14 (fx_add fx_b13
    (fx_add fx_a12 (fx_add fx_b12 (fx_add fx_b11 (fx_add fx_a11 fx_start)))))))).

Lemma prune_dangling : fx_add_block fx_b18 false fx_late' = Err "iterator to an erased block".
Proof. by vm_compute. Qed.
