(* ===== verification/ForkSwitch.v ===== *)
(** * Switching forks.

    [controller_impl::maybe_switch_forks], [pop_block], [apply_block], [commit_block] and
    [abort_block] of [controller.cpp]: after a block has been added to the fork database, the
    controller makes the state of the chain follow the best branch.  The database of the chain
    belongs to a library and is given by its interface [Chainbase]; what the transactions of a
    block do to its contents is a parameter. *)
From stdpp Require Import base gmap list strings.
From Stdlib Require Import ZArith Lia.
From S2P Require Import Prelude Merkle BlockState ForkDb.

Open Scope Z_scope.

Inductive block_status := irreversible_status | validated_status | complete_status | incomplete_status.
Inductive db_read_mode := SPECULATIVE | HEAD | READ_ONLY | IRREVERSIBLE.

#[global] Instance block_status_eq_dec : EqDecision block_status.
Proof. solve_decision. Defined.

(** ** The receipts of a block. *)
Inductive status_enum := executed | soft_fail | hard_fail | delayed | expired.

#[global] Instance status_enum_eq_dec : EqDecision status_enum.
Proof. solve_decision. Defined.

Record transaction_receipt_header := ReceiptHeader {
  status : status_enum;
  cpu_usage_us : Z;
  net_usage_words : Z;
}.

#[global] Instance receipt_header_eq_dec : EqDecision transaction_receipt_header.
Proof. solve_decision. Defined.

Section receipts.
Context {trx : Type}.

(** A packed transaction, given as what it unpacks to, or the id of a deferred one. *)
Inductive trx_or_id := PackedTrx (t : trx) | TrxId (i : digest_type).

Record transaction_receipt := TransactionReceipt {
  receipt_header : transaction_receipt_header;
  receipt_trx : trx_or_id;
}.

(** What a block has beside its header. *)
Record block_body := BlockBody {
  transactions : list transaction_receipt;
  block_extensions : list (Z * list Z);
}.
End receipts.

(** ** The database of the chain: its contents [X], and sessions that can be undone, each of
    which raises the revision by one. *)
Class Chainbase (D X : Type) := {
  contents : D -> X;
  update : X -> D -> D;
  start_undo_session : D -> D;
  undo : D -> D;
  revision : D -> Z;
  contents_update x d : contents (update x d) = x;
  contents_session d : contents (start_undo_session d) = contents d;
  undo_session x d : undo (update x (start_undo_session d)) = d;
  revision_update x d : revision (update x d) = revision d;
  revision_session d : revision (start_undo_session d) = revision d + 1;
}.

(** The options of the controller that decide which checks are made again. *)
Record checks_config := ChecksConfig {
  force_all_checks : bool;
  disable_replay_opts : bool;
  light_mode : bool;
}.

Section fork_switch.
Context {key signature trx D X P : Type} `{!EqDecision key} `{!OrderedIndex block_state_ptr} `{!Chainbase D X}.
Context (header_digest : signed_block_header (key := key) (signature := signature) -> digest_type).
Context (schedule_digest : producer_schedule_type (key := key) -> digest_type).
Context (hash_pair : digest_type * digest_type -> digest_type).
Context (recover : signature -> digest_type -> option key).
Context (endian_reverse_u32 : Z -> Z).

Abbreviation block_header_state := (block_header_state (key := key) (signature := signature)).
Abbreviation signed_block :=
  (signed_block (key := key) (signature := signature) (payload := block_body (trx := trx))).
Abbreviation fork_database :=
  (fork_database (key := key) (signature := signature) (payload := block_body (trx := trx)) (trx := trx)).

Abbreviation transaction_receipt := (transaction_receipt (trx := trx)).

(** The block being made: the contents of the database with what it has done so far, the receipts
    and transactions in it, and all else of its state. *)
Record pending_state := Pending {
  p_db : X;
  p_receipts : list transaction_receipt_header;
  p_trxs : list trx;
  p_rest : P;
}.

(** What is run for a block, each with the contents it leaves behind also where it fails: the
    start of the block on top of a head with its time and confirmations, the transactions, and
    [finalize_block] with the id the block gets.  A transaction that is pushed may throw, or give
    a trace with the exception it ended with.  [push_transaction] is told whether the checks of
    authorizations, those of the transaction and the undo sessions are skipped; a deferred
    transaction is always checked. *)
Context (start_pending : block_header_state -> Z -> Z -> X -> X * result P).
Context (push_transaction : bool -> bool -> bool -> trx -> Z -> pending_state -> pending_state * result (option string)).
Context (push_scheduled_transaction : bool -> digest_type -> Z -> pending_state -> pending_state * result (option string)).
Context (finalize_block : pending_state -> X * result digest_type).
Context (failure_is_subjective : string -> bool).
(** The id under which a transaction is kept to be tried again. *)
Context (signed_id : trx -> Z).
Context (read_mode : db_read_mode) (replaying : bool) (conf : checks_config).
(** The block being pushed is of a trusted producer. *)
Context (trusted_producer_light_validation : bool).

Record controller := Controller {
  fork_db : fork_database;
  ctl_head : block_state_ptr;
  chain_db : D;
  reversible_blocks : gmap Z signed_block;
  unapplied_transactions : gmap Z trx;
}.
Implicit Types (c : controller) (l : block_state_ptr) (db : fork_database) (st : block_status).

(** ** Changes of the state that stay when an exception is thrown. *)
Definition ctl (A : Type) : Type := controller -> controller * result A.
Definition ctl_ret {A} (a : A) : ctl A := fun c => (c, Ok a).
Definition ctl_throw {A} (e : string) : ctl A := fun c => (c, Err e).
Definition ctl_bind {A B} (m : ctl A) (f : A -> ctl B) : ctl B := fun c =>
  match m c with
  | (c, Ok a) => f a c
  | (c, Err e) => (c, Err e)
  end.
Definition ctl_catch {A} (m : ctl A) (handler : string -> ctl A) : ctl A := fun c =>
  match m c with
  | (c, Ok a) => (c, Ok a)
  | (c, Err e) => handler e c
  end.
Definition ctl_assert (p : controller -> bool) (msg : string) : ctl unit := fun c =>
  (c, rassert (p c) msg).
Definition ctl_fork (f : fork_database -> result fork_database) : ctl unit := fun c =>
  match f (fork_db c) with
  | Ok db => (Controller db (ctl_head c) (chain_db c) (reversible_blocks c) (unapplied_transactions c), Ok tt)
  | Err e => (c, Err e)
  end.
Definition set_head l : ctl unit := fun c =>
  (Controller (fork_db c) l (chain_db c) (reversible_blocks c) (unapplied_transactions c), Ok tt).

Notation "m '&>' k" := (ctl_bind m (fun _ => k)) (at level 100, right associativity).

Fixpoint for_each (f : block_state_ptr -> ctl unit) (ls : list block_state_ptr) : ctl unit :=
  match ls with
  | [] => ctl_ret tt
  | l :: ls => f l &> for_each f ls
  end.

(** ** Running a block. *)

(** [light_validation_allowed] outside of transactions that require the checks. *)
Definition light_validation_allowed st (replay_opts_disabled_by_policy : bool) : bool :=
  (bool_decide (st = irreversible_status) || bool_decide (st = validated_status)) && negb replay_opts_disabled_by_policy
  || bool_decide (st = complete_status) && (light_mode conf || trusted_producer_light_validation).
Definition skip_auth_check st : bool := light_validation_allowed st (force_all_checks conf).
Definition skip_trx_checks st : bool := light_validation_allowed st (disable_replay_opts conf).
Definition skip_db_sessions st : bool := bool_decide (st = irreversible_status) && negb (disable_replay_opts conf).

(** The transaction of a receipt is pushed; gives also the ids of the transactions that need not
    be tried again. *)
Definition push_receipt_trx st (r : transaction_receipt) (p : pending_state)
  : pending_state * list Z * result (option string) :=
  let cpu := cpu_usage_us (receipt_header r) in
  match receipt_trx r with
  | PackedTrx t =>
      let (p, trace) := push_transaction (skip_auth_check st) (skip_trx_checks st) (skip_db_sessions st) t cpu p in
      (p, match trace with
          | Ok None => [signed_id t]
          | Ok (Some e) => if failure_is_subjective e then [] else [signed_id t]
          | Err _ => []
          end, trace)
  | TrxId i =>
      let (p, trace) := push_scheduled_transaction (skip_db_sessions st) i cpu p in (p, [], trace)
  end.

Definition transaction_can_fail (r : transaction_receipt) : bool :=
  bool_decide (status (receipt_header r) = hard_fail) && match receipt_trx r with TrxId _ => true | PackedTrx _ => false end.

(** The receipts that pushing has added must be the one in the block. *)
Definition check_receipt (num_pending_receipts : nat) (r : transaction_receipt) (p : pending_state) : result unit :=
  (check* (0 <? length (p_receipts p))%nat with "expected a receipt" in
   check* (length (p_receipts p) =? num_pending_receipts + 1)%nat with "expected receipt was not added" in
   rassert (bool_decide (last (p_receipts p) = Some (receipt_header r))) "receipt does not match")%res.

Fixpoint apply_receipts st (rs : list transaction_receipt) (p : pending_state) (erased : list Z)
  : pending_state * list Z * result unit :=
  match rs with
  | [] => (p, erased, Ok tt)
  | r :: rs =>
      let '(p', ids, trace) := push_receipt_trx st r p in
      let erased := erased ++ ids in
      match trace with
      | Err e => (p', erased, Err e)
      | Ok except =>
          match except, transaction_can_fail r with
          | Some e, false => (p', erased, Err e)
          | _, _ =>
              match check_receipt (length (p_receipts p)) r p' with
              | Err e => (p', erased, Err e)
              | Ok _ => apply_receipts st rs p' erased
              end
          end
      end
  end.

(** How a run ended: the contents, the transactions that need not be tried again, and those in
    the pending block. *)
Record run_end := RunEnd {
  end_db : X;
  end_erased : list Z;
  end_trxs : list trx;
}.

(** [apply_block] between the start of its session and the commit. *)
Definition run_block (head : block_header_state) (b : signed_block) st (x : X) : run_end * result unit :=
  match start_pending head (timestamp (block_header b)) (confirmed (block_header b)) x with
  | (x, Err e) => (RunEnd x [] [], Err e)
  | (x, Ok rest) =>
      match apply_receipts st (transactions (block_payload b)) (Pending x [] [] rest) [] with
      | (p, erased, Err e) => (RunEnd (p_db p) erased (p_trxs p), Err e)
      | (p, erased, Ok _) =>
          match finalize_block p with
          | (x, Err e) => (RunEnd x erased (p_trxs p), Err e)
          | (x, Ok id) =>
              (RunEnd x erased (p_trxs p),
               rassert (bool_decide (header_id header_digest endian_reverse_u32 (block_header b) = id)) "Block ID does not match")
          end
      end
  end.

(** ** Operations. *)

Definition keep_unapplied (ts : list trx) (m : gmap Z trx) : gmap Z trx :=
  match read_mode with
  | SPECULATIVE => foldl (fun m t => <[signed_id t := t]> m) m ts
  | _ => m
  end.

Definition pop_block : ctl unit := fun c =>
  let db := fork_db c in
  let head := ctl_head c in
  match get_block (prev_at db head) db with
  | None => (c, Err "attempt to pop beyond last irreversible block")
  | Some prev =>
      (Controller db prev (undo (chain_db c)) (delete (num_at db head) (reversible_blocks c))
         (keep_unapplied (trxs (store db head)) (unapplied_transactions c)), Ok tt)
  end.

(** The session of a block, and what is left of the database when it is dropped. *)
Definition open_session st (d : D) : D := if skip_db_sessions st then d else start_undo_session d.
Definition drop_session st (x : X) (d : D) : D :=
  let d' := update x (open_session st d) in if skip_db_sessions st then d' else undo d'.

Definition erase_unapplied (ids : list Z) (m : gmap Z trx) : gmap Z trx := foldl (fun m i => delete i m) m ids.

(** [abort_block], with the end of the session. *)
Definition abort_block st (e : run_end) c : controller :=
  Controller (fork_db c) (ctl_head c) (drop_session st (end_db e) (chain_db c)) (reversible_blocks c)
    (keep_unapplied (end_trxs e) (erase_unapplied (end_erased e) (unapplied_transactions c))).

(** [commit_block] of a block that is in the fork database already: it is kept under its
    number, which must be new, and its session stays. *)
Definition commit_block st (num : Z) (b : signed_block) (e : run_end) : ctl unit := fun c =>
  let committed rev :=
    Controller (fork_db c) (ctl_head c) (update (end_db e) (open_session st (chain_db c))) rev
      (erase_unapplied (end_erased e) (unapplied_transactions c)) in
  if replaying then (committed (reversible_blocks c), Ok tt)
  else match reversible_blocks c !! num with
       | Some _ => (abort_block st e c, Err "could not insert object, most likely a uniqueness constraint was violated")
       | None => (committed (<[num := b]> (reversible_blocks c)), Ok tt)
       end.

Definition apply_block (b : signed_block) st : ctl unit := fun c =>
  let head := state_at (fork_db c) (ctl_head c) in
  match block_extensions (block_payload b) with
  | _ :: _ => (c, Err "no supported extensions")
  | [] =>
      if negb (skip_db_sessions st) && negb (revision (chain_db c) =? block_num head)
      then (c, Err "db revision is not on par with head block")
      else
        match run_block head b st (contents (open_session st (chain_db c))) with
        | (e, Err msg) => (abort_block st e c, Err msg)
        | (e, Ok _) => commit_block st (u32 (block_num head + 1)) b e c
        end
  end.

(** The block of a state object, as it is when the operation runs. *)
Definition apply_block_of l (s : block_state -> block_status) : ctl unit := fun c =>
  apply_block (block (store (fork_db c) l)) (s (store (fork_db c) l)) c.

Definition mark l (b : bool) : ctl unit := ctl_fork (mark_in_current_chain l b).

Definition undo_branch (ls : list block_state_ptr) : ctl unit :=
  for_each (fun l => mark l false &> pop_block) ls.

Definition restore_branch (ls : list block_state_ptr) : ctl unit :=
  for_each (fun l => apply_block_of l (fun _ => validated_status) &> set_head l &> mark l true) (rev ls).

(** The loop over the blocks of the new branch: [todo] are those left, the oldest first, and
    [applied] those applied, the newest first. *)
Fixpoint apply_branch (second : list block_state_ptr) (ancestor : digest_type)
    (todo applied : list block_state_ptr) : ctl unit :=
  match todo with
  | [] => ctl_ret tt
  | l :: todo =>
      fun c =>
      match (apply_block_of l (fun s => if validated s then validated_status else complete_status) &>
             set_head l &> mark l true &> ctl_fork (set_validity l true)) c with
      | (c, Ok _) => apply_branch second ancestor todo (l :: applied) c
      | (c, Err e) =>
          (ctl_fork (set_validity l false) &> undo_branch applied &>
           ctl_assert (fun c => bool_decide (id_at (fork_db c) (ctl_head c) = ancestor))
             "loss of sync between fork_db and chainbase during fork switch reversal" &>
           restore_branch second &> ctl_throw e) c
      end
  end.

(** [branches.second.back()->header.previous]. *)
Definition ancestor_of (db : fork_database) (ls : list block_state_ptr) : result digest_type :=
  match last ls with Some l => Ok (prev_at db l) | None => Err "back of an empty vector" end.

Definition maybe_switch_forks (s : block_status) : ctl unit := fun c =>
  let db := fork_db c in
  match fork_head db with
  | None => (c, Err "null pointer")
  | Some new_head =>
      if bool_decide (prev_at db new_head = id_at db (ctl_head c)) then
        ctl_catch (apply_block_of new_head (fun _ => s) &> mark new_head true &>
                   ctl_fork (set_validity new_head true) &> set_head new_head)
          (fun e => ctl_fork (set_validity new_head false) &> ctl_throw e) c
      else if bool_decide (id_at db new_head <> id_at db (ctl_head c)) then
        match fetch_branch_from (id_at db new_head) (id_at db (ctl_head c)) db with
        | Err e => (c, Err e)
        | Ok (first, second) =>
            match ancestor_of db second with
            | Err e => (c, Err e)
            | Ok ancestor =>
                (undo_branch second &>
                 ctl_assert (fun c => bool_decide (id_at (fork_db c) (ctl_head c) = ancestor))
                   "loss of sync between fork_db and chainbase during fork switch" &>
                 apply_branch second ancestor (rev first) []) c
            end
        end
      else (c, Ok tt)
  end.

(** ** The state of the chain. *)

Section switching.
Context (Hrev : reverses endian_reverse_u32).

Abbreviation db_ok := (db_ok header_digest endian_reverse_u32).
Implicit Types (b : list block_state_ptr).

(** The block a branch starts from, and its newest block. *)
Definition tip b (base : block_state_ptr) : block_state_ptr := match b with [] => base | l :: _ => l end.

(** The blocks of a branch, the newest first, build on each other and on [base]. *)
Fixpoint linked db b (base : block_state_ptr) : Prop :=
  match b with
  | [] => base ∈ index db
  | l :: b => l ∈ index db /\ id_at db (tip b base) = prev_at db l /\ linked db b base
  end.

(** A block that is run on the contents [x] gives the contents [x']. *)
Definition run_ok (head : block_header_state) (b : signed_block) st (x x' : X) : Prop :=
  block_extensions (block_payload b) = [] /\ exists e, run_block head b st x = (e, Ok tt) /\ end_db e = x'.

(** Running the blocks of a branch on [d0], each with a status in [sts] and in a session of its
    own, gives [d]. *)
Inductive replayed (sts : list block_status) db (base : block_state_ptr) (d0 : D) : list block_state_ptr -> D -> Prop :=
| replayed_nil : replayed sts db base d0 [] d0
| replayed_cons l b d1 st x :
    replayed sts db base d0 b d1 -> st ∈ sts ->
    run_ok (state_at db (tip b base)) (block (store db l)) st (contents d1) x ->
    replayed sts db base d0 (l :: b) (update x (start_undo_session d1)).

Abbreviation again := (replayed [validated_status]).
Abbreviation run_once := (replayed [validated_status; complete_status]).

Lemma replayed_inv sts db base d0 l b d : replayed sts db base d0 (l :: b) d ->
  exists d1 st x, replayed sts db base d0 b d1 /\ st ∈ sts /\
    run_ok (state_at db (tip b base)) (block (store db l)) st (contents d1) x /\ d = update x (start_undo_session d1).
Proof. inversion 1; eauto 10. Qed.

Lemma replayed_weaken sts sts' db base d0 b d :
  (forall st, st ∈ sts -> st ∈ sts') -> replayed sts db base d0 b d -> replayed sts' db base d0 b d.
Proof. intros Hs. induction 1; econstructor; eauto. Qed.

Lemma replayed_revision sts db base d0 b d :
  replayed sts db base d0 b d -> revision d = revision d0 + Z.of_nat (length b).
Proof.
  induction 1 as [|l b d1 st x _ IH _ _]; cbn [length]; [lia|]. rewrite revision_update, revision_session, IH. lia.
Qed.

(** Databases with the same blocks, up to their marks. *)
Definition same_blocks db db' : Prop :=
  index db' = index db /\ fork_head db' = fork_head db /\ allocated db' = allocated db /\
  forall l, state_at db' l = state_at db l /\ block (store db' l) = block (store db l).

Lemma same_blocks_trans db1 db2 db3 : same_blocks db1 db2 -> same_blocks db2 db3 -> same_blocks db1 db3.
Proof.
  intros (I1 & H1 & A1 & S1) (I2 & H2 & A2 & S2). split_and!; [congruence..|].
  intros l. destruct (S1 l), (S2 l). split; congruence.
Qed.

Lemma same_blocks_ok db db' : same_blocks db db' -> db_ok db -> db_ok db'.
Proof. intros (Ei & _ & Ea & Hs) Hok. apply (agree_ok _ _ db); [|done|lia|done]. intros l _. apply Hs. Qed.

(** Databases of which the second has the states and blocks of the first, and maybe fewer
    blocks in its index. *)
Definition same_objects db db' : Prop :=
  forall l, state_at db' l = state_at db l /\ block (store db' l) = block (store db l).

Lemma same_blocks_objects db db' : same_blocks db db' -> same_objects db db'.
Proof. by intros (_ & _ & _ & ?). Qed.

Lemma same_at db db' l :
  same_objects db db' -> id_at db' l = id_at db l /\ prev_at db' l = prev_at db l /\ num_at db' l = num_at db l.
Proof. intros Hs. unfold id_at, prev_at, num_at. by destruct (Hs l) as [-> _]. Qed.

Lemma linked_same db db' b base :
  same_objects db db' -> (forall l, l ∈ base :: b -> l ∈ index db') -> linked db b base -> linked db' b base.
Proof.
  intros Hs. induction b as [|l b IH]; cbn; intros Hin; [intros _; apply Hin; by left|].
  intros (_ & E & Hl). split_and!.
  - apply Hin. right. by left.
  - destruct (same_at _ _ (tip b base) Hs) as (-> & _ & _). by destruct (same_at _ _ l Hs) as (_ & -> & _).
  - apply IH; [|done]. intros x [->|Hx]%elem_of_cons; apply Hin; [by left|right; by right].
Qed.

Lemma replayed_same sts db db' base d0 b d :
  same_objects db db' -> replayed sts db base d0 b d -> replayed sts db' base d0 b d.
Proof.
  intros Hs. induction 1 as [|l b d1 st d _ IH Hst H]; [constructor|]. econstructor; [exact IH|exact Hst|].
  destruct (Hs (tip b base)) as [-> _]. destruct (Hs l) as [_ ->]. exact H.
Qed.

Lemma linked_in db b base l : linked db b base -> l ∈ base :: b -> l ∈ index db.
Proof.
  induction b as [|x b IH]; cbn; [intros H ->%list_elem_of_singleton; done|].
  intros (Hx & _ & H) [->|[->|Hl]%elem_of_cons]%elem_of_cons; [apply IH; [done|by left]|done|].
  apply IH; [done|by right].
Qed.

Lemma linked_num db b base : db_ok db -> linked db b base ->
  num_at db (tip b base) = num_at db base + Z.of_nat (length b).
Proof.
  intros Hok. induction b as [|l b IH]; cbn [linked tip length]; [lia|]. intros (Hl & E & H).
  rewrite (num_link _ _ Hrev db l (tip b base) Hok Hl); [|apply (linked_in _ _ _ _ H); destruct b; cbn; set_solver|done].
  rewrite (IH H). lia.
Qed.

(** ** The steps. *)

Lemma mark_total l v c :
  db_ok (fork_db c) -> l ∈ index (fork_db c) ->
  exists db', mark l v c = (Controller db' (ctl_head c) (chain_db c) (reversible_blocks c)
                              (unapplied_transactions c), Ok tt) /\ same_blocks (fork_db c) db'.
Proof.
  intros Hok Hl. unfold mark, ctl_fork, mark_in_current_chain. destruct (Bool.eqb _ _).
  - destruct c. eexists. split; [reflexivity|]. split_and!; done.
  - rewrite get_block_at by (done || apply Hok). cbn. eexists. split; [reflexivity|].
    split_and!; try done. intros x. split; [by apply update_at_state|]. cbn. by destruct (x =? l)%nat.
Qed.

(** No number above that of the head is taken. *)
Definition below_head c : Prop :=
  forall n, is_Some (reversible_blocks c !! n) -> n <= num_at (fork_db c) (ctl_head c).

Lemma undo_branch_ok sts b base d0 : forall c,
  db_ok (fork_db c) -> below_head c -> ctl_head c = tip b base -> linked (fork_db c) b base ->
  replayed sts (fork_db c) base d0 b (chain_db c) ->
  exists c', undo_branch b c = (c', Ok tt) /\ same_blocks (fork_db c) (fork_db c') /\
    ctl_head c' = base /\ chain_db c' = d0 /\ below_head c'.
Proof.
  induction b as [|l b IH]; intros c Hok Hbelow Hhead Hlink Hrep.
  { exists c. inversion Hrep; subst. split_and!; done. }
  cbn [linked tip] in *. destruct Hlink as (Hl & E & Hlink).
  apply replayed_inv in Hrep as (d1 & st & x & Hrep1 & _ & _ & Hd).
  destruct (mark_total l false c Hok Hl) as (db' & Hm & Hsame).
  pose proof (same_blocks_ok _ _ Hsame Hok) as Hok'. pose proof (same_blocks_objects _ _ Hsame) as Hobj.
  unfold undo_branch. cbn [for_each]. unfold ctl_bind at 1 2. rewrite Hm. unfold pop_block at 1. cbn [fork_db ctl_head].
  rewrite Hhead. destruct (same_at _ _ l Hobj) as (_ & Hpl & Hnl). destruct (same_at _ _ (tip b base) Hobj) as (Hit & _ & Hnt).
  assert (Ht : tip b base ∈ index (fork_db c)) by (apply (linked_in _ _ _ _ Hlink); destruct b; cbn; set_solver).
  assert (Ht' : tip b base ∈ index db') by (destruct Hsame as (-> & _); done).
  rewrite Hpl, <- E, <- Hit, get_block_at by (done || apply Hok').
  cbn [chain_db reversible_blocks unapplied_transactions]. rewrite Hnl.
  set (c1 := Controller _ _ _ _ _).
  assert (Hnum : num_at (fork_db c) l = num_at (fork_db c) (tip b base) + 1) by by eapply (num_link header_digest _ Hrev).
  destruct (IH c1) as (c' & Hc' & Hs' & Hh' & Hd' & Hb').
  - done.
  - intros n Hn. unfold c1 in Hn |- *. cbn [reversible_blocks fork_db ctl_head] in *. rewrite Hnt.
    apply lookup_delete_is_Some in Hn as [Hne Hn]. apply Hbelow in Hn. rewrite Hhead in Hn. lia.
  - done.
  - unfold c1. cbn [fork_db]. eapply linked_same; [exact Hobj| |exact Hlink].
    intros y Hy. destruct Hsame as (-> & _). by eapply linked_in.
  - unfold c1. cbn [fork_db chain_db]. eapply replayed_same; [exact Hobj|].
    by rewrite Hd, undo_session.
  - exists c'. split_and!; try done. by eapply same_blocks_trans.
Qed.

(** A block is applied on top of the head in a session, or leaves the database as it was. *)
Lemma apply_block_of_cases l f c :
  db_ok (fork_db c) -> below_head c -> ctl_head c ∈ index (fork_db c) ->
  revision (chain_db c) = num_at (fork_db c) (ctl_head c) -> skip_db_sessions (f (store (fork_db c) l)) = false ->
  let ran := run_ok (state_at (fork_db c) (ctl_head c)) (block (store (fork_db c) l)) (f (store (fork_db c) l))
               (contents (chain_db c)) in
  (exists x rev u, ran x /\
     apply_block_of l f c = (Controller (fork_db c) (ctl_head c) (update x (start_undo_session (chain_db c))) rev u, Ok tt) /\
     forall n, is_Some (rev !! n) -> n <= num_at (fork_db c) (ctl_head c) + 1) \/
  (exists e u, (forall x, ~ ran x) /\
     apply_block_of l f c = (Controller (fork_db c) (ctl_head c) (chain_db c) (reversible_blocks c) u, Err e)).
Proof.
  intros Hok Hbelow Hin Hr Hskip. unfold apply_block_of, apply_block, commit_block, abort_block, drop_session, open_session, run_ok.
  rewrite Hskip. fold (num_at (fork_db c) (ctl_head c)). rewrite Hr, Z.eqb_refl, contents_session.
  destruct (block_extensions _); cbn [negb andb]; [|right; destruct c; eexists _, _; split; [by intros ? [? _]|reflexivity]].
  destruct (run_block _ _ _ _) as [e [[]|msg]] eqn:Erun; [left|right].
  - pose proof (ok_block _ _ _ Hok _ Hin) as Hb. pose proof (bk_small _ _ _ Hb) as Hsmall.
    pose proof (block_num_nonneg _ _ Hrev _ Hb) as Hge.
    rewrite wrapU_small by (unfold num_at; width_norm; lia).
    assert (Hnone : reversible_blocks c !! (num_at (fork_db c) (ctl_head c) + 1) = None).
    { apply eq_None_not_Some. intros Hs. apply Hbelow in Hs. lia. }
    exists (end_db e). destruct replaying; [|rewrite Hnone]; eexists _, _;
      (split; [split; [done|]; by exists e|]); (split; [reflexivity|]); intros n Hn.
    + apply Hbelow in Hn. lia.
    + rewrite lookup_insert_is_Some' in Hn. destruct Hn as [<-|Hn]; [lia|]. apply Hbelow in Hn. lia.
  - rewrite undo_session. eexists _, _. split; [|reflexivity]. by intros x (_ & ? & [= -> ->] & _).
Qed.

(** What holds while a branch is being applied. *)
Record on_branch db base d0 b c : Prop := {
  ob_same : same_objects db (fork_db c);
  ob_ok : db_ok (fork_db c);
  ob_below : below_head c;
  ob_head : ctl_head c = tip b base;
  ob_linked : linked (fork_db c) b base;
  ob_revision : revision (chain_db c) = num_at (fork_db c) (ctl_head c);
  ob_replayed : run_once db base d0 b (chain_db c);
}.

Lemma tip_in db b base : linked db b base -> tip b base ∈ index db.
Proof. intros H. apply (linked_in _ _ _ _ H). destruct b; cbn; set_solver. Qed.

(** The next block of the branch has been run: it becomes the head. *)
Lemma on_branch_step db base d0 b c l st x rev u db' :
  on_branch db base d0 b c -> l ∈ index (fork_db c) -> id_at (fork_db c) (tip b base) = prev_at (fork_db c) l ->
  st ∈ [validated_status; complete_status] ->
  run_ok (state_at (fork_db c) (ctl_head c)) (block (store (fork_db c) l)) st (contents (chain_db c)) x ->
  (forall n, is_Some (rev !! n) -> n <= num_at (fork_db c) (ctl_head c) + 1) ->
  same_blocks (fork_db c) db' ->
  on_branch db base d0 (l :: b) (Controller db' l (update x (start_undo_session (chain_db c))) rev u).
Proof.
  intros [Hs Hok Hb Hh Hl Hr Hrp] Hin E Hst Hrun Hrev' Hsame.
  pose proof (same_blocks_objects _ _ Hsame) as Hobj. pose proof (same_blocks_ok _ _ Hsame Hok) as Hok'.
  destruct (same_at _ _ l Hobj) as (_ & _ & Hnl).
  pose proof (num_link header_digest _ Hrev _ l _ Hok Hin (tip_in _ _ _ Hl) E) as Hnum.
  split; cbn [fork_db ctl_head chain_db]; try done.
  - intros y. destruct (Hs y) as [<- <-]. apply Hobj.
  - intros n Hn. cbn [reversible_blocks fork_db ctl_head] in *. apply Hrev' in Hn. rewrite Hh in Hn.
    by rewrite Hnl, Hnum.
  - apply (linked_same (fork_db c)); [done| |cbn; by split_and!].
    intros y [->|[->|Hy]%elem_of_cons]%elem_of_cons; destruct Hsame as (-> & _); [|done|].
    + eapply linked_in; [exact Hl|by left].
    + eapply linked_in; [exact Hl|by right].
  - rewrite revision_update, revision_session, Hr, Hnl, Hnum. by rewrite Hh.
  - econstructor; [exact Hrp|exact Hst|]. destruct (Hs (tip b base)) as [<- _]. destruct (Hs l) as [_ <-].
    rewrite <- Hh. exact Hrun.
Qed.

Lemma for_each_snoc (f : block_state_ptr -> ctl unit) ls x c c' :
  for_each f ls c = (c', Ok tt) -> for_each f (ls ++ [x]) c = f x c'.
Proof.
  revert c. induction ls as [|y ls IH]; intros c H; cbn in *.
  - injection H as <-. unfold ctl_bind, ctl_ret. by destruct (f x c) as [? [[]|]].
  - unfold ctl_bind in *. destruct (f y c) as [c2 [?|?]]; [by apply IH|done].
Qed.

Lemma run_ok_det head (b : signed_block) st x y z : run_ok head b st x y -> run_ok head b st x z -> y = z.
Proof. intros (_ & e & H & <-) (_ & e' & H' & <-). rewrite H in H'. by injection H' as <-. Qed.

(** Putting the old branch back. *)
Lemma restore_branch_ok db base d0 b2 : forall d c,
  on_branch db base d0 [] c -> linked (fork_db c) b2 base -> again db base d0 b2 d ->
  exists c', restore_branch b2 c = (c', Ok tt) /\ same_blocks (fork_db c) (fork_db c') /\
    on_branch db base d0 b2 c' /\ chain_db c' = d.
Proof.
  unfold restore_branch. induction b2 as [|l b IH]; intros d c Hc Hl Hr.
  { exists c. inversion Hr; subst. destruct Hc as [? ? ? ? ? ? Hc]. inversion Hc; subst. split_and!; done. }
  apply replayed_inv in Hr as (d1 & st & x & Hr & Hst & Hrun & ->). cbn [linked] in Hl. destruct Hl as (Hin & E & Hl).
  apply list_elem_of_singleton in Hst as ->.
  destruct (IH d1 c Hc Hl Hr) as (c1 & H1 & Hs1 & Hc1 & Hd1).
  cbn [rev]. rewrite (for_each_snoc _ _ _ _ _ H1). destruct Hs1 as (Ei & Ef & Ea & Hobj).
  pose proof Hc1 as [Hs Hok Hb Hh Hlk Hrv Hrp].
  assert (Hin1 : l ∈ index (fork_db c1)) by by rewrite Ei.
  assert (Hrun1 : run_ok (state_at (fork_db c1) (ctl_head c1)) (block (store (fork_db c1) l)) validated_status
                    (contents (chain_db c1)) x).
  { rewrite Hh, Hd1. destruct (Hs (tip b base)) as [-> _]. by destruct (Hs l) as [_ ->]. }
  destruct (apply_block_of_cases l (fun _ => validated_status) c1 Hok Hb) as [(x' & rv & u & Hx & Ha & Hrev')|(e & u & He & _)];
    [rewrite Hh; by apply tip_in|done|done| |by destruct (He x)].
  pose proof (run_ok_det _ _ _ _ _ _ Hrun1 Hx) as <-. unfold ctl_bind at 1. rewrite Ha. unfold ctl_bind, set_head. cbn [fork_db chain_db].
  set (c2 := Controller _ l _ _ _). destruct (mark_total l true c2) as (db' & Hm & Hsame); [done|done|].
  rewrite Hm. eexists. split; [reflexivity|]. unfold c2. cbn [chain_db reversible_blocks unapplied_transactions fork_db ctl_head] in *.
  split_and!; [|eapply on_branch_step; [exact Hc1|exact Hin1| |by left|exact Hrun1|exact Hrev'|exact Hsame]|by rewrite Hd1].
  - eapply same_blocks_trans; [|exact Hsame]. by split_and!.
  - destruct (same_at _ _ (tip b base) Hobj) as (-> & _). by destruct (same_at _ _ l Hobj) as (_ & -> & _).
Qed.

(** ** Removing a block of the new branch leaves the old one. *)

Lemma builds_num db x l :
  db_ok db -> x ∈ index db -> builds_on (id_at db) (prev_at db) (index db) [id_at db x] l ->
  num_at db x <= num_at db l.
Proof.
  intros Hok Hx. induction 1 as [l Hl Hr|l Hl Hr|l l' Hl Hb IH E].
  - apply list_elem_of_singleton in Hr. by rewrite (ok_unique _ _ _ Hok l x).
  - apply list_elem_of_singleton in Hr. pose proof (num_link header_digest _ Hrev _ l x Hok Hl Hx (eq_sym Hr)). lia.
  - pose proof (num_link header_digest _ Hrev _ l l' Hok Hl (builds_on_in _ _ _ _ _ Hb) (eq_sym E)). lia.
Qed.

Lemma linked_app db b1 b2 base : linked db (b1 ++ b2) base -> linked db b2 base.
Proof. induction b1; cbn; [done|]. intros (_ & _ & ?). auto. Qed.

Lemma linked_above db b base x : db_ok db -> linked db b base -> x ∈ b -> num_at db base < num_at db x.
Proof.
  intros Hok Hl (b1 & b2 & ->)%list_elem_of_split. apply linked_app in Hl.
  pose proof (linked_num _ _ _ Hok Hl) as Hn. cbn [tip length] in Hn. lia.
Qed.

Lemma linked_below db b base x : db_ok db -> linked db b base -> x ∈ base :: b -> num_at db x <= num_at db (tip b base).
Proof.
  intros Hok Hl [->|(b1 & b2 & ->)%list_elem_of_split]%elem_of_cons; rewrite (linked_num _ _ _ Hok Hl); [lia|].
  apply linked_app in Hl. pose proof (linked_num _ _ _ Hok Hl) as Hn. cbn [tip] in Hn.
  rewrite Hn, length_app. lia.
Qed.

Lemma fork_stays db b1 b2 base x :
  db_ok db -> linked db b1 base -> linked db b2 base -> x ∈ b1 -> x ∉ b2 ->
  forall l, l ∈ base :: b2 -> ~ builds_on (id_at db) (prev_at db) (index db) [id_at db x] l.
Proof.
  intros Hok H1 H2 Hx1 Hx2 l Hl Hb.
  assert (Hx : x ∈ index db) by (eapply linked_in; [exact H1|by right]).
  pose proof (linked_above _ _ _ _ Hok H1 Hx1) as Hlow.
  revert l Hl Hb. induction b2 as [|y b IH]; intros l Hl Hb.
  { apply list_elem_of_singleton in Hl as ->. apply builds_num in Hb; [lia|done|done]. }
  cbn [linked] in H2. destruct H2 as (Hy & E & H2). apply not_elem_of_cons in Hx2 as [Hne Hx2].
  apply elem_of_cons in Hl as [->|Hl]; [eapply (IH H2 Hx2); [by left|done]|].
  apply elem_of_cons in Hl as [->|Hl]; [|eapply (IH H2 Hx2); [by right|done]].
  assert (Ht : tip b base ∈ base :: b) by (destruct b; cbn; set_solver).
  pose proof (linked_in _ _ _ _ H2 Ht) as Hin.
  inversion Hb as [? _ Hr|? _ Hr|? l' _ Hb' E']; subst.
  - apply list_elem_of_singleton in Hr. by apply Hne, (ok_unique _ _ _ Hok).
  - apply list_elem_of_singleton in Hr. rewrite <- E in Hr.
    apply (ok_unique _ _ _ Hok) in Hr; [|done|done]. rewrite Hr in *. apply elem_of_cons in Ht as [->|Ht]; [lia|done].
  - rewrite <- E in E'. apply (ok_unique _ _ _ Hok) in E'; [|done|by eapply builds_on_in].
    rewrite <- E' in Hb'. by apply (IH H2 Hx2 _ Ht).
Qed.

Lemma builds_on_ext (ids ids' prevs prevs' : block_state_ptr -> digest_type) ls roots l :
  (forall x, ids x = ids' x) -> (forall x, prevs x = prevs' x) ->
  builds_on ids prevs ls roots l -> builds_on ids' prevs' ls roots l.
Proof.
  intros Hi Hp. induction 1 as [l Hl Hr|l Hl Hr|l l' Hl Hb IH E].
  - apply builds_self; [done|]. by rewrite <- Hi.
  - apply builds_prev; [done|]. by rewrite <- Hp.
  - eapply builds_step; [done|exact IH|]. by rewrite <- Hi, <- Hp.
Qed.

Lemma builds_on_same db db' roots l :
  same_blocks db db' ->
  builds_on (id_at db') (prev_at db') (index db') roots l <-> builds_on (id_at db) (prev_at db) (index db) roots l.
Proof.
  intros Hs. pose proof (same_blocks_objects _ _ Hs) as Ho. destruct Hs as (-> & _).
  split; apply builds_on_ext; intros x; destruct (same_at _ _ x Ho) as (? & ? & _); congruence.
Qed.

(** ** The new branch. *)

Section branch.
Context (db : fork_database) (base : block_state_ptr) (d0 d2 : D) (b2 : list block_state_ptr).
Context (Hok : db_ok db) (Hlink2 : linked db b2 base) (Hrep2 : again db base d0 b2 d2).

(** The blocks left when [x] and what builds on it are removed. *)
Definition removed_from (x : block_state_ptr) (db' : fork_database) : Prop :=
  forall l, l ∈ index db' <-> l ∈ index db /\ ~ builds_on (id_at db) (prev_at db) (index db) [id_at db x] l.

Lemma remove_failed applied l c :
  on_branch db base d0 applied c -> same_blocks db (fork_db c) -> linked db (l :: applied) base -> l ∉ b2 ->
  exists c1, ctl_fork (set_validity l false) c = (c1, Ok tt) /\ on_branch db base d0 applied c1 /\
    linked (fork_db c1) b2 base /\ removed_from l (fork_db c1) /\ ctl_head c1 = ctl_head c.
Proof.
  intros Hc Hsame Hl Hnot. pose proof (same_blocks_objects _ _ Hsame) as Hobj.
  destruct (same_at _ _ l Hobj) as (Hid & _).
  assert (Hstay : forall x, x ∈ base :: b2 -> ~ builds_on (id_at db) (prev_at db) (index db) [id_at db l] x).
  { eapply fork_stays; [done|exact Hl|done|by left|done]. }
  assert (Happ : forall x, x ∈ base :: applied -> ~ builds_on (id_at db) (prev_at db) (index db) [id_at db l] x).
  { cbn in Hl. destruct Hl as (Hin & E & Hl). intros x Hx Hb. apply builds_num in Hb; [|done|done].
    pose proof (linked_below _ _ _ _ Hok Hl Hx).
    pose proof (num_link header_digest _ Hrev _ l _ Hok Hin (tip_in _ _ _ Hl) E). lia. }
  destruct Hc as [Hs Hokc Hb Hh Hlc Hrv Hrc].
  destruct (remove_total (id_at (fork_db c) l) (fork_db c)) as [fdb Hfdb]; [apply Hokc..| |].
  { exists base. split; [eapply linked_in; [exact Hlc|by left]|].
    rewrite builds_on_same by done. rewrite Hid. apply Hstay. by left. }
  unfold ctl_fork, set_validity. cbn [negb]. rewrite Hfdb. eexists. split; [reflexivity|].
  assert (Hokf : db_ok fdb) by by eapply remove_keeps_ok.
  apply remove_ok in Hfdb as (Hst & _ & _ & Hin & _ & _ & _); [|apply Hokc].
  assert (Hrem : removed_from l fdb).
  { intros x. rewrite Hin, builds_on_same, Hid by done. by destruct Hsame as (-> & _). }
  assert (Hobj' : same_objects (fork_db c) fdb).
  { intros x. destruct Hst as [Est _]. unfold state_at. by rewrite Est. }
  assert (Hobj2 : same_objects db fdb).
  { intros x. destruct (Hobj x) as [<- <-]. apply Hobj'. }
  split_and!; [split; cbn [fork_db ctl_head chain_db]; try done| |done|done].
  - intros n Hn. cbn [reversible_blocks fork_db ctl_head] in *.
    destruct (same_at _ _ (ctl_head c) Hobj') as (_ & _ & ->). by apply Hb.
  - eapply linked_same; [exact Hobj'| |exact Hlc]. intros x Hx. apply Hrem. split; [|by apply Happ].
    destruct Hsame as (<- & _). by eapply linked_in.
  - destruct (same_at _ _ (ctl_head c) Hobj') as (_ & _ & ->). done.
  - cbn [fork_db]. eapply linked_same; [exact Hobj2| |exact Hlink2]. intros x Hx. apply Hrem.
    split; [by apply (linked_in _ b2 base)|by apply Hstay].
Qed.

Lemma undo_and_restore applied c :
  on_branch db base d0 applied c -> linked (fork_db c) b2 base ->
  forall e, exists c', (undo_branch applied &>
     ctl_assert (fun c => bool_decide (id_at (fork_db c) (ctl_head c) = id_at db base))
       "loss of sync between fork_db and chainbase during fork switch reversal" &>
     restore_branch b2 &> ctl_throw e) c = (c', Err (A := unit) e) /\
    same_blocks (fork_db c) (fork_db c') /\ on_branch db base d0 b2 c' /\ chain_db c' = d2.
Proof.
  intros [Hs Hokc Hb Hh Hlc Hrv Hrc] Hl2 e.
  destruct (undo_branch_ok _ applied base d0 c Hokc Hb Hh Hlc (replayed_same _ _ _ _ _ _ _ Hs Hrc))
    as (c1 & H1 & Hs1 & Hh1 & Hd1 & Hb1).
  unfold ctl_bind at 1. rewrite H1. unfold ctl_bind at 1, ctl_assert.
  assert (Hobj1 : same_objects db (fork_db c1)).
  { intros x. destruct (Hs x) as [<- <-]. by apply same_blocks_objects. }
  rewrite bool_decide_eq_true_2 by (rewrite Hh1; by destruct (same_at _ _ base Hobj1) as (-> & _)).
  cbn [rassert]. assert (Hok1 : db_ok (fork_db c1)) by by eapply same_blocks_ok.
  assert (Hin1 : forall x, x ∈ base :: b2 -> x ∈ index (fork_db c1)).
  { intros x Hx. destruct Hs1 as (-> & _). by eapply linked_in. }
  destruct (restore_branch_ok db base d0 b2 d2 c1) as (c2 & H2 & Hs2 & Hc2 & Hd2).
  - split; try done; [cbn; apply Hin1; by left| |rewrite Hd1; constructor].
    pose proof (replayed_revision _ _ _ _ _ _ Hrc) as Hrd. rewrite Hrv, Hh, (linked_num _ _ _ Hokc Hlc) in Hrd.
    rewrite Hd1, Hh1. destruct (same_at _ _ base (same_blocks_objects _ _ Hs1)) as (_ & _ & ->). lia.
  - eapply linked_same; [by apply same_blocks_objects|exact Hin1|exact Hl2].
  - done.
  - unfold ctl_bind at 1. rewrite H2. unfold ctl_throw. eexists. split; [reflexivity|].
    split_and!; [by eapply same_blocks_trans|done|done].
Qed.

Lemma apply_branch_ok todo : forall applied c,
  on_branch db base d0 applied c -> same_blocks db (fork_db c) ->
  linked db (rev todo ++ applied) base -> (forall x, x ∈ rev todo ++ applied -> x ∉ b2) ->
  exists c' r, apply_branch b2 (id_at db base) todo applied c = (c', r) /\
    match r with
    | Ok _ => on_branch db base d0 (rev todo ++ applied) c' /\ same_blocks db (fork_db c')
    | Err _ => on_branch db base d0 b2 c' /\ chain_db c' = d2 /\
        exists x, x ∈ rev todo ++ applied /\ removed_from x (fork_db c')
    end.
Proof.
  induction todo as [|l todo IH]; intros applied c Hc Hsame Hlink Hdis.
  { exists c, (Ok tt). done. }
  cbn [rev] in *. rewrite <- app_assoc in *. cbn [app] in *.
  assert (Hl : linked db (l :: applied) base) by by eapply linked_app.
  pose proof (same_blocks_objects _ _ Hsame) as Hobj. cbn [linked] in Hl. destruct Hl as (Hin & E & Hla).
  assert (Hinc : l ∈ index (fork_db c)) by (destruct Hsame as (-> & _); done).
  pose proof Hc as [Hs Hokc Hb Hh Hlc Hrvc Hrc]. cbn [apply_branch].
  destruct (apply_block_of_cases l (fun s => if validated s then validated_status else complete_status) c Hokc Hb)
    as [(x & rv & u & Hrun & Ha & Hrv)|(e & u & _ & Ha)]; [rewrite Hh; by apply tip_in|done|by destruct (validated _)|..];
    unfold ctl_bind at 1; rewrite Ha.
  - unfold ctl_bind at 1, set_head. cbn [fork_db chain_db]. set (c1 := Controller _ l _ _ _).
    destruct (mark_total l true c1) as (db' & Hm & Hsame'); [done|done|].
    unfold ctl_bind at 1. rewrite Hm. unfold ctl_fork, set_validity. cbn [negb fork_db].
    unfold c1. cbn [fork_db ctl_head chain_db reversible_blocks unapplied_transactions].
    set (db'' := update_at l _ db').
    assert (Hsame'' : same_blocks (fork_db c) db'').
    { eapply same_blocks_trans; [exact Hsame'|]. split_and!; try done. intros y.
      split; [by apply update_at_state|]. cbn. by destruct (_ =? l)%nat. }
    destruct (IH (l :: applied) (Controller db'' l (update x (start_undo_session (chain_db c))) rv u)) as (c' & r & Hr & Hc').
    + eapply on_branch_step; [exact Hc|done| | |exact Hrun|done|done]; [|destruct (validated _); set_solver].
      destruct (same_at _ _ (tip applied base) Hobj) as (-> & _). by destruct (same_at _ _ l Hobj) as (_ & -> & _).
    + by eapply same_blocks_trans.
    + done.
    + done.
    + exists c', r. split; [exact Hr|]. destruct r; [done|exact Hc'].
  - set (c0 := Controller _ _ _ _ u). assert (Hc0 : on_branch db base d0 applied c0) by by split.
    destruct (remove_failed applied l c0 Hc0 Hsame) as (c1 & H1 & Hc1 & Hl1 & Hrem & _).
    { cbn. by split_and!. }
    { apply Hdis. apply elem_of_app. right. by left. }
    destruct (undo_and_restore applied c1 Hc1 Hl1 e) as (c' & Hc' & Hs' & Hb' & Hd').
    exists c', (Err e). unfold ctl_bind at 1. rewrite H1. split; [exact Hc'|]. split_and!; [done|done|].
    exists l. split; [apply elem_of_app; right; by left|].
    intros x. destruct Hs' as (-> & _). apply Hrem.
Qed.
End branch.

Lemma path_linked db l b p base :
  path db l b p -> base ∈ index db -> id_at db base = p -> linked db b base /\ tip b base = l.
Proof.
  induction 1 as [l p Hl E|l l' b p Hl Hl' E Hp IH]; intros Hb Hid; cbn.
  - split; [|done]. split_and!; [done|congruence|done].
  - destruct (IH Hb Hid) as [Hlk Ht]. split; [|done]. rewrite Ht. by split_and!.
Qed.

Lemma path_ancestor db l b p : path db l b p -> ancestor_of db b = Ok p.
Proof.
  induction 1 as [l p Hl E|l l' b p Hl Hl' E Hp IH]; unfold ancestor_of in *; cbn; [by rewrite E|].
  by destruct Hp.
Qed.


(** A block on top of the head is applied, or removed with what builds on it. *)
Theorem extend_head c s new_head
  (Hreach : fork_reachable header_digest schedule_digest hash_pair recover endian_reverse_u32 (fork_db c))
  (Hhead : ctl_head c ∈ index (fork_db c)) (Hbelow : below_head c)
  (Hrevision : revision (chain_db c) = num_at (fork_db c) (ctl_head c)) (Hsession : skip_db_sessions s = false)
  (Hnew : fork_head (fork_db c) = Some new_head)
  (Hnext : prev_at (fork_db c) new_head = id_at (fork_db c) (ctl_head c)) :
  exists c' r, maybe_switch_forks s c = (c', r) /\
    match r with
    | Ok _ => ctl_head c' = new_head /\ index (fork_db c') = index (fork_db c) /\
        exists x, run_ok (state_at (fork_db c) (ctl_head c)) (block (store (fork_db c) new_head)) s (contents (chain_db c)) x /\
          chain_db c' = update x (start_undo_session (chain_db c))
    | Err _ => ctl_head c' = ctl_head c /\ chain_db c' = chain_db c /\
        removed_from (fork_db c) new_head (fork_db c')
    end.
Proof.
  apply fork_reachable_invariant in Hreach as [Hok (h & Hh & Hin & _)]; [|done].
  assert (h = new_head) as -> by congruence.
  unfold maybe_switch_forks. rewrite Hnew, bool_decide_eq_true_2 by done. unfold ctl_catch.
  destruct (apply_block_of_cases new_head (fun _ => s) c Hok Hbelow Hhead Hrevision Hsession)
    as [(x & rv & u & Hrun & Ha & _)|(e & u & _ & Ha)]; unfold ctl_bind at 1; rewrite Ha.
  - set (c1 := Controller (fork_db c) _ _ _ _). destruct (mark_total new_head true c1) as (db' & Hm & Hs); [done|done|].
    unfold ctl_bind at 1. rewrite Hm. eexists _, (Ok tt). split; [reflexivity|]. cbn. split_and!; [done| |by exists x].
    by destruct Hs as (-> & _).
  - unfold ctl_bind, ctl_fork, set_validity. cbn [negb fork_db].
    destruct (remove_total (id_at (fork_db c) new_head) (fork_db c)) as [fdb Hfdb]; [apply Hok..| |].
    { exists (ctl_head c). split; [done|]. intros Hb. apply builds_num in Hb; [|done|done].
      pose proof (num_link header_digest _ Hrev _ _ _ Hok Hin Hhead (eq_sym Hnext)). lia. }
    rewrite Hfdb. unfold ctl_throw. eexists _, (Err e). split; [reflexivity|]. cbn. split_and!; [done|done|].
    by apply remove_ok in Hfdb as (_ & _ & _ & ? & _); [|apply Hok].
Qed.

(** ** Running a block again.

    Checks only reject: a transaction that passes with some of them gives the same without.  So
    the blocks that were run once can be run again as validated ones, unless checks that were
    skipped for a trusted producer or in light mode are forced for validated blocks. *)
Section run_again.
Context (Hchecks : forall auth chk auth' chk' sessions t cpu p p',
  implb auth auth' = true -> implb chk chk' = true ->
  push_transaction auth chk sessions t cpu p = (p', Ok None) ->
  push_transaction auth' chk' sessions t cpu p = (p', Ok None)).
Context (Hforced : light_mode conf || trusted_producer_light_validation = true ->
  force_all_checks conf = false /\ disable_replay_opts conf = false).

Lemma skips_more st : st ∈ [validated_status; complete_status] ->
  implb (skip_auth_check st) (skip_auth_check validated_status) = true /\
  implb (skip_trx_checks st) (skip_trx_checks validated_status) = true /\
  skip_db_sessions st = skip_db_sessions validated_status.
Proof.
  unfold skip_auth_check, skip_trx_checks, light_validation_allowed.
  destruct (light_mode conf || trusted_producer_light_validation) eqn:E.
  - destruct (Hforced eq_refl) as [-> ->]. by intros [->|[->|[]%elem_of_nil]%elem_of_cons]%elem_of_cons.
  - intros [->|[->|[]%elem_of_nil]%elem_of_cons]%elem_of_cons; cbn;
      destruct (force_all_checks conf), (disable_replay_opts conf); done.
Qed.

Lemma apply_receipts_again st rs : st ∈ [validated_status; complete_status] -> forall p ids p' ids',
  apply_receipts st rs p ids = (p', ids', Ok tt) -> apply_receipts validated_status rs p ids = (p', ids', Ok tt).
Proof.
  intros Hst. destruct (skips_more st Hst) as (Ha & Ht & Hs). induction rs as [|r rs IH]; intros p ids p' ids'; [done|].
  cbn [apply_receipts]. unfold push_receipt_trx. rewrite Hs. destruct r as [rh [t|i]]; cbn [receipt_trx receipt_header].
  - destruct (push_transaction (skip_auth_check st) _ _ _ _ _) as [p1 [[e|]|e]] eqn:E; [|by rewrite (Hchecks _ _ _ _ _ _ _ _ _ Ha Ht E);
      destruct (check_receipt _ _ _); [apply IH|]|done].
    unfold transaction_can_fail. cbn. by rewrite andb_false_r.
  - destruct (push_scheduled_transaction _ _ _ _) as [p1 [[e|]|e]]; [destruct (transaction_can_fail _)| |]; try done;
      (destruct (check_receipt _ _ _); [apply IH|done]).
Qed.

Lemma run_ok_again st head (b : signed_block) x x' :
  st ∈ [validated_status; complete_status] -> run_ok head b st x x' -> run_ok head b validated_status x x'.
Proof.
  intros Hst (He & e & Hr & Hx). split; [done|]. exists e. split; [|done]. unfold run_block in *.
  destruct (start_pending _ _ _ _) as [y [rest|?]]; [|done].
  destruct (apply_receipts st _ _ _) as [[p ids] [[]|?]] eqn:E; [|done]. by rewrite (apply_receipts_again st _ Hst _ _ _ _ E).
Qed.

Theorem runs_again db base d0 b d : run_once db base d0 b d -> again db base d0 b d.
Proof.
  induction 1 as [|l b d1 st x _ IH Hst Hr]; [constructor|]. econstructor; [exact IH|by left|]. by eapply run_ok_again.
Qed.
End run_again.

(** ** A common ancestor that is no longer in the fork database. *)

Lemma get_block_same db db' : same_blocks db db' -> forall i, get_block i db' = get_block i db.
Proof.
  intros Hs i. pose proof (same_blocks_objects _ _ Hs) as Hobj. destruct Hs as (Ei & _).
  unfold get_block. rewrite Ei. clear Ei. induction (index db) as [|y ls IH]; cbn; [done|].
  destruct (same_at _ _ y Hobj) as (-> & _). by rewrite IH.
Qed.

Lemma path_same db db' l b p : same_blocks db db' -> path db l b p -> path db' l b p.
Proof.
  intros Hs. pose proof (same_blocks_objects _ _ Hs) as Hobj. destruct Hs as (Ei & _).
  induction 1 as [l p Hl E|l l' b p Hl Hl' E Hp IH]; destruct (same_at _ _ l Hobj) as (_ & El & _).
  - apply path_last; [by rewrite Ei|congruence].
  - eapply path_step; [by rewrite Ei|by rewrite Ei| |exact IH]. destruct (same_at _ _ l' Hobj) as (-> & _). congruence.
Qed.

(** The blocks of a branch are popped down to the one whose ancestor is missing. *)
Lemma undo_branch_stuck b : forall l c p,
  db_ok (fork_db c) -> path (fork_db c) l b p -> ctl_head c = l -> get_block p (fork_db c) = None ->
  exists c' oldest, undo_branch b c = (c', Err "attempt to pop beyond last irreversible block") /\
    last b = Some oldest /\ same_blocks (fork_db c) (fork_db c') /\ ctl_head c' = oldest /\
    chain_db c' = Nat.iter (pred (length b)) undo (chain_db c).
Proof.
  induction b as [|l0 b IH]; intros l c p Hok Hp Hh Hnone; [inversion Hp|].
  assert (Hl : l ∈ index (fork_db c)) by by inversion Hp.
  assert (l0 = l) as -> by by inversion Hp.
  destruct (mark_total l false c Hok Hl) as (db' & Hm & Hsame). pose proof (same_blocks_objects _ _ Hsame) as Hobj.
  pose proof (same_blocks_ok _ _ Hsame Hok) as Hok'. destruct (same_at _ _ l Hobj) as (_ & Hpl & _).
  pose proof (get_block_same _ _ Hsame) as Hgb.
  unfold undo_branch. cbn [for_each]. unfold ctl_bind at 1 2. rewrite Hm. unfold pop_block at 1. cbn [fork_db ctl_head].
  rewrite Hh, Hpl, Hgb. inversion Hp as [? ? _ E|? l' ? ? _ Hl' E Hp']; subst.
  - rewrite Hnone. eexists _, _. split; [reflexivity|]. by split_and!.
  - rewrite <- E, get_block_at by (done || apply Hok). set (c1 := Controller db' l' _ _ _).
    destruct (IH l' c1 p) as (c' & o & Hu & Hlast & Hs' & Hh' & Hd').
    + done.
    + by eapply path_same.
    + done.
    + unfold c1. cbn [fork_db]. by rewrite Hgb.
    + exists c', o. split_and!; [exact Hu| |by eapply same_blocks_trans|done|].
      * destruct Hp'; cbn in *; done.
      * rewrite Hd'. unfold c1. cbn [chain_db length pred]. destruct b; [inversion Hp'|].
        cbn [length pred]. by rewrite Nat.iter_succ_r.
Qed.

Lemma path_first db l b p : path db l b p -> l ∈ b.
Proof. destruct 1; by left. Qed.

Lemma path_next db l b p :
  path db l b p -> prev_at db l = p \/ exists l', l' ∈ b /\ l' ∈ index db /\ id_at db l' = prev_at db l.
Proof.
  destruct 1 as [l p Hl E|l l' b p Hl Hl' E Hp]; [by left|right]. exists l'. split_and!; try done.
  right. by eapply path_first.
Qed.

Lemma path_ends db l b p oldest :
  path db l b p -> last b = Some oldest -> oldest ∈ b /\ oldest ∈ index db /\ prev_at db oldest = p.
Proof.
  induction 1 as [l p Hl E|l l' b p Hl Hl' E Hp IH]; cbn.
  - intros [= <-]. split; [by left|done].
  - intros H. destruct IH as (? & ? & ?); [by destruct Hp|]. split; [by right|done].
Qed.

(** One attempt: the blocks above the missing ancestor are popped but one. *)
Lemma switch_stuck c s new_head b1 b2 p :
  db_ok (fork_db c) -> fork_head (fork_db c) = Some new_head ->
  prev_at (fork_db c) new_head <> id_at (fork_db c) (ctl_head c) ->
  id_at (fork_db c) new_head <> id_at (fork_db c) (ctl_head c) ->
  fetch_branch_from (id_at (fork_db c) new_head) (id_at (fork_db c) (ctl_head c)) (fork_db c) = Ok (b1, b2) ->
  path (fork_db c) (ctl_head c) b2 p -> get_block p (fork_db c) = None ->
  exists c' oldest, maybe_switch_forks s c = (c', Err "attempt to pop beyond last irreversible block") /\
    last b2 = Some oldest /\ same_blocks (fork_db c) (fork_db c') /\ ctl_head c' = oldest /\
    chain_db c' = Nat.iter (pred (length b2)) undo (chain_db c).
Proof.
  intros Hok Hnew Hnext Hother Hf P2 Hnone.
  destruct (undo_branch_stuck b2 _ c p Hok P2 eq_refl Hnone) as (c' & o & Hu & Hrest). exists c', o. split; [|exact Hrest].
  unfold maybe_switch_forks. rewrite Hnew, bool_decide_eq_false_2, bool_decide_eq_true_2 by done.
  rewrite Hf, (path_ancestor _ _ _ _ P2). unfold ctl_bind at 1. by rewrite Hu.
Qed.

(** Where the block both branches build on has been pruned, a switch pops the blocks of the old
    branch down to the last one and throws; the node is then on neither branch, and every further
    attempt throws again and changes nothing. *)
Theorem switch_beyond_irreversible c s new_head b1 b2 p oldest
  (Hreach : fork_reachable header_digest schedule_digest hash_pair recover endian_reverse_u32 (fork_db c))
  (Hhead : ctl_head c ∈ index (fork_db c))
  (Hnew : fork_head (fork_db c) = Some new_head)
  (Hnext : prev_at (fork_db c) new_head <> id_at (fork_db c) (ctl_head c))
  (Hother : id_at (fork_db c) new_head <> id_at (fork_db c) (ctl_head c))
  (Hbranches : fetch_branch_from (id_at (fork_db c) new_head) (id_at (fork_db c) (ctl_head c)) (fork_db c) = Ok (b1, b2))
  (Hfork : forall x, x ∈ b1 -> x ∉ b2)
  (Hancestor : ancestor_of (fork_db c) b2 = Ok p) (Hpruned : get_block p (fork_db c) = None)
  (Holdest : last b2 = Some oldest) :
  exists c', maybe_switch_forks s c = (c', Err "attempt to pop beyond last irreversible block") /\
    ctl_head c' = oldest /\ chain_db c' = Nat.iter (pred (length b2)) undo (chain_db c) /\
    forall s', exists c'', maybe_switch_forks s' c' = (c'', Err "attempt to pop beyond last irreversible block") /\
      ctl_head c'' = oldest /\ chain_db c'' = chain_db c'.
Proof.
  apply fork_reachable_invariant in Hreach as [Hok (h & Hh & Hin & _)]; [|done].
  assert (h = new_head) as -> by congruence.
  destruct (fetch_branch_ok _ _ Hrev _ _ _ Hok Hin Hhead) as (b1' & b2' & p' & Hf & P1 & P2 & _).
  rewrite Hbranches in Hf. injection Hf as <- <-.
  pose proof (path_ancestor _ _ _ _ P2) as Ep. rewrite Hancestor in Ep. injection Ep as <-.
  destruct (path_ends _ _ _ _ _ P2 Holdest) as (Ho2 & Hoin & Hop).
  destruct (switch_stuck c s new_head b1 b2 p Hok Hnew Hnext Hother Hbranches P2 Hpruned)
    as (c' & o & Hs & Ho & Hsame & Hh' & Hd'). rewrite Holdest in Ho. injection Ho as <-.
  exists c'. split_and!; [done..|]. intros s'.
  pose proof (same_blocks_objects _ _ Hsame) as Hobj. pose proof (same_blocks_ok _ _ Hsame Hok) as Hok'.
  destruct (same_at _ _ new_head Hobj) as (In & Pn & _). destruct (same_at _ _ oldest Hobj) as (Io & Po & _).
  assert (Hin' : new_head ∈ index (fork_db c')) by (destruct Hsame as (-> & _); done).
  assert (Hoin' : oldest ∈ index (fork_db c')) by (destruct Hsame as (-> & _); done).
  assert (Hno : get_block p (fork_db c') = None) by (rewrite (get_block_same _ _ Hsame); done).
  destruct (fetch_branch_ok _ _ Hrev _ _ _ Hok' Hin' Hoin') as (c1 & c2 & q & Hf & _ & Q2 & _).
  assert (c2 = [oldest] /\ q = p) as [-> ->].
  { inversion Q2 as [? ? _ E|? l' ? ? _ Hl' E Hp']; [split; [done|congruence]|].
    destruct (proj1 (get_block_None _ _) Hno l' Hl'). congruence. }
  destruct (switch_stuck c' s' new_head c1 [oldest] p Hok') as (c'' & o' & Hs' & Ho' & _ & Hh'' & Hd'').
  - by destruct Hsame as (_ & -> & _).
  - rewrite Hh', Pn, Io. intros E. destruct (path_next _ _ _ _ P1) as [E1|(l' & Hl1 & Hl' & E1)].
    + apply (proj1 (get_block_None _ _) Hpruned oldest Hoin). congruence.
    + apply (Hfork l' Hl1). rewrite E in E1. by apply (ok_unique _ _ _ Hok) in E1 as ->.
  - rewrite Hh', In, Io. intros E. apply (ok_unique _ _ _ Hok) in E; [|done|done].
    apply (Hfork new_head); [by eapply path_first|by rewrite E].
  - by rewrite Hh'.
  - by rewrite Hh'.
  - done.
  - injection Ho' as <-. exists c''. by split_and!.
Qed.
End switching.
End fork_switch.

(** ** Concrete switches.

    The database keeps its contents, those before each open session, and the revision.  The
    contents are the transactions that were run and the slots of the blocks; a transaction has
    the number under which it is kept, and the one called bad fails. *)
#[global] Program Instance stack_base {X} : Chainbase (X * list X * Z) X := {|
  contents := fun d => d.1.1;
  update := fun x d => (x, d.1.2, d.2);
  start_undo_session := fun d => (d.1.1, d.1.1 :: d.1.2, d.2 + 1);
  undo := fun d => match d.1.2 with [] => d | x :: xs => (x, xs, d.2 - 1) end;
  revision := fun d => d.2;
|}.
Next Obligation. done. Qed.
Next Obligation. done. Qed.
Next Obligation. intros X x [[y ys] r]. cbn. do 2 f_equal. lia. Qed.
Next Obligation. done. Qed.
Next Obligation. done. Qed.

Abbreviation sw_body := (block_body (trx := Z)).
Abbreviation sw_block := (signed_block (key := Z) (signature := Z) (payload := sw_body)).
Abbreviation sw_database := (fork_database (key := Z) (signature := Z) (payload := sw_body) (trx := Z)).
Abbreviation sw_pending := (pending_state (trx := Z) (X := list Z) (P := digest_type)).

Definition sw_start (head : ex_state) (when _ : Z) (x : list Z) : list Z * result digest_type :=
  (when :: x, Ok (fx_id (block_num head + 1) when)).
Definition sw_push (bad : Z) (_ _ _ : bool) (t cpu : Z) (p : sw_pending) : sw_pending * result (option string) :=
  if t =? bad then (p, Ok (Some "bad transaction"))
  else (Pending (t :: p_db p) (p_receipts p ++ [ReceiptHeader executed cpu 0]) (p_trxs p ++ [t]) (p_rest p), Ok None).
Definition sw_scheduled (_ : bool) (_ : digest_type) (_ : Z) (p : sw_pending) : sw_pending * result (option string) :=
  (p, Err "unknown transaction").
Definition sw_finalize (p : sw_pending) : list Z * result digest_type := (p_db p, Ok (p_rest p)).
Definition sw_conf : checks_config := ChecksConfig false false false.

(** The block in the slot [slot] with one transaction, which has the number [100 + slot]. *)
Definition sw_on (prev : digest_type) (slot prod n : Z) : sw_block :=
  SignedBlock (ex_header slot prod n 1 prev)
    (BlockBody [TransactionReceipt (ReceiptHeader executed 200 0) (PackedTrx (100 + slot))] []).

Abbreviation sw_add_block := (add_block fx_digest ex_digest ex_digest ex_recover byte_swap).
Abbreviation sw_reachable := (fork_reachable fx_digest ex_digest ex_digest ex_recover byte_swap (payload := sw_body) (trx := Z)).

Definition sw_empty : sw_database :=
  ForkDatabase (fun _ => BlockStateOf fx_start_state (sw_on (fx_id 9 8) 11 4 0) true false []) 1 [] None [].
Definition sw_ok (r : result sw_database) : sw_database := match r with Ok db => db | Err _ => sw_empty end.
Definition sw_started : sw_database := sw_ok (set_block fx_digest byte_swap 0%nat sw_empty).
Definition sw_add (db : sw_database) (b : sw_block) : sw_database := sw_ok (sw_add_block b false db).

Lemma sw_ok_eq r : is_ok r = true -> r = Ok (sw_ok r).
Proof. by destruct r. Qed.

Lemma sw_started_reachable : sw_reachable sw_started.
Proof.
  eapply (fork_started _ _ _ _ _ sw_empty 0%nat); [done|done|cbn; lia|exact fx_start_ok|]. by apply sw_ok_eq.
Qed.

Lemma sw_step b db :
  sw_reachable db -> forallb (fun l => num_at db l <? 100) (index db) = true ->
  is_ok (sw_add_block b false db) = true -> sw_reachable (sw_add db b).
Proof.
  intros Hr Hn Hb. eapply (fork_added_block _ _ _ _ _ db b false); [done| |by apply sw_ok_eq].
  intros l Hl. apply list_elem_of_In in Hl. eapply forallb_forall in Hn; [|exact Hl]. apply Z.ltb_lt in Hn. lia.
Qed.

(** Producer 1 makes two blocks that come too late for producer 2, who also builds on the block
    10; the others follow producer 2. *)
Definition sw_a11 := sw_on (fx_id 10 11) 12 1 0.
Definition sw_a12 := sw_on (fx_id 11 12) 13 1 0.
Definition sw_b11 := sw_on (fx_id 10 11) 15 2 0.
Definition sw_b12 := sw_on (fx_id 11 15) 18 3 1.
Definition sw_b13 := sw_on (fx_id 12 18) 21 4 2.
Definition sw_db : sw_database := foldl sw_add sw_started [sw_a11; sw_a12; sw_b11; sw_b12; sw_b13].

Lemma sw_reachable_db : sw_reachable sw_db.
Proof.
  unfold sw_db. cbn [foldl]. repeat (apply sw_step; [|by vm_compute|by vm_compute]). exact sw_started_reachable.
Qed.

Definition sw_base : list Z * list (list Z) * Z := ([11], [], 10).
Definition sw_node : controller (D := list Z * list (list Z) * Z) :=
  Controller sw_db 2%nat ([113; 13; 112; 12; 11], [[112; 12; 11]; [11]], 12) {[11 := sw_a11; 12 := sw_a12]} ∅.

Abbreviation sw_switch bad node :=
  (maybe_switch_forks fx_digest byte_swap sw_start (sw_push bad) sw_scheduled sw_finalize (fun _ => false) (fun t : Z => t)
     SPECULATIVE false sw_conf false complete_status node).
Abbreviation sw_replayed bad sts :=
  (replayed fx_digest byte_swap sw_start (sw_push bad) sw_scheduled sw_finalize (fun _ => false) (fun t : Z => t) sw_conf false sts).

(** A bad transaction in the second block of the new branch: the old one is back, and only the
    block before the bad one is left of the new. *)
Lemma sw_bad_block :
  let (c, r) := sw_switch 118 sw_node in
  r = Err "bad transaction" /\ ctl_head c = 2%nat /\ chain_db c = chain_db sw_node /\ index (fork_db c) = [0; 1; 2; 3]%nat.
Proof. by vm_compute. Qed.

Lemma sw_sync : sw_replayed 0 [validated_status] sw_db 0%nat sw_base [2; 1]%nat (chain_db sw_node).
Proof.
  change (chain_db sw_node)
    with (update [113; 13; 112; 12; 11] (start_undo_session (update [112; 12; 11] (start_undo_session sw_base)))).
  eapply replayed_cons; [|by left|split; [by vm_compute|eexists; split; by vm_compute]].
  eapply replayed_cons; [constructor|by left|split; [by vm_compute|eexists; split; by vm_compute]].
Qed.


(** Producer 1 goes on alone for two rounds, and makes six blocks.  The three others make two
    blocks each; the last of these six makes the block 11 of their branch irreversible, and the
    fork database forgets the block 10, on which both branches build. *)
Definition sw_alone : list sw_block :=
  [sw_a11; sw_a12; sw_on (fx_id 12 13) 14 1 0; sw_on (fx_id 13 14) 24 1 0; sw_on (fx_id 14 24) 25 1 0; sw_on (fx_id 15 25) 26 1 0].
Definition sw_others : list sw_block :=
  [sw_b11; sw_b12; sw_b13; sw_on (fx_id 13 21) 27 2 2; sw_on (fx_id 14 27) 30 3 2; sw_on (fx_id 15 30) 33 4 2].
Definition sw_pruned : sw_database := foldl sw_add sw_started (sw_alone ++ sw_others).

Lemma sw_pruned_reachable : sw_reachable sw_pruned.
Proof.
  unfold sw_pruned, sw_alone, sw_others. cbn [foldl app].
  repeat (apply sw_step; [|by vm_compute|by vm_compute]). exact sw_started_reachable.
Qed.

(** A node on the block 16 of producer 1; the contents are the numbers of the blocks. *)
Definition sw_minority : controller (D := list Z * list (list Z) * Z) :=
  Controller sw_pruned 6%nat ([16], [[15]; [14]; [13]; [12]; [11]; [10]], 16) ∅ ∅.

Lemma switch_beyond_irreversible_witness :
  exists c', sw_switch 0 sw_minority = (c', Err "attempt to pop beyond last irreversible block") /\
    ctl_head c' = 1%nat /\ chain_db c' = ([11], [[10]], 11) /\
    forall s', exists c'',
      maybe_switch_forks fx_digest byte_swap sw_start (sw_push 0) sw_scheduled sw_finalize (fun _ => false) (fun t : Z => t)
        SPECULATIVE false sw_conf false s' c' = (c'', Err "attempt to pop beyond last irreversible block") /\
      ctl_head c'' = 1%nat /\ chain_db c'' = chain_db c'.
Proof.
  change ([11], [[10]], 11) with (Nat.iter (pred (length [6; 5; 4; 3; 2; 1]%nat)) undo (chain_db sw_minority)).
  apply (switch_beyond_irreversible fx_digest ex_digest ex_digest ex_recover byte_swap sw_start (sw_push 0) sw_scheduled sw_finalize
           (fun _ => false) (fun t : Z => t) SPECULATIVE false sw_conf false byte_swap_reverses sw_minority complete_status 12%nat
           [12; 11; 10; 9; 8; 7]%nat [6; 5; 4; 3; 2; 1]%nat (fx_id 10 11) 1%nat sw_pruned_reachable).
  - apply (bool_decide_unpack _). by vm_compute.
  - by vm_compute.
  - by vm_compute.
  - by vm_compute.
  - by vm_compute.
  - intros x Hx Hx'. rewrite !elem_of_cons in Hx, Hx'. set_solver by lia.
  - by vm_compute.
  - by vm_compute.
  - done.
Defined.
