(* ===== verification/Resources.v ===== *)
(** * Resource limits.

    [resource_limits.cpp] and [resource_limits_private.hpp]: the usage of accounts and of
    blocks as exponential moving averages, the limits that follow from the weights of the
    accounts, and the guaranteed minimum of every account.  The rows of other components
    that the limit of memory depends on, the stakes of [vote4ram] and the configuration on
    the chain, are part of the state. *)
From stdpp Require Import base gmap list sorting strings.
From Stdlib Require Import ZArith Lia.
From S2P Require Import Prelude Name Runtime NativeActions.

Open Scope Z_scope.

(** ** Configuration. *)
Definition rate_limiting_precision : Z := 1000 * 1000.
Definition percent_100 : Z := 10000.
Definition EOS_PERCENT (value percentage : Z) : Z := u64 (value * percentage) / percent_100.
Definition bios_account_name : Z := Eval vm_compute in N_ "force.bios".

(** ** Arithmetic. *)
Record ratio := Ratio { numerator : Z; denominator : Z }.

(** [value * ratio], for [uint64_t]. *)
Definition ratio_mul (value : Z) (r : ratio) : result Z :=
  (check* (numerator r =? 0) || (value <=? (2 ^ 64 - 1) / numerator r)
     with "Usage exceeds maximum value representable after extending for precision" in
   check* negb (denominator r =? 0) with "division by zero" in
   Ok (u64 (value * numerator r) / denominator r))%res.

Definition integer_divide_ceil (num den : Z) : Z := num / den + (if 0 <? num mod den then 1 else 0).

(** [downgrade_cast] from [uint128_t]. *)
Definition downgrade_cast (max val : Z) : result Z :=
  (check* (0 <=? val) && (val <=? max)
     with "Casting a higher bit integer value to a lower bit integer value which cannot contain the value" in
   Ok val)%res.

(** ** Moving averages. *)
Record accumulator := Accumulator {
  last_ordinal : Z;
  value_ex : Z;
  consumed : Z;
}.

Definition empty_accumulator : accumulator := Accumulator 0 0 0.
Definition max_raw_value : Z := (2 ^ 64 - 1) / rate_limiting_precision.

Definition average (a : accumulator) : Z := integer_divide_ceil (value_ex a) rate_limiting_precision.

(** What is left of the average at a later period. *)
Definition decayed (ordinal window_size : Z) (a : accumulator) : result Z :=
  if ordinal <? last_ordinal a + window_size
  then ratio_mul (value_ex a) (Ratio (window_size - (ordinal - last_ordinal a)) window_size)
  else Ok 0.

Definition add (units ordinal window_size : Z) (a : accumulator) : result accumulator :=
  (check* (units <=? max_raw_value)
     with "Usage exceeds maximum value representable after extending for precision" in
   check* (units <=? 2 ^ 64 - 1 - consumed a) with "Overflow in tracked usage when adding usage!" in
   check* negb (window_size =? 0) with "division by zero" in
   let* value_ex_contrib :=
     downgrade_cast (2 ^ 64 - 1) (integer_divide_ceil (u128 (units * rate_limiting_precision)) window_size) in
   check* (value_ex_contrib <=? 2 ^ 64 - 1 - value_ex a)
     with "Overflow in accumulated value when adding usage!" in
   let* a :=
     if negb (last_ordinal a =? ordinal) then
       check* (last_ordinal a <? ordinal) with "new ordinal cannot be less than the previous ordinal" in
       let* v := decayed ordinal window_size a in
       Ok (Accumulator ordinal v (average (Accumulator ordinal v (consumed a))))
     else Ok a in
   Ok (Accumulator (last_ordinal a) (u64 (value_ex a + value_ex_contrib)) (u64 (consumed a + units))))%res.

(** ** Objects. *)
Record elastic_limit_parameters := ElasticLimitParameters {
  target : Z;
  max : Z;
  periods : Z;
  max_multiplier : Z;
  contract_rate : ratio;
  expand_rate : ratio;
}.

Record gmr_parameters := GmrParameters { ram_byte : Z; cpu_us : Z; net_byte : Z }.

Record account_resource_limit := AccountResourceLimit { used : Z; available : Z; limit_max : Z }.

Record resource_limits_object := ResourceLimits { net_weight : Z; cpu_weight : Z; ram_bytes : Z }.

Record resource_usage_object := ResourceUsage {
  net_usage : accumulator;
  cpu_usage : accumulator;
  ram_usage : Z;
}.

Record resource_limits_config := ResourceConfig {
  cpu_limit_parameters : elastic_limit_parameters;
  net_limit_parameters : elastic_limit_parameters;
  account_cpu_usage_average_window : Z;
  account_net_usage_average_window : Z;
}.

Record resource_limits_state := ResourceState {
  average_block_net_usage : accumulator;
  average_block_cpu_usage : accumulator;
  pending_net_usage : Z;
  pending_cpu_usage : Z;
  total_net_weight : Z;
  total_cpu_weight : Z;
  total_ram_bytes : Z;
  virtual_net_limit : Z;
  virtual_cpu_limit : Z;
}.

(** The objects of the database: the limits of accounts, those to come into force, and the
    usage; and the rows read of the system contract and of the configuration. *)
Record resource_db := ResourceDb {
  limits : gmap Z resource_limits_object;
  pending_limits : gmap Z resource_limits_object;
  usages : gmap Z resource_usage_object;
  rl_config : resource_limits_config;
  gmr : gmr_parameters;
  rl_state : resource_limits_state;
  vote4ramsum : gmap Z Z;
  ram_rent_b_per_eos : option Z;
}.
Implicit Types (db : resource_db) (account : Z).

Definition with_limits l p db : resource_db :=
  ResourceDb l p (usages db) (rl_config db) (gmr db) (rl_state db) (vote4ramsum db) (ram_rent_b_per_eos db).
Definition with_usages u db : resource_db :=
  ResourceDb (limits db) (pending_limits db) u (rl_config db) (gmr db) (rl_state db) (vote4ramsum db)
    (ram_rent_b_per_eos db).
Definition with_config c db : resource_db :=
  ResourceDb (limits db) (pending_limits db) (usages db) c (gmr db) (rl_state db) (vote4ramsum db)
    (ram_rent_b_per_eos db).
Definition with_gmr g db : resource_db :=
  ResourceDb (limits db) (pending_limits db) (usages db) (rl_config db) g (rl_state db) (vote4ramsum db)
    (ram_rent_b_per_eos db).
Definition with_state s db : resource_db :=
  ResourceDb (limits db) (pending_limits db) (usages db) (rl_config db) (gmr db) s (vote4ramsum db)
    (ram_rent_b_per_eos db).

(** ** Elastic limits. *)
Definition update_elastic_limit (current_limit average_usage : Z) (params : elastic_limit_parameters) : result Z :=
  (let* r :=
     if target params <? average_usage
     then ratio_mul current_limit (contract_rate params)
     else ratio_mul current_limit (expand_rate params) in
   Ok (Z.min (Z.max r (max params)) (u64 (max params * max_multiplier params))))%res.

Definition validate_elastic (p : elastic_limit_parameters) : result unit :=
  (check* (0 <? periods p) with "elastic limit parameter 'periods' cannot be zero" in
   check* (0 <? denominator (contract_rate p))
     with "elastic limit parameter 'contract_rate' is not a well-defined ratio" in
   check* (0 <? denominator (expand_rate p))
     with "elastic limit parameter 'expand_rate' is not a well-defined ratio" in Ok tt)%res.

Definition validate_gmr (p : gmr_parameters) : result unit :=
  (check* (0 <? cpu_us p) with "guaranteed minmum resources parameter 'cpu_us' cannot be zero" in
   check* (0 <? net_byte p) with "guaranteed minmum resources parameter 'net_byte' cannot be zero" in
   check* (0 <=? ram_byte p) with "guaranteed minmum resources parameter'ram_byte' cannot be less than zero" in
   Ok tt)%res.

(** ** The database. *)
Definition default_cpu_parameters : elastic_limit_parameters :=
  ElasticLimitParameters (EOS_PERCENT 1000000 1000) 1000000 60 1000 (Ratio 99 100) (Ratio 1000 999).
Definition default_net_parameters : elastic_limit_parameters :=
  ElasticLimitParameters (EOS_PERCENT 1048576 1000) 1048576 60 1000 (Ratio 99 100) (Ratio 1000 999).
Definition default_config : resource_limits_config :=
  ResourceConfig default_cpu_parameters default_net_parameters 86400 86400.
Definition default_gmr : gmr_parameters := GmrParameters 8192 200000 10240.

Definition initialize_database (stakes : gmap Z Z) (rent : option Z) : resource_db :=
  ResourceDb ∅ ∅ ∅ default_config default_gmr
    (ResourceState empty_accumulator empty_accumulator 0 0 0 0 0 (max default_net_parameters) (max default_cpu_parameters))
    stakes rent.

Definition set_gmr_parameters (res_parameters : gmr_parameters) db : result resource_db :=
  (let* _ := validate_gmr res_parameters in Ok (with_gmr res_parameters db))%res.

Definition initialize_account account db : result resource_db :=
  (check* bool_decide (limits db !! account = None) with "could not insert object" in
   check* bool_decide (usages db !! account = None) with "could not insert object" in
   Ok (with_usages (<[account := ResourceUsage empty_accumulator empty_accumulator 0]> (usages db))
         (with_limits (<[account := ResourceLimits (-1) (-1) (-1)]> (limits db)) (pending_limits db) db)))%res.

Definition set_block_parameters (cpu net : elastic_limit_parameters) db : result resource_db :=
  (let* _ := validate_elastic cpu in
   let* _ := validate_elastic net in
   let c := rl_config db in
   Ok (with_config (ResourceConfig cpu net (account_cpu_usage_average_window c)
                      (account_net_usage_average_window c)) db))%res.

(** ** Limits of accounts. *)
Definition get_account_ram_limit account db : Z :=
  let init_ram_size := i64 (ram_byte (gmr db)) in
  if (account =? config.system_account_name) || (account =? config.token_account_name)
     || (account =? msig_account_name) || (account =? bios_account_name) || (account =? relay_account_name)
  then -1 else
  match vote4ramsum db !! account with
  | None => init_ram_size
  | Some staked =>
      let ram_rent := default 10240 (ram_rent_b_per_eos db) in
      i64 (Z.quot (i64 (staked * ram_rent)) 1000000 + init_ram_size)
  end.

(** The bytes of memory, the weight of the network and that of the processor. *)
Definition get_account_limits account db : result (Z * Z * Z) :=
  match pending_limits db !! account with
  | Some p => Ok (get_account_ram_limit account db, net_weight p, cpu_weight p)
  | None =>
      (let* buo := of_option (limits db !! account) "unknown key" in
       Ok (get_account_ram_limit account db, net_weight buo, cpu_weight buo))%res
  end.

(** [set_account_limits]: also whether the limit of memory goes down. *)
Definition set_account_limits account (ram net cpu : Z) db : result (bool * resource_db) :=
  (let* old := match pending_limits db !! account with
               | Some p => Ok p
               | None => of_option (limits db !! account) "unknown key"
               end in
   let decreased_limit := (0 <=? ram) && ((ram_bytes old <? 0) || (ram <? ram_bytes old)) in
   Ok (decreased_limit,
       with_limits (limits db) (<[account := ResourceLimits net cpu ram]> (pending_limits db)) db))%res.

(** The total of a resource when the value of an account changes. *)
Definition update_state_and_value (total value pending_value : Z) : result Z :=
  (let* total :=
     if 0 <? value then
       check* (value <=? total) with "underflow when reverting old value" in Ok (total - value)
     else Ok total in
   if 0 <? pending_value then
     check* (pending_value <=? 2 ^ 64 - 1 - total) with "overflow when applying new value" in
     Ok (total + pending_value)
   else Ok total)%res.

Definition process_pending db (owner : Z) : result resource_db :=
  (let* itr := of_option (pending_limits db !! owner) "no pending limits" in
   let* rlo := of_option (limits db !! owner) "unknown key" in
   let s := rl_state db in
   let* ram := update_state_and_value (total_ram_bytes s) (ram_bytes rlo) (ram_bytes itr) in
   let* cpu := update_state_and_value (total_cpu_weight s) (cpu_weight rlo) (cpu_weight itr) in
   let* net := update_state_and_value (total_net_weight s) (net_weight rlo) (net_weight itr) in
   Ok (with_state (ResourceState (average_block_net_usage s) (average_block_cpu_usage s) (pending_net_usage s)
                     (pending_cpu_usage s) net cpu ram (virtual_net_limit s) (virtual_cpu_limit s))
         (with_limits (<[owner := itr]> (limits db)) (delete owner (pending_limits db)) db)))%res.

(** All pending limits, in the order of their owners. *)
Definition process_account_limit_updates db : result resource_db :=
  rfold process_pending db (sorted_keys (pending_limits db)).

(** ** Usage. *)
Definition modify_usage account (f : resource_usage_object -> result resource_usage_object) db : result resource_db :=
  (let* u := of_option (usages db !! account) "unknown key" in
   let* u := f u in
   Ok (with_usages (<[account := u]> (usages db)) db))%res.

Definition add_usage (cpu net time_slot : Z) db (u : resource_usage_object) : result resource_usage_object :=
  (let* n := add net time_slot (account_net_usage_average_window (rl_config db)) (net_usage u) in
   let* c := add cpu time_slot (account_cpu_usage_average_window (rl_config db)) (cpu_usage u) in
   Ok (ResourceUsage n c (ram_usage u)))%res.

Definition update_account_usage (accounts : list Z) (time_slot : Z) db : result resource_db :=
  rfold (fun db a => modify_usage a (add_usage 0 0 time_slot db) db) db accounts.

(** The most an account may use in a window, besides what it is guaranteed. *)
Definition max_user_use (virtual_limit window_size weight total : Z) : Z :=
  u128 (u128 (virtual_limit * window_size) * weight) / total.

Definition used_in_window (v window_size : Z) : Z := u128 (v * window_size) / rate_limiting_precision.

Definition check_cpu (cpu_weight : Z) (u : resource_usage_object) db : result unit :=
  let s := rl_state db in
  if (0 <=? cpu_weight) && (0 <? total_cpu_weight s) then
    let window_size := account_cpu_usage_average_window (rl_config db) in
    rassert (used_in_window (value_ex (cpu_usage u)) window_size
             <=? u128 (max_user_use (virtual_cpu_limit s) window_size cpu_weight (total_cpu_weight s) + cpu_us (gmr db)))
      "authorizing account has insufficient cpu resources for this transaction"
  else Ok tt.

(** The guaranteed minimum is that of the processor here, too. *)
Definition check_net (net_weight : Z) (u : resource_usage_object) db : result unit :=
  let s := rl_state db in
  if (0 <=? net_weight) && (0 <? total_net_weight s) then
    let window_size := account_net_usage_average_window (rl_config db) in
    rassert (used_in_window (value_ex (net_usage u)) window_size
             <=? u128 (max_user_use (virtual_net_limit s) window_size net_weight (total_net_weight s) + cpu_us (gmr db)))
      "authorizing account has insufficient net resources for this transaction"
  else Ok tt.

Definition charge_account (cpu net time_slot : Z) db (a : Z) : result resource_db :=
  (let* u := of_option (usages db !! a) "unknown key" in
   let* (_, nw, cw) := get_account_limits a db in
   let* u := add_usage cpu net time_slot db u in
   let db := with_usages (<[a := u]> (usages db)) db in
   let* _ := check_cpu cw u db in
   let* _ := check_net nw u db in
   Ok db)%res.

Definition add_transaction_usage (accounts : list Z) (cpu net time_slot : Z) db : result resource_db :=
  (let* db := rfold (charge_account cpu net time_slot) db accounts in
   let s := rl_state db in
   let s := ResourceState (average_block_net_usage s) (average_block_cpu_usage s)
              (u64 (pending_net_usage s + net)) (u64 (pending_cpu_usage s + cpu)) (total_net_weight s)
              (total_cpu_weight s) (total_ram_bytes s) (virtual_net_limit s) (virtual_cpu_limit s) in
   check* (pending_cpu_usage s <=? max (cpu_limit_parameters (rl_config db)))
     with "Block has insufficient cpu resources" in
   check* (pending_net_usage s <=? max (net_limit_parameters (rl_config db)))
     with "Block has insufficient net resources" in
   Ok (with_state s db))%res.

Definition add_pending_ram_usage account (ram_delta : Z) db : result resource_db :=
  if ram_delta =? 0 then Ok db else
  (let* u := of_option (usages db !! account) "unknown key" in
   check* (ram_delta <=? 0) || (ram_delta <=? 2 ^ 64 - 1 - ram_usage u)
     with "Ram usage delta would overflow UINT64_MAX" in
   check* (0 <=? ram_delta) || (u64 (i64 (- ram_delta)) <=? ram_usage u)
     with "Ram usage delta would underflow UINT64_MAX" in
   Ok (with_usages (<[account := ResourceUsage (net_usage u) (cpu_usage u) (u64 (ram_usage u + ram_delta))]>
                      (usages db)) db))%res.

Definition verify_account_ram_usage account db : result unit :=
  (let* (ram, _, _) := get_account_limits account db in
   let* u := of_option (usages db !! account) "unknown key" in
   if 0 <=? ram then rassert (ram_usage u <=? ram) "account has insufficient ram" else Ok tt)%res.

Definition get_account_ram_usage account db : result Z :=
  (let* u := of_option (usages db !! account) "unknown key" in Ok (i64 (ram_usage u)))%res.

(** ** Blocks. *)
Definition process_block_usage (block_num : Z) db : result resource_db :=
  let s := rl_state db in
  let c := rl_config db in
  (let* avg_cpu := add (pending_cpu_usage s) block_num (periods (cpu_limit_parameters c)) (average_block_cpu_usage s) in
   let* cpu := update_elastic_limit (virtual_cpu_limit s) (average avg_cpu) (cpu_limit_parameters c) in
   let* avg_net := add (pending_net_usage s) block_num (periods (net_limit_parameters c)) (average_block_net_usage s) in
   let* net := update_elastic_limit (virtual_net_limit s) (average avg_net) (net_limit_parameters c) in
   Ok (with_state (ResourceState avg_net avg_cpu 0 0 (total_net_weight s) (total_cpu_weight s) (total_ram_bytes s)
                     net cpu) db))%res.

Definition get_virtual_block_cpu_limit db : Z := virtual_cpu_limit (rl_state db).
Definition get_virtual_block_net_limit db : Z := virtual_net_limit (rl_state db).
Definition get_block_cpu_limit db : Z :=
  u64 (max (cpu_limit_parameters (rl_config db)) - pending_cpu_usage (rl_state db)).
Definition get_block_net_limit db : Z :=
  u64 (max (net_limit_parameters (rl_config db)) - pending_net_usage (rl_state db)).

(** ** What is left for an account. *)

(** The common part of the limits of an account for the processor and the network. *)
Definition limit_from (virtual_limit window_size weight total guaranteed v : Z) : result account_resource_limit :=
  let max_user_use_in_window := u128 (max_user_use virtual_limit window_size weight total + guaranteed) in
  let used := integer_divide_ceil (u128 (v * window_size)) rate_limiting_precision in
  (let* available :=
     if max_user_use_in_window <=? used then Ok 0
     else downgrade_cast (2 ^ 63 - 1) (max_user_use_in_window - used) in
   let* used := downgrade_cast (2 ^ 63 - 1) used in
   let* m := downgrade_cast (2 ^ 63 - 1) max_user_use_in_window in
   Ok (AccountResourceLimit used available m))%res.

Definition get_account_cpu_limit_ex account (elastic : bool) db : result account_resource_limit :=
  let s := rl_state db in
  let c := rl_config db in
  (let* u := of_option (usages db !! account) "unknown key" in
   let* (_, _, weight) := get_account_limits account db in
   if (weight <? 0) || (total_cpu_weight s =? 0) then Ok (AccountResourceLimit (-1) (-1) (-1)) else
   limit_from (if elastic then virtual_cpu_limit s else max (cpu_limit_parameters c))
     (account_cpu_usage_average_window c) weight (total_cpu_weight s) (cpu_us (gmr db)) (value_ex (cpu_usage u)))%res.

Definition get_account_net_limit_ex account (elastic : bool) db : result account_resource_limit :=
  let s := rl_state db in
  let c := rl_config db in
  (let* u := of_option (usages db !! account) "unknown key" in
   let* (_, weight, _) := get_account_limits account db in
   if (weight <? 0) || (total_net_weight s =? 0) then Ok (AccountResourceLimit (-1) (-1) (-1)) else
   limit_from (if elastic then virtual_net_limit s else max (net_limit_parameters c))
     (account_net_usage_average_window c) weight (total_net_weight s) (net_byte (gmr db)) (value_ex (net_usage u)))%res.

Definition get_account_cpu_limit account elastic db : result Z :=
  (let* arl := get_account_cpu_limit_ex account elastic db in Ok (available arl))%res.
Definition get_account_net_limit account elastic db : result Z :=
  (let* arl := get_account_net_limit_ex account elastic db in Ok (available arl))%res.

(** * Theorems. *)

(** ** Moving averages. *)

(** The fields of an accumulator fit their types. *)
Definition accumulator_ok (a : accumulator) : Prop :=
  0 <= last_ordinal a < 2 ^ 32 /\ 0 <= value_ex a < 2 ^ 64 /\ 0 <= consumed a < 2 ^ 64.

Lemma empty_accumulator_ok : accumulator_ok empty_accumulator.
Proof. repeat split; cbn; lia. Qed.

(** The fraction of the average left after [t - last_ordinal] periods. *)
Definition remaining (a : accumulator) (t W : Z) : Z := value_ex a * Z.max 0 (W - (t - last_ordinal a)) / W.

Lemma ceil_bounds n d : 0 < d -> n <= integer_divide_ceil n d * d <= n + d - 1.
Proof.
  intros Hd. unfold integer_divide_ceil. pose proof (Z.div_mod n d ltac:(lia)).
  pose proof (Z.mod_pos_bound n d Hd). case_match eqn:E; [apply Z.ltb_lt in E|apply Z.ltb_ge in E]; nia.
Qed.

Lemma ceil_nonneg n d : 0 < d -> 0 <= n -> 0 <= integer_divide_ceil n d.
Proof. intros Hd Hn. unfold integer_divide_ceil. pose proof (Z.div_pos n d Hn Hd). case_match; lia. Qed.

Lemma remaining_bounds a t W : 0 < W -> last_ordinal a <= t -> 0 <= value_ex a -> 0 <= remaining a t W <= value_ex a.
Proof.
  intros HW Ht Hv. unfold remaining. split; [apply Z.div_pos; nia|].
  apply Z.div_le_upper_bound; nia.
Qed.

Lemma decayed_ok a t W v :
  0 < W < 2 ^ 32 -> accumulator_ok a -> last_ordinal a < t -> decayed t W a = Ok v -> v = remaining a t W.
Proof.
  intros HW (Ho & Hv & _) Ht H. unfold decayed, ratio_mul, remaining in *. cbn [numerator denominator] in *.
  destruct (Z.ltb_spec t (last_ordinal a + W)) as [Hin|Hout].
  - rinv. rewrite Z.max_r by lia. f_equal. rewrite wrapU_small; [done|].
    match goal with H : _ || _ = true |- _ => apply orb_true_iff in H as [H|H] end; rinv; [lia|].
    pose proof (Z.mul_div_le (2 ^ 64 - 1) (W - (t - last_ordinal a)) ltac:(lia)). nia.
  - rinv. rewrite Z.max_l by lia. by rewrite Z.mul_0_r, Z.div_0_l by lia.
Qed.

(** [add] charges the units in the current period. *)
Lemma add_inv u t W a a' :
  add u t W a = Ok a' ->
  exists b c,
    u <= max_raw_value /\ c = integer_divide_ceil (u128 (u * rate_limiting_precision)) W /\
    c <= 2 ^ 64 - 1 - value_ex a /\ a' = Accumulator (last_ordinal b) (u64 (value_ex b + c)) (u64 (consumed b + u)) /\
    ((last_ordinal a = t /\ b = a /\ u <= 2 ^ 64 - 1 - consumed a) \/
     (last_ordinal a < t /\ exists v, decayed t W a = Ok v /\ b = Accumulator t v (average (Accumulator t v (consumed a))))).
Proof.
  intros H. unfold add, downgrade_cast in H.
  destruct (Z.eqb_spec (last_ordinal a) t) as [<-|Ht]; rinv; do 2 eexists; split_and!; eauto 10. all: done.
Qed.

Lemma average_small v : 0 <= v < 2 ^ 64 -> 0 <= integer_divide_ceil v rate_limiting_precision <= 2 ^ 45.
Proof.
  intros Hv. pose proof (ceil_bounds v rate_limiting_precision ltac:(done)).
  unfold rate_limiting_precision in *. nia.
Qed.

Lemma max_raw_small u : 0 <= u <= max_raw_value -> 0 <= u < 2 ^ 45.
Proof. unfold max_raw_value, rate_limiting_precision. change ((2 ^ 64 - 1) / (1000 * 1000)) with 18446744073709. lia. Qed.

(** What [add] computes when it succeeds: nothing wraps around. *)
Lemma add_spec u t W a a' :
  0 < W < 2 ^ 32 -> accumulator_ok a -> 0 <= u -> 0 <= t < 2 ^ 32 ->
  add u t W a = Ok a' ->
  last_ordinal a <= t /\ last_ordinal a' = t /\ accumulator_ok a' /\
  value_ex a' = remaining a t W + integer_divide_ceil (u * rate_limiting_precision) W.
Proof.
  intros HW Ha Hu Ht (b & c & Hraw & Hc & Hfit & -> & Hb)%add_inv. cbn [last_ordinal value_ex consumed].
  destruct (max_raw_small u) as [_ Hu2]; [lia|].
  rewrite wrapU_small in Hc by (unfold rate_limiting_precision; lia). rewrite <- Hc.
  assert (0 <= c) by (subst c; apply ceil_nonneg; unfold rate_limiting_precision; lia).
  destruct Ha as (Ho & Hv & Hco).
  destruct Hb as [(<- & -> & Hco2)|(Hlt & v & Hdec & ->)].
  - assert (Hr : remaining a (last_ordinal a) W = value_ex a).
    { unfold remaining. rewrite Z.max_r, Z.sub_diag, Z.sub_0_r by lia. by rewrite Z.div_mul by lia. }
    rewrite Hr, !wrapU_small by lia. unfold accumulator_ok. cbn. lia.
  - apply decayed_ok in Hdec as ->; [|done..|done]. cbn [last_ordinal value_ex consumed].
    destruct (remaining_bounds a t W) as [Hr0 Hr1]; [lia..|].
    assert (Hav := average_small (remaining a t W) ltac:(lia)). unfold average. cbn [value_ex].
    rewrite !wrapU_small by lia. unfold accumulator_ok. cbn. lia.
Qed.

(** [add] succeeds when the average fits with room for the decay. *)
Lemma add_succeeds u t W a :
  0 < W < 2 ^ 32 -> accumulator_ok a -> 0 <= u <= max_raw_value -> last_ordinal a <= t ->
  consumed a <= 2 ^ 63 -> value_ex a * W < 2 ^ 64 -> value_ex a + integer_divide_ceil (u * rate_limiting_precision) W < 2 ^ 64 ->
  exists a', add u t W a = Ok a'.
Proof.
  intros HW (Ho & Hv & Hco) Hu Ht Hc Hd Hfit. destruct (max_raw_small u) as [_ Hu2]; [lia|].
  unfold add, downgrade_cast.
  rewrite (wrapU_small _ (u * rate_limiting_precision)) by (unfold rate_limiting_precision; lia).
  assert (0 <= integer_divide_ceil (u * rate_limiting_precision) W)
    by (apply ceil_nonneg; unfold rate_limiting_precision; lia).
  rewrite !(proj2 (Z.leb_le _ _)) by lia. rewrite (proj2 (Z.eqb_neq W 0)) by lia. cbn [rassert rbind negb andb].
  rewrite !(proj2 (Z.leb_le _ _)) by lia. cbn [rassert rbind andb].
  destruct (Z.eqb_spec (last_ordinal a) t) as [E|E]; cbn [negb rbind]; [eauto|].
  rewrite (proj2 (Z.ltb_lt _ _)) by lia. cbn [rassert rbind]. unfold decayed, ratio_mul. cbn [numerator denominator].
  destruct (Z.ltb_spec t (last_ordinal a + W)); [|cbn [rbind]; eauto].
  rewrite (proj2 (Z.leb_le (value_ex a) _)) by (apply Z.div_le_lower_bound; nia).
  rewrite orb_true_r, (proj2 (Z.eqb_neq W 0)) by lia. cbn [rassert rbind negb]. eauto.
Qed.

(** ** The use of a window. *)

(** Uses [(units, period)], the most recent one first. *)
Fixpoint weighted_use (l : list (Z * Z)) (now W : Z) : Z :=
  match l with
  | [] => 0
  | (u, t) :: l => u * Z.max 0 (W - (now - t)) + weighted_use l now W
  end.

Lemma weighted_use_decay l t t' W :
  0 < W -> t <= t' -> Forall (fun ut => 0 <= ut.1 /\ ut.2 <= t) l ->
  W * weighted_use l t' W <= Z.max 0 (W - (t' - t)) * weighted_use l t W.
Proof.
  intros HW Ht. induction 1 as [|[u s] l [Hu Hs] _ IH]; cbn [weighted_use fst snd] in *; [lia|].
  assert (W * Z.max 0 (W - (t' - s)) <= Z.max 0 (W - (t' - t)) * Z.max 0 (W - (t - s))); [|nia].
  destruct (Z.max_spec 0 (W - (t' - s))) as [[? ->]|[? ->]]; nia.
Qed.

(** All uses charged to a fresh accumulator, oldest last. *)
Inductive charged (W : Z) : list (Z * Z) -> accumulator -> Prop :=
  | charged_nil : charged W [] empty_accumulator
  | charged_add l a u t a' :
      charged W l a -> 0 <= u -> 0 <= t < 2 ^ 32 -> add u t W a = Ok a' -> charged W ((u, t) :: l) a'.

Lemma charged_use W l a :
  0 < W < 2 ^ 32 -> charged W l a ->
  accumulator_ok a /\ Forall (fun ut => 0 <= ut.1 /\ ut.2 <= last_ordinal a) l /\
  rate_limiting_precision * weighted_use l (last_ordinal a) W <= (value_ex a + Z.of_nat (length l)) * (W * W).
Proof.
  intros HW. induction 1 as [|l a u t a' _ (Hok & Hl & IH) Hu Ht Hadd].
  - split_and!; [apply empty_accumulator_ok|constructor|cbn; lia].
  - apply add_spec in Hadd as (Hle & Hlast & Hok' & Hval); [|done..]. rewrite Hlast. split_and!; [done|..].
    + constructor; [cbn; lia|]. eapply Forall_impl; [done|]. cbn. lia.
    + cbn [weighted_use length]. rewrite Z.sub_diag, Z.sub_0_r, Z.max_r by lia.
      assert (Hd := weighted_use_decay l _ t W ltac:(lia) Hle Hl).
      set (m := Z.max 0 (W - (t - last_ordinal a))) in *.
      assert (Hm : 0 <= m <= W) by lia.
      pose proof (ceil_bounds (u * rate_limiting_precision) W ltac:(lia)) as Hc.
      assert (Hrem : value_ex a * m <= W * remaining a t W + W).
      { unfold remaining. fold m. pose proof (Z.mul_succ_div_gt (value_ex a * m) W ltac:(lia)). lia. }
      rewrite Hval, Nat2Z.inj_succ.
      assert (rate_limiting_precision * weighted_use l t W <= (remaining a t W + 1 + Z.of_nat (length l)) * (W * W)).
      { apply (Z.mul_le_mono_pos_l _ _ W); [lia|]. transitivity (m * (rate_limiting_precision * weighted_use l (last_ordinal a) W)).
        { unfold rate_limiting_precision. lia. }
        transitivity (m * ((value_ex a + Z.of_nat (length l)) * (W * W))); [nia|].
        assert (m * (value_ex a + Z.of_nat (length l)) <= W * (remaining a t W + 1 + Z.of_nat (length l))) by nia. nia. }
      nia.
Qed.

(** ** Sequences of operations. *)
Inductive resource_op :=
  | OpAccount (account : Z)
  | OpTransaction (accounts : list Z) (cpu net time_slot : Z)
  | OpUsage (accounts : list Z) (time_slot : Z)
  | OpRam (account delta : Z)
  | OpLimits (account ram net cpu : Z)
  | OpProcessLimits
  | OpBlock (block_num : Z)
  | OpBlockParameters (cpu net : elastic_limit_parameters)
  | OpGmr (g : gmr_parameters).

Definition apply_op db (o : resource_op) : result resource_db :=
  match o with
  | OpAccount a => initialize_account a db
  | OpTransaction l cpu net slot => add_transaction_usage l cpu net slot db
  | OpUsage l slot => update_account_usage l slot db
  | OpRam a delta => add_pending_ram_usage a delta db
  | OpLimits a ram net cpu => (let* r := set_account_limits a ram net cpu db in Ok r.2)%res
  | OpProcessLimits => process_account_limit_updates db
  | OpBlock n => process_block_usage n db
  | OpBlockParameters cpu net => set_block_parameters cpu net db
  | OpGmr g => set_gmr_parameters g db
  end.

(** Arguments in the range of their types; accounts are a set. *)
Definition op_ok (o : resource_op) : Prop :=
  match o with
  | OpTransaction l cpu net slot => NoDup l /\ 0 <= cpu < 2 ^ 64 /\ 0 <= net < 2 ^ 64 /\ 0 <= slot < 2 ^ 32
  | OpUsage l slot => NoDup l /\ 0 <= slot < 2 ^ 32
  | _ => True
  end.

(** The uses of the processor by an account, the most recent one first. *)
Definition op_use (a : Z) (o : resource_op) : list (Z * Z) :=
  match o with
  | OpTransaction l cpu net slot => if decide (a ∈ l) then [(cpu, slot)] else []
  | OpUsage l slot => if decide (a ∈ l) then [(0, slot)] else []
  | _ => []
  end.
Definition cpu_uses (a : Z) (ops : list resource_op) : list (Z * Z) := concat (map (op_use a) (rev ops)).

Lemma cpu_uses_snoc a ops o : cpu_uses a (ops ++ [o]) = op_use a o ++ cpu_uses a ops.
Proof. unfold cpu_uses. by rewrite rev_app_distr. Qed.

(** The checks a charged account passes. *)
Definition within db (a : Z) (u : resource_usage_object) : Prop :=
  forall ram nw cw, get_account_limits a db = Ok (ram, nw, cw) -> check_cpu cw u db = Ok tt /\ check_net nw u db = Ok tt.

Section charges.
Context (cpu net slot : Z) (f : resource_db -> Z -> result resource_db) (Q : resource_db -> Z -> resource_usage_object -> Prop).
Hypothesis Hf : forall db x db', f db x = Ok db' -> exists u u',
  usages db !! x = Some u /\ add_usage cpu net slot db u = Ok u' /\ Q db x u' /\ db' = with_usages (<[x:=u']> (usages db)) db.
Hypothesis HQ : forall db us x u, Q (with_usages us db) x u -> Q db x u.

(** Charging a set of accounts charges each of them once. *)
Lemma charge_all accounts db db' :
  NoDup accounts -> rfold f db accounts = Ok db' ->
  db' = with_usages (usages db') db /\
  (forall a, a ∉ accounts -> usages db' !! a = usages db !! a) /\
  (forall a, a ∈ accounts -> exists u u', usages db !! a = Some u /\ add_usage cpu net slot db u = Ok u' /\ Q db a u' /\
     usages db' !! a = Some u').
Proof.
  intros Hnd. revert db. induction Hnd as [|x l Hx Hnd IH]; intros db H; cbn [rfold] in H.
  { rinv. split_and!; [by destruct db'|done|set_solver]. }
  apply rbind_ok in H as (db1 & (u & u' & Hu & Hadd & HQu & ->)%Hf & H).
  apply IH in H as (Heq & Hout & Hin). split_and!.
  - by rewrite Heq.
  - intros a Ha. rewrite Hout by set_solver. cbn. apply lookup_insert_ne. set_solver.
  - intros a [->|Ha]%elem_of_cons.
    + exists u, u'. split_and!; [done..|]. rewrite Hout by done. apply lookup_insert_eq.
    + destruct (Hin a Ha) as (w & w' & Hw & Hadd' & HQw & Hw').
      exists w, w'. split_and!; [|done|by eapply HQ|done].
      cbn in Hw. by rewrite lookup_insert_ne in Hw by (intros ->; done).
Qed.
End charges.

Lemma charge_account_step cpu net slot db x db' :
  charge_account cpu net slot db x = Ok db' -> exists u u',
  usages db !! x = Some u /\ add_usage cpu net slot db u = Ok u' /\ within db x u' /\
  db' = with_usages (<[x:=u']> (usages db)) db.
Proof.
  intros H. unfold charge_account in H. apply rbind_ok in H as (u & Hu%of_option_ok & H).
  apply rbind_ok in H as ([[ram nw] cw] & Hl & H). apply rbind_ok in H as (u' & Hadd & H).
  apply rbind_ok in H as ([] & Hcpu & H). apply rbind_ok in H as ([] & Hnet & H). rinv.
  exists u, u'. split_and!; [done..| |done]. intros ram' nw' cw' Hl'. rewrite Hl in Hl'. by simplify_eq.
Qed.

Lemma update_usage_step slot db x db' :
  modify_usage x (add_usage 0 0 slot db) db = Ok db' -> exists u u',
  usages db !! x = Some u /\ add_usage 0 0 slot db u = Ok u' /\ True /\
  db' = with_usages (<[x:=u']> (usages db)) db.
Proof. unfold modify_usage. intros H. rinv. eauto 10. Qed.

(** A transaction charges its accounts, and the block. *)
Lemma add_transaction_usage_inv l cpu net slot db db' :
  add_transaction_usage l cpu net slot db = Ok db' ->
  exists db1, rfold (charge_account cpu net slot) db l = Ok db1 /\
    pending_cpu_usage (rl_state db') = u64 (pending_cpu_usage (rl_state db1) + cpu) /\
    pending_net_usage (rl_state db') = u64 (pending_net_usage (rl_state db1) + net) /\
    pending_cpu_usage (rl_state db') <= max (cpu_limit_parameters (rl_config db1)) /\
    pending_net_usage (rl_state db') <= max (net_limit_parameters (rl_config db1)) /\
    db' = with_state (ResourceState (average_block_net_usage (rl_state db1)) (average_block_cpu_usage (rl_state db1))
      (pending_net_usage (rl_state db')) (pending_cpu_usage (rl_state db')) (total_net_weight (rl_state db1))
      (total_cpu_weight (rl_state db1)) (total_ram_bytes (rl_state db1)) (virtual_net_limit (rl_state db1))
      (virtual_cpu_limit (rl_state db1))) db1.
Proof.
  intros H. unfold add_transaction_usage in H. apply rbind_ok in H as (db1 & Hf & H). rinv.
  exists db1. split_and!; done.
Qed.

Lemma add_usage_inv cpu net slot db u u' :
  add_usage cpu net slot db u = Ok u' ->
  add net slot (account_net_usage_average_window (rl_config db)) (net_usage u) = Ok (net_usage u') /\
  add cpu slot (account_cpu_usage_average_window (rl_config db)) (cpu_usage u) = Ok (cpu_usage u') /\
  ram_usage u' = ram_usage u.
Proof. unfold add_usage. intros H. rinv. done. Qed.

(** The average of an account is that of its uses. *)
Definition usage_inv (a : Z) (ops : list resource_op) db : Prop :=
  account_cpu_usage_average_window (rl_config db) = 86400 /\
  match usages db !! a with
  | None => cpu_uses a ops = []
  | Some u => charged 86400 (cpu_uses a ops) (cpu_usage u)
  end.

Lemma usage_inv_same a ops o db db' :
  usage_inv a ops db -> op_use a o = [] -> usages db' !! a = usages db !! a ->
  account_cpu_usage_average_window (rl_config db') = account_cpu_usage_average_window (rl_config db) ->
  usage_inv a (ops ++ [o]) db'.
Proof. intros [HW Hu] Ho Hus Hc. unfold usage_inv. by rewrite cpu_uses_snoc, Ho, Hus, Hc. Qed.

Lemma usage_inv_charge a ops o db db' cpu net slot u u' :
  usage_inv a ops db -> op_use a o = [(cpu, slot)] -> 0 <= cpu -> 0 <= slot < 2 ^ 32 ->
  usages db !! a = Some u -> add_usage cpu net slot db u = Ok u' -> usages db' !! a = Some u' ->
  rl_config db' = rl_config db -> usage_inv a (ops ++ [o]) db'.
Proof.
  intros [HW Hu] Ho Hcpu Hslot Hau (_ & Hadd & _)%add_usage_inv Hau' Hc. rewrite HW in Hadd. rewrite Hau in Hu.
  unfold usage_inv. rewrite Hc, Hau', cpu_uses_snoc, Ho. split; [done|]. by econstructor.
Qed.

Lemma process_pending_usages db o db' :
  process_pending db o = Ok db' -> usages db' = usages db /\ rl_config db' = rl_config db.
Proof. unfold process_pending. intros H. rinv. done. Qed.

Lemma process_limits_usages db db' :
  process_account_limit_updates db = Ok db' -> usages db' = usages db /\ rl_config db' = rl_config db.
Proof.
  apply (rfold_inv (fun d => usages d = usages db /\ rl_config d = rl_config db)); [|done].
  intros d x d' _ [Hu Hc] [Hu' Hc']%process_pending_usages. by rewrite Hu', Hc'.
Qed.

(** After an operation that charges the accounts [l]. *)
Lemma usage_inv_charges a ops o (l : list Z) cpu net slot Q db db1 db' :
  usage_inv a ops db -> 0 <= cpu -> 0 <= slot < 2 ^ 32 ->
  op_use a o = (if decide (a ∈ l) then [(cpu, slot)] else []) ->
  (forall a, a ∉ l -> usages db1 !! a = usages db !! a) ->
  (forall a, a ∈ l -> exists u u', usages db !! a = Some u /\ add_usage cpu net slot db u = Ok u' /\ Q db a u' /\
     usages db1 !! a = Some u') ->
  usages db' = usages db1 -> rl_config db' = rl_config db -> usage_inv a (ops ++ [o]) db'.
Proof.
  intros Hinv Hcpu Hslot Ho Hout Hin Hu Hc. destruct (decide (a ∈ l)) as [Ha|Ha].
  - destruct (Hin a Ha) as (u & u' & Hau & Hadd & _ & Hau').
    eapply (usage_inv_charge a ops _ db db' cpu net slot); try done. by rewrite Hu.
  - apply (usage_inv_same a ops _ db); [done|done| |by rewrite Hc]. rewrite Hu. by apply Hout.
Qed.

Lemma usage_inv_transaction a ops l cpu net slot db db' :
  usage_inv a ops db -> op_ok (OpTransaction l cpu net slot) -> add_transaction_usage l cpu net slot db = Ok db' ->
  usage_inv a (ops ++ [OpTransaction l cpu net slot]) db'.
Proof.
  intros Hinv (Hnd & Hcpu & Hnet & Hslot) (db1 & Hf & _ & _ & _ & _ & Heq)%add_transaction_usage_inv.
  eapply (charge_all cpu net slot _ within (charge_account_step cpu net slot) ltac:(done)) in Hf
    as (Heq1 & Hout & Hin); [|done].
  eapply (usage_inv_charges a ops _ l cpu net slot within db db1 db'); try done; [lia| |].
  - by rewrite Heq.
  - by rewrite Heq, Heq1.
Qed.

Lemma usage_inv_update a ops l slot db db' :
  usage_inv a ops db -> op_ok (OpUsage l slot) -> update_account_usage l slot db = Ok db' ->
  usage_inv a (ops ++ [OpUsage l slot]) db'.
Proof.
  intros Hinv (Hnd & Hslot) H. unfold update_account_usage in H.
  eapply (charge_all 0 0 slot _ (fun _ _ _ => True)) in H as (Heq & Hout & Hin);
    [|intros; by apply update_usage_step|done|done].
  eapply (usage_inv_charges a ops _ l 0 0 slot (fun _ _ _ => True) db db' db'); try done. by rewrite Heq.
Qed.

Lemma usage_inv_step a ops o db db' :
  usage_inv a ops db -> op_ok o -> apply_op db o = Ok db' -> usage_inv a (ops ++ [o]) db'.
Proof.
  intros Hinv Ho H. destruct o as [b|l cpu net slot|l slot|b d|b r n c| |n|c n|g]; cbn [apply_op] in H.
  - unfold initialize_account in H. rinv. destruct (decide (a = b)) as [->|Hne].
    + destruct Hinv as [HW Hu]. unfold usage_inv. rewrite cpu_uses_snoc. cbn. rewrite lookup_insert_eq.
      match goal with E : usages db !! b = None |- _ => rewrite E in Hu end. rewrite Hu. split; [done|constructor].
    + apply (usage_inv_same a ops _ db); [done..| |done]. cbn. by rewrite lookup_insert_ne by done.
  - by eapply usage_inv_transaction.
  - by eapply usage_inv_update.
  - unfold add_pending_ram_usage in H. destruct (d =? 0); rinv; [by apply (usage_inv_same a ops _ db')|].
    destruct (decide (a = b)) as [->|Hne].
    + destruct Hinv as [HW Hu]. split; [done|]. rewrite cpu_uses_snoc. cbn. rewrite lookup_insert_eq. cbn.
      match goal with E : usages db !! b = Some _ |- _ => by rewrite E in Hu end.
    + apply (usage_inv_same a ops _ db); [done..| |done]. cbn. by rewrite lookup_insert_ne by done.
  - unfold set_account_limits in H. rinv. by apply (usage_inv_same a ops _ db).
  - apply process_limits_usages in H as [Hu Hc]. apply (usage_inv_same a ops _ db); [done..| |]; by rewrite ?Hu, ?Hc.
  - unfold process_block_usage in H. rinv. by apply (usage_inv_same a ops _ db).
  - unfold set_block_parameters in H. rinv. by apply (usage_inv_same a ops _ db).
  - unfold set_gmr_parameters in H. rinv. by apply (usage_inv_same a ops _ db).
Qed.

Lemma usage_inv_run a stakes rent ops db :
  Forall op_ok ops -> rfold apply_op (initialize_database stakes rent) ops = Ok db -> usage_inv a ops db.
Proof.
  revert db. induction ops as [|o ops IH] using rev_ind; intros db Hops H.
  - cbn in H. rinv. split; [done|]. cbn. done.
  - apply Forall_app in Hops as [Hops Ho]. rewrite rfold_app in H. apply rbind_ok in H as (db1 & H1 & H2).
    cbn in H2. apply rbind_ok in H2 as (db2 & H2 & H3). rinv. inversion Ho; subst. by eapply usage_inv_step; eauto.
Qed.

(** An account a transaction charges is within its limits afterwards. *)
Lemma transaction_within l cpu net slot db db' (a : Z) :
  NoDup l -> add_transaction_usage l cpu net slot db = Ok db' -> a ∈ l ->
  exists u, usages db' !! a = Some u /\ within db' a u.
Proof.
  intros Hnd (db1 & Hf & _ & _ & _ & _ & ->)%add_transaction_usage_inv Ha.
  eapply (charge_all cpu net slot _ within (charge_account_step cpu net slot) ltac:(done)) in Hf
    as (-> & _ & Hin); [|done].
  destruct (Hin a Ha) as (u & u' & _ & _ & Hw & Hu'). by exists u'.
Qed.

Lemma limit_from_max v W w total g x arl :
  limit_from v W w total g x = Ok arl -> limit_max arl = u128 (max_user_use v W w total + g).
Proof. unfold limit_from, downgrade_cast. intros H. rinv. done. Qed.

(** ** The totals. *)
Definition weights (f : resource_limits_object -> Z) (m : gmap Z resource_limits_object) : Z :=
  map_sum (fun _ o => Z.max 0 (f o)) m.

(** The totals are the sums of the limits in force, and only accounts have pending limits. *)
Definition totals_inv db : Prop :=
  total_ram_bytes (rl_state db) = weights ram_bytes (limits db) /\
  total_cpu_weight (rl_state db) = weights cpu_weight (limits db) /\
  total_net_weight (rl_state db) = weights net_weight (limits db) /\
  forall a, is_Some (pending_limits db !! a) -> is_Some (limits db !! a).

Lemma weights_nonneg f m : 0 <= weights f m.
Proof. apply map_sum_nonneg. lia. Qed.

Lemma weights_insert f m a o : weights f (<[a:=o]> m) = weights f m - at_key (fun _ o => Z.max 0 (f o)) m a + Z.max 0 (f o).
Proof. unfold weights. by rewrite map_sum_insert. Qed.

Lemma weights_replace f m a o o' : m !! a = Some o -> weights f (<[a:=o']> m) = weights f m - Z.max 0 (f o) + Z.max 0 (f o').
Proof. intros H. by rewrite weights_insert, (at_key_Some _ _ _ _ H). Qed.

Lemma weights_ge f m a o : m !! a = Some o -> Z.max 0 (f o) <= weights f m.
Proof.
  intros H. rewrite <- (at_key_Some (fun _ o => Z.max 0 (f o)) m a o H). apply map_sum_ge_at. lia.
Qed.

Lemma update_state_and_value_ok total value pv t :
  update_state_and_value total value pv = Ok t -> t = total - Z.max 0 value + Z.max 0 pv.
Proof.
  unfold update_state_and_value. intros H.
  destruct (Z.ltb_spec 0 value), (Z.ltb_spec 0 pv); rinv; lia.
Qed.

Lemma update_state_and_value_total total value pv :
  Z.max 0 value <= total -> total - Z.max 0 value + Z.max 0 pv <= 2 ^ 64 - 1 ->
  update_state_and_value total value pv = Ok (total - Z.max 0 value + Z.max 0 pv).
Proof.
  intros H1 H2. unfold update_state_and_value.
  destruct (Z.ltb_spec 0 value), (Z.ltb_spec 0 pv); rewrite ?(proj2 (Z.leb_le _ _)) by lia; cbn [rassert rbind];
    rewrite ?(proj2 (Z.leb_le _ _)) by lia; cbn [rassert rbind]; f_equal; lia.
Qed.

Lemma process_pending_inv db o db' :
  process_pending db o = Ok db' -> totals_inv db -> totals_inv db'.
Proof.
  unfold process_pending. intros H (Hr & Hc & Hn & Hp). rinv.
  repeat match goal with H : update_state_and_value _ _ _ = Ok _ |- _ => apply update_state_and_value_ok in H; subst end.
  unfold totals_inv. cbn. erewrite !weights_replace by done. rewrite Hr, Hc, Hn. split_and!; [done..|].
  intros b [_ Hb]%lookup_delete_is_Some. apply lookup_insert_is_Some. destruct (decide (o = b)); auto.
Qed.

Lemma totals_inv_step o db db' : totals_inv db -> op_ok o -> apply_op db o = Ok db' -> totals_inv db'.
Proof.
  intros Hinv Ho H. destruct o as [b|l cpu net slot|l slot|b d|b r n c| |n|c n|g]; cbn [apply_op op_ok] in *.
  - destruct Hinv as (Hr & Hc & Hn & Hp). unfold initialize_account in H. rinv.
    unfold totals_inv. cbn. rewrite !weights_insert, !at_key_None by done. cbn. rewrite Hr, Hc, Hn.
    split_and!; [lia..|]. intros a Ha. apply lookup_insert_is_Some. destruct (decide (b = a)); auto.
  - destruct Ho as [Hnd _]. apply add_transaction_usage_inv in H as (db1 & Hf & _ & _ & _ & _ & ->).
    eapply (charge_all cpu net slot _ within (charge_account_step cpu net slot) ltac:(done)) in Hf as (-> & _); done.
  - destruct Ho as [Hnd _]. unfold update_account_usage in H.
    eapply (charge_all 0 0 slot _ (fun _ _ _ => True)) in H as (-> & _); [|intros; by apply update_usage_step|done..].
    done.
  - unfold add_pending_ram_usage in H. by destruct (d =? 0); rinv.
  - destruct Hinv as (Hr & Hc & Hn & Hp). unfold set_account_limits in H. rinv. split_and!; [done..|].
    cbn. intros a [<-|[_ Ha]]%lookup_insert_is_Some; [|auto].
    destruct (pending_limits db !! b) eqn:E; rinv; eauto.
  - revert H. by apply (rfold_inv totals_inv); [|done]; intros; eapply process_pending_inv.
  - unfold process_block_usage in H. by rinv.
  - unfold set_block_parameters in H. by rinv.
  - unfold set_gmr_parameters in H. by rinv.
Qed.

Lemma run_inv (P : resource_db -> Prop) stakes rent ops db :
  P (initialize_database stakes rent) -> (forall o db db', P db -> op_ok o -> apply_op db o = Ok db' -> P db') ->
  Forall op_ok ops -> rfold apply_op (initialize_database stakes rent) ops = Ok db -> P db.
Proof.
  intros H0 Hstep Hops. apply (rfold_inv P); [|done]. intros d o d' Ho%(proj1 (Forall_forall _ _) Hops). eauto.
Qed.

Lemma totals_inv_run stakes rent ops db :
  Forall op_ok ops -> rfold apply_op (initialize_database stakes rent) ops = Ok db -> totals_inv db.
Proof. apply run_inv; [|apply totals_inv_step]. split_and!; [done..|]. intros a [? H]. done. Qed.

(** ** The limit of a window. *)
Lemma within_cpu db a u arl :
  usages db !! a = Some u -> within db a u -> 0 <= total_cpu_weight (rl_state db) ->
  get_account_cpu_limit_ex a true db = Ok arl -> 0 <= limit_max arl ->
  used_in_window (value_ex (cpu_usage u)) (account_cpu_usage_average_window (rl_config db)) <= limit_max arl.
Proof.
  intros Hu Hw Ht H Hm. unfold get_account_cpu_limit_ex in H. rewrite Hu in H. cbn [of_option rbind] in H.
  apply rbind_ok in H as ([[ram nw] cw] & Hl & H). apply Hw in Hl as [Hcpu _].
  destruct ((cw <? 0) || (total_cpu_weight (rl_state db) =? 0)) eqn:E; [rinv; cbn in Hm; lia|].
  apply orb_false_iff in E as [E1%Z.ltb_ge E2%Z.eqb_neq]. unfold check_cpu in Hcpu.
  apply limit_from_max in H. rewrite (proj2 (Z.ltb_lt 0 (total_cpu_weight _))), (proj2 (Z.leb_le 0 cw)) in Hcpu by lia.
  cbn [andb] in Hcpu. rinv. lia.
Qed.

(** After any sequence of operations that ends with a transaction an account authorizes,
    the uses of the processor by the account, each with the part of the window that is
    still ahead of it, are at most the reported maximum of its window, but for rounding. *)
(** C32: After any sequence of operations of the resource manager that ends with a
    transaction an account authorizes, the account's uses of the processor, each
    weighted with the part of the one-day window still ahead of it, are at most the
    maximum reported for its window, up to a rounding of one part in a million per
    use. *)
Theorem use_of_window stakes rent ops accounts cpu net slot (a : Z) db arl :
  Forall op_ok (ops ++ [OpTransaction accounts cpu net slot]) ->
  rfold apply_op (initialize_database stakes rent) (ops ++ [OpTransaction accounts cpu net slot]) = Ok db ->
  a ∈ accounts -> get_account_cpu_limit_ex a true db = Ok arl -> 0 <= limit_max arl ->
  let uses := cpu_uses a (ops ++ [OpTransaction accounts cpu net slot]) in
  rate_limiting_precision * weighted_use uses slot 86400
    <= 86400 * ((limit_max arl + 1) * rate_limiting_precision + 86400 * Z.of_nat (length uses)).
Proof.
  intros Hops Hrun Ha Harl Hm uses. pose proof (usage_inv_run a _ _ _ _ Hops Hrun) as [HW Huse].
  pose proof (totals_inv_run _ _ _ _ Hops Hrun) as (_ & Htot & _).
  rewrite rfold_app in Hrun. apply rbind_ok in Hrun as (db1 & _ & Hrun). cbn [rfold] in Hrun.
  apply rbind_ok in Hrun as (db2 & Htx & Hrun). rinv. cbn [apply_op] in Htx.
  apply Forall_app in Hops as [_ Ho]. inversion Ho as [|? ? Hok _]; subst.
  destruct (transaction_within accounts cpu net slot db1 db a) as (u & Hu & Hw); [apply Hok|done..|].
  rewrite Hu in Huse. fold uses in Huse.
  assert (Hl : last_ordinal (cpu_usage u) = slot).
  { unfold uses in Huse. rewrite cpu_uses_snoc in Huse. cbn in Huse. rewrite decide_True in Huse by done.
    inversion Huse as [|l' b' ? ? ? Hch ? ? Hadd]; subst.
    apply charged_use in Hch as (Hbok & _); [|done]. by apply add_spec in Hadd as (_ & ? & _). }
  apply charged_use in Huse as ((_ & Hv & _) & _ & Hbound); [|done]. rewrite Hl in Hbound.
  apply (within_cpu db a u arl) in Hw; [|done|rewrite Htot; apply weights_nonneg|done..].
  rewrite HW in Hw. unfold used_in_window in Hw. rewrite wrapU_small in Hw by lia.
  pose proof (Z.mul_succ_div_gt (value_ex (cpu_usage u) * 86400) rate_limiting_precision ltac:(done)).
  unfold rate_limiting_precision in *. nia.
Qed.

(** ** Pending limits. *)
Lemma process_pending_total db o p :
  totals_inv db -> pending_limits db !! o = Some p ->
  (forall f, f ∈ [ram_bytes; cpu_weight; net_weight] -> weights f (limits db) + weights f (pending_limits db) <= 2 ^ 64 - 1) ->
  exists db', process_pending db o = Ok db' /\ limits db' = <[o:=p]> (limits db) /\
    pending_limits db' = delete o (pending_limits db).
Proof.
  intros (Hr & Hc & Hn & Hp) Hop Hsum. destruct (Hp o ltac:(eauto)) as [l Hl]. unfold process_pending.
  rewrite Hop, Hl. cbn [of_option rbind].
  assert (forall f, f ∈ [ram_bytes; cpu_weight; net_weight] ->
    Z.max 0 (f l) <= weights f (limits db) /\ weights f (limits db) - Z.max 0 (f l) + Z.max 0 (f p) <= 2 ^ 64 - 1).
  { intros f Hf. pose proof (weights_ge f _ _ _ Hl). pose proof (weights_ge f _ _ _ Hop).
    specialize (Hsum f Hf). lia. }
  rewrite Hr, Hc, Hn. rewrite !update_state_and_value_total by (apply H; set_solver). cbn [rbind]. eauto.
Qed.

Lemma weights_delete f m a : weights f (delete a m) = weights f m - at_key (fun _ o => Z.max 0 (f o)) m a.
Proof. unfold weights. by rewrite map_sum_delete. Qed.

Lemma process_pending_list l : forall db,
  totals_inv db -> NoDup l -> (forall o, o ∈ l <-> is_Some (pending_limits db !! o)) ->
  (forall f, f ∈ [ram_bytes; cpu_weight; net_weight] -> weights f (limits db) + weights f (pending_limits db) <= 2 ^ 64 - 1) ->
  exists db', rfold process_pending db l = Ok db' /\ limits db' = pending_limits db ∪ limits db /\
    pending_limits db' = ∅ /\ totals_inv db'.
Proof.
  induction l as [|o l IH]; intros db Hinv Hnd Hl Hsum; cbn [rfold].
  { assert (He : pending_limits db = ∅).
    { apply map_empty. intros o. apply eq_None_not_Some. rewrite <- Hl. set_solver. }
    exists db. rewrite He, map_empty_union. done. }
  destruct (proj1 (Hl o) ltac:(left)) as [p Hp].
  destruct (process_pending_total db o p) as (db1 & H1 & Hlim & Hpend); [done..|].
  inversion Hnd as [|? ? Hno Hnd']; subst.
  destruct (IH db1) as (db' & H & Hlim' & Hpend' & Hinv'); [by eapply process_pending_inv|done|..].
  - intros o'. rewrite Hpend, lookup_delete_is_Some, <- Hl. set_solver.
  - intros f Hf. specialize (Hsum f Hf). rewrite Hlim, Hpend, weights_insert, weights_delete, (at_key_Some _ _ _ _ Hp).
    assert (0 <= at_key (fun _ o => Z.max 0 (f o)) (limits db) o); [|lia]. unfold at_key. case_match; lia.
  - exists db'. rewrite H1. cbn [rbind]. split_and!; [done| |done..].
    rewrite Hlim', Hlim, Hpend. apply map_eq. intros k. rewrite !lookup_union.
    destruct (decide (k = o)) as [->|Hk].
    + by rewrite lookup_delete_eq, lookup_insert_eq, Hp, union_Some_l.
    + by rewrite lookup_delete_ne, lookup_insert_ne by done.
Qed.

(** The pending limits come into force: while the totals fit 64 bits the update never
    throws, every pending limit replaces that of its account, the others stay, and the
    totals are again the sums of the limits in force. *)
(** Collapsing the pending limits never throws while the sums fit 64 bits: every
    pending limit replaces that of its account, the others stay, and the totals are
    the sums of the limits in force. *)
Theorem pending_limits_applied db :
  totals_inv db ->
  (forall f, f ∈ [ram_bytes; cpu_weight; net_weight] -> weights f (limits db) + weights f (pending_limits db) <= 2 ^ 64 - 1) ->
  exists db', process_account_limit_updates db = Ok db' /\ limits db' = pending_limits db ∪ limits db /\
    pending_limits db' = ∅ /\ totals_inv db'.
Proof.
  intros Hinv Hsum. apply process_pending_list; [done|apply sorted_keys_NoDup| |done].
  intros o. apply sorted_keys_spec.
Qed.

(** ** What is available is accepted. *)
Lemma room_for W V u :
  0 < W <= rate_limiting_precision -> 0 <= V -> 0 <= u ->
  (V + integer_divide_ceil (u * rate_limiting_precision) W) * W / rate_limiting_precision
    <= u + integer_divide_ceil (V * W) rate_limiting_precision.
Proof.
  intros HW HV Hu. pose proof (ceil_bounds (u * rate_limiting_precision) W ltac:(lia)).
  pose proof (ceil_bounds (V * W) rate_limiting_precision ltac:(done)).
  apply Z.lt_succ_r, Z.div_lt_upper_bound; [done|]. unfold rate_limiting_precision in *. nia.
Qed.

(** [limit_from] when it reports a maximum. *)
Lemma limit_from_inv v W w total g x arl :
  limit_from v W w total g x = Ok arl ->
  limit_max arl = u128 (max_user_use v W w total + g) /\
  used arl = integer_divide_ceil (u128 (x * W)) rate_limiting_precision /\
  available arl = Z.max 0 (limit_max arl - used arl).
Proof.
  unfold limit_from, downgrade_cast. intros H. destruct (_ <=? integer_divide_ceil _ _) eqn:E; rinv; cbn; lia.
Qed.

(** The use after a charge. *)
Lemma charge_room W u t a a' :
  0 < W <= rate_limiting_precision -> accumulator_ok a -> 0 <= u -> 0 <= t < 2 ^ 32 -> add u t W a = Ok a' ->
  used_in_window (value_ex a') W <= u + integer_divide_ceil (u128 (value_ex a * W)) rate_limiting_precision.
Proof.
  intros HW Ha Hu Ht Hadd. apply add_spec in Hadd as (Hle & _ & (_ & Hv' & _) & Hval); try done;
    [|unfold rate_limiting_precision in *; lia].
  destruct Ha as (_ & Hv & _). pose proof (remaining_bounds a t W ltac:(lia) Hle ltac:(lia)).
  unfold used_in_window, rate_limiting_precision in *.
  rewrite !wrapU_small by nia. etransitivity; [|apply room_for; unfold rate_limiting_precision; lia].
  apply Z.div_le_mono; [done|]. rewrite Hval. unfold rate_limiting_precision. nia.
Qed.

(** An average that a charge in the period [t] neither overflows nor predates. *)
Definition room (W t : Z) (a : accumulator) : Prop :=
  accumulator_ok a /\ 4 <= W <= rate_limiting_precision /\ last_ordinal a <= t < 2 ^ 32 /\ consumed a <= 2 ^ 63 /\
  value_ex a * W < 2 ^ 63.

Lemma room_add W t a u : room W t a -> 0 <= u <= max_raw_value -> exists a', add u t W a = Ok a'.
Proof.
  intros (Hok & HW & Ht & Hc & Hv) Hu. pose proof Hok as (_ & Hv0 & _).
  apply add_succeeds; try done; [unfold rate_limiting_precision in *; lia|lia|lia|].
  pose proof (ceil_bounds (u * rate_limiting_precision) W ltac:(lia)). destruct (max_raw_small u); [lia|].
  assert (u * rate_limiting_precision <= 2 ^ 64 - 1).
  { unfold max_raw_value in Hu. pose proof (Z.mul_div_le (2 ^ 64 - 1) rate_limiting_precision ltac:(done)).
    unfold rate_limiting_precision in *. lia. }
  nia.
Qed.

Section accepted.
Context (db : resource_db) (a : Z) (u : resource_usage_object) (cpu net slot ram nw cw : Z).
Hypothesis Hu : usages db !! a = Some u.
Hypothesis Hlimits : get_account_limits a db = Ok (ram, nw, cw).
Hypothesis Hcpu : 0 < cpu <= max_raw_value.
Hypothesis Hnet : 0 < net <= max_raw_value.
Hypothesis Hcroom : room (account_cpu_usage_average_window (rl_config db)) slot (cpu_usage u).
Hypothesis Hnroom : room (account_net_usage_average_window (rl_config db)) slot (net_usage u).

Lemma cpu_accepted u' lim :
  add_usage cpu net slot db u = Ok u' -> get_account_cpu_limit_ex a true db = Ok lim ->
  limit_max lim = -1 \/ cpu <= available lim -> check_cpu cw u' db = Ok tt.
Proof.
  intros (_ & Hadd & _)%add_usage_inv H Hav. unfold get_account_cpu_limit_ex in H.
  rewrite Hu, Hlimits in H. cbn [of_option rbind] in H. unfold check_cpu.
  destruct ((0 <=? cw) && (0 <? total_cpu_weight (rl_state db))) eqn:E; [|done].
  apply andb_true_iff in E as [E1%Z.leb_le E2%Z.ltb_lt].
  rewrite (proj2 (Z.ltb_ge _ _)), (proj2 (Z.eqb_neq _ _)) in H by lia. cbn [orb] in H.
  apply limit_from_inv in H as (Hm & Hused & Hav'). destruct Hcroom as (Hok & HW & Ht & _).
  apply charge_room in Hadd; [|lia|done|lia|destruct Hok; lia]. unfold rassert.
  rewrite (proj2 (Z.leb_le _ _)); [done|]. rewrite <- Hm. rewrite <- Hused in Hadd.
  assert (0 <= limit_max lim) by (rewrite Hm; apply wrapU_range; lia). lia.
Qed.

Hypothesis Hvirtual : 0 <= virtual_net_limit (rl_state db) < 2 ^ 40.
Hypothesis Hnw : nw < 2 ^ 63.
Hypothesis Hgmr : 0 <= net_byte (gmr db) <= cpu_us (gmr db) /\ cpu_us (gmr db) < 2 ^ 64.

Lemma net_max_small W :
  0 <= nw -> 0 < W <= rate_limiting_precision -> 0 < total_net_weight (rl_state db) ->
  0 <= max_user_use (virtual_net_limit (rl_state db)) W nw (total_net_weight (rl_state db)) < 2 ^ 127.
Proof.
  intros Hn HW Ht. unfold max_user_use, rate_limiting_precision in *.
  assert (0 <= virtual_net_limit (rl_state db) * W < 2 ^ 40 * 2 ^ 20) by nia.
  assert (0 <= virtual_net_limit (rl_state db) * W * nw < 2 ^ 60 * 2 ^ 63) by nia.
  rewrite (wrapU_small _ (virtual_net_limit (rl_state db) * W)) by lia. rewrite wrapU_small by lia.
  split; [apply Z.div_pos; lia|]. apply Z.div_lt_upper_bound; nia.
Qed.

Lemma net_accepted u' lim :
  add_usage cpu net slot db u = Ok u' -> get_account_net_limit_ex a true db = Ok lim ->
  limit_max lim = -1 \/ net <= available lim -> check_net nw u' db = Ok tt.
Proof.
  intros (Hadd & _)%add_usage_inv H Hav. unfold get_account_net_limit_ex in H.
  rewrite Hu, Hlimits in H. cbn [of_option rbind] in H. unfold check_net.
  destruct ((0 <=? nw) && (0 <? total_net_weight (rl_state db))) eqn:E; [|done].
  apply andb_true_iff in E as [E1%Z.leb_le E2%Z.ltb_lt].
  rewrite (proj2 (Z.ltb_ge _ _)), (proj2 (Z.eqb_neq _ _)) in H by lia. cbn [orb] in H.
  apply limit_from_inv in H as (Hm & Hused & Hav'). destruct Hnroom as (Hok & HW & Ht & _).
  apply charge_room in Hadd; [|lia|done|lia|destruct Hok; lia]. unfold rassert.
  rewrite (proj2 (Z.leb_le _ _)); [done|]. rewrite <- Hused in Hadd.
  pose proof (net_max_small (account_net_usage_average_window (rl_config db)) ltac:(lia) ltac:(lia) ltac:(lia)).
  rewrite wrapU_small in Hm by lia. rewrite wrapU_small by lia. lia.
Qed.

(** A use of the processor and of the network up to what is reported as available is charged,
    provided the guaranteed bytes of the network are not more than the guaranteed
    microseconds. *)
Lemma charge_accepted cpu_limit net_limit :
  get_account_cpu_limit_ex a true db = Ok cpu_limit -> get_account_net_limit_ex a true db = Ok net_limit ->
  limit_max cpu_limit = -1 \/ cpu <= available cpu_limit ->
  limit_max net_limit = -1 \/ net <= available net_limit ->
  exists u', charge_account cpu net slot db a = Ok (with_usages (<[a:=u']> (usages db)) db) /\
    ram_usage u' = ram_usage u.
Proof.
  intros Hc Hn Hcav Hnav.
  destruct (room_add _ _ _ net Hnroom ltac:(lia)) as [n' Hn'], (room_add _ _ _ cpu Hcroom ltac:(lia)) as [c' Hc'].
  set (u' := ResourceUsage n' c' (ram_usage u)).
  assert (Hadd : add_usage cpu net slot db u = Ok u') by (unfold add_usage; rewrite Hn', Hc'; done).
  exists u'. split; [|done]. unfold charge_account. rewrite Hu, Hlimits. cbn [of_option rbind]. rewrite Hadd. cbn [rbind].
  pose proof (cpu_accepted u' _ Hadd Hc Hcav) as Hcc. pose proof (net_accepted u' _ Hadd Hn Hnav) as Hnn.
  unfold check_cpu, check_net in *. cbn [rl_state rl_config gmr with_usages]. by rewrite Hcc, Hnn.
Qed.

(** A use of the processor and of the network up to what is reported as available
    to an account is charged to it without an error. *)
Theorem available_is_accepted cpu_limit net_limit :
  get_account_cpu_limit_ex a true db = Ok cpu_limit -> get_account_net_limit_ex a true db = Ok net_limit ->
  limit_max cpu_limit = -1 \/ cpu <= available cpu_limit ->
  limit_max net_limit = -1 \/ net <= available net_limit ->
  exists u', charge_account cpu net slot db a = Ok (with_usages (<[a:=u']> (usages db)) db) /\
    ram_usage u' = ram_usage u.
Proof. apply charge_accepted. Qed.
End accepted.

(** ** Blocks. *)

(** Parameters for which the arithmetic of a block fits 64 bits. *)
Record elastic_ok (p : elastic_limit_parameters) : Prop := {
  elastic_periods : 0 < periods p < 2 ^ 32;
  elastic_max : 0 <= max p <= max_raw_value;
  elastic_multiplier : 1 <= max_multiplier p;
  elastic_average : (max p * rate_limiting_precision + periods p) * periods p < 2 ^ 63;
  elastic_rate : forall r, r = contract_rate p \/ r = expand_rate p ->
    0 < denominator r /\ 0 < numerator r /\ max p * max_multiplier p * numerator r < 2 ^ 64;
}.

Definition average_ok (p : elastic_limit_parameters) (a : accumulator) : Prop :=
  accumulator_ok a /\ value_ex a <= max p * rate_limiting_precision + periods p /\ consumed a <= 2 ^ 46.

Lemma elastic_bound p : elastic_ok p -> 0 <= max p * max_multiplier p < 2 ^ 64.
Proof. intros [_ ? ? _ Hr]. destruct (Hr _ (or_introl eq_refl)) as (_ & ? & ?). nia. Qed.

Lemma ratio_mul_ok v r :
  0 <= v -> 0 < denominator r -> 0 < numerator r -> v * numerator r < 2 ^ 64 ->
  ratio_mul v r = Ok (v * numerator r / denominator r).
Proof.
  intros Hv Hd Hn Hfit. unfold ratio_mul.
  rewrite (proj2 (Z.leb_le v _)) by (apply Z.div_le_lower_bound; lia). rewrite orb_true_r.
  rewrite (proj2 (Z.eqb_neq (denominator r) 0)) by lia. cbn [rassert rbind negb].
  by rewrite wrapU_small by nia.
Qed.

Lemma update_elastic_limit_ok p cur avg :
  elastic_ok p -> max p <= cur <= max p * max_multiplier p ->
  exists r, (r = if target p <? avg then contract_rate p else expand_rate p) /\
    update_elastic_limit cur avg p =
      Ok (Z.min (Z.max (cur * numerator r / denominator r) (max p)) (max p * max_multiplier p)).
Proof.
  intros Hp Hcur. eexists; split; [done|]. unfold update_elastic_limit.
  pose proof (elastic_bound p Hp). destruct Hp as [_ Hmax Hmul _ Hr].
  destruct (target p <? avg).
  - destruct (Hr _ (or_introl eq_refl)) as (? & ? & ?). rewrite ratio_mul_ok by nia. cbn [rbind].
    by rewrite wrapU_small by lia.
  - destruct (Hr _ (or_intror eq_refl)) as (? & ? & ?). rewrite ratio_mul_ok by nia. cbn [rbind].
    by rewrite wrapU_small by lia.
Qed.

(** A block is added to its average. *)
Lemma average_add p a u n :
  elastic_ok p -> average_ok p a -> 0 <= u <= max p -> last_ordinal a < n < 2 ^ 32 ->
  exists a', add u n (periods p) a = Ok a' /\ average_ok p a' /\ last_ordinal a' = n /\
    (u = 0 -> value_ex a' <= value_ex a).
Proof.
  intros Hp (Hok & Hv & Hc) Hu Hn. pose proof Hp as [HW Hmax _ Hfit _]. pose proof Hok as (Ho & Hv0 & _).
  pose proof (ceil_bounds (u * rate_limiting_precision) (periods p) ltac:(lia)) as Hceil.
  assert (Hup : 0 <= u * rate_limiting_precision <= max p * rate_limiting_precision)
    by (unfold rate_limiting_precision; lia).
  destruct (add_succeeds u n (periods p) a) as [a' Ha']; [lia|done|lia|lia|lia|nia|nia|].
  exists a'. split; [done|]. pose proof Ha' as (b & c & _ & _ & _ & Heq & Hb)%add_inv.
  apply add_spec in Ha' as (_ & Hl & Hok' & Hval); [|lia|done|lia|lia].
  assert (Hrem : periods p * remaining a n (periods p) <= value_ex a * (periods p - 1)).
  { unfold remaining. etransitivity; [apply Z.mul_div_le; lia|]. nia. }
  destruct (remaining_bounds a n (periods p)) as [Hr0 Hr1]; [lia..|].
  split_and!; [split_and!; [done| |]|done|].
  - rewrite Hval. nia.
  - destruct Hb as [(? & _)|(_ & v & Hdec & ->)]; [lia|]. subst a'. cbn [consumed].
    apply decayed_ok in Hdec as ->; [|lia|done|lia]. unfold average. cbn [value_ex].
    pose proof (average_small (remaining a n (periods p)) ltac:(lia)). destruct (max_raw_small u); [lia|].
    rewrite wrapU_small by lia. lia.
  - intros ->. rewrite Hval, Z.mul_0_l. unfold integer_divide_ceil. rewrite Z.div_0_l, Z.mod_0_l by lia. cbn. lia.
Qed.

(** What holds between blocks. *)
Record block_inv db : Prop := {
  block_cpu_ok : elastic_ok (cpu_limit_parameters (rl_config db));
  block_net_ok : elastic_ok (net_limit_parameters (rl_config db));
  block_cpu_average : average_ok (cpu_limit_parameters (rl_config db)) (average_block_cpu_usage (rl_state db));
  block_net_average : average_ok (net_limit_parameters (rl_config db)) (average_block_net_usage (rl_state db));
  block_cpu_pending : 0 <= pending_cpu_usage (rl_state db) <= max (cpu_limit_parameters (rl_config db));
  block_net_pending : 0 <= pending_net_usage (rl_state db) <= max (net_limit_parameters (rl_config db));
  block_cpu_virtual : let p := cpu_limit_parameters (rl_config db) in
    max p <= virtual_cpu_limit (rl_state db) <= max p * max_multiplier p;
  block_net_virtual : let p := net_limit_parameters (rl_config db) in
    max p <= virtual_net_limit (rl_state db) <= max p * max_multiplier p;
}.

(** The blocks processed so far are below [n]. *)
Definition before_block (n : Z) db : Prop :=
  last_ordinal (average_block_cpu_usage (rl_state db)) < n /\ last_ordinal (average_block_net_usage (rl_state db)) < n.

Definition elastic_next (p : elastic_limit_parameters) (cur avg : Z) : Z :=
  let r := if target p <? avg then contract_rate p else expand_rate p in
  Z.min (Z.max (cur * numerator r / denominator r) (max p)) (max p * max_multiplier p).

Lemma process_block_ok db n :
  block_inv db -> before_block n db -> n < 2 ^ 32 ->
  exists db', process_block_usage n db = Ok db' /\ block_inv db' /\ before_block (n + 1) db' /\
    db' = with_state (rl_state db') db /\ pending_cpu_usage (rl_state db') = 0 /\ pending_net_usage (rl_state db') = 0 /\
    (pending_cpu_usage (rl_state db) = 0 ->
     value_ex (average_block_cpu_usage (rl_state db')) <= value_ex (average_block_cpu_usage (rl_state db))) /\
    (pending_net_usage (rl_state db) = 0 ->
     value_ex (average_block_net_usage (rl_state db')) <= value_ex (average_block_net_usage (rl_state db))) /\
    virtual_cpu_limit (rl_state db') = elastic_next (cpu_limit_parameters (rl_config db)) (virtual_cpu_limit (rl_state db))
      (average (average_block_cpu_usage (rl_state db'))) /\
    virtual_net_limit (rl_state db') = elastic_next (net_limit_parameters (rl_config db)) (virtual_net_limit (rl_state db))
      (average (average_block_net_usage (rl_state db'))).
Proof.
  intros [Hc Hn Hca Hna Hcp Hnp Hcv Hnv] [Hb1 Hb2] Hlt. cbn zeta in *.
  destruct (average_add _ _ _ n Hc Hca Hcp ltac:(lia)) as (ac & Hac & Hacok & Hacl & Hac0).
  destruct (average_add _ _ _ n Hn Hna Hnp ltac:(lia)) as (an & Han & Hanok & Hanl & Han0).
  destruct (update_elastic_limit_ok _ _ (average ac) Hc Hcv) as (rc & Hrc & Huc).
  destruct (update_elastic_limit_ok _ _ (average an) Hn Hnv) as (rn & Hrn & Hun).
  eexists. unfold process_block_usage. rewrite Hac. cbn [rbind]. rewrite Huc. cbn [rbind]. rewrite Han. cbn [rbind].
  rewrite Hun. cbn [rbind]. split; [reflexivity|].
  pose proof (elastic_bound _ Hc). pose proof (elastic_bound _ Hn).
  destruct Hc as [? ? ? ? ?] eqn:Hc', Hn as [? ? ? ? ?] eqn:Hn'.
  split_and!; try done; [|split; cbn; lia|cbn; by rewrite Hrc|cbn; by rewrite Hrn].
  split; cbn; try done; nia.
Qed.

(** Operations between the boundaries of blocks, under fixed parameters. *)
Definition in_block (o : resource_op) : Prop :=
  op_ok o /\ match o with OpBlock _ | OpBlockParameters _ _ => False | _ => True end.

(** The part of the state that only the boundary of a block changes. *)
Definition block_part db := (rl_config db, average_block_cpu_usage (rl_state db), average_block_net_usage (rl_state db),
  virtual_cpu_limit (rl_state db), virtual_net_limit (rl_state db)).

Lemma process_pending_block db o db' :
  process_pending db o = Ok db' -> block_part db' = block_part db /\
  pending_cpu_usage (rl_state db') = pending_cpu_usage (rl_state db) /\
  pending_net_usage (rl_state db') = pending_net_usage (rl_state db).
Proof. unfold process_pending. intros H. rinv. done. Qed.

Lemma process_limits_block db db' :
  process_account_limit_updates db = Ok db' -> block_part db' = block_part db /\
  pending_cpu_usage (rl_state db') = pending_cpu_usage (rl_state db) /\
  pending_net_usage (rl_state db') = pending_net_usage (rl_state db).
Proof.
  apply (rfold_inv (fun d => block_part d = block_part db /\
    pending_cpu_usage (rl_state d) = pending_cpu_usage (rl_state db) /\
    pending_net_usage (rl_state d) = pending_net_usage (rl_state db))); [|done].
  intros d x d' _ (H1 & H2 & H3) (H1' & H2' & H3')%process_pending_block. by rewrite H1', H2', H3'.
Qed.

(** The use of a block so far is within its limits. *)
Definition within_block db : Prop :=
  0 <= pending_cpu_usage (rl_state db) <= max (cpu_limit_parameters (rl_config db)) /\
  0 <= pending_net_usage (rl_state db) <= max (net_limit_parameters (rl_config db)).

(** Within a block the pending use is checked against the limit of the block. *)
Lemma in_block_step o db db' :
  in_block o -> within_block db -> apply_op db o = Ok db' -> within_block db' /\ block_part db' = block_part db.
Proof.
  intros [Ho Hin] Hw H.
  destruct o as [b|l cpu net slot|l slot|b d|b r n c| |n|c n|g]; cbn [apply_op op_ok] in *; try done.
  - unfold initialize_account in H. by rinv.
  - destruct Ho as [Hnd _]. apply add_transaction_usage_inv in H as (db1 & Hf & Hp1 & Hp2 & Hp3 & Hp4 & Heq).
    eapply (charge_all cpu net slot _ within (charge_account_step cpu net slot) ltac:(done)) in Hf as (Heq1 & _); [|done].
    rewrite Heq1 in *. cbn in *. split; [|by rewrite Heq]. unfold within_block. rewrite Hp1, Hp2 in *.
    replace (rl_config db') with (rl_config db) by by rewrite Heq.
    split; (split; [apply wrapU_range; lia|done]).
  - destruct Ho as [Hnd _]. unfold update_account_usage in H.
    eapply (charge_all 0 0 slot _ (fun _ _ _ => True)) in H as (-> & _); [|intros; by apply update_usage_step|done..].
    done.
  - unfold add_pending_ram_usage in H. by destruct (d =? 0); rinv.
  - unfold set_account_limits in H. by rinv.
  - apply process_limits_block in H as (Hb & H1 & H2). split; [|done]. injection Hb as Hb ? ? ? ?.
    unfold within_block. by rewrite H1, H2, Hb.
  - unfold set_gmr_parameters in H. by rinv.
Qed.

Lemma in_block_run ops db db' :
  Forall in_block ops -> within_block db -> rfold apply_op db ops = Ok db' -> within_block db' /\ block_part db' = block_part db.
Proof.
  intros Hops Hw. apply (rfold_inv (fun d => within_block d /\ block_part d = block_part db)); [|done].
  intros d o d' Ho [Hd Hpart] Hstep. apply (proj1 (Forall_forall _ _) Hops) in Ho.
  apply in_block_step in Hstep as [Hd' Hpart']; [|done..]. by rewrite Hpart'.
Qed.

(** ** Recovery. *)

(** Blocks without transactions. *)
Fixpoint idle_blocks (n : Z) (k : nat) db : result resource_db :=
  match k with
  | O => Ok db
  | S k => (let* db := process_block_usage n db in idle_blocks (n + 1) k db)%res
  end.

(** The least growth of a limit per block. *)
Definition growth (p : elastic_limit_parameters) : Z :=
  max p * (numerator (expand_rate p) - denominator (expand_rate p)) / denominator (expand_rate p).

Lemma elastic_grows p cur avg g :
  elastic_ok p -> avg <= target p -> denominator (expand_rate p) <= numerator (expand_rate p) -> max p <= cur ->
  Z.min g (max p * max_multiplier p) <= cur ->
  Z.min (g + growth p) (max p * max_multiplier p) <= elastic_next p cur avg.
Proof.
  intros Hp Havg Hr Hcur Hg. unfold elastic_next. rewrite (proj2 (Z.ltb_ge _ _)) by done.
  destruct Hp as [_ Hmax _ _ Hrate]. destruct (Hrate _ (or_intror eq_refl)) as (Hd & _ & _).
  assert (0 <= growth p) by (apply Z.div_pos; nia).
  assert (cur + growth p <= cur * numerator (expand_rate p) / denominator (expand_rate p)); [|lia].
  unfold growth. apply Z.div_le_lower_bound; [done|].
  pose proof (Z.mul_div_le (max p * (numerator (expand_rate p) - denominator (expand_rate p))) _ Hd). nia.
Qed.

Lemma average_mono v w : v <= w -> integer_divide_ceil v rate_limiting_precision <= integer_divide_ceil w rate_limiting_precision.
Proof.
  intros H. pose proof (ceil_bounds v rate_limiting_precision ltac:(done)).
  pose proof (ceil_bounds w rate_limiting_precision ltac:(done)). unfold rate_limiting_precision in *. nia.
Qed.

Record idle_at (c : resource_limits_config) (gc gn n : Z) db : Prop := {
  idle_inv : block_inv db;
  idle_before : before_block n db;
  idle_config : rl_config db = c;
  idle_pending : pending_cpu_usage (rl_state db) = 0 /\ pending_net_usage (rl_state db) = 0;
  idle_cpu : average (average_block_cpu_usage (rl_state db)) <= target (cpu_limit_parameters c);
  idle_net : average (average_block_net_usage (rl_state db)) <= target (net_limit_parameters c);
  idle_gc : Z.min gc (max (cpu_limit_parameters c) * max_multiplier (cpu_limit_parameters c)) <= virtual_cpu_limit (rl_state db);
  idle_gn : Z.min gn (max (net_limit_parameters c) * max_multiplier (net_limit_parameters c)) <= virtual_net_limit (rl_state db);
}.

Section recovery.
Context (c : resource_limits_config).
Hypothesis Hc : denominator (expand_rate (cpu_limit_parameters c)) <= numerator (expand_rate (cpu_limit_parameters c)).
Hypothesis Hn : denominator (expand_rate (net_limit_parameters c)) <= numerator (expand_rate (net_limit_parameters c)).

Lemma idle_step gc gn n db :
  idle_at c gc gn n db -> n < 2 ^ 32 ->
  exists db', process_block_usage n db = Ok db' /\ idle_at c (gc + growth (cpu_limit_parameters c)) (gn + growth (net_limit_parameters c)) (n + 1) db'.
Proof.
  intros [Hinv Hb Hcfg [Hp1 Hp2] Hac Han Hgc Hgn] Hlt.
  destruct (process_block_ok db n Hinv Hb Hlt) as (db' & H & Hinv' & Hb' & Heq & Hp1' & Hp2' & Hv1 & Hv2 & Hl1 & Hl2).
  specialize (Hv1 Hp1). specialize (Hv2 Hp2). apply average_mono in Hv1, Hv2.
  assert (Hcfg' : rl_config db' = c) by (by rewrite Heq).
  exists db'. split; [done|]. destruct Hinv as [Hec Hen _ _ _ _ Hvc Hvn]. rewrite Hcfg in *.
  unfold average in *. split; try done; unfold average; try lia.
  - rewrite Hl1. apply elastic_grows; [done|lia|done|apply Hvc|done].
  - rewrite Hl2. apply elastic_grows; [done|lia|done|apply Hvn|done].
Qed.

Lemma idle_run k : forall gc gn n db,
  idle_at c gc gn n db -> n + Z.of_nat k <= 2 ^ 32 ->
  exists db', idle_blocks n k db = Ok db' /\
    idle_at c (gc + Z.of_nat k * growth (cpu_limit_parameters c)) (gn + Z.of_nat k * growth (net_limit_parameters c)) (n + Z.of_nat k) db'.
Proof.
  induction k as [|k IH]; intros gc gn n db H Hlt; cbn [idle_blocks].
  { exists db. split; [done|]. by rewrite !Z.mul_0_l, !Z.add_0_r. }
  destruct (idle_step gc gn n db H) as (db1 & H1 & Hi); [lia|]. rewrite H1. cbn [rbind].
  destruct (IH _ _ _ _ Hi) as (db' & H' & Hi'); [lia|]. exists db'. split; [done|].
  replace (gc + Z.of_nat (S k) * growth (cpu_limit_parameters c)) with (gc + growth (cpu_limit_parameters c) + Z.of_nat k * growth (cpu_limit_parameters c)) by lia.
  replace (gn + Z.of_nat (S k) * growth (net_limit_parameters c)) with (gn + growth (net_limit_parameters c) + Z.of_nat k * growth (net_limit_parameters c)) by lia.
  by replace (n + Z.of_nat (S k)) with (n + 1 + Z.of_nat k) by lia.
Qed.
End recovery.

(** When the averages are at most the targets, the limits of a chain without transactions
    grow to the full multiple of the maximum of a block, in a number of blocks that follows
    from the rate of growth. *)
(** On a chain without transactions whose averages are at most their targets, the
    virtual limits grow to the full multiple of the maximum of a block, within a
    number of blocks given by the rate of growth. *)
Theorem idle_limits_recover db n k :
  let pc := cpu_limit_parameters (rl_config db) in
  let pn := net_limit_parameters (rl_config db) in
  block_inv db -> before_block n db -> n + Z.of_nat k <= 2 ^ 32 ->
  pending_cpu_usage (rl_state db) = 0 -> pending_net_usage (rl_state db) = 0 ->
  average (average_block_cpu_usage (rl_state db)) <= target pc ->
  average (average_block_net_usage (rl_state db)) <= target pn ->
  denominator (expand_rate pc) <= numerator (expand_rate pc) ->
  denominator (expand_rate pn) <= numerator (expand_rate pn) ->
  max pc * (max_multiplier pc - 1) <= Z.of_nat k * growth pc ->
  max pn * (max_multiplier pn - 1) <= Z.of_nat k * growth pn ->
  exists db', idle_blocks n k db = Ok db' /\
    get_virtual_block_cpu_limit db' = max pc * max_multiplier pc /\
    get_virtual_block_net_limit db' = max pn * max_multiplier pn.
Proof.
  intros pc pn Hinv Hb Hk Hp1 Hp2 Ha1 Ha2 Hc Hn Hkc Hkn.
  destruct (idle_run (rl_config db) Hc Hn k (max pc) (max pn) n db) as (db' & H & Hi); [|lia|].
  { pose proof Hinv as [_ _ _ _ _ _ Hv1 Hv2]. cbn zeta in *. split; try done; unfold pc, pn in *; lia. }
  exists db'. split; [done|]. destruct Hi as [Hinv' _ Hcfg _ _ _ Hgc Hgn]. destruct Hinv' as [_ _ _ _ _ _ Hvc Hvn].
  rewrite Hcfg in *. unfold get_virtual_block_cpu_limit, get_virtual_block_net_limit, pc, pn in *. cbn zeta in *. lia.
Qed.

(** ** Memory. *)
Definition op_ram (a : Z) (o : resource_op) : Z :=
  match o with OpRam b delta => if decide (b = a) then delta else 0 | _ => 0 end.
Fixpoint ram_deltas (a : Z) (ops : list resource_op) : Z :=
  match ops with [] => 0 | o :: ops => op_ram a o + ram_deltas a ops end.

Lemma ram_deltas_snoc a ops o : ram_deltas a (ops ++ [o]) = ram_deltas a ops + op_ram a o.
Proof. induction ops as [|o' ops IH]; cbn; lia. Qed.

Definition ram_in_range (o : resource_op) : Prop :=
  match o with OpRam _ delta => - 2 ^ 63 <= delta < 2 ^ 63 | _ => True end.

Definition ram_of a db : Z := match usages db !! a with Some u => ram_usage u | None => 0 end.

Lemma negated_fits d : - 2 ^ 63 <= d < 0 -> u64 (i64 (- d)) = - d.
Proof.
  intros Hd. destruct (decide (d = - 2 ^ 63)) as [->|]; [done|].
  rewrite wrapS_small by lia. apply wrapU_small. lia.
Qed.

Lemma add_pending_ram_ok b d db db' :
  - 2 ^ 63 <= d < 2 ^ 63 -> 0 <= ram_of b db < 2 ^ 64 -> add_pending_ram_usage b d db = Ok db' ->
  ram_of b db' = ram_of b db + d /\ 0 <= ram_of b db' < 2 ^ 64 /\ forall a, a <> b -> ram_of a db' = ram_of a db.
Proof.
  intros Hd Hr H. unfold add_pending_ram_usage in H.
  destruct (Z.eqb_spec d 0) as [->|Hne]; rinv; [split_and!; [lia|lia|lia|done]|].
  unfold ram_of in *. cbn [usages with_usages]. rewrite lookup_insert_eq. cbn [ram_usage].
  match goal with E : usages db !! b = Some _ |- _ => rewrite E in * end.
  assert (Hfit : 0 <= ram_usage a + d < 2 ^ 64).
  { destruct (Z.lt_ge_cases d 0); rewrite ?negated_fits in * by lia;
      repeat match goal with H : _ || _ = true |- _ => apply orb_true_iff in H as [H|H] end; rinv; lia. }
  rewrite wrapU_small by done. split_and!; [done|lia|lia|]. intros a' Ha'. by rewrite lookup_insert_ne by done.
Qed.

Lemma ram_of_charges (l : list Z) cpu net slot Q db db1 a :
  (forall a, a ∉ l -> usages db1 !! a = usages db !! a) ->
  (forall a, a ∈ l -> exists u u', usages db !! a = Some u /\ add_usage cpu net slot db u = Ok u' /\ Q db a u' /\
     usages db1 !! a = Some u') -> ram_of a db1 = ram_of a db.
Proof.
  intros Hout Hin. unfold ram_of. destruct (decide (a ∈ l)) as [Ha|Ha]; [|by rewrite Hout].
  destruct (Hin a Ha) as (u & u' & -> & (_ & _ & Hr)%add_usage_inv & _ & ->). done.
Qed.

Lemma ram_step o db db' a :
  op_ok o -> ram_in_range o -> (forall a, 0 <= ram_of a db < 2 ^ 64) -> apply_op db o = Ok db' ->
  ram_of a db' = ram_of a db + op_ram a o /\ 0 <= ram_of a db' < 2 ^ 64.
Proof.
  intros Ho Hrange Hr H. specialize (Hr a) as Ha.
  destruct o as [b|l cpu net slot|l slot|b d|b r n c| |n|c n|g]; cbn [apply_op op_ok op_ram] in *.
  - unfold initialize_account in H. rinv. unfold ram_of in *. cbn. destruct (decide (a = b)) as [->|Hne].
    + match goal with E : usages db !! b = None |- _ => rewrite E in * end. rewrite lookup_insert_eq. cbn. lia.
    + rewrite lookup_insert_ne by done. lia.
  - destruct Ho as [Hnd _]. apply add_transaction_usage_inv in H as (db1 & Hf & _ & _ & _ & _ & Heq).
    eapply (charge_all cpu net slot _ within (charge_account_step cpu net slot) ltac:(done)) in Hf as (_ & Hout & Hin); [|done].
    rewrite Heq. change (ram_of a (with_state _ db1)) with (ram_of a db1).
    rewrite (ram_of_charges l cpu net slot within db db1 a Hout Hin). lia.
  - destruct Ho as [Hnd _]. unfold update_account_usage in H.
    eapply (charge_all 0 0 slot _ (fun _ _ _ => True)) in H as (_ & Hout & Hin); [|intros; by apply update_usage_step|done..].
    rewrite (ram_of_charges l 0 0 slot (fun _ _ _ => True) db db' a Hout Hin). lia.
  - apply add_pending_ram_ok in H as (H1 & H2 & H3); [|done|done].
    case_decide as E; [subst; lia|]. rewrite H3 by congruence. lia.
  - unfold set_account_limits in H. rinv. change (ram_of a (with_limits _ _ db)) with (ram_of a db). lia.
  - apply process_limits_usages in H as [Hu _]. unfold ram_of in *. rewrite Hu. lia.
  - unfold process_block_usage in H. rinv. change (ram_of a (with_state _ db)) with (ram_of a db). lia.
  - unfold set_block_parameters in H. rinv. change (ram_of a (with_config _ db)) with (ram_of a db). lia.
  - unfold set_gmr_parameters in H. rinv. change (ram_of a (with_gmr _ db)) with (ram_of a db). lia.
Qed.

(** The memory recorded for an account is the sum of what it was charged and refunded, and
    never leaves the range of 64 bits. *)
Theorem ram_usage_exact stakes rent ops db (a : Z) :
  Forall (fun o => op_ok o /\ ram_in_range o) ops -> rfold apply_op (initialize_database stakes rent) ops = Ok db ->
  ram_of a db = ram_deltas a ops /\ 0 <= ram_of a db < 2 ^ 64.
Proof.
  revert db a. induction ops as [|o ops IH] using rev_ind; intros db a Hops H.
  - cbn in H. rinv. done.
  - apply Forall_app in Hops as [Hops Ho]. rewrite rfold_app in H. apply rbind_ok in H as (db1 & H1 & H2).
    cbn in H2. apply rbind_ok in H2 as (db2 & H2 & H3). rinv. inversion Ho as [|? ? [Hok Hr] _]; subst.
    rewrite ram_deltas_snoc. destruct (ram_step o db1 db a Hok Hr) as [-> ?]; [intros; by apply IH|done|].
    rewrite (proj1 (IH db1 a Hops H1)). rewrite <- (proj1 (IH db1 a Hops H1)). done.
Qed.

(** * Examples. *)
Definition rx_setup : list resource_op :=
  [OpAccount 5; OpAccount 6; OpLimits 5 (-1) 0 0; OpLimits 6 (-1) 1 1; OpProcessLimits].
Definition rx_ops : list resource_op :=
  rx_setup ++ [OpRam 5 300; OpTransaction [5; 6] 800 400 7; OpRam 5 (-100); OpTransaction [5] 1000 500 10].
Definition rx_run_db (ops : list resource_op) : resource_db :=
  match rfold apply_op (initialize_database ∅ None) ops with Ok d => d | Err _ => initialize_database ∅ None end.

Lemma rx_ops_ok : Forall (fun o => op_ok o /\ ram_in_range o) rx_ops.
Proof. repeat constructor; cbn; try lia; set_solver. Qed.
Lemma rx_run : rfold apply_op (initialize_database ∅ None) rx_ops = Ok (rx_run_db rx_ops).
Proof. vm_compute. reflexivity. Qed.

(** The check of a transaction grants the guaranteed minimum of the processor in place of
    that of the network: an account told that 10240 bytes are left is charged 200000. *)
(** The check of a transaction's use of the network grants the guaranteed minimum
    of the processor: an account told that 10240 bytes are left is charged 200000
    bytes. *)
Theorem net_minimum_mistaken :
  get_account_net_limit 5 true (rx_run_db rx_setup) = Ok 10240 /\
  exists db, add_transaction_usage [5] 100 200000 11 (rx_run_db rx_setup) = Ok db.
Proof. split; [vm_compute; reflexivity|]. eexists. vm_compute. reflexivity. Qed.

Lemma ram_usage_exact_witness : ram_of 5 (rx_run_db rx_ops) = 200.
Proof. apply (ram_usage_exact ∅ None rx_ops _ 5 rx_ops_ok rx_run). Defined.

Lemma rx_ops_types : Forall op_ok rx_ops.
Proof. eapply Forall_impl; [apply rx_ops_ok|]. naive_solver. Qed.

Lemma use_of_window_witness :
  rate_limiting_precision * weighted_use [(1000, 10); (800, 7)] 10 86400
    <= 86400 * ((200000 + 1) * rate_limiting_precision + 86400 * 2).
Proof.
  apply (use_of_window ∅ None (rx_setup ++ [OpRam 5 300; OpTransaction [5; 6] 800 400 7; OpRam 5 (-100)])
    [5] 1000 500 10 5 (rx_run_db rx_ops) (AccountResourceLimit 1801 198199 200000)).
  - apply rx_ops_types.
  - apply rx_run.
  - set_solver.
  - vm_compute. reflexivity.
  - cbn. lia.
Defined.

Lemma rx_setup_inv : totals_inv (rx_run_db (take 4 rx_setup)).
Proof.
  apply (totals_inv_run ∅ None (take 4 rx_setup)); [|vm_compute; reflexivity].
  repeat constructor.
Qed.

Lemma pending_limits_applied_witness :
  exists db', process_account_limit_updates (rx_run_db (take 4 rx_setup)) = Ok db' /\ pending_limits db' = ∅.
Proof.
  destruct (pending_limits_applied (rx_run_db (take 4 rx_setup)) rx_setup_inv) as (db' & H & _ & Hp & _).
  - intros f Hf. repeat (apply elem_of_cons in Hf as [->|Hf]; [vm_compute; discriminate|]). by apply elem_of_nil in Hf.
  - by exists db'.
Defined.

Lemma available_is_accepted_witness :
  exists u', charge_account 1000 10240 12 (rx_run_db rx_setup) 5 =
    Ok (with_usages (<[5:=u']> (usages (rx_run_db rx_setup))) (rx_run_db rx_setup)) /\ ram_usage u' = 0.
Proof.
  apply (available_is_accepted (rx_run_db rx_setup) 5 (ResourceUsage empty_accumulator empty_accumulator 0)
    1000 10240 12 8192 0 0) with (cpu_limit := AccountResourceLimit 0 200000 200000)
    (net_limit := AccountResourceLimit 0 10240 10240);
    first [vm_compute; reflexivity|right; cbn; lia|
           unfold room, accumulator_ok, rate_limiting_precision; vm_compute; intuition discriminate|vm_compute; intuition discriminate].
Defined.

Lemma default_elastic_ok p : p = default_cpu_parameters \/ p = default_net_parameters -> elastic_ok p.
Proof.
  intros [->| ->]; (split; [vm_compute; intuition discriminate..|]);
    intros r [->| ->]; vm_compute; intuition discriminate.
Qed.

Lemma initial_block_inv stakes rent : block_inv (initialize_database stakes rent).
Proof.
  split; try (apply default_elastic_ok; auto); unfold average_ok, accumulator_ok; vm_compute; intuition discriminate.
Qed.

Lemma idle_limits_recover_witness :
  exists db', idle_blocks 1 (Z.to_nat 1000000) (initialize_database ∅ None) = Ok db' /\
    get_virtual_block_cpu_limit db' = 1000000000 /\ get_virtual_block_net_limit db' = 1048576000.
Proof.
  apply (idle_limits_recover (initialize_database ∅ None) 1 (Z.to_nat 1000000)).
  - apply initial_block_inv.
  - by split.
  - rewrite Z2Nat.id by lia. lia.
  - done.
  - done.
  - vm_compute. discriminate.
  - vm_compute. discriminate.
  - vm_compute. discriminate.
  - vm_compute. discriminate.
  - rewrite Z2Nat.id by lia. vm_compute. discriminate.
  - rewrite Z2Nat.id by lia. vm_compute. discriminate.
Defined.
