(* ===== verification/RelayToken.v ===== *)
(** * The contract for tokens of other chains, [contracts/relay.token].

    The tables [accounts], [accountid], [stat], [reward] and [minereward], one definition
    per action and helper of [relay.token.cpp], and the dispatch of its [EOSIO_ABI].  A
    holder earns a share of the mining rewards by the age of the tokens it holds, the
    amount times the number of blocks.  The average price of a token is read from the
    tables of the exchange contract; it is a parameter of [rewardmine]. *)
From stdpp Require Import base gmap list.
From Stdlib Require Import ZArith Lia Ascii String.
From stdpp Require Import strings.
From S2P Require Import Prelude Name Asset Runtime Token.

Open Scope Z_scope.

Module Relay.

(** ** State. *)
Record account := Account {
  balance : asset;
  acc_chain : Z;
  mineage : Z;
  mineage_update_height : Z;
  reward : asset;
}.

Record reward_mine_info := RewardMine {
  rm_total_mineage : Z;
  reward_pool : asset;
  reward_block_num : Z;
}.

Record currency_stats := CurrencyStats {
  supply : asset;
  max_supply : asset;
  issuer : Z;
  chain : Z;
  side_account : Z;
  side_action : Z;
  total_mineage : Z;
  total_mineage_update_height : Z;
  reward_scope : Z;
  reward_size : Z;
}.

Record reward_currency := RewardCurrency {
  rc_chain : Z;
  rc_supply : asset;
  reward_now : bool;
}.

(** [accounts] by (owner, id), [accountid] by owner, [stat] by (chain, symbol name),
    [reward] by id, [minereward] by (reward scope, block). *)
Record state := State {
  accounts : gmap (Z * Z) account;
  account_ids : gmap Z Z;
  stats : gmap (Z * Z) currency_stats;
  rewards : gmap Z reward_currency;
  reward_mine : gmap (Z * Z) reward_mine_info;
}.

Abbreviation accounts_t := (View accounts (fun m s => State m (account_ids s) (stats s) (rewards s) (reward_mine s))) (only parsing).
Abbreviation ids_t := (View account_ids (fun m s => State (accounts s) m (stats s) (rewards s) (reward_mine s))) (only parsing).
Abbreviation stats_t := (View stats (fun m s => State (accounts s) (account_ids s) m (rewards s) (reward_mine s))) (only parsing).
Abbreviation rewards_t := (View rewards (fun m s => State (accounts s) (account_ids s) (stats s) m (reward_mine s))) (only parsing).
Abbreviation mine_t := (View reward_mine (fun m s => State (accounts s) (account_ids s) (stats s) (rewards s) m)) (only parsing).

Definition COIN_REWARD_RECORD_SIZE : Z := 360.
Definition relay_account_name : Z := Eval vm_compute in N_ "force.relay".

(** [get_account_idx]. *)
Definition get_account_idx (chain : Z) (a : asset) : Z := u128 (Z.shiftl chain 64 + Sym.name (symbol a)).

(** ** The index by chain and symbol: its first row, with its primary key. *)
Definition first_match (key : Z) (rows : gmap (Z * Z) account) (owner : Z) : option (Z * account) :=
  head (omap (fun id => a ← rows !! (owner, id);
                        if get_account_idx (acc_chain a) (balance a) =? key then Some (id, a) else None)
             (scope_keys rows owner)).

Definition find_bychain (owner key : Z) : M state (option (Z * account)) :=
  rows ← all_rows accounts_t; mret (first_match key rows owner).
Definition get_bychain (owner key : Z) : M state (Z * account) :=
  r ← find_bychain owner key; lift (of_option r "no balance object found").

Definition first_reward (key : Z) (rows : gmap Z reward_currency) : option (Z * reward_currency) :=
  head (omap (fun id => c ← rows !! id;
                        if get_account_idx (rc_chain c) (rc_supply c) =? key then Some (id, c) else None)
             (sorted_keys rows)).

(** ** Mining rewards of a holder. *)

(** [amount * blocks] in [int64_t]. *)
Definition age (amount from to : Z) : Z := i64 (amount * u32 (to - from)).

(** One record of the loop of [settle_user]: the height and the age not yet settled, the
    reward, and whether a record was crossed. *)
Definition settle_record (scope bal : Z) (acc : Z * Z * asset * bool) (k : Z) : M state (Z * Z * asset * bool) :=
  let '(last_update_height, last_mineage, total_reward, cross_day) := acc in
  it ← get mine_t (scope, k) "no such row";
  if (last_update_height <? u32 (reward_block_num it)) && (0 <? rm_total_mineage it) then
    let m := i128 (last_mineage + age bal last_update_height (reward_block_num it)) in
    part ← lift (asset_mul (reward_pool it) (i64 m));
    r ← lift (asset_div part (i64 (rm_total_mineage it)));
    total_reward ← lift (asset_add total_reward r);
    pool ← lift (asset_sub (reward_pool it) r);
    modify mine_t (scope, k) (RewardMine (i128 (rm_total_mineage it - m)) pool (reward_block_num it));;
    mret (u32 (reward_block_num it), 0, total_reward, true)
  else mret acc.

Definition settle_user (owner chain_ : Z) (value : asset) : M state unit :=
  '(id, from) ← get_bychain owner (get_account_idx chain_ value);
  eosio_assert (acc_chain from =? chain_) "symbol chain mismatch";;
  existing ← find stats_t (chain_, Sym.name (symbol value));
  existing ← lift (of_option existing "settle wrong can not find stat");
  zero ← lift (core_asset 0);
  records ← all_rows mine_t;
  acc ← mfor (settle_record (reward_scope existing) (amount (balance from)))
          (mineage_update_height from, mineage from, zero, false) (scope_keys records (reward_scope existing));
  let '(last_update_height, _, total_reward, cross_day) := acc in
  e ← ask;
  reward' ← lift (asset_add (reward from) total_reward);
  let grown := age (amount (balance from)) last_update_height (current_block_num e) in
  modify accounts_t (owner, id)
    (Account (balance from) (acc_chain from) (if cross_day : bool then grown else i128 (mineage from + grown))
       (current_block_num e) reward').

(** ** Balances. *)
Definition with_balance (a : account) (b : asset) : account :=
  Account b (acc_chain a) (mineage a) (mineage_update_height a) (reward a).

(** The source gives [modify] a copy of the row, [auto from = idx.get( .. )], where the table
    library asserts a row of the table; the copy is taken for the row, as the code means. *)
Definition sub_balance (owner chain_ : Z) (value : asset) : M state unit :=
  settle_user owner chain_ value;;
  '(id, from) ← get_bychain owner (get_account_idx chain_ value);
  eosio_assert (amount value <=? amount (balance from)) "overdrawn balance";;
  eosio_assert (acc_chain from =? chain_) "symbol chain mismatch";;
  b ← lift (asset_sub (balance from) value);
  modify accounts_t (owner, id) (with_balance from b).

(** The id of a new row, and the next one. *)
Definition next_account_id (owner : Z) : M state Z :=
  ids ← find ids_t owner;
  match ids with
  | None => emplace ids_t owner 2;; mret 1
  | Some id => modify ids_t owner (u64 (id + 1));; mret id
  end.

Definition add_balance (owner chain_ : Z) (value : asset) : M state unit :=
  to ← find_bychain owner (get_account_idx chain_ value);
  match to with
  | None =>
      id ← next_account_id owner;
      e ← ask;
      zero ← lift (core_asset 0);
      emplace accounts_t (owner, id) (Account value chain_ 0 (current_block_num e) zero)
  | Some _ =>
      settle_user owner chain_ value;;
      '(id, to) ← get_bychain owner (get_account_idx chain_ value);
      b ← lift (asset_add (balance to) value);
      modify accounts_t (owner, id) (with_balance to b)
  end.

(** ** Actions. *)

(** The total age of a currency at a block. *)
Definition aged (s : currency_stats) (current_block : Z) (supply' : asset) : currency_stats :=
  CurrencyStats supply' (max_supply s) (issuer s) (chain s) (side_account s) (side_action s)
    (i128 (total_mineage s + age (amount (supply s)) (total_mineage_update_height s) current_block))
    current_block (reward_scope s) (reward_size s).

(** An action of the other chain, as [relay::token::action] unpacks it. *)
Record side_transfer := SideTransfer { st_from : Z; st_to : Z; st_quantity : asset; st_memo : string }.

Definition on (chain_ : Z) (data : side_transfer) : M state unit :=
  require_auth relay_account_name;;
  let quantity := st_quantity data in
  let sym := symbol quantity in
  st ← find stats_t (chain_, Sym.name sym);
  match st with
  | None => mret tt
  | Some st =>
      let size := Z.of_nat (String.length (st_memo data)) in
      if negb (Sym.is_valid_symbol sym) || (256 <? size) || negb (is_valid quantity) || (amount quantity <=? 0)
         || negb (sym =? symbol (supply st))
         || (i64 (amount (max_supply st) - amount (supply st)) <? amount quantity)
      then mret tt
      else if (size =? 0) || (13 <=? size) then mret tt
      else
        let to := Lib.string_to_name (Token.c_str (list_ascii_of_string (st_memo data))) in
        exists_to ← is_account to;
        if negb exists_to then mret tt
        else
          e ← ask;
          send (Action (self e) (N_ "issue") [(chain_, active)]
                  (relay_issue_args chain_ to quantity "from chain"))
  end.

Definition create (issuer chain_ side_account side_action : Z) (maximum_supply : asset) : M state unit :=
  require_auth chain_;;
  let sym := symbol maximum_supply in
  eosio_assert (Sym.is_valid_symbol sym) "invalid symbol name";;
  eosio_assert (is_valid maximum_supply) "invalid supply";;
  eosio_assert (0 <? amount maximum_supply) "max-supply must be positive";;
  existing ← find stats_t (chain_, Sym.name sym);
  eosio_assert (match existing with None => true | Some _ => false end) "token with symbol already exists";;
  e ← ask;
  emplace stats_t (chain_, Sym.name sym)
    (CurrencyStats (Asset 0 sym) maximum_supply issuer chain_ side_account side_action 0 (current_block_num e)
       max_amount 0).

Definition issue (chain_ to : Z) (quantity : asset) (memo : string) : M state unit :=
  let sym := symbol quantity in
  eosio_assert (Sym.is_valid_symbol sym) "invalid symbol name";;
  eosio_assert (Z.of_nat (String.length memo) <=? 256) "memo has more than 256 bytes";;
  existing ← find stats_t (chain_, Sym.name sym);
  st ← lift (of_option existing "token with symbol does not exist, create token before issue");
  require_auth (issuer st);;
  eosio_assert (is_valid quantity) "invalid quantity";;
  eosio_assert (0 <? amount quantity) "must issue positive quantity";;
  eosio_assert (symbol quantity =? symbol (supply st)) "symbol precision mismatch";;
  eosio_assert (amount quantity <=? i64 (amount (max_supply st) - amount (supply st)))
    "quantity exceeds available supply";;
  e ← ask;
  supply' ← lift (asset_add (supply st) quantity);
  modify stats_t (chain_, Sym.name sym) (aged st (current_block_num e) supply');;
  add_balance (issuer st) chain_ quantity;;
  if negb (to =? issuer st) then
    send (Action (self e) (N_ "transfer") [(issuer st, active)]
            (relay_transfer_args (issuer st) to chain_ quantity memo))
  else mret tt.

Definition destroy (chain_ from : Z) (quantity : asset) (memo : string) : M state unit :=
  require_auth from;;
  let sym := symbol quantity in
  eosio_assert (Sym.is_valid_symbol sym) "invalid symbol name";;
  eosio_assert (Z.of_nat (String.length memo) <=? 256) "memo has more than 256 bytes";;
  existing ← find stats_t (chain_, Sym.name sym);
  st ← lift (of_option existing "token with symbol does not exist, create token before issue");
  eosio_assert (is_valid quantity) "invalid quantity";;
  eosio_assert (0 <? amount quantity) "must issue positive quantity";;
  eosio_assert (symbol quantity =? symbol (supply st)) "symbol precision mismatch";;
  eosio_assert (amount quantity <=? amount (supply st)) "quantity exceeds available supply";;
  e ← ask;
  supply' ← lift (asset_sub (supply st) quantity);
  modify stats_t (chain_, Sym.name sym) (aged st (current_block_num e) supply');;
  sub_balance from chain_ quantity.

Definition transfer (from to chain_ : Z) (quantity : asset) (memo : string) : M state unit :=
  eosio_assert (negb (from =? to)) "cannot transfer to self";;
  require_auth from;;
  exists_to ← is_account to;
  eosio_assert exists_to "to account does not exist";;
  st ← get stats_t (chain_, Sym.name (symbol quantity)) "unable to find key";
  require_recipient from;;
  require_recipient to;;
  eosio_assert (is_valid quantity) "invalid quantity";;
  eosio_assert (0 <? amount quantity) "must transfer positive quantity";;
  eosio_assert (symbol quantity =? symbol (supply st)) "symbol precision mismatch";;
  eosio_assert (chain_ =? chain st) "symbol chain mismatch";;
  eosio_assert (Z.of_nat (String.length memo) <=? 256) "memo has more than 256 bytes";;
  sub_balance from chain_ quantity;;
  add_balance to chain_ quantity.

(** [enum class trade_type]. *)
Definition trade_type_match : Z := 1.
Definition trade_type_bridge_addmortgage : Z := 2.
Definition trade_type_bridge_exchange : Z := 3.

(** The memo formats are those of the token contract. *)
Definition trade (from to chain_ : Z) (quantity : asset) (type : Z) (memo : string) : M state unit :=
  if (type =? trade_type_bridge_addmortgage) && (to =? config.bridge_account_name) then
    transfer from to chain_ quantity memo;;
    bri_add ← lift (Token.parse_addmort memo);
    send (Action config.bridge_account_name (N_ "addmortgage") [(config.bridge_account_name, active)]
            (bridge_addmortgage_args (Token.am_trade_name bri_add) (Token.am_trade_maker bri_add)
               from chain_ quantity (Token.am_type bri_add)))
  else if (type =? trade_type_bridge_exchange) && (to =? config.bridge_account_name) then
    transfer from to chain_ quantity memo;;
    bri ← lift (Token.parse_exchange memo);
    send (Action config.bridge_account_name (N_ "exchange") [(config.bridge_account_name, active)]
            (bridge_exchange_args (Token.ex_trade_name bri) (Token.ex_trade_maker bri) from (Token.ex_recv bri)
               chain_ quantity (Token.ex_type bri)))
  else if (type =? trade_type_match) && (to =? config.match_account_name) then
    e ← ask;
    send (Action (self e) (N_ "transfer") [(from, active)] (relay_transfer_args from to chain_ quantity memo))
  else eosio_assert false "invalid trade type".

(** ** Mining. *)
Definition with_reward (s : currency_stats) (scope size : Z) : currency_stats :=
  CurrencyStats (supply s) (max_supply s) (issuer s) (chain s) (side_account s) (side_action s) (total_mineage s)
    (total_mineage_update_height s) scope size.

(** The primary key of a record: an [int32_t] as [uint64_t]. *)
Definition record_key (block_num : Z) : Z := u64 (i32 block_num).

Definition addreward (chain_ : Z) (supply_ : asset) (reward_now_ : Z) : M state unit :=
  e ← ask;
  require_auth (self e);;
  let sym := symbol supply_ in
  eosio_assert (Sym.is_valid_symbol sym) "invalid symbol name";;
  existing ← find stats_t (chain_, Sym.name sym);
  st ← lift (of_option existing "token with symbol do not exists");
  rows ← all_rows rewards_t;
  eosio_assert (match first_reward (get_account_idx chain_ supply_) rows with None => true | Some _ => false end)
    "token with symbol already exists";;
  reward_id ← lift (available_primary_key rows);
  emplace rewards_t reward_id (RewardCurrency chain_ supply_ (reward_now_ =? 1));;
  modify stats_t (chain_, Sym.name sym) (with_reward st reward_id 1);;
  let current_block := current_block_num e in
  info ← find mine_t (reward_id, u64 current_block);
  eosio_assert (match info with None => true | Some _ => false end) "the reward info already exist";;
  zero ← lift (core_asset 0);
  emplace mine_t (reward_id, record_key current_block) (RewardMine 0 zero (i32 current_block)).

Fixpoint precision_loop (fuel : nat) (p p10 : Z) : Z :=
  match fuel with
  | O => p10
  | S fuel => if 0 <? p then precision_loop fuel (p - 1) (i64 (p10 * 10)) else p10
  end.
Definition precision (decimals : Z) : Z := precision_loop (Z.to_nat decimals) decimals 1.

(** The age of a currency's holders in the current cycle, valued at its price. *)
Section rewardmine.
Context (get_avg_price : Z -> Z -> Z -> result Z).   (* block, chain, symbol *)

Definition mining_power (current_block id : Z) : M state (Z * reward_mine_info * Z) :=
  it ← get rewards_t id "no such row";
  existing ← find stats_t (rc_chain it, Sym.name (symbol (rc_supply it)));
  existing ← lift (of_option existing "token with symbol already exists");
  price ← lift (get_avg_price current_block (chain existing) (symbol (supply existing)));
  info ← get mine_t (reward_scope existing, u64 current_block) "no reward record of this block";
  prec ← lift (let p := precision (Sym.precision (symbol (supply existing))) in
               if p =? 0 then Err "division by zero" else Ok p);
  mret (reward_scope existing, info, Z.quot (i128 (rm_total_mineage info * price)) prec).

Definition add_power (current_block total_power id : Z) : M state Z :=
  '(_, _, power) ← mining_power current_block id;
  mret (u128 (total_power + power)).

Definition divide_reward (current_block total_power : Z) (quantity : asset) (_ : unit) (id : Z) : M state unit :=
  '(scope, info, power) ← mining_power current_block id;
  let devide_amount := u128 (i128 (power * amount quantity)) / total_power in
  pool ← lift (core_asset (i64 devide_amount));
  modify mine_t (scope, u64 current_block) (RewardMine (rm_total_mineage info) pool (reward_block_num info)).

Definition rewardmine (quantity : asset) : M state unit :=
  require_auth config.system_account_name;;
  e ← ask;
  rows ← all_rows rewards_t;
  total_power ← mfor (add_power (current_block_num e)) 0 (sorted_keys rows);
  if total_power =? 0 then mret tt
  else mfor (divide_reward (current_block_num e) total_power quantity) tt (sorted_keys rows).
End rewardmine.

(** Drops the oldest record, and the reward of the second one. *)
Definition drop_oldest (scope : Z) : M state unit :=
  records ← all_rows mine_t;
  match scope_keys records scope with
  | k0 :: k1 :: _ =>
      second ← get mine_t (scope, k1) "no such row";
      zero ← lift (core_asset 0);
      modify mine_t (scope, k1) (RewardMine (rm_total_mineage second) zero (reward_block_num second));;
      erase mine_t (scope, k0)
  | _ => lift (Err "cannot increment end iterator")
  end.

Definition settle_currency (current_block : Z) (_ : unit) (id : Z) : M state unit :=
  it ← get rewards_t id "no such row";
  existing ← find stats_t (rc_chain it, Sym.name (symbol (rc_supply it)));
  match existing with
  | None => mret tt
  | Some st =>
      info ← find mine_t (reward_scope st, u64 current_block);
      eosio_assert (match info with None => true | Some _ => false end) "reward info already exist";;
      zero ← lift (core_asset 0);
      emplace mine_t (reward_scope st, record_key current_block)
        (RewardMine (i128 (total_mineage st + amount (supply st) * u32 (current_block - total_mineage_update_height st)))
           zero (i32 current_block));;
      (if reward_size st =? COIN_REWARD_RECORD_SIZE then drop_oldest (reward_scope st) else mret tt);;
      modify stats_t (rc_chain it, Sym.name (symbol (rc_supply it)))
        (CurrencyStats (supply st) (max_supply st) (issuer st) (chain st) (side_account st) (side_action st) 0
           current_block (reward_scope st)
           (if negb (reward_size st =? COIN_REWARD_RECORD_SIZE) then i32 (reward_size st + 1) else reward_size st))
  end.

Definition settlemine (system_account : Z) : M state unit :=
  require_auth config.system_account_name;;
  e ← ask;
  rows ← all_rows rewards_t;
  mfor (settle_currency (current_block_num e)) tt (sorted_keys rows).

Definition activate (_ : unit) (id : Z) : M state unit :=
  it ← get rewards_t id "no such row";
  modify rewards_t id (RewardCurrency (rc_chain it) (rc_supply it) true).

Definition activemine (system_account : Z) : M state unit :=
  require_auth config.system_account_name;;
  rows ← all_rows rewards_t;
  mfor activate tt (sorted_keys rows).

Definition claim (chain_ : Z) (quantity : asset) (receiver : Z) : M state unit :=
  require_auth receiver;;
  let sym := symbol quantity in
  eosio_assert (Sym.is_valid_symbol sym) "invalid symbol name";;
  rows ← all_rows rewards_t;
  eosio_assert (match first_reward (get_account_idx chain_ quantity) rows with None => false | Some _ => true end)
    "token with symbol donot participate in dividends ";;
  existing ← find stats_t (chain_, Sym.name sym);
  _ ← lift (of_option existing "token with symbol already exists");
  settle_user receiver chain_ quantity;;
  '(id, to) ← get_bychain receiver (get_account_idx chain_ quantity);
  eosio_assert (acc_chain to =? chain_) "symbol chain mismatch";;
  let total_reward := reward to in
  zero ← lift (core_asset 0);
  modify accounts_t (receiver, id) (Account (balance to) (acc_chain to) (mineage to) (mineage_update_height to) zero);;
  least ← lift (core_asset 100000);
  enough ← lift (asset_gt total_reward least);
  eosio_assert enough "claim amount must > 10";;
  send (Action config.token_account_name (N_ "castcoin") [(config.reward_account_name, active)]
          (castcoin_args config.reward_account_name receiver total_reward)).

Definition get_supply (chain_ sym : Z) : M state asset :=
  st ← get stats_t (chain_, sym) "unable to find key"; mret (supply st).

(** ** Dispatch: [EOSIO_ABI(relay::token, ...)]. *)
Inductive call : Type :=
| On (chain : Z) (data : side_transfer)
| Create (issuer chain side_account side_action : Z) (maximum_supply : asset)
| Issue (chain to : Z) (quantity : asset) (memo : string)
| Destroy (chain from : Z) (quantity : asset) (memo : string)
| Transfer (from to chain : Z) (quantity : asset) (memo : string)
| Trade (from to chain : Z) (quantity : asset) (type : Z) (memo : string)
| Rewardmine (quantity : asset)
| Addreward (chain : Z) (supply : asset) (reward_now : Z)
| Claim (chain : Z) (quantity : asset) (receiver : Z)
| Settlemine (system_account : Z)
| Activemine (system_account : Z).

Definition apply (get_avg_price : Z -> Z -> Z -> result Z) (c : call) : M state unit :=
  match c with
  | On c d => on c d
  | Create i c sa sc m => create i c sa sc m
  | Issue c t q m => issue c t q m
  | Destroy c f q m => destroy c f q m
  | Transfer f t c q m => transfer f t c q m
  | Trade f t c q ty m => trade f t c q ty m
  | Rewardmine q => rewardmine get_avg_price q
  | Addreward c q n => addreward c q n
  | Claim c q r => claim c q r
  | Settlemine a => settlemine a
  | Activemine a => activemine a
  end.

(** ** The ledger and its invariant. *)

Definition well_typed (a : asset) : Prop := is_s 64 (amount a) /\ is_u 64 (symbol a).

Definition call_typed (c : call) : Prop :=
  match c with
  | On c d => is_u 64 c /\ well_typed (st_quantity d)
  | Create _ c _ _ q | Issue c _ q _ | Destroy c _ q _ | Transfer _ _ c q _ | Trade _ _ c q _ _
  | Addreward c q _ | Claim c q _ => is_u 64 c /\ well_typed q
  | Rewardmine q => well_typed q
  | Settlemine _ | Activemine _ => True
  end.

(** The token of a row. *)
Definition token_of (a : account) : Z * Z := (acc_chain a, Sym.name (symbol (balance a))).

Definition held (s : state) (t : Z * Z) : Z :=
  map_sum (fun _ a => if decide (token_of a = t) then amount (balance a) else 0) (accounts s).

(** The rewards recorded for holders, and those not yet divided among them. *)
Definition rewards_due (s : state) : Z :=
  map_sum (fun _ a => amount (reward a)) (accounts s) + map_sum (fun _ r => amount (reward_pool r)) (reward_mine s).

Record rows_ok (s : state) : Prop := {
  ok_stats : forall c k st, stats s !! (c, k) = Some st ->
    Sym.name (symbol (supply st)) = k /\ symbol (max_supply st) = symbol (supply st) /\ chain st = c /\
    0 <= amount (supply st) <= amount (max_supply st) /\ amount (max_supply st) <= max_amount;
  ok_accounts : forall o id a, accounts s !! (o, id) = Some a ->
    0 <= amount (balance a) <= max_amount /\ is_u 64 (acc_chain a) /\ is_u 64 (symbol (balance a)) /\ coin (reward a) /\
    exists st, stats s !! token_of a = Some st /\ symbol (balance a) = symbol (supply st);
  ok_unique : forall o id id' a a', accounts s !! (o, id) = Some a -> accounts s !! (o, id') = Some a' ->
    token_of a = token_of a' -> id = id';
  ok_mine : forall k r, reward_mine s !! k = Some r -> coin (reward_pool r);
}.

(** Every token is held by someone. *)
Definition inv (s : state) : Prop :=
  rows_ok s /\ forall t st, stats s !! t = Some st -> held s t = amount (supply st).

(** ** The index. *)
Lemma name_range sym : is_u 64 sym -> 0 <= Sym.name sym < 2 ^ 56.
Proof.
  intros H. unfold Sym.name. rewrite Z.shiftr_div_pow2 by lia. split; [apply Z.div_pos; width_norm; lia|].
  apply Z.div_lt_upper_bound; width_norm; lia.
Qed.

Lemma account_idx_inj c c' a a' :
  is_u 64 c -> is_u 64 c' -> is_u 64 (symbol a) -> is_u 64 (symbol a') ->
  get_account_idx c a = get_account_idx c' a' -> c = c' /\ Sym.name (symbol a) = Sym.name (symbol a').
Proof.
  intros Hc Hc' Ha%name_range Ha'%name_range. unfold get_account_idx. rewrite !Z.shiftl_mul_pow2 by lia.
  rewrite !wrapU_small by (width_norm; lia). width_norm. lia.
Qed.

Lemma first_match_Some key rows owner id a :
  first_match key rows owner = Some (id, a) ->
  rows !! (owner, id) = Some a /\ get_account_idx (acc_chain a) (balance a) = key.
Proof.
  unfold first_match. intros H. apply head_Some_elem_of in H. apply list_elem_of_omap in H as (id' & _ & H).
  apply bind_Some in H as (a' & Ha' & H). destruct (Z.eqb_spec (get_account_idx (acc_chain a') (balance a')) key);
    by simplify_eq.
Qed.

Lemma first_match_None key rows owner id a :
  first_match key rows owner = None -> rows !! (owner, id) = Some a ->
  get_account_idx (acc_chain a) (balance a) <> key.
Proof.
  unfold first_match. intros H Ha Heq. apply head_None in H.
  assert (Hin : (id, a) ∈ omap (fun id => a ← rows !! (owner, id);
      if get_account_idx (acc_chain a) (balance a) =? key then Some (id, a) else None) (scope_keys rows owner)).
  { apply list_elem_of_omap. exists id. split; [apply scope_keys_spec; eauto|]. rewrite Ha. cbn.
    by rewrite (proj2 (Z.eqb_eq _ _) Heq). }
  rewrite H in Hin. by apply elem_of_nil in Hin.
Qed.

Lemma get_bychain_ok owner key e s r :
  get_bychain owner key e s = Ok r ->
  exists id a, r = ((id, a), s) /\ first_match key (accounts (db s)) owner = Some (id, a).
Proof. unfold get_bychain, find_bychain. intros H. minv. eauto. Qed.

Lemma find_bychain_ok owner key e s r :
  find_bychain owner key e s = Ok r -> r = (first_match key (accounts (db s)) owner, s).
Proof. unfold find_bychain. intros H. by minv. Qed.

(** The row an account holds of a token. *)
Lemma row_of_token s owner c v id a :
  rows_ok s -> is_u 64 c -> is_u 64 (symbol v) ->
  first_match (get_account_idx c v) (accounts s) owner = Some (id, a) ->
  accounts s !! (owner, id) = Some a /\ token_of a = (c, Sym.name (symbol v)).
Proof.
  intros Hok Hc Hv [Ha Hidx]%first_match_Some. split; [done|].
  destruct (ok_accounts _ Hok _ _ _ Ha) as (_ & Hc' & Hs' & _).
  apply account_idx_inj in Hidx as [<- <-]; done.
Qed.

Lemma no_row_of_token s owner c v id a :
  first_match (get_account_idx c v) (accounts s) owner = None -> accounts s !! (owner, id) = Some a ->
  token_of a <> (c, Sym.name (symbol v)).
Proof.
  intros Hnone Ha Ht. eapply first_match_None in Hnone; [|done]. apply Hnone.
  unfold token_of in Ht. injection Ht as -> Hn. unfold get_account_idx. by rewrite Hn.
Qed.

(** ** Settlement. *)
Definition set_mine (m : gmap (Z * Z) reward_mine_info) (s : state) : state :=
  State (accounts s) (account_ids s) (stats s) (rewards s) m.

Definition pools (m : gmap (Z * Z) reward_mine_info) : Z := map_sum (fun _ r => amount (reward_pool r)) m.

Lemma relay_settle_record_ok scope bal acc k e s r :
  (forall k r, reward_mine (db s) !! k = Some r -> coin (reward_pool r)) -> coin acc.1.2 ->
  settle_record scope bal acc k e s = Ok r ->
  exists m acc', r = (acc', St (set_mine m (db s)) (notified s) (inline_actions s)) /\
    (forall k r, m !! k = Some r -> coin (reward_pool r)) /\ coin acc'.1.2 /\
    pools m + amount acc'.1.2 = pools (reward_mine (db s)) + amount acc.1.2.
Proof.
  destruct acc as [[[h m] rw] cd]. cbn [fst snd]. intros Hm Hrw H. unfold settle_record in H. minv.
  match goal with Hl : reward_mine _ !! _ = Some ?x |- _ => rename Hl into Hit; rename x into it end.
  mcase.
  - match goal with Hx : asset_mul _ _ = Ok _, Hd : asset_div _ _ = Ok _ |- _ =>
      destruct (coin_mul_div _ _ _ _ _ (Hm _ _ Hit) (wrapS_range 64 _ ltac:(lia)) (wrapS_range 64 _ ltac:(lia)) Hx Hd)
        as (-> & ? & Hc) end.
    match goal with Hx : asset_add _ _ = Ok _ |- _ => apply coin_add in Hx as [-> ?]; [|done|done] end.
    match goal with Hx : asset_sub _ _ = Ok _ |- _ => apply coin_sub in Hx as [-> ?]; [|by eapply Hm|done] end.
    eexists _, _. split; [reflexivity|]. cbn [fst snd amount] in *. split_and!.
    + intros k' r Hk. apply lookup_insert_Some in Hk as [[_ <-]|[_ Hk]]; [by apply coin_mk|eauto].
    + by apply coin_mk.
    + unfold pools. rewrite map_sum_insert, (at_key_Some _ _ _ _ Hit). cbn [reward_pool amount]. lia.
  - exists (reward_mine (db s)). eexists. split; [destruct s as [[] ? ?]; reflexivity|]. by split_and!.
Qed.

Lemma relay_settle_records_ok scope bal l e : forall acc s r,
  (forall k r, reward_mine (db s) !! k = Some r -> coin (reward_pool r)) -> coin acc.1.2 ->
  mfor (settle_record scope bal) acc l e s = Ok r ->
  exists m acc', r = (acc', St (set_mine m (db s)) (notified s) (inline_actions s)) /\
    (forall k r, m !! k = Some r -> coin (reward_pool r)) /\ coin acc'.1.2 /\
    pools m + amount acc'.1.2 = pools (reward_mine (db s)) + amount acc.1.2.
Proof.
  induction l as [|k l IH]; intros acc s r Hm Hacc H; cbn [mfor] in H.
  - apply mret_ok in H as ->. exists (reward_mine (db s)), acc. split; [by destruct s as [[] ? ?]|done].
  - apply mbind_ok in H as (acc1 & s1 & H1 & H2).
    apply relay_settle_record_ok in H1 as (m1 & acc1' & [= -> ->] & Hm1 & Hc1 & Hs1); [|done..].
    apply IH in H2 as (m2 & acc2 & -> & Hm2 & Hc2 & Hs2); [|done..].
    exists m2, acc2. split; [done|]. split_and!; [done..|]. cbn in Hs2. lia.
Qed.

(** Settling changes no balance, and moves rewards from the records to the holder. *)
Lemma settle_user_ok owner c v e s r :
  rows_ok (db s) -> is_u 64 c -> is_u 64 (symbol v) -> settle_user owner c v e s = Ok r ->
  exists id a a' m,
    r = (tt, St (State (<[(owner, id) := a']> (accounts (db s))) (account_ids (db s)) (stats (db s)) (rewards (db s)) m)
               (notified s) (inline_actions s)) /\
    accounts (db s) !! (owner, id) = Some a /\ token_of a = (c, Sym.name (symbol v)) /\
    balance a' = balance a /\ acc_chain a' = acc_chain a /\ coin (reward a') /\
    (forall k r, m !! k = Some r -> coin (reward_pool r)) /\
    pools m + amount (reward a') = pools (reward_mine (db s)) + amount (reward a).
Proof.
  intros Hok Hc Hv H. unfold settle_user in H. apply mbind_ok in H as ([id a] & s1 & H1 & H).
  apply get_bychain_ok in H1 as (id' & a' & [= <- <- ->] & Hrow).
  apply (row_of_token _ _ _ _ _ _ Hok Hc Hv) in Hrow as [Ha Ht].
  apply mbind_ok in H as (u & s2 & H2 & H). minv.
  match goal with Hz : core_asset 0 = Ok _ |- _ => apply core_asset_ok in Hz as [_ ->] end.
  match goal with Hf : mfor _ _ _ _ _ = Ok _ |- _ =>
    apply relay_settle_records_ok in Hf as (m & [[[h mi] rw] cd] & [= -> ->] & Hm & Hrw & Hsum);
    [|apply (ok_mine _ Hok)|by apply coin_mk] end.
  minv. subst. cbn [fst snd] in *. destruct (ok_accounts _ Hok _ _ _ Ha) as (_ & _ & _ & Hcoin & _).
  match goal with Hx : asset_add _ _ = Ok _ |- _ => apply coin_add in Hx as [-> ?]; [|done|done] end.
  eexists id, a, _, m. split; [reflexivity|]. cbn [balance acc_chain reward fst snd amount] in *.
  split_and!; try done. lia.
Qed.

(** ** Changes of one row. *)
Definition held_in (m : gmap (Z * Z) account) (t : Z * Z) : Z :=
  map_sum (fun _ a => if decide (token_of a = t) then amount (balance a) else 0) m.

Lemma held_replace m k a a' t :
  m !! k = Some a -> token_of a' = token_of a ->
  held_in (<[k := a']> m) t =
    held_in m t + (if decide (token_of a = t) then amount (balance a') - amount (balance a) else 0).
Proof.
  intros Hk Ht. unfold held_in. rewrite map_sum_insert, (at_key_Some _ _ _ _ Hk), Ht. case_decide; lia.
Qed.

Lemma rows_replace s o id a a' ids rw m :
  rows_ok s -> accounts s !! (o, id) = Some a -> acc_chain a' = acc_chain a ->
  symbol (balance a') = symbol (balance a) -> 0 <= amount (balance a') <= max_amount -> coin (reward a') ->
  (forall k r, m !! k = Some r -> coin (reward_pool r)) ->
  rows_ok (State (<[(o, id) := a']> (accounts s)) ids (stats s) rw m).
Proof.
  intros [Hst Hacc Huniq Hmine] Ha Hc Hsym Hamt Hcoin Hm.
  assert (Ht : token_of a' = token_of a) by (unfold token_of; by rewrite Hc, Hsym).
  split; cbn [accounts stats reward_mine]; [done| | |done].
  - intros o' id' b [[[= <- <-] <-]|[_ Hb]]%lookup_insert_Some; [|eauto].
    destruct (Hacc _ _ _ Ha) as (_ & Hc' & Hs' & _ & st & Hst' & Hsy). rewrite Hc, Hsym, Ht. eauto 10.
  - intros o' i1 i2 b1 b2 H1%lookup_insert_Some H2%lookup_insert_Some Heq.
    destruct H1 as [[E1 <-]|[_ H1]], H2 as [[E2 <-]|[_ H2]]; simplify_eq; try done; (eapply Huniq; [done..|]); unfold token_of in *; congruence.
Qed.

(** What a change of a holder's balance by [n] does. *)
Record moved (owner : Z) (t : Z * Z) (n : Z) (s s' : state) : Prop := {
  mv_rows : rows_ok s';
  mv_stats : stats s' = stats s;
  mv_rewards : rewards s' = rewards s;
  mv_held : forall t', held s' t' = held s t' + (if decide (t = t') then n else 0);
  mv_due : rewards_due s' = rewards_due s;
  mv_others : forall o id, o <> owner -> accounts s' !! (o, id) = accounts s !! (o, id);
  mv_owner : forall id a, accounts s !! (owner, id) = Some a ->
    exists a', accounts s' !! (owner, id) = Some a' /\ symbol (balance a') = symbol (balance a) /\
      amount (balance a) + Z.min 0 n <= amount (balance a');
}.

Lemma moved_replace s s' o id a a' n :
  rows_ok s -> accounts s !! (o, id) = Some a -> acc_chain a' = acc_chain a ->
  balance a' = Asset (amount (balance a) + n) (symbol (balance a)) -> 0 <= amount (balance a) + n <= max_amount ->
  coin (reward a') -> (forall k r, reward_mine s' !! k = Some r -> coin (reward_pool r)) ->
  pools (reward_mine s') + amount (reward a') = pools (reward_mine s) + amount (reward a) ->
  accounts s' = <[(o, id) := a']> (accounts s) -> stats s' = stats s -> rewards s' = rewards s ->
  moved o (token_of a) n s s'.
Proof.
  intros Hok Ha Hc Hb Hamt Hcoin Hm Hsum Hacc Hst Hrw.
  assert (Ht : token_of a' = token_of a) by (unfold token_of; by rewrite Hc, Hb).
  split.
  - destruct s' as [? ids ? rw m]. cbn in *. subst. apply (rows_replace s o id a); try done; by rewrite Hb.
  - done.
  - done.
  - intros t'. unfold held. rewrite Hacc. change (map_sum _ (<[(o, id):=a']> _)) with (held_in (<[(o, id):=a']> (accounts s)) t').
    rewrite (held_replace _ _ a) by done. rewrite Hb. cbn [amount]. unfold held_in. case_decide; lia.
  - unfold rewards_due. fold (pools (reward_mine s)) (pools (reward_mine s')). rewrite Hacc, map_sum_insert, (at_key_Some _ _ _ _ Ha). lia.
  - intros o' id' Hne. rewrite Hacc. apply lookup_insert_ne. congruence.
  - intros id' b Hb'. rewrite Hacc. destruct (decide (id' = id)) as [->|Hne].
    + rewrite lookup_insert_eq. simplify_eq. exists a'. rewrite Hb. cbn. split_and!; [done..|lia].
    + rewrite lookup_insert_ne by congruence. exists b. split_and!; [done..|lia].
Qed.

Definition set_accounts (m : gmap (Z * Z) account) (s : state) : state :=
  State m (account_ids s) (stats s) (rewards s) (reward_mine s).

Lemma moved_balance s o id a n :
  rows_ok s -> accounts s !! (o, id) = Some a -> 0 <= amount (balance a) + n <= max_amount ->
  moved o (token_of a) n s
    (set_accounts (<[(o, id) := with_balance a (Asset (amount (balance a) + n) (symbol (balance a)))]> (accounts s)) s).
Proof.
  intros Hok Ha Hn. destruct (ok_accounts _ Hok _ _ _ Ha) as (Hamt & _ & _ & Hcoin & _).
  apply (moved_replace s _ o id a (with_balance a (Asset (amount (balance a) + n) (symbol (balance a))))); try done.
  apply (ok_mine _ Hok).
Qed.

Lemma moved_trans o t n1 n2 s1 s2 s3 :
  moved o t n1 s1 s2 -> moved o t n2 s2 s3 -> 0 <= n1 * n2 -> moved o t (n1 + n2) s1 s3.
Proof.
  intros [R1 S1 W1 H1 D1 O1 N1] [R2 S2 W2 H2 D2 O2 N2] Hsign. split; try congruence.
  - intros t'. rewrite H2, H1. case_decide; lia.
  - intros o' id' Hne. by rewrite O2, O1.
  - intros id a (a1 & Ha1 & Hs1 & Hm1)%N1. apply N2 in Ha1 as (a2 & Ha2 & Hs2 & Hm2). exists a2.
    split_and!; [done|congruence|]. assert (Z.min 0 (n1 + n2) = Z.min 0 n1 + Z.min 0 n2) by nia. lia.
Qed.

Lemma settle_user_moved owner c v e s r :
  rows_ok (db s) -> is_u 64 c -> is_u 64 (symbol v) -> settle_user owner c v e s = Ok r ->
  exists s', r = (tt, St s' (notified s) (inline_actions s)) /\ moved owner (c, Sym.name (symbol v)) 0 (db s) s' /\
    account_ids s' = account_ids (db s).
Proof.
  intros Hok Hc Hv H. apply settle_user_ok in H as (id & a & a' & m & -> & Ha & Ht & Hb & Hch & Hcoin & Hm & Hsum); [|done..].
  eexists. split; [reflexivity|]. split; [|done]. rewrite <- Ht.
  destruct (ok_accounts _ Hok _ _ _ Ha) as (Hamt & _).
  eapply moved_replace; try done; cbn [reward_mine]; [|lia]. rewrite Hb, Z.add_0_r. by destruct (balance a).
Qed.

Lemma relay_sub_balance_ok owner c v e s r :
  rows_ok (db s) -> is_u 64 c -> well_typed v -> 0 <= amount v -> sub_balance owner c v e s = Ok r ->
  exists s', r = (tt, St s' (notified s) (inline_actions s)) /\
    moved owner (c, Sym.name (symbol v)) (- amount v) (db s) s'.
Proof.
  intros Hok Hc [Hv Hsy] Hpos H. unfold sub_balance in H. apply mbind_ok in H as (u & s1 & H1 & H).
  apply settle_user_moved in H1 as (s1' & [= -> ->] & Hmv & _); [|done..].
  pose proof (mv_rows _ _ _ _ _ Hmv) as Hok1.
  apply mbind_ok in H as ([id a] & s2 & H2 & H). apply get_bychain_ok in H2 as (id' & a' & [= <- <- ->] & Hrow).
  apply (row_of_token _ _ _ _ _ _ Hok1 Hc Hsy) in Hrow as [Ha Ht]. minv.
  destruct (ok_accounts _ Hok1 _ _ _ Ha) as (Hamt & _ & _ & Hcoin & _).
  match goal with Hx : asset_sub _ _ = Ok _ |- _ => apply asset_sub_ok in Hx as (Hsym & Hr & ->); [|arange; lia|done] end.
  eexists. split; [reflexivity|]. replace (- amount v) with (0 + - amount v) by lia.
  eapply moved_trans; [exact Hmv| |lia]. rewrite <- Ht.
  apply moved_balance; [done..|lia].
Qed.

(** A new row. *)
Lemma moved_insert s s' owner id c v a :
  rows_ok s -> accounts s !! (owner, id) = None -> balance a = v -> acc_chain a = c -> amount (reward a) = 0 ->
  coin (reward a) -> is_u 64 c -> is_u 64 (symbol v) -> 0 <= amount v <= max_amount ->
  (exists st, stats s !! (c, Sym.name (symbol v)) = Some st /\ symbol v = symbol (supply st)) ->
  (forall id a, accounts s !! (owner, id) = Some a -> token_of a <> (c, Sym.name (symbol v))) ->
  accounts s' = <[(owner, id) := a]> (accounts s) -> stats s' = stats s -> rewards s' = rewards s ->
  reward_mine s' = reward_mine s -> moved owner (c, Sym.name (symbol v)) (amount v) s s'.
Proof.
  intros Hok Hnone <- <- Hr0 Hcoin Hc Hv Hamt Hst Hnew Hacc Hs Hrw Hm. pose proof Hok as [Hst0 Hacc0 Huniq Hmine].
  split; try done.
  - split; rewrite ?Hacc, ?Hs, ?Hm; [done| | |done].
    + intros o i b [[[= <- <-] <-]|[_ Hb]]%lookup_insert_Some; [|eauto]. split_and!; try done; lia.
    + intros o i1 i2 b1 b2 H1%lookup_insert_Some H2%lookup_insert_Some Heq.
      destruct H1 as [[[= <- <-] <-]|[_ H1]], H2 as [[[= E2] <-]|[_ H2]]; subst; [done|..].
      * by destruct (Hnew _ _ H2).
      * by destruct (Hnew _ _ H1).
      * by eapply Huniq.
  - intros t. unfold held. rewrite Hacc, map_sum_insert, at_key_None by done.
    change (acc_chain a, Sym.name (symbol (balance a))) with (token_of a). case_decide; lia.
  - unfold rewards_due. rewrite Hacc, Hm, map_sum_insert, at_key_None by done. lia.
  - intros o i Hne. rewrite Hacc. apply lookup_insert_ne. congruence.
  - intros i b Hb. exists b. rewrite Hacc, lookup_insert_ne by congruence. split_and!; [done..|lia].
Qed.

Lemma relay_add_balance_ok owner c v e s r :
  rows_ok (db s) -> is_u 64 c -> well_typed v -> 0 <= amount v <= max_amount ->
  (exists st, stats (db s) !! (c, Sym.name (symbol v)) = Some st /\ symbol v = symbol (supply st)) ->
  add_balance owner c v e s = Ok r ->
  exists s', r = (tt, St s' (notified s) (inline_actions s)) /\
    moved owner (c, Sym.name (symbol v)) (amount v) (db s) s'.
Proof.
  intros Hok Hc [Hv Hsy] Hpos Hst H. unfold add_balance in H. apply mbind_ok in H as (to & s1 & H1 & H).
  apply find_bychain_ok in H1 as [= -> ->].
  destruct (first_match (get_account_idx c v) (accounts (db s)) owner) as [[id0 a0]|] eqn:Hrow.
  - apply mbind_ok in H as (u & s1 & H1 & H).
    apply settle_user_moved in H1 as (s1' & [= -> ->] & Hmv & _); [|done..].
    pose proof (mv_rows _ _ _ _ _ Hmv) as Hok1.
    apply mbind_ok in H as ([id a] & s2 & H2 & H). apply get_bychain_ok in H2 as (id' & a' & [= <- <- ->] & Hrow1).
    apply (row_of_token _ _ _ _ _ _ Hok1 Hc Hsy) in Hrow1 as [Ha Ht]. minv.
    destruct (ok_accounts _ Hok1 _ _ _ Ha) as (Hamt & _).
    match goal with Hx : asset_add _ _ = Ok _ |- _ => apply asset_add_ok in Hx as (Hsym & Hr & ->); [|arange; lia|done] end.
    eexists. split; [reflexivity|]. replace (amount v) with (0 + amount v) by lia.
    eapply moved_trans; [exact Hmv| |lia]. rewrite <- Ht. apply moved_balance; [done..|arange; lia].
  - unfold next_account_id in H. minv.
    match goal with Hz : core_asset 0 = Ok _ |- _ => apply core_asset_ok in Hz as [_ ->] end.
    mcase; (eexists; split; [reflexivity|]);
      (eapply (moved_insert (db s) _ owner _ c v); try reflexivity; try done; intros; by eapply no_row_of_token).
Qed.

(** ** Changes of the tables of currencies and records. *)

(** The currencies with their supplies. *)
Definition stat_like (o o' : option currency_stats) : Prop :=
  match o, o' with
  | Some st, Some st' => supply st' = supply st /\ max_supply st' = max_supply st /\ issuer st' = issuer st /\
      chain st' = chain st
  | None, None => True
  | _, _ => False
  end.

Record same_ledger (s s' : state) : Prop := {
  sl_accounts : accounts s' = accounts s;
  sl_stats : forall t, stat_like (stats s !! t) (stats s' !! t);
  sl_mine : (forall k r, reward_mine s !! k = Some r -> coin (reward_pool r)) ->
    forall k r, reward_mine s' !! k = Some r -> coin (reward_pool r);
}.

Lemma stat_like_refl o : stat_like o o.
Proof. by destruct o. Qed.

Lemma same_ledger_refl s : same_ledger s s.
Proof. split; [done|intros; apply stat_like_refl|done]. Qed.

Lemma same_ledger_trans s1 s2 s3 : same_ledger s1 s2 -> same_ledger s2 s3 -> same_ledger s1 s3.
Proof.
  intros [A1 S1 M1] [A2 S2 M2]. split; [congruence| |exact (fun H => M2 (M1 H))]. intros t. specialize (S1 t). specialize (S2 t).
  unfold stat_like in *. destruct (stats s1 !! t), (stats s2 !! t), (stats s3 !! t); try done.
  destruct S1 as (? & ? & ? & ?), S2 as (? & ? & ? & ?). split_and!; congruence.
Qed.

Lemma stat_like_insert (m : gmap (Z * Z) currency_stats) k st st' t :
  m !! k = Some st -> stat_like (Some st) (Some st') -> stat_like (m !! t) (<[k := st']> m !! t).
Proof.
  intros Hk Hl. destruct (decide (t = k)) as [->|]; [by rewrite lookup_insert_eq, Hk|].
  rewrite lookup_insert_ne by done. apply stat_like_refl.
Qed.

Lemma same_ledger_rows s s' : same_ledger s s' -> rows_ok s -> rows_ok s'.
Proof.
  intros [Ha Hs Hm] [Hst Hacc Hu Hmine]. split.
  - intros c k st' Hst'. specialize (Hs (c, k)). rewrite Hst' in Hs. unfold stat_like in Hs.
    case_match eqn:E; [|done]. destruct Hs as (-> & -> & _ & ->). by apply Hst.
  - intros o id a. rewrite Ha. intros (? & ? & ? & ? & st & Hst' & Hsy)%Hacc. split_and!; try done; try lia.
    specialize (Hs (token_of a)). rewrite Hst' in Hs. unfold stat_like in Hs. case_match; [|done].
    destruct Hs as (Hsup & _). eexists. split; [done|]. by rewrite Hsup.
  - rewrite Ha. done.
  - exact (Hm Hmine).
Qed.

Lemma same_ledger_inv s s' : same_ledger s s' -> inv s -> inv s'.
Proof.
  intros Hsl [Hok Hheld]. split; [by eapply same_ledger_rows|]. destruct Hsl as [Ha Hs _].
  intros t st' Hst'. specialize (Hs t). rewrite Hst' in Hs. unfold stat_like in Hs. case_match eqn:E; [|done].
  destruct Hs as (-> & _). unfold held. rewrite Ha. by apply Hheld.
Qed.

Lemma mfor_same_ledger {B} (f : unit -> B -> M state unit) l e :
  (forall u x s u' s', x ∈ l -> f u x e s = Ok (u', s') -> same_ledger (db s) (db s')) ->
  forall s u s', mfor f tt l e s = Ok (u, s') -> same_ledger (db s) (db s').
Proof.
  intros Hf s u s' H.
  refine (mfor_inv (fun _ s1 => same_ledger (db s) (db s1)) f e l _ tt s (u, s') (same_ledger_refl _) H).
  intros u1 x s1 [u2 s2] Hx Hs1 Hs2. cbn. eapply same_ledger_trans; [exact Hs1|by eapply Hf].
Qed.

(** ** The mining actions leave the ledger alone. *)
Lemma mining_power_silent price b id e s r : mining_power price b id e s = Ok r -> r.2 = s.
Proof. unfold mining_power. intros H. by minv. Qed.

Lemma mine_coin_insert (m : gmap (Z * Z) reward_mine_info) k x :
  coin (reward_pool x) -> (forall k r, m !! k = Some r -> coin (reward_pool r)) ->
  forall k' r, <[k := x]> m !! k' = Some r -> coin (reward_pool r).
Proof. intros Hx Hm k' r [[_ <-]|[_ H]]%lookup_insert_Some; eauto. Qed.

Lemma divide_reward_ledger price b total q u id e s u' s' :
  divide_reward price b total q u id e s = Ok (u', s') -> same_ledger (db s) (db s').
Proof.
  unfold divide_reward. intros H. apply mbind_ok in H as ([[scope info] power] & s1 & H1 & H).
  apply mining_power_silent in H1. cbn in H1. subst s1. minv.
  match goal with Hz : core_asset _ = Ok _ |- _ => apply core_asset_ok in Hz as [? ->] end.
  split; cbn; [done|intros; apply stat_like_refl|]. intros Hm. apply mine_coin_insert; [by apply coin_mk|done].
Qed.

Lemma rewardmine_ledger price q e s u s' :
  rewardmine price q e s = Ok (u, s') -> same_ledger (db s) (db s').
Proof.
  unfold rewardmine. intros H. minv.
  match goal with Hf : mfor (add_power _ _) _ _ _ _ = Ok _ |- _ =>
    apply (mfor_inv (fun _ s1 => s1 = s)) in Hf; [|intros a x s1 r _ -> Hx|done] end.
  - cbn in *. subst. mcase; [apply same_ledger_refl|]. eapply mfor_same_ledger; [|done].
    intros. by eapply divide_reward_ledger.
  - unfold add_power in Hx. apply mbind_ok in Hx as ([[scope info] power] & s2 & Hp & Hx).
    apply mining_power_silent in Hp. cbn in Hp. subst. by minv.
Qed.

Lemma drop_oldest_ledger scope e s u s' : drop_oldest scope e s = Ok (u, s') -> same_ledger (db s) (db s').
Proof.
  unfold drop_oldest. intros H. minv. case_match; [by minv|]. case_match; [by minv|]. minv.
  match goal with Hz : core_asset _ = Ok _ |- _ => apply core_asset_ok in Hz as [? ->] end.
  split; cbn; [done|intros; apply stat_like_refl|].
  intros Hm k r [_ Hr]%lookup_delete_Some. revert Hr. apply mine_coin_insert; [by apply coin_mk|done].
Qed.

Lemma settle_currency_ledger b u id e s u' s' :
  settle_currency b u id e s = Ok (u', s') -> same_ledger (db s) (db s').
Proof.
  unfold settle_currency. intros H. apply mbind_ok in H as (it & s1 & H1 & H). minv. mcase; [|apply same_ledger_refl].
  match goal with Hz : core_asset _ = Ok _ |- _ => apply core_asset_ok in Hz as [? ->] end.
  match goal with Hst : stats _ !! _ = Some ?c, Hd : (if _ then _ else _) _ ?s1 = Ok (_, ?s2) |- _ =>
    rename Hst into Hst0; assert (Hd' : same_ledger (db s1) (db s2));
    [destruct (reward_size c =? COIN_REWARD_RECORD_SIZE); [by eapply drop_oldest_ledger|by minv; apply same_ledger_refl]|] end.
  eapply same_ledger_trans; [|eapply same_ledger_trans; [exact Hd'|]].
  - split; cbn; [done|intros; apply stat_like_refl|]. intros Hm. apply mine_coin_insert; [by apply coin_mk|done].
  - match type of Hst0 with _ !! ?k = _ => pose proof (sl_stats _ _ Hd' k) as Hl end. cbn in Hl. rewrite Hst0 in Hl.
    split; cbn; [done| |done]. intros t. unfold stat_like in Hl at 1. case_match eqn:E2; [|done].
    apply (stat_like_insert _ _ _ _ _ E2). destruct Hl as (? & ? & ? & ?). cbn. split_and!; congruence.
Qed.

Lemma settlemine_ledger a e s u s' : settlemine a e s = Ok (u, s') -> same_ledger (db s) (db s').
Proof.
  unfold settlemine. intros H. minv. eapply mfor_same_ledger; [|done]. intros. by eapply settle_currency_ledger.
Qed.

Lemma activemine_ledger a e s u s' :
  activemine a e s = Ok (u, s') -> same_ledger (db s) (db s') /\ reward_mine (db s') = reward_mine (db s).
Proof.
  unfold activemine. intros H. minv.
  match goal with Hf : mfor _ _ _ _ _ = Ok _ |- _ =>
    apply (mfor_inv (fun _ s1 => same_ledger (db s) (db s1) /\ reward_mine (db s1) = reward_mine (db s))) in Hf;
    [exact Hf| |split; [apply same_ledger_refl|done]] end.
  intros u1 x s1 [u2 s2] _ [Hl Hm] Hs. unfold activate in Hs. minv. split; [|done].
  eapply same_ledger_trans; [exact Hl|]. split; [done|intros; apply stat_like_refl|done].
Qed.

Lemma addreward_ledger c q n e s u s' :
  addreward c q n e s = Ok (u, s') -> same_ledger (db s) (db s') /\ rewards_due (db s') = rewards_due (db s).
Proof.
  unfold addreward. intros H. minv.
  match goal with Hz : core_asset _ = Ok _ |- _ => apply core_asset_ok in Hz as [? ->] end.
  match goal with Hst : stats _ !! _ = Some _ |- _ => rename Hst into Hst0 end. split.
  - split; cbn; [done|intros t; by eapply stat_like_insert|].
    intros Hm. apply mine_coin_insert; [by apply coin_mk|done].
  - unfold rewards_due. cbn. rewrite map_sum_insert, at_key_None by done. cbn. lia.
Qed.

(** ** The effect of an action. *)

(** The coins cast to holders by the actions sent since. *)
Definition cast_of (a : action) : Z :=
  match act_data a with castcoin_args _ _ q => amount q | _ => 0 end.
Definition casts (l : list action) : Z := foldr (fun a n => cast_of a + n) 0 l.

(** No row loses balance unless its owner has authorized the action. *)
Definition kept (e : env) (s s' : state) : Prop :=
  forall o id a, accounts s !! (o, id) = Some a ->
    exists a', accounts s' !! (o, id) = Some a' /\
      (amount (balance a') < amount (balance a) -> has_authorization (authorization e) o = true).

Record effect (e : env) (s s' : st state) : Prop := {
  ef_inv : inv (db s) -> inv (db s');
  ef_kept : kept e (db s) (db s');
  ef_due : exists l, inline_actions s' = inline_actions s ++ l /\
    rewards_due (db s') + casts l = rewards_due (db s);
}.

Lemma kept_refl e s s' : accounts s' = accounts s -> kept e s s'.
Proof. intros Ha o id a H. exists a. rewrite Ha. split; [done|lia]. Qed.

Lemma kept_moved e o t n s s' :
  moved o t n s s' -> (n < 0 -> has_authorization (authorization e) o = true) -> kept e s s'.
Proof.
  intros Hm Hauth o' id a Ha. destruct (decide (o' = o)) as [->|Hne].
  - apply (mv_owner _ _ _ _ _ Hm) in Ha as (a' & Ha' & _ & Hle). exists a'. split; [done|]. intros. apply Hauth. lia.
  - exists a. rewrite (mv_others _ _ _ _ _ Hm) by done. split; [done|lia].
Qed.

Lemma kept_trans e s1 s2 s3 : kept e s1 s2 -> kept e s2 s3 -> kept e s1 s3.
Proof.
  intros H1 H2 o id a (a2 & Ha2 & Hb2)%H1. apply H2 in Ha2 as (a3 & Ha3 & Hb3). exists a3. split; [done|].
  intros Hlt. destruct (Z.lt_ge_cases (amount (balance a2)) (amount (balance a))); [auto|]. apply Hb3. lia.
Qed.

(** A movement between holders keeps the supply. *)
Lemma moved_inv o t n s s' :
  inv s -> moved o t n s s' -> n = 0 -> inv s'.
Proof.
  intros [Hok Hheld] Hm ->. split; [by apply (mv_rows _ _ _ _ _ Hm)|]. intros t' st Hst.
  rewrite (mv_stats _ _ _ _ _ Hm) in Hst. rewrite (mv_held _ _ _ _ _ Hm), (Hheld _ _ Hst). case_decide; lia.
Qed.

Lemma relay_transfer_ok from to c q memo e s u s' :
  rows_ok (db s) -> is_u 64 c -> well_typed q -> transfer from to c q memo e s = Ok (u, s') ->
  has_authorization (authorization e) from = true /\ inline_actions s' = inline_actions s /\ 0 < amount q /\
  exists s1, moved from (c, Sym.name (symbol q)) (- amount q) (db s) s1 /\
             moved to (c, Sym.name (symbol q)) (amount q) s1 (db s').
Proof.
  intros Hok Hc Hq H. unfold transfer in H. minv.
  match goal with Hst : stats _ !! _ = Some _ |- _ => rename Hst into Hst0 end.
  match goal with Hx : sub_balance _ _ _ _ _ = Ok _ |- _ =>
    apply relay_sub_balance_ok in Hx as (s1 & [= ->] & Hm1); [|done|done|done|lia] end.
  match goal with Hx : add_balance _ _ _ _ _ = Ok _ |- _ =>
    apply relay_add_balance_ok in Hx as (s2 & [= ->] & Hm2) end.
  - split_and!; try done. by exists s1.
  - by apply (mv_rows _ _ _ _ _ Hm1).
  - done.
  - done.
  - destruct Hq as [? _]. unfold is_valid, is_amount_within_range in *. rinv. lia.
  - cbn. rewrite (mv_stats _ _ _ _ _ Hm1). eauto.
Qed.

Lemma relay_transfer_effect from to c q memo e s u s' :
  rows_ok (db s) -> is_u 64 c -> well_typed q -> transfer from to c q memo e s = Ok (u, s') -> effect e s s'.
Proof.
  intros Hok Hc Hq H. apply relay_transfer_ok in H as (Hauth & Hin & Hpos & s1 & Hm1 & Hm2); [|done..]. split.
  - intros [_ Hheld]. split; [by apply (mv_rows _ _ _ _ _ Hm2)|]. intros t st Hst.
    rewrite (mv_stats _ _ _ _ _ Hm2), (mv_stats _ _ _ _ _ Hm1) in Hst.
    rewrite (mv_held _ _ _ _ _ Hm2), (mv_held _ _ _ _ _ Hm1), (Hheld _ _ Hst). case_decide; lia.
  - eapply kept_trans; [eapply kept_moved; [exact Hm1|done]|eapply kept_moved; [exact Hm2|lia]].
  - exists []. rewrite app_nil_r. split; [done|]. cbn.
    rewrite (mv_due _ _ _ _ _ Hm2), (mv_due _ _ _ _ _ Hm1). lia.
Qed.

Lemma effect_send e s s' a : cast_of a = 0 -> effect e s s' ->
  effect e s (St (db s') (notified s') (inline_actions s' ++ [a])).
Proof.
  intros Ha [Hi Hk (l & Hl & Hd)]. split; cbn; [done..|]. exists (l ++ [a]). rewrite Hl, app_assoc. split; [done|].
  unfold casts in *. rewrite foldr_app. cbn. rewrite Ha. done.
Qed.

Lemma effect_same e s s' :
  same_ledger (db s) (db s') -> rewards_due (db s') = rewards_due (db s) -> inline_actions s' = inline_actions s ->
  effect e s s'.
Proof.
  intros Hl Hd Hi. split.
  - by apply same_ledger_inv.
  - apply kept_refl, (sl_accounts _ _ Hl).
  - exists []. rewrite app_nil_r. cbn. split; [done|lia].
Qed.

Lemma trade_effect from to c q ty memo e s u s' :
  rows_ok (db s) -> is_u 64 c -> well_typed q -> trade from to c q ty memo e s = Ok (u, s') -> effect e s s'.
Proof.
  intros Hok Hc Hq H. unfold trade in H. mcase; [|mcase]; [..|mcase].
  - eapply effect_send; [done|]. by eapply relay_transfer_effect.
  - eapply effect_send; [done|]. by eapply relay_transfer_effect.
  - eapply (effect_send e s s); [done|]. apply effect_same; [apply same_ledger_refl|done|done].
Qed.

Lemma on_effect c d e s u s' : on c d e s = Ok (u, s') -> effect e s s'.
Proof.
  assert (Hid : effect e s s) by (apply effect_same; [apply same_ledger_refl|done|done]).
  intros H. unfold on in H. minv. mcase; [|done]. mcase; [done|]. mcase; [done|]. mcase; [done|].
  by apply effect_send.
Qed.

(** The supply of a currency changes. *)
Lemma rows_supply s c k st st' ids rw m :
  rows_ok s -> stats s !! (c, k) = Some st -> symbol (supply st') = symbol (supply st) ->
  max_supply st' = max_supply st -> chain st' = chain st -> 0 <= amount (supply st') <= amount (max_supply st) ->
  m = reward_mine s -> rows_ok (State (accounts s) ids (<[(c, k) := st']> (stats s)) rw m).
Proof.
  intros [Hst Hacc Hu Hm] H0 Hsy Hmax Hch Hamt ->. split; cbn; [| |done|done].
  - intros c' k' x [[[= <- <-] <-]|[_ Hx]]%lookup_insert_Some; [|eauto].
    destruct (Hst _ _ _ H0) as (? & ? & ? & ? & ?). rewrite Hsy, Hmax, Hch. split_and!; try done; lia.
  - intros o id a (? & ? & ? & ? & x & Hx & Hxs)%Hacc. split_and!; try done; try lia.
    destruct (decide (token_of a = (c, k))) as [E|E].
    + rewrite E, lookup_insert_eq. exists st'. rewrite E in Hx. split; [done|]. congruence.
    + rewrite lookup_insert_ne by done. eauto.
Qed.

Lemma issue_effect c to q memo e s u s' :
  rows_ok (db s) -> is_u 64 c -> well_typed q -> issue c to q memo e s = Ok (u, s') -> effect e s s'.
Proof.
  intros Hok Hc Hq H. unfold issue in H. minv.
  match goal with Hst : stats _ !! _ = Some ?x |- _ => rename Hst into Hst0; rename x into st end.
  destruct (ok_stats _ Hok _ _ _ Hst0) as (_ & _ & _ & Hsup & Hmax).
  match goal with Hx : asset_add _ _ = Ok _ |- _ => apply asset_add_ok in Hx as (_ & Hr & ->); [|arange; lia|apply Hq] end.
  match goal with Hx : add_balance _ _ _ _ _ = Ok _, Hle : amount q <= i64 _ |- _ =>
    rewrite wrapS_small in Hle by (arange; lia); apply relay_add_balance_ok in Hx as (s1 & [= ->] & Hm) end;
    cbn [db stats] in *.
  - assert (Heff : effect e s (St s1 (notified s) (inline_actions s))).
    { split; cbn [db inline_actions].
      + intros [_ Hheld]. split; [by apply (mv_rows _ _ _ _ _ Hm)|]. intros t x Hx.
        rewrite (mv_stats _ _ _ _ _ Hm) in Hx. rewrite (mv_held _ _ _ _ _ Hm). cbn [stats] in Hx.
        change (held _ t) with (held (db s) t).
        apply lookup_insert_Some in Hx as [[<- <-]|[Hne Hx]].
        * rewrite decide_True by done. rewrite (Hheld _ _ Hst0). cbn. lia.
        * rewrite decide_False by done. rewrite (Hheld _ _ Hx). lia.
      + eapply kept_trans; [|eapply kept_moved; [exact Hm|lia]]. by apply kept_refl.
      + exists []. rewrite app_nil_r. split; [done|]. rewrite (mv_due _ _ _ _ _ Hm). unfold rewards_due. cbn. lia. }
    mcase; [by apply (effect_send e s (St s1 (notified s) (inline_actions s)))|done].
  - eapply rows_supply; try done; cbn; lia.
  - done.
  - done.
  - lia.
  - rewrite lookup_insert_eq. eexists. split; [done|]. done.
Qed.

Lemma destroy_effect c from q memo e s u s' :
  rows_ok (db s) -> is_u 64 c -> well_typed q -> destroy c from q memo e s = Ok (u, s') -> effect e s s'.
Proof.
  intros Hok Hc Hq H. unfold destroy in H. minv.
  match goal with Hst : stats _ !! _ = Some ?x |- _ => rename Hst into Hst0; rename x into st end.
  destruct (ok_stats _ Hok _ _ _ Hst0) as (_ & _ & _ & Hsup & Hmax).
  match goal with Hx : asset_sub _ _ = Ok _ |- _ => apply asset_sub_ok in Hx as (_ & Hr & ->); [|arange; lia|apply Hq] end.
  match goal with Hx : sub_balance _ _ _ _ _ = Ok _ |- _ => apply relay_sub_balance_ok in Hx as (s1 & [= ->] & Hm) end;
    cbn [db stats] in *.
  - split; cbn [db inline_actions].
    + intros [_ Hheld]. split; [by apply (mv_rows _ _ _ _ _ Hm)|]. intros t x Hx.
      rewrite (mv_stats _ _ _ _ _ Hm) in Hx. rewrite (mv_held _ _ _ _ _ Hm). cbn [stats] in Hx.
      change (held _ t) with (held (db s) t).
      apply lookup_insert_Some in Hx as [[<- <-]|[Hne Hx]].
      * rewrite decide_True by done. rewrite (Hheld _ _ Hst0). cbn. lia.
      * rewrite decide_False by done. rewrite (Hheld _ _ Hx). lia.
    + eapply kept_trans; [|eapply kept_moved; [exact Hm|done]]. by apply kept_refl.
    + exists []. rewrite app_nil_r. split; [done|]. rewrite (mv_due _ _ _ _ _ Hm). unfold rewards_due. cbn. lia.
  - eapply rows_supply; try done; cbn; lia.
  - done.
  - done.
  - lia.
Qed.

Lemma create_effect i c sa sc q e s u s' :
  rows_ok (db s) -> well_typed q -> create i c sa sc q e s = Ok (u, s') -> effect e s s'.
Proof.
  intros Hok Hq H. unfold create in H. minv. case_match eqn:E; [done|].
  assert (Hnew : forall o id a, accounts (db s) !! (o, id) = Some a -> token_of a <> (c, Sym.name (symbol q))).
  { intros o id a (_ & _ & _ & _ & st & Hst & _)%(ok_accounts _ Hok) Ht. rewrite Ht in Hst. congruence. }
  split; cbn [db inline_actions].
  - intros [[Hst Hacc Hu Hm] Hheld]. unfold is_valid, is_amount_within_range in *. rinv. split; [split; cbn; [| |done|done]|].
    + intros c' k st [[[= <- <-] <-]|[_ Hx]]%lookup_insert_Some; [|eauto]. cbn. split_and!; try done; lia.
    + intros o id a Ha. destruct (Hacc _ _ _ Ha) as (? & ? & ? & ? & st & Hst' & ?). split_and!; try done; try lia.
      exists st. rewrite lookup_insert_ne by (intros Hx; by eapply Hnew). done.
    + intros t st Hx. cbn [stats] in Hx. apply lookup_insert_Some in Hx as [[<- <-]|[Hne Hx]]; [|by apply Hheld].
      unfold held. cbn. rewrite (map_sum_ext _ (fun _ _ => 0)); [apply map_sum_0|].
      intros [o id] a Ha. rewrite decide_False by (by eapply Hnew). done.
  - by apply kept_refl.
  - exists []. rewrite app_nil_r. split; [done|]. cbn. unfold rewards_due. cbn. lia.
Qed.

Lemma claim_effect c q rcv e s u s' :
  rows_ok (db s) -> is_u 64 c -> well_typed q -> claim c q rcv e s = Ok (u, s') -> effect e s s'.
Proof.
  intros Hok Hc [_ Hq] H. unfold claim in H. minv.
  match goal with Hx : settle_user _ _ _ _ _ = Ok _ |- _ =>
    apply settle_user_moved in Hx as (s1 & [= ->] & Hm & _); [|done..] end.
  match goal with Hx : get_bychain _ _ _ _ = Ok _ |- _ =>
    apply get_bychain_ok in Hx as (id' & a' & [= <- <- ->] & Hrow) end.
  pose proof (mv_rows _ _ _ _ _ Hm) as Hok1. cbn [db] in *.
  apply (row_of_token _ _ _ _ _ _ Hok1 Hc Hq) in Hrow as [Ha Ht]. minv.
  match goal with Hz : core_asset 0 = Ok _ |- _ => apply core_asset_ok in Hz as [? ->] end.
  destruct (ok_accounts _ Hok1 _ _ _ Ha) as (Hamt & _).
  set (a' := Account (balance a) (acc_chain a) (mineage a) (mineage_update_height a) (Asset 0 CORE_SYMBOL)).
  assert (Hrows : rows_ok (set_accounts (<[(rcv, z) := a']> (accounts s1)) s1)).
  { apply (rows_replace s1 rcv z a); try done. apply (ok_mine _ Hok1). }
  split; cbn [db inline_actions].
  - intros Hinv. apply (moved_inv _ _ _ _ _ Hinv) in Hm as [_ Hheld]; [|done]. split; [done|]. intros t st Hst.
    rewrite <- (Hheld t st Hst). unfold held at 1. cbn [accounts].
    change (map_sum _ (<[(rcv, z):=a']> _)) with (held_in (<[(rcv, z):=a']> (accounts s1)) t).
    rewrite (held_replace _ _ a) by done. unfold held_in, held. cbn. case_decide; lia.
  - eapply kept_trans; [eapply kept_moved; [exact Hm|lia]|]. intros o id b Hb. cbn.
    destruct (decide ((o, id) = (rcv, z))) as [E|E].
    + rewrite E in *. simplify_eq. rewrite lookup_insert_eq. exists a'. split; [done|]. cbn. lia.
    + exists b. rewrite lookup_insert_ne by congruence. split; [done|lia].
  - eexists. split; [done|]. rewrite <- (mv_due _ _ _ _ _ Hm). unfold rewards_due. cbn [accounts reward_mine].
    rewrite map_sum_insert, (at_key_Some _ _ _ _ Ha). cbn. lia.
Qed.

(** ** Runs. *)

(** The actions that fill the records of mined rewards. *)
Definition mines (c : call) : bool :=
  match c with Rewardmine _ | Settlemine _ => true | _ => false end.

Lemma apply_effect price c e s u s' :
  rows_ok (db s) -> call_typed c -> mines c = false -> apply price c e s = Ok (u, s') -> effect e s s'.
Proof.
  intros Hok Hc Hm H. destruct c; cbn [apply call_typed mines] in *; try done.
  - by eapply on_effect.
  - eapply create_effect; [done|apply Hc|done].
  - destruct Hc. by eapply issue_effect.
  - destruct Hc. by eapply destroy_effect.
  - destruct Hc. by eapply relay_transfer_effect.
  - destruct Hc. by eapply trade_effect.
  - pose proof H as [Hl Hd]%addreward_ledger. apply effect_same; [done|done|]. unfold addreward in H. by minv.
  - destruct Hc. by eapply claim_effect.
  - pose proof H as [Hl Hd]%activemine_ledger. apply effect_same; [done| |].
    + unfold rewards_due. by rewrite Hd, (sl_accounts _ _ Hl).
    + unfold activemine in H. minv.
      match goal with Hf : mfor _ _ _ _ _ = Ok _ |- _ =>
        apply (mfor_inv (fun _ s1 => inline_actions s1 = inline_actions s)) in Hf; [exact Hf| |done] end.
      intros u1 x s1 [u2 s2] _ Hs Hs2. unfold activate in Hs2. by minv.
Qed.

Lemma apply_mines price c e s u s' :
  mines c = true -> apply price c e s = Ok (u, s') -> same_ledger (db s) (db s').
Proof.
  intros Hm H. destruct c; cbn [mines] in Hm; try discriminate Hm.
  - exact (rewardmine_ledger _ _ _ _ _ _ H).
  - exact (settlemine_ledger 0 _ _ _ _ H).
Qed.

Lemma relay_apply_inv price c e s u s' :
  inv (db s) -> call_typed c -> apply price c e s = Ok (u, s') -> inv (db s').
Proof.
  intros Hinv Hc H. destruct (mines c) eqn:Hm.
  - by eapply same_ledger_inv; [eapply apply_mines|].
  - by eapply ef_inv; [eapply apply_effect; [apply Hinv|..]|].
Qed.

(** The states of the contract: actions run on the state the last one left. *)
Inductive reachable (price : env -> Z -> Z -> Z -> result Z) : state -> Prop :=
  | reach_init : reachable price (State ∅ ∅ ∅ ∅ ∅)
  | reach_step s c e u s' :
      reachable price s -> call_typed c -> apply (price e) c e (St s [] []) = Ok (u, s') -> reachable price (db s').

Lemma init_inv : inv (State ∅ ∅ ∅ ∅ ∅).
Proof. split; [split|]; cbn; intros *; rewrite lookup_empty; done. Qed.

Lemma relay_reachable_inv price s : reachable price s -> inv s.
Proof.
  induction 1 as [|s c e u s' _ IH Hc H]; [apply init_inv|]. exact (relay_apply_inv (price e) c e (St s [] []) u s' IH Hc H).
Qed.

(** In every reachable state the supply of a token is the sum of its balances. *)
(** C5: In every reachable state of the relay token contract the supply of each token is
    the sum of its balances and lies between zero and the maximum, balances are in
    range and carry the symbol of their token, and no holder has two rows of one
    token. *)
Theorem relay_supply price s :
  reachable price s ->
  (forall t st, stats s !! t = Some st ->
     held s t = amount (supply st) /\ 0 <= amount (supply st) <= amount (max_supply st)) /\
  (forall o id a, accounts s !! (o, id) = Some a ->
     0 <= amount (balance a) <= max_amount /\
     exists st, stats s !! token_of a = Some st /\ symbol (balance a) = symbol (supply st)) /\
  (forall o id id' a a', accounts s !! (o, id) = Some a -> accounts s !! (o, id') = Some a' ->
     token_of a = token_of a' -> id = id').
Proof.
  intros Hr. destruct (relay_reachable_inv _ _ Hr) as [[Hst Hacc Hu _] Hheld]. split_and!.
  - intros [c k] st Ht. destruct (Hst _ _ _ Ht) as (_ & _ & _ & ? & _). by rewrite (Hheld _ _ Ht).
  - intros o id a (? & _ & _ & _ & ?)%Hacc. done.
  - done.
Qed.

(** An action lowers the balance of a holder only with the holder's authority. *)
(** C9: An action of the relay token contract lowers the balance of a holder only with
    the holder's authority. *)
Theorem relay_debit_authorized price c e s u s' o id a :
  rows_ok (db s) -> call_typed c -> apply price c e s = Ok (u, s') ->
  accounts (db s) !! (o, id) = Some a ->
  exists a', accounts (db s') !! (o, id) = Some a' /\
    (amount (balance a') < amount (balance a) -> has_authorization (authorization e) o = true).
Proof.
  intros Hok Hc H Ha. destruct (mines c) eqn:Hm.
  - exists a. rewrite (sl_accounts _ _ (apply_mines _ _ _ _ _ _ Hm H)). split; [done|lia].
  - by eapply ef_kept; [by eapply apply_effect|].
Qed.

(** Outside the actions that fill the records, the rewards recorded for holders and in the
    records change exactly by what is cast to holders. *)
(** C10: Outside the actions that fill the records, the rewards recorded for holders and
    left in the records change exactly by the coins cast to holders. *)
Theorem relay_rewards_conserved price c e s u s' :
  rows_ok (db s) -> call_typed c -> mines c = false -> apply price c e s = Ok (u, s') ->
  exists l, inline_actions s' = inline_actions s ++ l /\ rewards_due (db s') + casts l = rewards_due (db s).
Proof. intros Hok Hc Hm H. by eapply ef_due, apply_effect. Qed.

(** ** A concrete run. *)
#[export] Instance call_typed_dec c : Decision (call_typed c).
Proof. destruct c; cbn; unfold well_typed, is_u, is_s; apply _. Defined.

(** A sequence of actions, each on the state the last one left. *)
Fixpoint run (price : env -> Z -> Z -> Z -> result Z) (s : state) (l : list (call * env)) : result state :=
  match l with
  | [] => Ok s
  | (c, e) :: l => match apply (price e) c e (St s [] []) with
                   | Ok (_, s') => run price (db s') l
                   | Err m => Err m
                   end
  end.

Lemma run_reachable price l : forall s s',
  reachable price s -> Forall (fun ce => call_typed ce.1) l -> run price s l = Ok s' -> reachable price s'.
Proof.
  induction l as [|[c e] l IH]; intros s s' Hs Hl H; cbn in H; [by injection H as <-|].
  apply Forall_cons in Hl as [Hc Hl]. destruct (apply _ _ _ _) as [[u s1]|] eqn:E; [|done].
  eapply IH; [|done|done]. by eapply reach_step.
Qed.

Definition relay_acct : Z := Eval vm_compute in N_ "relay.token".
Definition side_chain : Z := Eval vm_compute in N_ "side".
Definition rt_alice : Z := Eval vm_compute in N_ "alice".
Definition rt_bob : Z := Eval vm_compute in N_ "bob".
Definition rt_env (auth block : Z) : env :=
  Env relay_acct [(auth, active)] {[ rt_alice; rt_bob; side_chain ]} block 0.
Definition coins (n : Z) : asset := Asset n CORE_SYMBOL.
Definition rt_price (_ : env) (_ _ _ : Z) : result Z := Ok 10000.

(** Alice creates, issues and lists a token, a cycle ends, and Bob gets a part of it. *)
Definition rt_calls : list (call * env) :=
  [ (Create rt_alice side_chain 0 0 (coins 1000000), rt_env side_chain 10);
    (Issue side_chain rt_alice (coins 3000) "first", rt_env rt_alice 20);
    (Addreward side_chain (coins 0) 1, rt_env relay_acct 30);
    (Settlemine config.system_account_name, rt_env config.system_account_name 40);
    (Rewardmine (coins 900000), rt_env config.system_account_name 40);
    (Transfer rt_alice rt_bob side_chain (coins 1000) "part", rt_env rt_alice 50) ]%string.
Definition rt_state : state :=
  match run rt_price (State ∅ ∅ ∅ ∅ ∅) rt_calls with Ok s => s | Err _ => State ∅ ∅ ∅ ∅ ∅ end.

Lemma rt_reachable : reachable rt_price rt_state.
Proof.
  apply (run_reachable rt_price rt_calls (State ∅ ∅ ∅ ∅ ∅)); [apply reach_init| |vm_compute; reflexivity].
  apply (bool_decide_unpack _). vm_compute. reflexivity.
Qed.

Lemma relay_supply_witness :
  held rt_state (side_chain, Sym.name CORE_SYMBOL) = 3000 /\
  held rt_state (side_chain, Sym.name CORE_SYMBOL) =
    at_key (fun _ st => amount (supply st)) (stats rt_state) (side_chain, Sym.name CORE_SYMBOL).
Proof.
  destruct (stats rt_state !! (side_chain, Sym.name CORE_SYMBOL)) as [st|] eqn:E; [|by vm_compute in E].
  destruct (relay_supply rt_price rt_state rt_reachable) as [H _]. rewrite (at_key_Some _ _ _ _ E).
  split; [vm_compute; reflexivity|]. by apply H.
Defined.

Definition rt_transfer : call := Transfer rt_alice rt_bob side_chain (coins 500) "more".
Definition rt_after (c : call) (e : env) : st state :=
  match apply (rt_price e) c e (St rt_state [] []) with Ok (_, s) => s | Err _ => St rt_state [] [] end.

Lemma relay_debit_authorized_witness :
  exists a', accounts (db (rt_after rt_transfer (rt_env rt_alice 60))) !! (rt_alice, 1) = Some a' /\
    amount (balance a') = 1500 /\ (amount (balance a') < 2000 -> has_authorization [(rt_alice, active)] rt_alice = true).
Proof.
  destruct (accounts rt_state !! (rt_alice, 1)) as [a|] eqn:Ea; [|by vm_compute in Ea].
  destruct (relay_debit_authorized (rt_price (rt_env rt_alice 60)) rt_transfer (rt_env rt_alice 60) (St rt_state [] []) tt
    (rt_after rt_transfer (rt_env rt_alice 60)) rt_alice 1 a) as (a' & Ha' & H).
  - apply (relay_reachable_inv _ _ rt_reachable).
  - apply (bool_decide_unpack _). vm_compute. reflexivity.
  - vm_compute. reflexivity.
  - exact Ea.
  - exists a'. split; [done|]. vm_compute in Ea. injection Ea as <-. vm_compute in Ha'. injection Ha' as <-. split; [done|exact H].
Defined.

Definition rt_claim : call := Claim side_chain (coins 0) rt_alice.

Lemma relay_rewards_conserved_witness :
  let s' := rt_after rt_claim (rt_env rt_alice 60) in
  casts (inline_actions s') = 900000 /\
  exists l, inline_actions s' = [] ++ l /\ rewards_due (db s') + casts l = rewards_due rt_state.
Proof.
  split; [vm_compute; reflexivity|].
  eapply (relay_rewards_conserved (rt_price (rt_env rt_alice 60)) rt_claim (rt_env rt_alice 60) (St rt_state [] []) tt).
  - apply (relay_reachable_inv _ _ rt_reachable).
  - apply (bool_decide_unpack _). vm_compute. reflexivity.
  - reflexivity.
  - vm_compute. reflexivity.
Defined.

End Relay.
