(* ===== verification/RelayMining.v ===== *)
(** * Mining rewards of the relay tokens.

    A record of a cycle holds the total age of a token in that cycle, not yet settled with
    its holders.  While no record has been dropped, the ages recorded up to a block are the
    unsettled ages of all holders at that block, so that no holder takes more than its share
    of a record and no pool is overdrawn. *)
From stdpp Require Import base gmap list sorting.
From Stdlib Require Import ZArith Lia.
From stdpp Require Import strings.
From S2P Require Import Prelude Name Asset Runtime Token RelayToken.
Import Relay.

Open Scope Z_scope.

(** ** Ages. *)

(** The age of a holding at block [n] that is not settled yet. *)
Definition unsettled (a : account) (n : Z) : Z :=
  if decide (mineage_update_height a < n)
  then mineage a + amount (balance a) * (n - mineage_update_height a) else 0.

(** The age as a line through the current height. *)
Definition offset (a : account) : Z := mineage a - amount (balance a) * mineage_update_height a.

Definition ages (s : state) (t : Z * Z) (n : Z) : Z :=
  map_sum (fun _ a => if decide (token_of a = t) then unsettled a n else 0) (accounts s).
Definition offsets (s : state) (t : Z * Z) : Z :=
  map_sum (fun _ a => if decide (token_of a = t) then offset a else 0) (accounts s).

(** The ages in the records of a scope, up to a block and all together. *)
Definition recorded (m : gmap (Z * Z) reward_mine_info) (scope n : Z) : Z :=
  map_sum (fun k r => if decide (k.1 = scope /\ k.2 <= n) then rm_total_mineage r else 0) m.
Definition recorded_all (m : gmap (Z * Z) reward_mine_info) (scope : Z) : Z :=
  map_sum (fun k r => if decide (k.1 = scope) then rm_total_mineage r else 0) m.

(** A record that is not the first of its scope. *)
Definition later (m : gmap (Z * Z) reward_mine_info) (scope n : Z) : Prop :=
  is_Some (m !! (scope, n)) /\ exists n0, n0 < n /\ is_Some (m !! (scope, n0)).

Lemma unsettled_mono a n n' :
  0 <= mineage a -> 0 <= amount (balance a) -> n <= n' -> 0 <= unsettled a n <= unsettled a n'.
Proof. intros Hm Hb Hn. unfold unsettled. repeat case_decide; nia. Qed.

Lemma recorded_insert m scope k r r' n :
  m !! (scope, k) = Some r ->
  recorded (<[(scope, k) := r']> m) scope n =
    recorded m scope n + (if decide (k <= n) then rm_total_mineage r' - rm_total_mineage r else 0).
Proof.
  intros Hk. unfold recorded. rewrite map_sum_insert, (at_key_Some _ _ _ _ Hk). cbn [fst snd].
  repeat case_decide; try lia; destruct_and?; naive_solver lia.
Qed.

Lemma recorded_all_insert m scope k r r' :
  m !! (scope, k) = Some r ->
  recorded_all (<[(scope, k) := r']> m) scope = recorded_all m scope + (rm_total_mineage r' - rm_total_mineage r).
Proof.
  intros Hk. unfold recorded_all. rewrite map_sum_insert, (at_key_Some _ _ _ _ Hk). cbn [fst snd].
  rewrite !decide_True by done. lia.
Qed.

(** Between two neighbours only the second one counts. *)
Lemma recorded_step m scope p k r :
  m !! (scope, k) = Some r -> p < k -> (forall n, p < n < k -> m !! (scope, n) = None) ->
  recorded m scope k = recorded m scope p + rm_total_mineage r.
Proof.
  intros Hk Hpk Hgap. unfold recorded. rewrite <- (insert_delete_id m (scope, k) r Hk).
  rewrite !map_sum_insert_None by apply lookup_delete_eq. cbn [fst snd].
  rewrite decide_True by (split; [done|lia]). rewrite (decide_False (P := _ /\ k <= p)) by lia.
  assert (forall A B C : Z, B = C -> A + B = 0 + C + A) as Hc by lia. apply Hc.
  apply map_sum_ext. intros [sc n] x Hx. apply lookup_delete_Some in Hx as [Hne Hx]. cbn [fst snd].
  repeat case_decide; try done; destruct_and?; subst.
  - assert (n = k \/ p < n < k) as [->|Hn] by lia; [done|]. rewrite Hgap in Hx; done.
  - lia.
Qed.

Lemma recorded_none m scope k :
  (forall n, n <= k -> m !! (scope, n) = None) -> recorded m scope k = 0.
Proof.
  intros Hnone. unfold recorded. rewrite (map_sum_ext _ (fun _ _ => 0)); [apply map_sum_0|].
  intros [sc n] x Hx. cbn. case_decide; [|done]. destruct_and?; subst. rewrite Hnone in Hx by done. done.
Qed.

(** ** The order of the records. *)
Lemma scope_keys_split {V} (m : gmap (Z * Z) V) scope l1 k l2 :
  scope_keys m scope = l1 ++ k :: l2 -> (forall x, x ∈ l1 -> x < k) /\ (forall x, x ∈ l2 -> k < x).
Proof.
  intros E. assert (Hs : StronglySorted Z.le (scope_keys m scope)).
  { apply Sorted_StronglySorted; [intros ???; lia|]. unfold scope_keys. apply Sorted_merge_sort. intros ??; lia. }
  pose proof (scope_keys_NoDup m scope) as Hnd. rewrite E in Hs, Hnd.
  apply NoDup_app in Hnd as (_ & Hd & Hnd). apply NoDup_cons in Hnd as [Hk _].
  apply StronglySorted_app in Hs as (H1 & _ & H2). apply StronglySorted_inv in H2 as [_ H2].
  split; intros x Hx.
  - assert (x <> k) by (intros ->; apply (Hd k Hx); left). specialize (H1 x k Hx ltac:(left)). lia.
  - assert (x <> k) by (intros ->; done). eapply Forall_forall in H2; [|exact Hx]. lia.
Qed.

(** Between the record before [k] and [k] there is none. *)
Lemma scope_keys_gap {V} (m : gmap (Z * Z) V) scope l1 k l2 n :
  scope_keys m scope = l1 ++ k :: l2 -> n < k -> is_Some (m !! (scope, n)) -> n ∈ l1.
Proof.
  intros E Hn Hs. apply scope_keys_spec in Hs. destruct (scope_keys_split _ _ _ _ _ E) as [_ H2].
  rewrite E in Hs. apply elem_of_app in Hs as [?|[->|H]%elem_of_cons]; [done|lia|]. specialize (H2 _ H). lia.
Qed.

Lemma settle_record_inv scope bal h m rw cd k e s r it :
  reward_mine (db s) !! (scope, k) = Some it -> settle_record scope bal (h, m, rw, cd) k e s = Ok r ->
  (h < u32 (reward_block_num it) /\ 0 < rm_total_mineage it /\
   exists part q rw' pool,
     let mi := i128 (m + age bal h (reward_block_num it)) in
     asset_mul (reward_pool it) (i64 mi) = Ok part /\ asset_div part (i64 (rm_total_mineage it)) = Ok q /\
     asset_add rw q = Ok rw' /\ asset_sub (reward_pool it) q = Ok pool /\
     r = ((u32 (reward_block_num it), 0, rw', true),
          St (set_mine (<[(scope, k) := RewardMine (i128 (rm_total_mineage it - mi)) pool (reward_block_num it)]>
                          (reward_mine (db s))) (db s)) (notified s) (inline_actions s))) \/
  ((u32 (reward_block_num it) <= h \/ rm_total_mineage it <= 0) /\ r = ((h, m, rw, cd), s)).
Proof.
  intros Hit H. unfold settle_record in H. apply mbind_ok in H as (it' & s1 & H1 & H).
  apply get_ok in H1 as (v & Hv & [= -> ->]). cbn in Hv. assert (v = it) as -> by congruence.
  destruct ((h <? u32 (reward_block_num it)) && (0 <? rm_total_mineage it)) eqn:E.
  - left. apply andb_true_iff in E as [E1%Z.ltb_lt E2%Z.ltb_lt]. split; [done|]. split; [done|].
    apply mbind_ok in H as (part & s1 & (? & Hmul & [= -> ->])%lift_ok & H).
    apply mbind_ok in H as (q & s1 & (? & Hdiv & [= -> ->])%lift_ok & H).
    apply mbind_ok in H as (rw' & s1 & (? & Hadd & [= -> ->])%lift_ok & H).
    apply mbind_ok in H as (pool & s1 & (? & Hsub & [= -> ->])%lift_ok & H).
    apply mbind_ok in H as (u & s1 & [_ [= -> ->]]%modify_ok & ->%mret_ok). eauto 10.
  - right. apply mret_ok in H as ->. split; [|done].
    apply andb_false_iff in E as [E%Z.ltb_ge|E%Z.ltb_ge]; auto.
Qed.

Section settle.
Context (scope : Z) (a : account) (M0 : gmap (Z * Z) reward_mine_info) (oth : Z -> Z).
Hypothesis Hpos : 0 <= mineage a /\ 0 <= amount (balance a) /\ 0 <= mineage_update_height a.
Hypothesis Hrows : forall n r, M0 !! (scope, n) = Some r ->
  reward_block_num r = n /\ 0 <= n < 2 ^ 31 /\ 0 <= rm_total_mineage r < 2 ^ 63 /\
  coin (reward_pool r) /\ 0 <= amount (reward_pool r) /\ unsettled a n < 2 ^ 63.
Hypothesis Hfirst : forall n r, M0 !! (scope, n) = Some r -> ~ later M0 scope n -> rm_total_mineage r = 0.
Hypothesis Hlater : forall n, later M0 scope n -> recorded M0 scope n = unsettled a n + oth n.
Hypothesis Hoth : forall n n', n <= n' -> 0 <= oth n <= oth n'.

(** The first record has no age. *)
Lemma first_record k l2 r :
  scope_keys M0 scope = k :: l2 -> M0 !! (scope, k) = Some r ->
  ~ later M0 scope k /\ rm_total_mineage r = 0 /\ recorded M0 scope k = 0.
Proof.
  intros E Hr. assert (Hnone : forall n, n < k -> M0 !! (scope, n) = None).
  { intros n Hn. apply eq_None_not_Some. intros Hs. eapply (scope_keys_gap _ _ []) in Hs; [|done..].
    by apply elem_of_nil in Hs. }
  assert (Hnl : ~ later M0 scope k).
  { intros [_ (n0 & Hn0 & [x Hx])]. by rewrite Hnone in Hx. }
  split; [done|]. pose proof (Hfirst k r Hr Hnl) as H0. split; [done|].
  rewrite (recorded_step M0 scope (k - 1) k r Hr), (recorded_none M0 scope (k - 1)), H0; [done| |lia|].
  - intros n Hn. apply Hnone. lia.
  - intros n Hn. lia.
Qed.

Lemma later_record l1 p k l2 r :
  scope_keys M0 scope = l1 ++ p :: k :: l2 -> M0 !! (scope, k) = Some r ->
  later M0 scope k /\ p < k /\ recorded M0 scope k = recorded M0 scope p + rm_total_mineage r.
Proof.
  intros E Hr. pose proof (scope_keys_split _ _ _ _ _ E) as [Hl Hr2].
  assert (Hpk : p < k) by (apply Hr2; left).
  assert (Hp : is_Some (M0 !! (scope, p))) by (apply scope_keys_spec; rewrite E; set_solver).
  split; [split; [eauto|exists p; auto]|]. split; [done|]. apply recorded_step; [done..|].
  intros n Hn. apply eq_None_not_Some. intros Hs.
  assert (E' : scope_keys M0 scope = (l1 ++ [p]) ++ k :: l2) by (by rewrite <- app_assoc).
  pose proof (scope_keys_gap _ _ _ _ _ n E' ltac:(lia) Hs) as [Hin|Hin]%elem_of_app.
  - specialize (Hl _ Hin). lia.
  - apply list_elem_of_singleton in Hin. lia.
Qed.

(** What has been taken from the records of [l]: all that is unsettled at its last one. *)
Definition taken (l : list Z) (D : Z) : Prop :=
  match last l with
  | Some p => (later M0 scope p -> D = unsettled a p) /\ (~ later M0 scope p -> D = 0)
  | None => D = 0
  end.

(** The share of the holder in the next record: what is unsettled there and not yet taken. *)
Lemma share_of l1 k l2 r D :
  scope_keys M0 scope = l1 ++ k :: l2 -> M0 !! (scope, k) = Some r -> taken l1 D ->
  match l1 with
  | [] => ~ later M0 scope k /\ rm_total_mineage r = 0
  | _ => later M0 scope k /\ 0 <= D <= unsettled a k /\ unsettled a k - D <= rm_total_mineage r
  end.
Proof.
  intros E Hr HD. destruct l1 as [|x l1' _] using rev_ind.
  { destruct (first_record _ _ _ E Hr) as (? & ? & _). done. }
  assert (Hm : match l1' ++ [x] with [] => False | _ => True end) by (by destruct l1').
  destruct (l1' ++ [x]) eqn:El; [done|]. rewrite <- El in *. clear Hm El. rewrite <- app_assoc in E. cbn in E.
  destruct (later_record _ _ _ _ _ E Hr) as (Hk & Hlt & Hstep). split; [done|].
  unfold taken in HD. rewrite last_snoc in HD. destruct HD as [HD1 HD2]. rewrite (Hlater k Hk) in Hstep.
  pose proof (unsettled_mono a x k ltac:(lia) ltac:(lia) ltac:(lia)). pose proof (Hoth x k ltac:(lia)).
  assert (Hx : is_Some (M0 !! (scope, x))) by (apply scope_keys_spec; rewrite E; set_solver).
  destruct l1' as [|y l1'].
  - destruct Hx as [rx Hx]. destruct (first_record _ _ _ E Hx) as (Hnl & _ & Hrec). rewrite (HD2 Hnl). lia.
  - assert (Hl : later M0 scope x).
    { split; [done|]. exists y. destruct (scope_keys_split _ _ _ _ _ E) as [H1 _]. split; [apply H1; left|].
      apply scope_keys_spec. rewrite E. set_solver. }
    rewrite (HD1 Hl). rewrite (Hlater x Hl) in Hstep. lia.
Qed.

(** The state of the loop after the records [l1]: [D] is the age taken so far. *)
Record loop_inv (l1 : list Z) (acc : Z * Z * asset * bool) (M : gmap (Z * Z) reward_mine_info) (D : Z) : Prop := {
  li_line : acc.1.1.2 - amount (balance a) * acc.1.1.1 = offset a - D;
  li_pos : 0 <= D;
  li_height : (acc.2 = false /\ acc.1.1.1 = mineage_update_height a /\ acc.1.1.2 = mineage a /\ D = 0) \/
              (acc.2 = true /\ acc.1.1.2 = 0 /\ mineage_update_height a < acc.1.1.1 /\ acc.1.1.1 ∈ l1);
  li_taken : taken l1 D;
  li_reward : coin acc.1.2 /\ 0 <= amount acc.1.2;
  li_scopes : forall sc k, sc <> scope -> M !! (sc, k) = M0 !! (sc, k);
  li_rest : forall k, k ∉ l1 -> M !! (scope, k) = M0 !! (scope, k);
  li_done : forall k, k ∈ l1 -> exists r r', M0 !! (scope, k) = Some r /\ M !! (scope, k) = Some r' /\
    reward_block_num r' = k /\ 0 <= rm_total_mineage r' <= rm_total_mineage r /\
    coin (reward_pool r') /\ 0 <= amount (reward_pool r') /\ (~ later M0 scope k -> rm_total_mineage r' = 0);
  li_prefix : forall k, k ∈ l1 -> later M0 scope k -> recorded M scope k = oth k;
  li_all : recorded_all M scope = recorded_all M0 scope - D;
  li_beyond : forall n, (forall k, k ∈ l1 -> k <= n) -> recorded M scope n = recorded M0 scope n - D;
}.

Lemma age_exact h n bal : 0 <= h <= n -> n < 2 ^ 31 -> 0 <= bal * (n - h) < 2 ^ 63 -> age bal h n = bal * (n - h).
Proof. intros Hh Hn Hb. unfold age. rewrite (wrapU_small 32) by lia. apply wrapS_small; lia. Qed.

Lemma loop_share l1 k l2 hc mc rw cd M D it :
  scope_keys M0 scope = l1 ++ k :: l2 -> loop_inv l1 (hc, mc, rw, cd) M D -> M0 !! (scope, k) = Some it ->
  hc < k -> 0 < rm_total_mineage it ->
  let mi := mc + amount (balance a) * (k - hc) in
  later M0 scope k /\ mi = unsettled a k - D /\ 0 <= mi <= rm_total_mineage it /\ mi <= unsettled a k /\
  mineage_update_height a <= hc /\ 0 <= mc.
Proof.
  intros E [Hline HD0 Hh Htaken _ _ _ _ _ _ _] Hit Hhk Htot mi. cbn [fst snd] in *.
  pose proof (share_of l1 k l2 it D E Hit Htaken) as Hshare.
  destruct l1 as [|x l1']; [lia|]. destruct Hshare as (Hlk & HD & Hle). split; [done|].
  assert (Hmi : mi = unsettled a k - D).
  { unfold mi, unsettled, offset in *. rewrite decide_True by lia. lia. }
  lia.
Qed.

(** The record a holder has a share in. *)
Lemma loop_take l1 k l2 hc mc rw cd M D it q :
  scope_keys M0 scope = l1 ++ k :: l2 -> loop_inv l1 (hc, mc, rw, cd) M D -> M0 !! (scope, k) = Some it ->
  hc < k -> 0 < rm_total_mineage it ->
  let mi := mc + amount (balance a) * (k - hc) in
  q = Z.quot (amount (reward_pool it) * mi) (rm_total_mineage it) -> in_range (amount rw + q) ->
  loop_inv (l1 ++ [k]) (k, 0, Asset (amount rw + q) CORE_SYMBOL, true)
    (<[(scope, k) := RewardMine (rm_total_mineage it - mi) (Asset (amount (reward_pool it) - q) CORE_SYMBOL) k]> M) (D + mi).
Proof.
  intros E Hinv Hit Hhk Htot mi Hq Hrange. pose proof (loop_share l1 k l2 hc mc rw cd M D it E Hinv Hit Hhk Htot) as Hsh.
  destruct Hinv as [Hline HD0 Hh Htaken [Hrw Hrw0] Hsc Hrest Hdone Hpre Hall Hbey]. cbn [fst snd] in *.
  pose proof (scope_keys_split _ _ _ _ _ E) as [Hlt _].
  assert (Hk : k ∉ l1) by (intros Hin; specialize (Hlt _ Hin); lia).
  destruct Hsh as (Hlk & Hmi & Hle & Hun & Hhh & _). fold mi in Hmi, Hle, Hun.
  destruct (Hrows _ _ Hit) as (_ & _ & _ & [Hps Hpr] & Hp0 & _).
  assert (Hq2 : 0 <= q <= amount (reward_pool it)).
  { subst q. split; [apply Z.quot_pos; nia|]. apply Z.quot_le_upper_bound; nia. }
  assert (HM : M !! (scope, k) = Some it) by (by rewrite Hrest).
  split; cbn [fst snd].
  - unfold mi. lia.
  - lia.
  - right. split_and!; [done|done|lia|set_solver].
  - unfold taken. rewrite last_snoc. split; [lia|done].
  - split; [by apply coin_mk|cbn; lia].
  - intros sc k' Hne. rewrite lookup_insert_ne by congruence. auto.
  - intros k' Hk'. rewrite lookup_insert_ne by set_solver. apply Hrest. set_solver.
  - intros k' [Hk'| ->%list_elem_of_singleton]%elem_of_app.
    + rewrite lookup_insert_ne by (intros [= ->]; done). auto.
    + rewrite lookup_insert_eq. eexists it, _. split_and!; [done|done|done|cbn; lia|cbn; lia| |cbn; lia|done].
      apply coin_mk. arange. lia.
  - intros k' [Hk'| ->%list_elem_of_singleton]%elem_of_app Hl'; rewrite (recorded_insert _ _ _ it) by done; cbn.
    + rewrite decide_False by (specialize (Hlt _ Hk'); lia). rewrite Hpre by done. lia.
    + rewrite decide_True by lia. rewrite Hbey by (intros k' Hk'; specialize (Hlt _ Hk'); lia).
      rewrite (Hlater k Hlk). lia.
  - rewrite (recorded_all_insert _ _ _ it) by done. cbn. lia.
  - intros n Hn. rewrite (recorded_insert _ _ _ it) by done. cbn. rewrite decide_True by (apply Hn; set_solver).
    rewrite Hbey by (intros k' Hk'; apply Hn; set_solver). lia.
Qed.

(** A record a holder has no share in. *)
Lemma loop_skip l1 k l2 hc mc rw cd M D it :
  scope_keys M0 scope = l1 ++ k :: l2 -> loop_inv l1 (hc, mc, rw, cd) M D -> M0 !! (scope, k) = Some it ->
  k <= hc \/ rm_total_mineage it <= 0 -> loop_inv (l1 ++ [k]) (hc, mc, rw, cd) M D.
Proof.
  intros E [Hline HD0 Hh Htaken Hrw Hsc Hrest Hdone Hpre Hall Hbey] Hit Hskip. cbn [fst snd] in *.
  pose proof (scope_keys_split _ _ _ _ _ E) as [Hlt _].
  assert (Hk : k ∉ l1) by (intros Hin; specialize (Hlt _ Hin); lia).
  pose proof (share_of l1 k l2 it D E Hit Htaken) as Hshare.
  destruct (Hrows _ _ Hit) as (Hnum & _ & Htot & Hpool & Hp0 & _).
  assert (HD : (later M0 scope k -> D = unsettled a k) /\ (~ later M0 scope k -> D = 0 /\ rm_total_mineage it = 0)).
  { destruct l1 as [|x l1'].
    - destruct Hshare as [Hnl H0]. split; [done|]. intros _. split; [apply Htaken|done].
    - destruct Hshare as (Hl & HD & Hle). split; [|done]. intros _. destruct Hskip as [Hskip|Hskip]; [|lia].
      destruct Hh as [(_ & -> & _ & ->)|(_ & _ & _ & Hin)].
      + unfold unsettled. by rewrite decide_False by lia.
      + specialize (Hlt _ Hin). lia. }
  split; cbn [fst snd]; try done.
  - destruct Hh as [?|(? & ? & ? & ?)]; [by left|right; set_solver].
  - unfold taken. rewrite last_snoc. split; [apply HD|intros Hn; by apply HD].
  - intros k' Hk'. apply Hrest. set_solver.
  - intros k' [Hk'| ->%list_elem_of_singleton]%elem_of_app; [auto|]. exists it, it. rewrite Hrest by done.
    split_and!; try done; try lia. intros Hn. by apply HD.
  - intros k' [Hk'| ->%list_elem_of_singleton]%elem_of_app Hl'; [auto|].
    rewrite Hbey by (intros k' Hk'; specialize (Hlt _ Hk'); lia). rewrite (Hlater k Hl'). destruct HD as [HD _].
    rewrite (HD Hl'). lia.
  - intros n Hn. apply Hbey. set_solver.
Qed.

(** One record. *)
Lemma loop_step l1 k l2 acc D e s r :
  scope_keys M0 scope = l1 ++ k :: l2 -> loop_inv l1 acc (reward_mine (db s)) D ->
  settle_record scope (amount (balance a)) acc k e s = Ok r ->
  exists acc' M D', r = (acc', St (set_mine M (db s)) (notified s) (inline_actions s)) /\ loop_inv (l1 ++ [k]) acc' M D'.
Proof.
  intros E Hinv H. destruct acc as [[[hc mc] rw] cd]. pose proof Hinv as [Hline _ Hh _ [Hrw _] _ Hrest _ _ _ _].
  cbn [fst snd] in *. pose proof (scope_keys_split _ _ _ _ _ E) as [Hlt _].
  assert (Hk : k ∉ l1) by (intros Hin; specialize (Hlt _ Hin); lia).
  assert (is_Some (M0 !! (scope, k))) as [it Hit] by (apply scope_keys_spec; rewrite E; set_solver).
  destruct (Hrows _ _ Hit) as (Hnum & Hkr & Htot & Hpool & Hpool0 & Hun).
  assert (HM : reward_mine (db s) !! (scope, k) = Some it) by (by rewrite Hrest).
  apply (settle_record_inv _ _ _ _ _ _ _ _ _ _ _ HM) in H. rewrite Hnum, (wrapU_small 32) in H by lia.
  destruct H as [(Hlt' & Hpos' & part & q & rw' & pool & Hmul & Hdiv & Hadd & Hsub & ->)|[Hskip ->]].
  - destruct (loop_share l1 k l2 hc mc rw cd _ D it E Hinv Hit Hlt' Hpos') as (_ & _ & Hle & Hle2 & Hhh & Hmc).
    destruct Hpos as (_ & Hb & Hh0). assert (0 <= amount (balance a) * (k - hc)) by (apply Z.mul_nonneg_nonneg; lia).
    rewrite (age_exact hc k) in * by lia.
    rewrite (wrapS_small 128 (mc + _)), (wrapS_small 64 (mc + _)) in * by (width_norm; lia).
    rewrite (wrapS_small 64 (rm_total_mineage it)) in * by (width_norm; lia).
    assert (Hs1 : is_s 64 (mc + amount (balance a) * (k - hc))) by (width_norm; lia).
    assert (Hs2 : is_s 64 (rm_total_mineage it)) by (width_norm; lia).
    destruct (coin_mul_div _ _ _ _ _ Hpool Hs1 Hs2 Hmul Hdiv) as (-> & _ & Hq).
    apply coin_add in Hadd as [-> Hr1]; [|done..]. apply coin_sub in Hsub as [-> Hr2]; [|done..].
    cbn [amount] in *. eexists _, _, _. split; [reflexivity|].
    rewrite wrapS_small by (width_norm; lia). by apply (loop_take l1 k l2 hc mc rw cd _ D it).
  - exists (hc, mc, rw, cd), (reward_mine (db s)), D. split; [by destruct s as [[] ? ?]|]. by eapply loop_skip.
Qed.

Lemma loop_run l2 e : forall l1 acc D s r,
  scope_keys M0 scope = l1 ++ l2 -> loop_inv l1 acc (reward_mine (db s)) D ->
  mfor (settle_record scope (amount (balance a))) acc l2 e s = Ok r ->
  exists acc' M D', r = (acc', St (set_mine M (db s)) (notified s) (inline_actions s)) /\
    loop_inv (scope_keys M0 scope) acc' M D'.
Proof.
  induction l2 as [|k l2 IH]; intros l1 acc D s r E Hinv H; cbn [mfor] in H.
  - apply mret_ok in H as ->. rewrite app_nil_r in E. exists acc, (reward_mine (db s)), D.
    split; [by destruct s as [[] ? ?]|]. by rewrite E.
  - apply mbind_ok in H as (acc1 & s1 & H1 & H2).
    eapply loop_step in H1 as (acc' & M & D' & [= -> ->] & Hinv'); [|done..].
    eapply (IH (l1 ++ [k])) in H2 as (acc2 & M2 & D2 & -> & Hinv2); [|by rewrite <- app_assoc|done].
    by exists acc2, M2, D2.
Qed.

Lemma loop_start : loop_inv [] (mineage_update_height a, mineage a, Asset 0 CORE_SYMBOL, false) M0 0.
Proof.
  split; cbn [fst snd].
  - unfold offset. lia.
  - lia.
  - by left.
  - done.
  - done.
  - done.
  - done.
  - by intros k Hk%elem_of_nil.
  - by intros k Hk%elem_of_nil.
  - lia.
  - intros n _. lia.
Qed.
End settle.

(** ** The invariant. *)

(** [dsc] is what the ages of a currency and those of its holders differ by while an action
    is running. *)
Record mining (now : Z) (dsc : Z * Z -> Z) (s : state) : Prop := {
  mi_rows : rows_ok s;
  mi_accounts : forall o id a st, accounts s !! (o, id) = Some a -> stats s !! token_of a = Some st ->
    0 <= mineage_update_height a <= now /\ 0 <= mineage a <= amount (max_supply st) * mineage_update_height a /\
    amount (balance a) <= amount (max_supply st);
  mi_stats : forall t st, stats s !! t = Some st ->
    0 <= total_mineage_update_height st <= now /\
    0 <= total_mineage st <= amount (max_supply st) * total_mineage_update_height st /\
    (reward_scope st = max_amount \/ exists rc, rewards s !! reward_scope st = Some rc /\
       t = (rc_chain rc, Sym.name (symbol (rc_supply rc))));
  mi_rewards : forall id rc, rewards s !! id = Some rc -> 0 <= id < max_amount /\
    exists st, stats s !! (rc_chain rc, Sym.name (symbol (rc_supply rc))) = Some st /\ reward_scope st = id;
  mi_records : forall sc n r, reward_mine s !! (sc, n) = Some r ->
    is_Some (rewards s !! sc) /\ reward_block_num r = n /\ 0 <= n <= now /\ 0 <= rm_total_mineage r /\
    0 <= amount (reward_pool r) /\ (~ later (reward_mine s) sc n -> rm_total_mineage r = 0);
  mi_bound : forall t st n r, stats s !! t = Some st -> reward_mine s !! (reward_scope st, n) = Some r ->
    rm_total_mineage r <= amount (max_supply st) * n;
  mi_prefix : forall t st n, stats s !! t = Some st -> later (reward_mine s) (reward_scope st) n ->
    recorded (reward_mine s) (reward_scope st) n = ages s t n;
  mi_line : forall t st, stats s !! t = Some st ->
    total_mineage st + recorded_all (reward_mine s) (reward_scope st) -
      amount (supply st) * total_mineage_update_height st = offsets s t + dsc t;
  mi_started : forall id, is_Some (rewards s !! id) -> exists n, is_Some (reward_mine s !! (id, n));
}.

(** The blocks and supplies for which ages fit 64 bits. *)
Definition fits (now : Z) (s : state) : Prop :=
  now < 2 ^ 31 /\ forall t st, stats s !! t = Some st -> amount (max_supply st) * now < 2 ^ 63.

Lemma fits_stats now s s' t st st' :
  fits now s -> stats s !! t = Some st -> max_supply st' = max_supply st -> stats s' = <[t := st']> (stats s) -> fits now s'.
Proof.
  intros [H1 H2] Hst Hmax Hs. split; [done|]. intros t' x. rewrite Hs.
  intros [[<- <-]|[_ Hx]]%lookup_insert_Some; [rewrite Hmax|]; eauto.
Qed.

Lemma scope_token now dsc s t t' st st' n :
  mining now dsc s -> stats s !! t = Some st -> stats s !! t' = Some st' ->
  is_Some (reward_mine s !! (reward_scope st, n)) -> reward_scope st = reward_scope st' -> t = t'.
Proof.
  intros Hm Ht Ht' [r Hr] Heq. destruct (mi_records _ _ _ Hm _ _ _ Hr) as ([rc Hrc] & _).
  destruct (mi_rewards _ _ _ Hm _ _ Hrc) as [Hid _].
  destruct (mi_stats _ _ _ Hm _ _ Ht) as (_ & _ & [E|(rc1 & Hrc1 & ->)]); [lia|].
  destruct (mi_stats _ _ _ Hm _ _ Ht') as (_ & _ & [E|(rc2 & Hrc2 & ->)]); [lia|]. congruence.
Qed.

Lemma scope_currency now dsc s id rc t st :
  mining now dsc s -> rewards s !! id = Some rc -> stats s !! t = Some st -> reward_scope st = id ->
  t = (rc_chain rc, Sym.name (symbol (rc_supply rc))).
Proof.
  intros Hm Hrc Ht Heq. destruct (mi_rewards _ _ _ Hm _ _ Hrc) as [Hid _].
  destruct (mi_stats _ _ _ Hm _ _ Ht) as (_ & _ & [E|(rc1 & Hrc1 & ->)]); [lia|]. congruence.
Qed.

(** ** Sums over the other holders. *)
Definition others (s : state) (k : Z * Z) (t : Z * Z) (n : Z) : Z :=
  map_sum (fun _ a => if decide (token_of a = t) then unsettled a n else 0) (delete k (accounts s)).

Lemma ages_split s k a t n :
  accounts s !! k = Some a -> token_of a = t -> ages s t n = unsettled a n + others s k t n.
Proof.
  intros Hk Ht. unfold ages, others. rewrite map_sum_delete, (at_key_Some _ _ _ _ Hk), decide_True by done. lia.
Qed.

Lemma others_mono now dsc s k t n n' :
  mining now dsc s -> n <= n' -> 0 <= others s k t n <= others s k t n'.
Proof.
  intros Hm Hn. assert (Hrow : forall x a, delete k (accounts s) !! x = Some a ->
    0 <= unsettled a n <= unsettled a n').
  { intros [o id] a [_ Ha]%lookup_delete_Some.
    destruct (ok_accounts _ (mi_rows _ _ _ Hm) _ _ _ Ha) as (Hb & _ & _ & _ & st & Hst & _).
    destruct (mi_accounts _ _ _ Hm _ _ _ _ Ha Hst) as (_ & Hmi & _). apply unsettled_mono; lia. }
  split.
  - apply map_sum_nonneg. intros x a Hx. apply Hrow in Hx. case_decide; lia.
  - apply map_sum_le. intros x a Hx. apply Hrow in Hx. case_decide; lia.
Qed.

(** ** Settling a holder. *)
Lemma settle_user_inv owner c v e s u s' :
  rows_ok (db s) -> is_u 64 c -> is_u 64 (symbol v) -> settle_user owner c v e s = Ok (u, s') ->
  exists id a st hc mc rw cd s1 rw',
    accounts (db s) !! (owner, id) = Some a /\ token_of a = (c, Sym.name (symbol v)) /\
    stats (db s) !! (c, Sym.name (symbol v)) = Some st /\
    mfor (settle_record (reward_scope st) (amount (balance a)))
      (mineage_update_height a, mineage a, Asset 0 CORE_SYMBOL, false)
      (scope_keys (reward_mine (db s)) (reward_scope st)) e s = Ok ((hc, mc, rw, cd), s1) /\
    asset_add (reward a) rw = Ok rw' /\
    s' = St (set_accounts (<[(owner, id) :=
           let grown := age (amount (balance a)) hc (current_block_num e) in
           Account (balance a) (acc_chain a) (if cd : bool then grown else i128 (mineage a + grown))
             (current_block_num e) rw']> (accounts (db s1))) (db s1)) (notified s1) (inline_actions s1).
Proof.
  intros Hok Hc Hv H. unfold settle_user in H. apply mbind_ok in H as ([id a] & s1 & H1 & H).
  apply get_bychain_ok in H1 as (id' & a' & [= <- <- ->] & Hrow).
  apply (row_of_token _ _ _ _ _ _ Hok Hc Hv) in Hrow as [Ha Ht].
  apply mbind_ok in H as (u1 & s2 & [Hch [= -> ->]]%assert_ok & H).
  apply mbind_ok in H as (o & s2 & [= -> ->]%find_ok & H).
  apply mbind_ok in H as (st & s2 & (? & Hst & [= -> ->])%lift_ok & H). apply of_option_ok in Hst.
  apply mbind_ok in H as (z & s2 & (? & Hz & [= -> ->])%lift_ok & H). apply core_asset_ok in Hz as [_ ->].
  apply mbind_ok in H as (rec & s2 & [= -> ->]%all_rows_ok & H).
  apply mbind_ok in H as ([[[hc mc] rw] cd] & s2 & Hloop & H).
  apply mbind_ok in H as (e' & s3 & [= -> ->]%ask_ok & H).
  apply mbind_ok in H as (rw' & s3 & (? & Hadd & [= -> ->])%lift_ok & H).
  apply modify_ok in H as [_ [= -> ->]].
  eexists id, a, _, hc, mc, rw, cd, s2, _. by split_and!.
Qed.

(** Only the records of a scope count. *)
Lemma scope_rows_eq (m m' : gmap (Z * Z) reward_mine_info) sc :
  (forall k, m' !! (sc, k) = m !! (sc, k)) ->
  filter (fun kv => kv.1.1 = sc) m' = filter (fun kv => kv.1.1 = sc) m.
Proof.
  intros Heq. apply map_eq. intros [sc' k]. apply option_eq. intros r. rewrite !map_lookup_filter_Some. cbn.
  split; intros [Hr ->]; split; try done; [by rewrite <- Heq|by rewrite Heq].
Qed.

Lemma recorded_ext m m' sc n :
  (forall k, m' !! (sc, k) = m !! (sc, k)) -> recorded m' sc n = recorded m sc n.
Proof.
  intros Heq. unfold recorded.
  rewrite (map_sum_filter (fun kv => kv.1.1 = sc) _ m), (map_sum_filter (fun kv => kv.1.1 = sc) _ m');
    [|intros k v _ Hk; rewrite decide_False; [done|tauto]..].
  f_equal. apply scope_rows_eq, Heq.
Qed.

Lemma recorded_all_ext m m' sc :
  (forall k, m' !! (sc, k) = m !! (sc, k)) -> recorded_all m' sc = recorded_all m sc.
Proof.
  intros Heq. unfold recorded_all.
  rewrite (map_sum_filter (fun kv => kv.1.1 = sc) _ m), (map_sum_filter (fun kv => kv.1.1 = sc) _ m');
    [|intros k v _ Hk; by rewrite decide_False..].
  f_equal. apply scope_rows_eq, Heq.
Qed.

(** ** Changes of one row. *)
Lemma ages_replace s s' k a a' t n :
  accounts s !! k = Some a -> accounts s' = <[k := a']> (accounts s) -> token_of a' = token_of a ->
  ages s' t n = ages s t n + (if decide (token_of a = t) then unsettled a' n - unsettled a n else 0).
Proof.
  intros Hk Hs Ht. unfold ages. rewrite Hs, map_sum_insert, (at_key_Some _ _ _ _ Hk), Ht. case_decide; lia.
Qed.

Lemma offsets_replace s s' k a a' t :
  accounts s !! k = Some a -> accounts s' = <[k := a']> (accounts s) -> token_of a' = token_of a ->
  offsets s' t = offsets s t + (if decide (token_of a = t) then offset a' - offset a else 0).
Proof.
  intros Hk Hs Ht. unfold offsets. rewrite Hs, map_sum_insert, (at_key_Some _ _ _ _ Hk), Ht. case_decide; lia.
Qed.

(** The unsettled age of a holding is bounded by the supply times the height. *)
Lemma unsettled_bound S a n :
  0 <= amount (balance a) <= S -> 0 <= mineage a <= S * mineage_update_height a ->
  0 <= n -> 0 <= mineage_update_height a -> unsettled a n <= S * n.
Proof. intros Hb Hm Hn Hh. unfold unsettled. case_decide; nia. Qed.

(** Settled records still satisfy what the invariant says of records. *)
Lemma later_same m m' sc n :
  (forall k, is_Some (m' !! (sc, k)) <-> is_Some (m !! (sc, k))) -> later m' sc n <-> later m sc n.
Proof. intros H. unfold later. setoid_rewrite H. done. Qed.

Section settle_holder.
Context (now cur : Z) (dsc : Z * Z -> Z) (s : state) (owner id : Z) (a : account) (st : currency_stats).
Hypothesis Hm : mining now dsc s.
Hypothesis Hcur : now <= cur.
Hypothesis Hfits : fits cur s.
Hypothesis Ha : accounts s !! (owner, id) = Some a.
Hypothesis Hst : stats s !! token_of a = Some st.

Lemma holder_pos : 0 <= mineage a /\ 0 <= amount (balance a) /\ 0 <= mineage_update_height a.
Proof.
  destruct (ok_accounts _ (mi_rows _ _ _ Hm) _ _ _ Ha) as (Hb & _).
  destruct (mi_accounts _ _ _ Hm _ _ _ _ Ha Hst) as (Hh & Hmi & _). lia.
Qed.

Lemma holder_rows n r :
  reward_mine s !! (reward_scope st, n) = Some r ->
  reward_block_num r = n /\ 0 <= n < 2 ^ 31 /\ 0 <= rm_total_mineage r < 2 ^ 63 /\
  coin (reward_pool r) /\ 0 <= amount (reward_pool r) /\ unsettled a n < 2 ^ 63.
Proof.
  intros Hr. destruct (mi_records _ _ _ Hm _ _ _ Hr) as (_ & Hn & Hn0 & Ht0 & Hp0 & _).
  pose proof (mi_bound _ _ _ Hm _ _ _ _ Hst Hr) as Hb. destruct Hfits as [Hc Hs]. specialize (Hs _ _ Hst).
  destruct (ok_accounts _ (mi_rows _ _ _ Hm) _ _ _ Ha) as (Hba & _).
  destruct (mi_accounts _ _ _ Hm _ _ _ _ Ha Hst) as (Hh & Hmi & Hbs).
  pose proof (unsettled_bound (amount (max_supply st)) a n ltac:(lia) ltac:(lia) ltac:(lia) ltac:(lia)).
  split_and!; try done; try lia; try nia. apply (ok_mine _ (mi_rows _ _ _ Hm) _ _ Hr).
Qed.

Lemma holder_first n r :
  reward_mine s !! (reward_scope st, n) = Some r -> ~ later (reward_mine s) (reward_scope st) n -> rm_total_mineage r = 0.
Proof. intros Hr Hl. by apply (mi_records _ _ _ Hm _ _ _ Hr). Qed.

Lemma holder_later n :
  later (reward_mine s) (reward_scope st) n ->
  recorded (reward_mine s) (reward_scope st) n = unsettled a n + others s (owner, id) (token_of a) n.
Proof. intros Hl. rewrite (mi_prefix _ _ _ Hm _ _ _ Hst Hl). by apply ages_split. Qed.

Lemma holder_accounts D a' :
  token_of a' = token_of a -> balance a' = balance a -> mineage_update_height a' = cur ->
  0 <= mineage a' -> offset a' = offset a - D -> 0 <= D ->
  forall o i b x, <[(owner, id) := a']> (accounts s) !! (o, i) = Some b -> stats s !! token_of b = Some x ->
    0 <= mineage_update_height b <= cur /\ 0 <= mineage b <= amount (max_supply x) * mineage_update_height b /\
    amount (balance b) <= amount (max_supply x).
Proof.
  intros Ht Hb Hh Hm0 Hoff HD o i b x [[[= <- <-] <-]|[_ Hbb]]%lookup_insert_Some Hx.
  - rewrite Ht in Hx. assert (x = st) as -> by congruence.
    destruct (ok_accounts _ (mi_rows _ _ _ Hm) _ _ _ Ha) as (Hba & _).
    destruct (mi_accounts _ _ _ Hm _ _ _ _ Ha Hst) as (Hha & Hmi & Hbs).
    unfold offset in Hoff. rewrite Hb, Hh in *. split_and!; try lia; nia.
  - destruct (mi_accounts _ _ _ Hm _ _ _ _ Hbb Hx) as (? & ? & ?). lia.
Qed.

(** The state after the loop, with the row of the holder replaced. *)
Lemma holder_settled acc M D a' rw :
  loop_inv (reward_scope st) a (reward_mine s) (others s (owner, id) (token_of a))
    (scope_keys (reward_mine s) (reward_scope st)) acc M D ->
  token_of a' = token_of a -> balance a' = balance a -> mineage_update_height a' = cur ->
  0 <= mineage a' -> offset a' = offset a - D -> rw = rewards s ->
  rows_ok (State (<[(owner, id) := a']> (accounts s)) (account_ids s) (stats s) rw M) ->
  mining cur dsc (State (<[(owner, id) := a']> (accounts s)) (account_ids s) (stats s) rw M).
Proof.
  intros Hl Ht Hb Hh Hm0 Hoff -> Hok. set (s' := State _ _ _ _ _).
  pose proof Hl as [_ HD _ Htaken _ Hsc Hrest Hdone Hpre Hall _]. set (sc0 := reward_scope st) in *.
  assert (Hdom : forall sc k, is_Some (M !! (sc, k)) <-> is_Some (reward_mine s !! (sc, k))).
  { intros sc k. destruct (decide (sc = sc0)) as [->|Hne]; [|by rewrite Hsc].
    destruct (decide (k ∈ scope_keys (reward_mine s) sc0)) as [Hk|Hk]; [|by rewrite Hrest].
    destruct (Hdone k Hk) as (r & r' & -> & -> & _). split; eauto. }
  assert (Hrec : forall sc n r, M !! (sc, n) = Some r -> exists r0, reward_mine s !! (sc, n) = Some r0 /\
    reward_block_num r = n /\ 0 <= rm_total_mineage r <= rm_total_mineage r0 /\ 0 <= amount (reward_pool r) /\
    (~ later (reward_mine s) sc n -> rm_total_mineage r = 0)).
  { intros sc n r Hr. assert (is_Some (reward_mine s !! (sc, n))) as [r0 Hr0] by (apply Hdom; eauto).
    destruct (mi_records _ _ _ Hm _ _ _ Hr0) as (_ & Hn & _ & Ht0 & Hp0 & Hf0).
    destruct (decide (sc = sc0)) as [->|Hne].
    - destruct (Hdone n) as (x & x' & Hx & Hx' & ? & ? & _ & ? & ?); [apply scope_keys_spec; eauto|].
      rewrite Hr0 in Hx. injection Hx as <-. rewrite Hr in Hx'. injection Hx' as <-. exists r0. split_and!; try done; lia.
    - rewrite Hsc, Hr0 in Hr by done. injection Hr as <-. exists r0. split_and!; try done; lia. }
  assert (Hkeys : forall sc n, later M sc n <-> later (reward_mine s) sc n) by (intros; by apply later_same).
  split; cbn [accounts stats rewards reward_mine s'].
  - done.
  - by apply (holder_accounts D).
  - intros t x Hx. destruct (mi_stats _ _ _ Hm _ _ Hx) as (? & ? & ?). split_and!; try done; lia.
  - apply (mi_rewards _ _ _ Hm).
  - intros sc n r Hr. destruct (Hrec _ _ _ Hr) as (r0 & Hr0 & ? & ? & ? & Hf).
    destruct (mi_records _ _ _ Hm _ _ _ Hr0) as (? & _ & ? & _). split_and!; try done; try lia. by rewrite Hkeys.
  - intros t x n r Hx Hr. destruct (Hrec _ _ _ Hr) as (r0 & Hr0 & ? & ? & _).
    pose proof (mi_bound _ _ _ Hm _ _ _ _ Hx Hr0). lia.
  - intros t x n Hx Hl'. apply Hkeys in Hl'. destruct (decide (t = token_of a)) as [->|Hne].
    + assert (x = st) as -> by congruence. fold sc0 in Hl' |- *.
      rewrite Hpre; [|apply scope_keys_spec; apply Hl'|done].
      rewrite (ages_replace s s' (owner, id) a a'), decide_True by done.
      rewrite (ages_split s (owner, id) a) by done. unfold unsettled at 2. rewrite decide_False; [lia|].
      destruct Hl' as [[r0 Hr0] _]. destruct (mi_records _ _ _ Hm _ _ _ Hr0) as (_ & _ & ? & _). lia.
    + rewrite (ages_replace s s' (owner, id) a a'), decide_False by done. rewrite Z.add_0_r.
      rewrite <- (mi_prefix _ _ _ Hm _ _ _ Hx Hl'). apply recorded_ext. intros k. apply Hsc. intros Heq.
      apply Hne. apply (scope_token now dsc s t (token_of a) x st n Hm Hx Hst); [apply Hl'|done].
  - intros t x Hx. pose proof (mi_line _ _ _ Hm _ _ Hx) as Hline.
    rewrite (offsets_replace s s' (owner, id) a a') by done.
    destruct (decide (token_of a = t)) as [<-|Hne].
    + assert (x = st) as -> by congruence. fold sc0 in Hline |- *. lia.
    + destruct (decide (reward_scope x = sc0)) as [Heq|Hsne].
      * assert (D = 0) as ->; [|rewrite Heq in *; lia].
        destruct (scope_keys (reward_mine s) sc0) as [|n l] eqn:Ek; [done|]. destruct Hne. symmetry.
        apply (scope_token now dsc s t (token_of a) x st n Hm Hx Hst); [|done].
        rewrite Heq. apply scope_keys_spec. rewrite Ek. left.
      * rewrite (recorded_all_ext (reward_mine s) M) by (intros; by apply Hsc). lia.
  - intros i Hi. destruct (mi_started _ _ _ Hm _ Hi) as [n Hn]. exists n. by apply Hdom.
Qed.
End settle_holder.

Lemma mining_settle now dsc owner c v e s u s' :
  mining now dsc (db s) -> now <= current_block_num e -> fits (current_block_num e) (db s) ->
  is_u 64 c -> is_u 64 (symbol v) -> settle_user owner c v e s = Ok (u, s') ->
  mining (current_block_num e) dsc (db s') /\ stats (db s') = stats (db s) /\ rewards (db s') = rewards (db s) /\
  exists id a a', accounts (db s) !! (owner, id) = Some a /\ token_of a = (c, Sym.name (symbol v)) /\
    accounts (db s') = <[(owner, id) := a']> (accounts (db s)) /\ balance a' = balance a /\
    acc_chain a' = acc_chain a /\ mineage_update_height a' = current_block_num e.
Proof.
  intros Hm Hcur Hfits Hc Hv H. pose proof (mi_rows _ _ _ Hm) as Hok. set (cur := current_block_num e) in *.
  pose proof H as (s2 & [= _ Hs2] & Hmv & _)%settle_user_moved; [|done..].
  pose proof (mv_rows _ _ _ _ _ Hmv) as Hok'.
  apply settle_user_inv in H as (id & a & st & hc & mc & rw & cd & s1 & rw' & Ha & Ht & Hst & Hloop & Hadd & Hs'); [|done..].
  fold cur in Hs'. rewrite <- Ht in Hst.
  pose proof (holder_pos now dsc (db s) owner id a st Hm Ha Hst) as Hpos.
  eapply (loop_run (reward_scope st) a (reward_mine (db s)) (others (db s) (owner, id) (token_of a)) Hpos
    (holder_rows now cur dsc (db s) owner id a st Hm Hcur Hfits Ha Hst)
    (holder_first now dsc (db s) st Hm)
    (holder_later now dsc (db s) owner id a st Hm Ha Hst)
    (fun n n' => others_mono now dsc (db s) (owner, id) (token_of a) n n' Hm)
    _ e [] _ 0 s) in Hloop as (acc & M & D & [= <- ->] & Hl); [|done|apply loop_start].
  cbn [db set_mine accounts notified inline_actions] in Hs'.
  destruct (ok_accounts _ Hok _ _ _ Ha) as (Hba & _).
  destruct (mi_accounts _ _ _ Hm _ _ _ _ Ha Hst) as (Hha & Hmi & Hbs).
  destruct Hfits as [Hc31 HS]. specialize (HS _ _ Hst).
  assert (Hhc : 0 <= hc <= cur /\ mineage_update_height a <= hc).
  { destruct (li_height _ _ _ _ _ _ _ _ Hl) as [(_ & Hx & _)|(_ & _ & Hx & Hin)]; cbn [fst snd] in Hx; [lia|].
    cbn [fst snd] in Hin. apply scope_keys_spec in Hin as [r Hr].
    destruct (mi_records _ _ _ Hm _ _ _ Hr) as (_ & _ & ? & _). lia. }
  assert (Hage : age (amount (balance a)) hc cur = amount (balance a) * (cur - hc)).
  { apply age_exact; [lia|done|]. nia. }
  set (a' := Account (balance a) (acc_chain a) (mc + amount (balance a) * (cur - hc)) cur rw').
  assert (Heq : s' = St (State (<[(owner, id) := a']> (accounts (db s))) (account_ids (db s)) (stats (db s)) (rewards (db s)) M)
                      (notified s) (inline_actions s)).
  { rewrite Hs'. unfold a'. cbv zeta. rewrite Hage. f_equal. unfold set_accounts. cbn. do 3 f_equal.
    pose proof (li_height _ _ _ _ _ _ _ _ Hl) as Hx. cbn [fst snd] in Hx.
    destruct Hx as [(-> & -> & -> & _)|(-> & -> & _)]; [|lia]. apply wrapS_small; width_norm; nia. }
  rewrite Heq in Hs2 |- *. injection Hs2 as <-. cbn [db] in *. split_and!; try done.
  - apply (holder_settled now cur dsc (db s) owner id a st Hm Hcur Ha Hst (hc, mc, rw, cd) M D a'); try done.
    + cbn. destruct (li_height _ _ _ _ _ _ _ _ Hl) as [(_ & _ & Hx & _)|(_ & Hx & _)]; cbn [fst snd] in Hx; nia.
    + pose proof (li_line _ _ _ _ _ _ _ _ Hl) as Hx. cbn [fst snd] in Hx. unfold offset at 1. cbn. lia.
  - exists id, a, a'. by split_and!.
Qed.

(** ** Changes at the current height. *)
Lemma unsettled_settled a n : n <= mineage_update_height a -> unsettled a n = 0.
Proof. intros Hn. unfold unsettled. by rewrite decide_False by lia. Qed.

Lemma mining_weaken now cur dsc dsc' s :
  mining now dsc s -> now <= cur -> (forall t, dsc' t = dsc t) -> mining cur dsc' s.
Proof.
  intros [H1 H2 H3 H4 H5 H6 H7 H8 H9] Hle Hd. split; try done.
  - intros o id a st Ha Hst. destruct (H2 _ _ _ _ Ha Hst) as (? & ? & ?). lia.
  - intros t st Ht. destruct (H3 _ _ Ht) as (? & ? & ?). split_and!; try done; lia.
  - intros sc n r Hr. destruct (H5 _ _ _ Hr) as (? & ? & ? & ? & ? & ?). split_and!; try done; lia.
  - intros t st Ht. rewrite Hd. auto.
Qed.

(** What differs after the balances of a token have changed by [n]. *)
Definition shift (dsc : Z * Z -> Z) (t : Z * Z) (n : Z) (t' : Z * Z) : Z := dsc t' + (if decide (t = t') then n else 0).

Lemma mining_row cur dsc s owner id a a' st :
  mining cur dsc s -> accounts s !! (owner, id) = Some a -> stats s !! token_of a = Some st ->
  token_of a' = token_of a -> mineage_update_height a = cur -> mineage_update_height a' = cur ->
  mineage a' = mineage a -> amount (balance a') <= amount (max_supply st) ->
  rows_ok (set_accounts (<[(owner, id) := a']> (accounts s)) s) ->
  mining cur (shift dsc (token_of a) ((amount (balance a') - amount (balance a)) * cur))
    (set_accounts (<[(owner, id) := a']> (accounts s)) s).
Proof.
  intros Hm Ha Hst Ht Hh Hh' Hmi Hmax Hok. pose proof Hm as [_ H2 H3 H4 H5 H6 H7 H8 H9].
  split; cbn [accounts stats rewards reward_mine set_accounts]; try done.
  - intros o i b x [[[= <- <-] <-]|[_ Hb]]%lookup_insert_Some Hx; [|eauto].
    rewrite Ht in Hx. assert (x = st) as -> by congruence. destruct (H2 _ _ _ _ Ha Hst) as (? & ? & ?).
    rewrite Hmi, Hh' in *. rewrite Hh in *. lia.
  - intros t x n Hx Hl. rewrite (ages_replace s _ (owner, id) a a') by done. rewrite <- (H7 _ _ _ Hx Hl).
    destruct Hl as [[r Hr] _]. destruct (H5 _ _ _ Hr) as (_ & _ & ? & _).
    rewrite !unsettled_settled by lia. case_decide; lia.
  - intros t x Hx. rewrite (offsets_replace s _ (owner, id) a a') by done. rewrite (H8 _ _ Hx). unfold shift, offset.
    case_decide; [|lia]. rewrite Hmi, Hh, Hh'. lia.
Qed.

Lemma mining_new_row cur dsc s s' owner id a st :
  mining cur dsc s -> accounts s !! (owner, id) = None -> stats s !! token_of a = Some st ->
  mineage a = 0 -> mineage_update_height a = cur -> 0 <= cur -> amount (balance a) <= amount (max_supply st) ->
  accounts s' = <[(owner, id) := a]> (accounts s) -> stats s' = stats s -> rewards s' = rewards s ->
  reward_mine s' = reward_mine s -> rows_ok s' ->
  mining cur (shift dsc (token_of a) (amount (balance a) * cur)) s'.
Proof.
  intros Hm Ha Hst Hmi Hh Hc Hmax Hacc Hs Hrw Hrm Hok. pose proof Hm as [Hok0 H2 H3 H4 H5 H6 H7 H8 H9].
  assert (Hmax0 : 0 <= amount (max_supply st)).
  { destruct (token_of a) as [c k]. destruct (ok_stats _ Hok0 _ _ _ Hst) as (_ & _ & _ & ? & _). lia. }
  split; rewrite ?Hacc, ?Hs, ?Hrw, ?Hrm; try done.
  - intros o i b x [[[= <- <-] <-]|[_ Hb]]%lookup_insert_Some Hx; [|eauto].
    assert (x = st) as -> by congruence. rewrite Hmi, Hh. split_and!; try lia; nia.
  - intros t x n Hx Hl. rewrite (H7 _ _ _ Hx Hl). unfold ages. rewrite Hacc, map_sum_insert, at_key_None by done.
    destruct Hl as [[r Hr] _]. destruct (H5 _ _ _ Hr) as (_ & _ & ? & _).
    rewrite (unsettled_settled a) by lia. case_decide; lia.
  - intros t x Hx. rewrite (H8 _ _ Hx). unfold offsets, shift. rewrite Hacc, map_sum_insert, at_key_None by done.
    unfold offset at 3. rewrite Hmi, Hh. case_decide; lia.
Qed.

Lemma mining_aged now cur dsc s t st supply' :
  mining now dsc s -> now <= cur -> fits cur s -> stats s !! t = Some st ->
  symbol supply' = symbol (supply st) -> 0 <= amount supply' <= amount (max_supply st) ->
  mining cur (shift dsc t ((amount (supply st) - amount supply') * cur))
    (State (accounts s) (account_ids s) (<[t := aged st cur supply']> (stats s)) (rewards s) (reward_mine s)).
Proof.
  intros Hm Hcur [Hc31 HS] Hst Hsy Hsup. specialize (HS _ _ Hst). apply (mining_weaken now cur dsc dsc) in Hm; [|done..].
  pose proof Hm as [Hok0 H2 H3 H4 H5 H6 H7 H8 H9]. destruct (H3 _ _ Hst) as (Hh & Htm & Hsc).
  assert (Hs0 : 0 <= amount (supply st) <= amount (max_supply st)).
  { destruct t as [c k]. by destruct (ok_stats _ Hok0 _ _ _ Hst) as (_ & _ & _ & ? & _). }
  assert (Haged : total_mineage (aged st cur supply') =
    total_mineage st + amount (supply st) * (cur - total_mineage_update_height st)).
  { cbn. rewrite age_exact by (try lia; nia). apply wrapS_small; width_norm; nia. }
  split; cbn [accounts stats rewards reward_mine].
  - destruct t as [c k]. eapply rows_supply; try done; cbn; lia.
  - intros o i b x Hb [[Et <-]|[_ Hx]]%lookup_insert_Some; [|eauto]. rewrite Et in Hst. by destruct (H2 _ _ _ _ Hb Hst).
  - intros t' x [[<- <-]|[_ Hx]]%lookup_insert_Some; [|by apply H3]. rewrite Haged. cbn [total_mineage_update_height aged max_supply reward_scope].
    split_and!; [lia|lia|nia|nia|done].
  - intros i rc Hrc. destruct (H4 _ _ Hrc) as (Hi & x & Hx & Hxs). split; [done|].
    destruct (decide (t = (rc_chain rc, Sym.name (symbol (rc_supply rc))))) as [Et|Hne].
    + rewrite <- Et in Hx |- *. rewrite Hst in Hx. injection Hx as <-. rewrite lookup_insert_eq. by eexists.
    + rewrite lookup_insert_ne by done. eauto.
  - done.
  - intros t' x n r [[<- <-]|[_ Hx]]%lookup_insert_Some Hr; [|eauto]. cbn in Hr |- *. eauto.
  - intros t' x n [[<- <-]|[_ Hx]]%lookup_insert_Some Hl; cbn [reward_scope aged] in *; change (ages (State _ _ _ _ _)) with (ages s); eauto.
  - intros t' x [[<- <-]|[Hne Hx]]%lookup_insert_Some; change (offsets (State _ _ _ _ _)) with (offsets s); unfold shift.
    + rewrite decide_True by done. rewrite Haged. cbn [reward_scope aged supply total_mineage_update_height].
      pose proof (H8 _ _ Hst). lia.
    + rewrite decide_False by done. pose proof (H8 _ _ Hx). lia.
  - done.
Qed.

(** ** Balances. *)

(** After settling, the row of the holder is at the current height. *)
Lemma settled_row now dsc owner c v e s u s1 id a :
  mining now dsc (db s) -> now <= current_block_num e -> fits (current_block_num e) (db s) ->
  is_u 64 c -> is_u 64 (symbol v) -> settle_user owner c v e s = Ok (u, s1) ->
  first_match (get_account_idx c v) (accounts (db s1)) owner = Some (id, a) ->
  mining (current_block_num e) dsc (db s1) /\ stats (db s1) = stats (db s) /\
  accounts (db s1) !! (owner, id) = Some a /\ token_of a = (c, Sym.name (symbol v)) /\
  mineage_update_height a = current_block_num e.
Proof.
  intros Hm Hcur Hf Hc Hv H Hrow.
  destruct (mining_settle _ _ _ _ _ _ _ _ _ Hm Hcur Hf Hc Hv H) as (Hm1 & Hst & _ & i & b & b' & Hb & Htb & Hacc & Hbal & Hch & Hh).
  pose proof (mi_rows _ _ _ Hm1) as Hok1. apply (row_of_token _ _ _ _ _ _ Hok1 Hc Hv) in Hrow as [Ha Ht].
  split_and!; try done. assert (Hb' : accounts (db s1) !! (owner, i) = Some b') by (by rewrite Hacc, lookup_insert_eq).
  assert (Htb' : token_of b' = token_of b) by (unfold token_of; by rewrite Hbal, Hch).
  assert (i = id) as -> by (eapply (ok_unique _ Hok1); [done..|congruence]). congruence.
Qed.

Lemma mining_sub now dsc owner c v e s u s' :
  mining now dsc (db s) -> now <= current_block_num e -> fits (current_block_num e) (db s) ->
  is_u 64 c -> well_typed v -> 0 <= amount v -> sub_balance owner c v e s = Ok (u, s') ->
  mining (current_block_num e) (shift dsc (c, Sym.name (symbol v)) (- amount v * current_block_num e)) (db s').
Proof.
  intros Hm Hcur Hf Hc [Hv Hsy] Hpos H. pose proof (mi_rows _ _ _ Hm) as Hok.
  pose proof H as (s2 & [= _ Hs2] & Hmv)%relay_sub_balance_ok; [|done..]. pose proof (mv_rows _ _ _ _ _ Hmv) as Hok'.
  unfold sub_balance in H. apply mbind_ok in H as (u1 & s1 & Hset & H).
  apply mbind_ok in H as ([id a] & s3 & Hget & H). apply get_bychain_ok in Hget as (id' & a' & [= <- <- ->] & Hrow).
  destruct (settled_row _ _ _ _ _ _ _ _ _ _ _ Hm Hcur Hf Hc Hsy Hset Hrow) as (Hm1 & Hst1 & Ha & Ht & Hh).
  apply mbind_ok in H as (? & s3 & [Hle [= -> ->]]%assert_ok & H). apply Z.leb_le in Hle.
  apply mbind_ok in H as (? & s3 & [_ [= -> ->]]%assert_ok & H).
  apply mbind_ok in H as (b & s3 & (? & Hsub & [= -> ->])%lift_ok & H). apply modify_ok in H as [_ [= -> ->]].
  destruct (ok_accounts _ (mi_rows _ _ _ Hm1) _ _ _ Ha) as (Hamt & _ & _ & _ & st & Hst & _).
  apply asset_sub_ok in Hsub as (_ & _ & ->); [|arange; lia|done]. cbn [db] in *.
  pose proof (mi_accounts _ _ _ Hm1 _ _ _ _ Ha Hst) as (_ & _ & Hbs).
  rewrite <- Ht. eapply mining_weaken; [|reflexivity|].
  - eapply (mining_row _ dsc (db s1) owner id a); [done..|done|cbn; lia|].
    apply (f_equal db) in Hs2. cbn [db] in Hs2. unfold set_accounts. by rewrite Hs2.
  - intros t. unfold shift. cbn [balance with_balance amount]. case_decide; [|done]. f_equal. lia.
Qed.

(** The balances after a credit are at most the supply. *)
Lemma mining_add now dsc owner c v e s u s' :
  mining now dsc (db s) -> now <= current_block_num e -> 0 <= current_block_num e -> fits (current_block_num e) (db s) ->
  is_u 64 c -> well_typed v -> 0 <= amount v <= max_amount ->
  (exists st, stats (db s) !! (c, Sym.name (symbol v)) = Some st /\ symbol v = symbol (supply st)) ->
  (forall id a st, accounts (db s') !! (owner, id) = Some a -> stats (db s) !! token_of a = Some st ->
     amount (balance a) <= amount (max_supply st)) ->
  add_balance owner c v e s = Ok (u, s') ->
  mining (current_block_num e) (shift dsc (c, Sym.name (symbol v)) (amount v * current_block_num e)) (db s').
Proof.
  intros Hm Hcur Hc0 Hf Hc [Hv Hsy] Hpos Hstat Hmax H. pose proof (mi_rows _ _ _ Hm) as Hok.
  pose proof H as (s2 & [= _ Hs2] & Hmv)%relay_add_balance_ok; [|done..]. pose proof (mv_rows _ _ _ _ _ Hmv) as Hok'.
  unfold add_balance in H. apply mbind_ok in H as (to & s1 & Hfind & H). apply find_bychain_ok in Hfind as [= -> ->].
  destruct (first_match (get_account_idx c v) (accounts (db s)) owner) as [[id0 a0]|] eqn:Hrow0.
  - apply mbind_ok in H as (u1 & s1 & Hset & H).
    apply mbind_ok in H as ([id a] & s3 & Hget & H). apply get_bychain_ok in Hget as (id' & a' & [= <- <- ->] & Hrow).
    destruct (settled_row _ _ _ _ _ _ _ _ _ _ _ Hm Hcur Hf Hc Hsy Hset Hrow) as (Hm1 & Hst1 & Ha & Ht & Hh).
    apply mbind_ok in H as (b & s3 & (? & Hadd & [= -> ->])%lift_ok & H). apply modify_ok in H as [_ [= -> ->]].
    destruct (ok_accounts _ (mi_rows _ _ _ Hm1) _ _ _ Ha) as (Hamt & _ & _ & _ & st & Hst & _).
    apply asset_add_ok in Hadd as (_ & _ & ->); [|arange; lia|done]. cbn [db accounts] in *.
    rewrite <- Ht. eapply mining_weaken; [|reflexivity|].
    + eapply (mining_row _ dsc (db s1) owner id a); [done..|done| |].
      2: { apply (f_equal db) in Hs2. cbn [db] in Hs2. unfold set_accounts. by rewrite Hs2. }
      apply (Hmax id); [apply lookup_insert_eq|]. rewrite <- Hst1. exact Hst.
    + intros t. unfold shift. cbn [balance with_balance amount]. case_decide; [|done]. f_equal. lia.
  - destruct Hstat as (st & Hst & Hsym).
    apply mbind_ok in H as (id & s1 & Hid & H). apply mbind_ok in H as (e' & s3 & [= -> ->]%ask_ok & H).
    apply mbind_ok in H as (z & s3 & (? & Hz & [= -> ->])%lift_ok & H). apply core_asset_ok in Hz as [_ ->].
    apply emplace_ok in H as [Hnone [= -> ->]].
    assert (Hids : exists ids, db s1 = State (accounts (db s)) ids (stats (db s)) (rewards (db s)) (reward_mine (db s))).
    { unfold next_account_id in Hid. minv. mcase; eauto. }
    destruct Hids as [ids Hids]. rewrite Hids in *. cbn in Hnone.
    apply (mining_weaken now (current_block_num e) dsc dsc) in Hm; [|done..].
    apply (mining_new_row (current_block_num e) dsc (db s) _ owner id
      (Account v c 0 (current_block_num e) (Asset 0 CORE_SYMBOL)) st); try done.
    2: { apply (f_equal db) in Hs2. cbn [db] in Hs2 |- *. by rewrite Hs2. }
    apply (Hmax id (Account v c 0 (current_block_num e) (Asset 0 CORE_SYMBOL))); [apply lookup_insert_eq|done].
Qed.

(** ** A new cycle. *)
Lemma recorded_max m sc n :
  (forall k, is_Some (m !! (sc, k)) -> k <= n) -> recorded m sc n = recorded_all m sc.
Proof.
  intros Hle. apply map_sum_ext. intros [sc' k] r Hr. cbn [fst snd].
  repeat case_decide; try done; exfalso; destruct_and?; subst; [done|]. specialize (Hle k ltac:(eauto)). tauto.
Qed.

Lemma recorded_new m sc k r n :
  m !! (sc, k) = None -> n < k -> recorded (<[(sc, k) := r]> m) sc n = recorded m sc n.
Proof.
  intros Hk Hn. unfold recorded. rewrite map_sum_insert_None by done. cbn. rewrite decide_False by lia. lia.
Qed.

Lemma recorded_all_new m sc k r :
  m !! (sc, k) = None -> recorded_all (<[(sc, k) := r]> m) sc = recorded_all m sc + rm_total_mineage r.
Proof. intros Hk. unfold recorded_all. rewrite map_sum_insert_None by done. cbn. rewrite decide_True by done. lia. Qed.

(** When all holders were settled before [n], their ages at [n] follow from the supply. *)
Lemma ages_line s t n :
  (forall o id a, accounts s !! (o, id) = Some a -> mineage_update_height a < n) ->
  ages s t n = offsets s t + held s t * n.
Proof.
  intros Hlt. unfold ages, offsets, held.
  assert (Hmul : forall m : gmap (Z * Z) account,
    map_sum (fun _ a => if decide (token_of a = t) then amount (balance a) * n else 0) m =
    map_sum (fun _ a => if decide (token_of a = t) then amount (balance a) else 0) m * n).
  { intros m. induction m as [|k a m Hk IH] using map_ind; [done|]. rewrite !map_sum_insert_None, IH by done.
    case_decide; lia. }
  rewrite <- Hmul, <- map_sum_add. apply map_sum_ext. intros [o id] a Ha. specialize (Hlt _ _ _ Ha).
  case_decide; [|done]. unfold unsettled, offset. rewrite decide_True by done. lia.
Qed.

Lemma map_later_new (m : gmap (Z * Z) reward_mine_info) sc k r sc' n :
  m !! (sc, k) = None -> later m sc' n -> later (<[(sc, k) := r]> m) sc' n.
Proof.
  intros Hk [[x Hx] (n0 & Hn0 & [y Hy])]. split; [|exists n0; split; [done|]]; apply lookup_insert_is_Some'; eauto.
Qed.

Definition next_cycle (st : currency_stats) (cur size : Z) : currency_stats :=
  CurrencyStats (supply st) (max_supply st) (issuer st) (chain st) (side_account st) (side_action st) 0 cur
    (reward_scope st) size.

Section new_cycle.
Context (cur : Z) (s : state) (id : Z) (rc : reward_currency) (st : currency_stats) (size : Z).
Local Definition tok : Z * Z := (rc_chain rc, Sym.name (symbol (rc_supply rc))).
Hypothesis Hm : mining cur (fun _ => 0) s.
Hypothesis Hinv : inv s.
Hypothesis Hfits : fits cur s.
Hypothesis Hrc : rewards s !! id = Some rc.
Hypothesis Hst : stats s !! tok = Some st.
Hypothesis Hscope : reward_scope st = id.
Hypothesis Hacc : forall o i a, accounts s !! (o, i) = Some a -> mineage_update_height a < cur.
Hypothesis Hold : forall n, is_Some (reward_mine s !! (id, n)) -> n < cur.

Lemma new_cycle_prefix z n :
  let total := total_mineage st + amount (supply st) * (cur - total_mineage_update_height st) in
  let m' := <[(id, cur) := RewardMine total z cur]> (reward_mine s) in
  later m' id n -> recorded m' id n = ages s tok n.
Proof.
  intros total m' [Hl1 (n0 & Hn0 & Hl2)].
  assert (Hnone : reward_mine s !! (id, cur) = None).
  { apply eq_None_not_Some. intros Hs%Hold. lia. }
  assert (Hle : forall k, is_Some (m' !! (id, k)) -> k = cur \/ k < cur /\ is_Some (reward_mine s !! (id, k))).
  { intros k [r [[[= <-] _]|[_ Hk]]%lookup_insert_Some]; [by left|right]. split; [apply Hold|]; eauto. }
  destruct (Hle _ Hl1) as [->|[Hn Hs]].
  - rewrite recorded_max by (intros k Hk; destruct (Hle _ Hk) as [->|[? _]]; lia).
    unfold m'. rewrite recorded_all_new by done. cbn. rewrite ages_line by done.
    pose proof (mi_line _ _ _ Hm _ _ Hst) as Hline. rewrite Hscope in Hline.
    destruct Hinv as [_ Hsup]. rewrite (Hsup _ _ Hst). unfold total. cbn in Hline. lia.
  - unfold m'. rewrite recorded_new by done. rewrite <- Hscope. apply (mi_prefix _ _ _ Hm); [done|].
    rewrite Hscope. split; [done|]. exists n0. split; [done|]. destruct (Hle _ Hl2) as [->|[_ ?]]; [lia|done].
Qed.

Lemma new_cycle_mining z :
  z = Asset 0 CORE_SYMBOL -> 
  let total := total_mineage st + amount (supply st) * (cur - total_mineage_update_height st) in
  let s' := State (accounts s) (account_ids s) (<[tok := next_cycle st cur size]> (stats s)) (rewards s)
              (<[(id, cur) := RewardMine total z cur]> (reward_mine s)) in
  rows_ok s' -> mining cur (fun _ => 0) s'.
Proof.
  intros -> total s' Hok. pose proof Hm as [_ H2 H3 H4 H5 H6 H7 H8 H9]. destruct (H3 _ _ Hst) as (Hh & Htm & _).
  assert (Hsup : 0 <= amount (supply st) <= amount (max_supply st)).
  { destruct Hinv as [Hok0 _]. by destruct (ok_stats _ Hok0 _ _ _ Hst) as (_ & _ & _ & ? & _). }
  assert (Hnone : reward_mine s !! (id, cur) = None).
  { apply eq_None_not_Some. intros Hs%Hold. lia. }
  assert (Htot : 0 <= total <= amount (max_supply st) * cur) by (unfold total; nia).
  assert (Hother : forall t x, tok <> t -> stats s !! t = Some x -> reward_scope x <> id).
  { intros t x Hne Hx Heq. apply Hne. symmetry. by eapply (scope_currency cur (fun _ => 0) s). }
  assert (Hlat : later (reward_mine s') id cur).
  { destruct (H9 id ltac:(eauto)) as [n Hn]. split; [cbn; rewrite lookup_insert_eq; eauto|]. exists n. split; [by apply Hold|].
    cbn. apply lookup_insert_is_Some'. by right. }
  split; cbn [accounts stats rewards reward_mine s'].
  - done.
  - intros o i b x Hb [[Et <-]|[_ Hx]]%lookup_insert_Some; [|eauto]. rewrite Et in Hst. by destruct (H2 _ _ _ _ Hb Hst).
  - intros t x [[<- <-]|[_ Hx]]%lookup_insert_Some; [|by apply H3]. cbn. split_and!; try lia. right. exists rc.
    split; [congruence|done].
  - intros i rc' Hrc'. destruct (H4 _ _ Hrc') as (Hi & x & Hx & Hxs). split; [done|].
    destruct (decide (tok = (rc_chain rc', Sym.name (symbol (rc_supply rc'))))) as [Et|Hne].
    + rewrite <- Et in Hx |- *. rewrite Hst in Hx. injection Hx as <-. rewrite lookup_insert_eq. by eexists.
    + rewrite lookup_insert_ne by done. eauto.
  - intros sc n r [[[= <- <-] <-]|[_ Hr]]%lookup_insert_Some.
    + cbn. split_and!; try done; try lia; eauto.
    + destruct (H5 _ _ _ Hr) as (? & ? & ? & ? & ? & Hf). split_and!; try done; try lia.
      intros Hnl. apply Hf. intros Hl. by apply Hnl, map_later_new.
  - intros t x n r Hx [[[= Hsc <-] <-]|[_ Hr]]%lookup_insert_Some.
    + cbn. apply lookup_insert_Some in Hx as [[<- <-]|[Hne Hx]]; [cbn; lia|].
      by destruct (Hother _ _ Hne Hx).
    + apply lookup_insert_Some in Hx as [[<- <-]|[_ Hx]]; [cbn in *; eauto|eauto].
  - intros t x n [[<- <-]|[Hne Hx]]%lookup_insert_Some Hl; [|].
    + cbn in *. rewrite Hscope in *. by apply new_cycle_prefix.
    + specialize (Hother _ _ Hne Hx). rewrite (recorded_ext (reward_mine s)) by (intros; by rewrite lookup_insert_ne by congruence).
      apply H7; [done|]. destruct Hl as [Hl1 (n0 & Hn0 & Hl2)]. rewrite !lookup_insert_ne in * by congruence. split; eauto.
  - intros t x [[<- <-]|[Hne Hx]]%lookup_insert_Some.
    + cbn. rewrite Hscope, recorded_all_new by done. cbn. specialize (H8 _ _ Hst). rewrite Hscope in H8. unfold total. change (offsets s' tok) with (offsets s tok). lia.
    + specialize (Hother _ _ Hne Hx). rewrite (recorded_all_ext (reward_mine s)) by (intros; by rewrite lookup_insert_ne by congruence).
      by apply H8.
  - intros i Hi. destruct (H9 _ Hi) as [n Hn]. exists n. apply lookup_insert_is_Some'. by right.
Qed.
End new_cycle.

(** A listed currency that has not closed its cycle at [cur]. *)
Definition open_cycle (cur id : Z) (s : state) : Prop :=
  (forall n, is_Some (reward_mine s !! (id, n)) -> n < cur) /\
  (forall t st, stats s !! t = Some st -> reward_scope st = id -> reward_size st <> COIN_REWARD_RECORD_SIZE).

Definition settled_before (cur : Z) (s : state) : Prop :=
  forall o i a, accounts s !! (o, i) = Some a -> mineage_update_height a < cur.

Lemma settle_currency_mining u id e s u' s' :
  let cur := current_block_num e in
  mining cur (fun _ => 0) (db s) -> inv (db s) -> fits cur (db s) -> settled_before cur (db s) ->
  0 <= cur -> open_cycle cur id (db s) -> settle_currency cur u id e s = Ok (u', s') ->
  mining cur (fun _ => 0) (db s') /\ fits cur (db s') /\ accounts (db s') = accounts (db s) /\
  forall id', id' <> id -> open_cycle cur id' (db s) -> open_cycle cur id' (db s').
Proof.
  intros cur Hm Hinv Hf Hacc Hc0 [Hold Hsize] H. pose proof H as Hsl%settle_currency_ledger.
  pose proof (same_ledger_rows _ _ Hsl (proj1 Hinv)) as Hok'. unfold settle_currency in H.
  apply mbind_ok in H as (x & s1 & (rc & Hrc & [= -> ->])%get_ok & H). cbn in Hrc.
  destruct (mi_rewards _ _ _ Hm _ _ Hrc) as (Hid & st & Hst & Hsc).
  apply mbind_ok in H as (o & s1 & [= -> ->]%find_ok & H). cbn in H. rewrite Hst in H.
  apply mbind_ok in H as (o & s1 & [= -> ->]%find_ok & H).
  apply mbind_ok in H as (? & s1 & [_ [= -> ->]]%assert_ok & H).
  apply mbind_ok in H as (z & s1 & (? & Hz & [= -> ->])%lift_ok & H). apply core_asset_ok in Hz as [_ ->].
  apply mbind_ok in H as (? & s1 & [_ [= -> ->]]%emplace_ok & H).
  specialize (Hsize _ _ Hst Hsc). rewrite (proj2 (Z.eqb_neq _ _) Hsize) in H.
  apply mbind_ok in H as (? & s1 & [= <- <-] & H). apply modify_ok in H as [_ [= -> ->]].
  pose proof Hf as [Hc31 HS]. specialize (HS _ _ Hst). destruct (mi_stats _ _ _ Hm _ _ Hst) as (Hh & Htm & _).
  pose proof (proj1 Hinv) as Hok. destruct (ok_stats _ Hok _ _ _ Hst) as (_ & _ & _ & Hsup & _).
  cbn [db stats accounts rewards reward_mine account_ids] in *.
  assert (Hk : record_key cur = cur /\ i32 cur = cur /\ u32 (cur - total_mineage_update_height st) = cur - total_mineage_update_height st).
  { unfold record_key. rewrite (wrapS_small 32) by (width_norm; lia). rewrite !wrapU_small by (width_norm; lia). done. }
  destruct Hk as (Hk & Hi & Hu). rewrite Hk, Hi, Hu in *. 
  rewrite (wrapS_small 128) in * by (width_norm; nia). subst id. cbn [negb] in *.
  split_and!.
  - by eapply (new_cycle_mining cur (db s) (reward_scope st) rc st (i32 (reward_size st + 1))).
  - split; [done|]. cbn. intros t x [[<- <-]|[_ Hx]]%lookup_insert_Some; [done|]. by apply (proj2 Hf t).
  - done.
  - intros id' Hne [H1 H2]. split.
    + intros n Hn. apply H1. cbn in Hn. rewrite lookup_insert_ne in Hn by congruence. done.
    + cbn. intros t x [[<- <-]|[_ Hx]]%lookup_insert_Some; [cbn; congruence|by apply (H2 t)].
Qed.

Lemma settle_currencies_mining e : let cur := current_block_num e in forall l u s u' s',
  mining cur (fun _ => 0) (db s) -> inv (db s) -> fits cur (db s) -> settled_before cur (db s) ->
  0 <= cur -> NoDup l -> (forall id, id ∈ l -> open_cycle cur id (db s)) ->
  mfor (settle_currency cur) u l e s = Ok (u', s') -> mining cur (fun _ => 0) (db s').
Proof.
  intros cur l. induction l as [|id l IH]; intros u s u' s' Hm Hinv Hf Hb Hc0 Hnd Hop H; cbn in H.
  - by injection H as _ <-.
  - apply mbind_ok in H as (u1 & s1 & Hs & H). apply NoDup_cons in Hnd as [Hni Hnd].
    pose proof (settle_currency_ledger _ _ _ _ _ _ _ Hs) as Hsl.
    apply settle_currency_mining in Hs as (Hm1 & Hf1 & Ha1 & Hop1); try done; [|apply Hop; left].
    apply IH in H; try done; [by apply (same_ledger_inv _ _ Hsl)| |].
    + intros o i a. rewrite Ha1. apply Hb.
    + intros id' Hid'. apply Hop1; [by intros ->|]. apply Hop. by right.
Qed.

Lemma settlemine_mining now a e s u s' :
  mining now (fun _ => 0) (db s) -> inv (db s) -> 0 <= now < current_block_num e -> fits (current_block_num e) (db s) ->
  (forall t st, stats (db s) !! t = Some st -> reward_size st <> COIN_REWARD_RECORD_SIZE) ->
  settlemine a e s = Ok (u, s') -> mining (current_block_num e) (fun _ => 0) (db s').
Proof.
  intros Hm Hinv Hcur Hf Hsize H. unfold settlemine in H.
  apply mbind_ok in H as (? & s1 & Hau & H). minv.
  match goal with Hx : mfor _ _ _ _ _ = Ok _ |- _ => apply settle_currencies_mining in Hx end; try done.
  - by apply (mining_weaken now _ (fun _ => 0)); [|lia|].
  - intros o i b Hb. destruct (ok_accounts _ (proj1 Hinv) _ _ _ Hb) as (_ & _ & _ & _ & st & Hst & _).
    pose proof (mi_accounts _ _ _ Hm _ _ _ _ Hb Hst). lia.
  - lia.
  - apply sorted_keys_NoDup.
  - intros id _. split; [|by eauto]. intros n [r Hr]. pose proof (mi_records _ _ _ Hm _ _ _ Hr). lia.
Qed.

(** ** The actions. *)
Lemma balance_le_max s o id a st :
  inv s -> accounts s !! (o, id) = Some a -> stats s !! token_of a = Some st ->
  amount (balance a) <= amount (max_supply st).
Proof.
  intros [Hok Hheld] Ha Hst. assert (Hle : amount (balance a) <= held s (token_of a)).
  { unfold held. etrans; [|apply (map_sum_ge_at _ _ (o, id))].
    - rewrite (at_key_Some _ _ _ _ Ha), decide_True by done. lia.
    - intros [o' i'] b Hb. destruct (ok_accounts _ Hok _ _ _ Hb) as (? & _). case_decide; lia. }
  rewrite (Hheld _ _ Hst) in Hle. destruct (token_of a) as [c k]. destruct (ok_stats _ Hok _ _ _ Hst) as (_ & _ & _ & ? & _). lia.
Qed.

Lemma shift_cancel t n n' t' : n + n' = 0 -> 0 = shift (shift (fun _ => 0) t n) t n' t'.
Proof. intros Hn. unfold shift. case_decide; lia. Qed.

Section actions.
Context (now : Z) (e : env) (s : st state).
Local Abbreviation cur := (current_block_num e).
Local Abbreviation zero := (fun _ : Z * Z => 0).
Hypothesis Hm : mining now zero (db s).
Hypothesis Hinv : inv (db s).
Hypothesis Hcur : 0 <= now <= cur.
Hypothesis Hf : fits cur (db s).

Lemma transfer_mining from to c q memo u s' :
  is_u 64 c -> well_typed q -> transfer from to c q memo e s = Ok (u, s') -> mining cur zero (db s').
Proof.
  intros Hc Hq H. pose proof (ef_inv _ _ _ (relay_transfer_effect _ _ _ _ _ _ _ _ _ (proj1 Hinv) Hc Hq H) Hinv) as Hinv'.
  unfold transfer in H. minv.
  match goal with Hst : stats _ !! _ = Some ?x |- _ => rename Hst into Hst0, x into st end.
  match goal with Hx : sub_balance _ _ _ _ _ = Ok _ |- _ => rename Hx into Hsub end.
  match goal with Hx : add_balance _ _ _ _ _ = Ok _ |- _ => rename Hx into Hadd end.
  pose proof Hsub as (s1 & [= ->] & Hm1)%relay_sub_balance_ok; [|apply Hinv|done|done|lia].
  apply (mining_sub now zero) in Hsub; [|done|lia|done..|lia]. cbn [db] in *.
  assert (Hq1 : 0 <= amount q <= max_amount) by (unfold is_valid, is_amount_within_range in *; destruct Hq; rinv; lia).
  assert (Hst1 : stats s1 !! (c, Sym.name (symbol q)) = Some st) by (by rewrite (mv_stats _ _ _ _ _ Hm1)).
  pose proof Hadd as (s2 & [= ->] & Hm2)%relay_add_balance_ok; [|apply (mv_rows _ _ _ _ _ Hm1)|done..|by eauto].
  eapply (mining_add cur) in Hadd as Hmining; cbn [db] in *; try done; try lia.
  - eapply mining_weaken; [exact Hmining|done|]. intros t. apply shift_cancel. lia.
  - split; [apply Hf|]. intros t st'. rewrite (mv_stats _ _ _ _ _ Hm1). apply Hf.
  - by eauto.
  - intros id a st' Ha Hst'. eapply balance_le_max; [done..|]. by rewrite (mv_stats _ _ _ _ _ Hm2).
Qed.

Lemma issue_mining c to q memo u s' :
  is_u 64 c -> well_typed q -> issue c to q memo e s = Ok (u, s') -> mining cur zero (db s').
Proof.
  intros Hc Hq H. pose proof (proj1 Hinv) as Hok.
  pose proof (ef_inv _ _ _ (issue_effect _ _ _ _ _ _ _ _ Hok Hc Hq H) Hinv) as Hinv'. unfold issue in H. minv.
  match goal with Hst : stats _ !! _ = Some ?x |- _ => rename Hst into Hst0; rename x into st end.
  destruct (ok_stats _ Hok _ _ _ Hst0) as (_ & _ & _ & Hsup & Hmax).
  match goal with Hx : asset_add _ _ = Ok _ |- _ => apply asset_add_ok in Hx as (_ & Hr & ->); [|arange; lia|apply Hq] end.
  match goal with Hx : add_balance _ _ _ _ ?s0 = Ok (_, ?s1), Hle : amount q <= i64 _ |- _ =>
    rename Hx into Hadd; rewrite wrapS_small in Hle by (arange; lia); assert (Hdb : db s' = db s1) end.
  { match goal with Hi : (if _ then _ else _) _ _ = Ok _ |- _ => clear -Hi; mcase; done end. }
  rewrite Hdb in *. set (q' := Asset (amount (supply st) + amount q) (symbol (supply st))) in *.
  pose proof (mining_aged now cur zero (db s) _ st q' Hm ltac:(lia) Hf Hst0 ltac:(done)) as Hm1.
  cbn [amount q'] in Hm1. specialize (Hm1 ltac:(lia)).
  pose proof Hadd as (s2 & [= ->] & Hm2)%relay_add_balance_ok; cbn [db stats] in *; try done; try lia.
  - eapply (mining_add cur) in Hadd as Hmining; cbn [db stats] in *; try done; try lia.
    + eapply mining_weaken; [exact Hmining|done|]. intros t. apply shift_cancel. lia.
    + by apply (fits_stats cur (db s) _ (c, Sym.name (symbol q)) st (aged st cur q')).
    + rewrite lookup_insert_eq. by eexists.
    + intros id a x Ha Hx. eapply balance_le_max; [done..|]. by rewrite (mv_stats _ _ _ _ _ Hm2).
  - by apply (mi_rows _ _ _ Hm1).
  - rewrite lookup_insert_eq. by eexists.
Qed.

Lemma destroy_mining c from q memo u s' :
  is_u 64 c -> well_typed q -> destroy c from q memo e s = Ok (u, s') -> mining cur zero (db s').
Proof.
  intros Hc Hq H. pose proof (proj1 Hinv) as Hok. unfold destroy in H. minv.
  match goal with Hst : stats _ !! _ = Some ?x |- _ => rename Hst into Hst0; rename x into st end.
  destruct (ok_stats _ Hok _ _ _ Hst0) as (_ & _ & _ & Hsup & Hmax).
  match goal with Hx : asset_sub _ _ = Ok _ |- _ => apply asset_sub_ok in Hx as (_ & Hr & ->); [|arange; lia|apply Hq] end.
  set (q' := Asset (amount (supply st) - amount q) (symbol (supply st))) in *.
  pose proof (mining_aged now cur zero (db s) _ st q' Hm ltac:(lia) Hf Hst0 ltac:(done)) as Hm1.
  cbn [amount q'] in Hm1. specialize (Hm1 ltac:(lia)).
  match goal with Hx : sub_balance _ _ _ _ _ = Ok _ |- _ => eapply (mining_sub cur) in Hx as Hmining end;
    cbn [db stats] in *; try done; try lia.
  - eapply mining_weaken; [exact Hmining|done|]. intros t. apply shift_cancel. lia.
  - by apply (fits_stats cur (db s) _ (c, Sym.name (symbol q)) st (aged st cur q')).
Qed.

Lemma mining_later : mining cur zero (db s).
Proof. eapply mining_weaken; [exact Hm|lia|done]. Qed.

Lemma trade_mining from to c q ty memo u s' :
  is_u 64 c -> well_typed q -> trade from to c q ty memo e s = Ok (u, s') -> mining cur zero (db s').
Proof.
  intros Hc Hq H. unfold trade in H.
  mcase; [by eapply transfer_mining|mcase]; [by eapply transfer_mining|mcase]. apply mining_later.
Qed.

Lemma on_mining c d u s' : on c d e s = Ok (u, s') -> mining cur zero (db s').
Proof. intros H. pose proof mining_later. unfold on in H. minv. repeat (mcase; try done). Qed.

Lemma no_record_at_max n : reward_mine (db s) !! (max_amount, n) = None.
Proof.
  apply eq_None_not_Some. intros [r Hr]. destruct (mi_records _ _ _ Hm _ _ _ Hr) as ([rc Hrc] & _).
  destruct (mi_rewards _ _ _ Hm _ _ Hrc). lia.
Qed.

Lemma recorded_all_none (m : gmap (Z * Z) reward_mine_info) sc : (forall n, m !! (sc, n) = None) -> recorded_all m sc = 0.
Proof.
  intros Hnone. unfold recorded_all. rewrite (map_sum_ext _ (fun _ _ => 0)); [apply map_sum_0|].
  intros [sc' n] r Hr. cbn. case_decide; [subst; by rewrite Hnone in Hr|done].
Qed.

Lemma create_mining i c sa sc q u s' :
  well_typed q -> create i c sa sc q e s = Ok (u, s') -> mining cur zero (db s').
Proof.
  intros Hq H. pose proof (ef_inv _ _ _ (create_effect _ _ _ _ _ _ _ _ _ (proj1 Hinv) Hq H) Hinv) as [Hok' _].
  destruct mining_later as [_ H2 H3 H4 H5 H6 H7 H8 H9]. pose proof no_record_at_max as Hmax.
  unfold create in H. minv. case_match eqn:E; [done|].
  assert (Hnew : forall o id a, accounts (db s) !! (o, id) = Some a -> token_of a <> (c, Sym.name (symbol q))).
  { intros o id a (_ & _ & _ & _ & st & Hst & _)%(ok_accounts _ (proj1 Hinv)) Ht. rewrite Ht in Hst. congruence. }
    split; cbn [db accounts stats rewards reward_mine] in *; try done.
  - intros o id a x Ha [[Et _]|[_ Hx]]%lookup_insert_Some; [|eauto]. by destruct (Hnew _ _ _ Ha).
  - intros t x [[_ <-]|[_ Hx]]%lookup_insert_Some; [cbn|eauto]. split_and!; try nia.
  - intros id rc Hrc. destruct (H4 _ _ Hrc) as (Hid & x & Hx & Hs). split; [done|]. exists x. split; [|done].
    rewrite lookup_insert_ne; [done|]. intros Et. rewrite <- Et in Hx. congruence.
  - intros t x n r [[_ <-]|[_ Hx]]%lookup_insert_Some Hr; [cbn in Hr|by eauto]. by rewrite Hmax in Hr.
  - intros t x n [[_ <-]|[_ Hx]]%lookup_insert_Some Hl; [|by apply H7]. destruct Hl as [[r Hr] _]. cbn in Hr.
    by rewrite Hmax in Hr.
  - intros t x [[<- <-]|[_ Hx]]%lookup_insert_Some; [|by apply H8]. cbn. rewrite recorded_all_none by done.
    unfold offsets. cbn. rewrite (map_sum_ext _ (fun _ _ => 0)); [rewrite map_sum_0; lia|].
    intros [o id] a Ha. rewrite decide_False; [done|eauto].
Qed.

Lemma claim_mining c q rcv u s' :
  is_u 64 c -> well_typed q -> claim c q rcv e s = Ok (u, s') -> mining cur zero (db s').
Proof.
  intros Hc Hq H. pose proof (ef_inv _ _ _ (claim_effect _ _ _ _ _ _ _ (proj1 Hinv) Hc Hq H) Hinv) as [Hok' _].
  destruct Hq as [_ Hq]. unfold claim in H. minv.
  match goal with Hx : settle_user _ _ _ _ _ = Ok _ |- _ => rename Hx into Hset end.
  match goal with Hx : get_bychain _ _ _ _ = Ok _ |- _ =>
    apply get_bychain_ok in Hx as (id' & a' & [= <- <- ->] & Hrow) end.
  minv. match goal with Hz : core_asset 0 = Ok _ |- _ => apply core_asset_ok in Hz as [? ->] end.
  cbn [db] in *. edestruct settled_row as (Hm1 & Hst1 & Ha & Ht & Hh); [exact Hm| |exact Hf|exact Hc|exact Hq|exact Hset|exact Hrow|]; [lia|].
  destruct (ok_accounts _ (mi_rows _ _ _ Hm1) _ _ _ Ha) as (_ & _ & _ & _ & st & Hst & _).
  pose proof (mi_accounts _ _ _ Hm1 _ _ _ _ Ha Hst) as (_ & _ & Hbs).
  eapply mining_weaken; [eapply mining_row; [exact Hm1|exact Ha|exact Hst|..|exact Hok']; try done|done|].
  intros t. unfold shift. cbn. case_decide; lia.
Qed.

Lemma first_reward_None key (rows : gmap Z reward_currency) id rc :
  first_reward key rows = None -> rows !! id = Some rc -> get_account_idx (rc_chain rc) (rc_supply rc) <> key.
Proof.
  unfold first_reward. intros H Hrc Hk.
  match type of H with head ?l = None => assert ((id, rc) ∈ l) as Hin end.
  { apply list_elem_of_omap. exists id. split; [apply sorted_keys_spec; eauto|]. cbn. rewrite Hrc. cbn.
    by rewrite (proj2 (Z.eqb_eq _ _) Hk). }
  destruct (omap _ _); [by apply elem_of_nil in Hin|done].
Qed.

Lemma available_primary_key_nonneg {V} (rows : gmap Z V) id :
  available_primary_key rows = Ok id -> (forall k, is_Some (rows !! k) -> 0 <= k) -> 0 <= id.
Proof.
  unfold available_primary_key. intros H Hk. rinv. subst. destruct (last _) as [k|] eqn:E; [|lia].
  assert (0 <= k) by (apply Hk, sorted_keys_spec, last_Some_elem_of, E). case_match; lia.
Qed.

Lemma new_currency_mining st id rc z :
  let t := (rc_chain rc, Sym.name (symbol (rc_supply rc))) in
  let s' := State (accounts (db s)) (account_ids (db s)) (<[t := with_reward st id 1]> (stats (db s)))
              (<[id := rc]> (rewards (db s))) (<[(id, cur) := RewardMine 0 z cur]> (reward_mine (db s))) in
  stats (db s) !! t = Some st -> rewards (db s) !! id = None -> 0 <= id < max_amount -> amount z = 0 ->
  (forall id' rc', rewards (db s) !! id' = Some rc' -> (rc_chain rc', Sym.name (symbol (rc_supply rc'))) <> t) ->
  rows_ok s' -> mining cur zero s'.
Proof.
  intros t s' Hst Hnone Hid Hz Hfresh Hok'. destruct mining_later as [_ H2 H3 H4 H5 H6 H7 H8 H9].
  pose proof no_record_at_max as Hmax.
  assert (Hrm : forall n, reward_mine (db s) !! (id, n) = None).
  { intros n. apply eq_None_not_Some. intros [r Hr]. destruct (H5 _ _ _ Hr) as ([x Hx] & _). congruence. }
  assert (Hscope : reward_scope st = max_amount).
  { destruct (H3 _ _ Hst) as (_ & _ & [?|(rc' & Hrc' & E)]); [done|]. by destruct (Hfresh _ _ Hrc'). }
  assert (Hother : forall t' x, stats (db s) !! t' = Some x -> reward_scope x <> id).
  { intros t' x Hx Heq. destruct (H3 _ _ Hx) as (_ & _ & [?|(rc' & Hrc' & _)]); [lia|congruence]. }
  split; cbn [accounts stats rewards reward_mine s'].
  - done.
  - intros o i a x Ha [[Et <-]|[_ Hx]]%lookup_insert_Some; [|eauto]. rewrite Et in Hst. by apply (H2 _ _ _ _ Ha Hst).
  - intros t' x [[<- <-]|[_ Hx]]%lookup_insert_Some.
    + destruct (H3 _ _ Hst) as (? & ? & _). cbn. split_and!; try lia. right. exists rc. by rewrite lookup_insert_eq.
    + destruct (H3 _ _ Hx) as (? & ? & [?|(rc' & Hrc' & ->)]); split_and!; try lia; try by left. right. exists rc'.
      rewrite lookup_insert_ne by congruence. done.
  - intros i rc' [[<- <-]|[_ Hrc']]%lookup_insert_Some.
    + split; [done|]. fold t. rewrite lookup_insert_eq. by eexists.
    + destruct (H4 _ _ Hrc') as (? & x & ? & ?). split; [done|].
      rewrite lookup_insert_ne by (intros E; by apply (Hfresh _ _ Hrc')). eauto.
  - intros sc n r [[[= <- <-] <-]|[_ Hr]]%lookup_insert_Some.
    + cbn. rewrite lookup_insert_eq. split_and!; try done; try lia; eauto.
    + destruct (H5 _ _ _ Hr) as ([rc' Hrc'] & ? & ? & ? & ? & Hnl). split_and!; try done; try lia.
      * rewrite lookup_insert_ne by congruence. eauto.
      * intros Hl. apply Hnl. intros Hl'. by apply Hl, map_later_new.
  - intros t' x n r Hx [[[= E <-] <-]|[_ Hr]]%lookup_insert_Some; apply lookup_insert_Some in Hx as [[<- <-]|[_ Hx]].
    + cbn. destruct (ok_stats _ (proj1 Hinv) _ _ _ Hst) as (_ & _ & _ & ? & _). nia.
    + by destruct (Hother _ _ Hx).
    + cbn in Hr. by rewrite Hrm in Hr.
    + eauto.
  - intros t' x n [[<- <-]|[_ Hx]]%lookup_insert_Some [[r Hr] (n0 & Hn0 & [r0 Hr0])].
    + cbn in Hr, Hr0. apply lookup_insert_Some in Hr as [[E _]|[_ Hr]]; [|by rewrite Hrm in Hr].
      apply lookup_insert_Some in Hr0 as [[E0 _]|[_ Hr0]]; [|by rewrite Hrm in Hr0]. injection E as <-. injection E0 as <-. lia.
    + specialize (Hother _ _ Hx). rewrite !lookup_insert_ne in Hr, Hr0 by congruence.
      rewrite (recorded_ext (reward_mine (db s))) by (intros; by rewrite lookup_insert_ne by congruence).
      apply H7; [done|]. split; [eauto|]. exists n0. eauto.
  - intros t' x [[<- <-]|[_ Hx]]%lookup_insert_Some.
    + cbn. rewrite recorded_all_new, recorded_all_none by done. specialize (H8 _ _ Hst). rewrite Hscope, recorded_all_none in H8 by done.
      cbn in *. change (offsets s' t) with (offsets (db s) t). lia.
    + specialize (Hother _ _ Hx). rewrite (recorded_all_ext (reward_mine (db s))) by (intros; by rewrite lookup_insert_ne by congruence).
      by apply H8.
  - intros i [x [[<- <-]|[_ Hx]]%lookup_insert_Some].
    + exists cur. rewrite lookup_insert_eq. eauto.
    + destruct (H9 i ltac:(eauto)) as [n ?]. exists n. apply lookup_insert_is_Some'. by right.
Qed.

Lemma addreward_mining c q n u s' :
  (forall id, available_primary_key (rewards (db s)) = Ok id -> id < max_amount) ->
  addreward c q n e s = Ok (u, s') -> mining cur zero (db s').
Proof.
  intros Hkey H. pose proof H as [Hl _]%addreward_ledger.
  pose proof (same_ledger_rows _ _ Hl (proj1 Hinv)) as Hok'. unfold addreward in H. minv.
  match goal with Hx : available_primary_key _ = Ok ?i |- _ => rename Hx into Hk, i into rid end.
  match goal with Hst : stats _ !! _ = Some ?x |- _ => rename Hst into Hst0, x into st end.
  match goal with Hz : core_asset _ = Ok _ |- _ => apply core_asset_ok in Hz as [? ->] end.
  cbn [db accounts account_ids stats rewards reward_mine] in *. assert (Hi : record_key cur = cur /\ i32 cur = cur).
  { destruct Hf. unfold record_key. rewrite (wrapS_small 32), wrapU_small by (width_norm; lia). done. }
  destruct Hi as [Hi1 Hi2]. rewrite Hi1, Hi2 in *.
  apply (new_currency_mining st rid (RewardCurrency c q (n =? 1))); try done.
  - split; [|by apply Hkey]. eapply available_primary_key_nonneg; [done|]. intros k [rc Hrc].
    destruct (mi_rewards _ _ _ Hm _ _ Hrc). lia.
  - intros id' rc' Hrc' [= E1 E2]. destruct (first_reward _ _) eqn:E; [done|]. eapply first_reward_None; [exact E|exact Hrc'|].
    unfold get_account_idx. by rewrite E1, E2.
Qed.

(** Marking currencies as rewarded changes no age. *)
Lemma mining_rewards s1 s' :
  mining cur zero s1 -> accounts s' = accounts s1 -> stats s' = stats s1 -> reward_mine s' = reward_mine s1 ->
  rows_ok s' -> (forall id, (fun rc => (rc_chain rc, rc_supply rc)) <$> rewards s' !! id =
                            (fun rc => (rc_chain rc, rc_supply rc)) <$> rewards s1 !! id) ->
  mining cur zero s'.
Proof.
  intros [_ H2 H3 H4 H5 H6 H7 H8 H9] Ha Hs Hr Hok Heq.
  assert (Hsome : forall id, is_Some (rewards s' !! id) <-> is_Some (rewards s1 !! id)).
  { intros id. specialize (Heq id). rewrite <- !(fmap_is_Some (fun rc => (rc_chain rc, rc_supply rc))), Heq. done. }
  split; unfold ages, offsets in *; rewrite ?Ha, ?Hs, ?Hr; try done.
  - intros t st Hst. destruct (H3 _ _ Hst) as (? & ? & [?|(rc & Hrc & ->)]); split_and!; try lia; try by left. right.
    specialize (Heq (reward_scope st)). rewrite Hrc in Heq.
    destruct (rewards s' !! reward_scope st) as [rc'|]; [|done]. injection Heq as E1 E2. exists rc'. split; [done|congruence].
  - intros id rc Hrc. specialize (Heq id). rewrite Hrc in Heq. destruct (rewards s1 !! id) as [rc'|] eqn:E; [|done].
    injection Heq as -> ->. eauto.
  - intros sc k r Hk. rewrite Hsome. eauto.
  - intros id. rewrite Hsome. eauto.
Qed.

Lemma activemine_mining a u s' : activemine a e s = Ok (u, s') -> mining cur zero (db s').
Proof.
  intros H. unfold activemine in H. minv.
  match goal with Hx : mfor _ _ _ _ _ = Ok _ |- _ =>
    apply (mfor_inv (fun _ s1 => mining cur zero (db s1))) in Hx; [done| |apply mining_later] end.
  intros u1 x s1 [u2 s2] _ Hm1 Hs. unfold activate in Hs. minv. cbn in *.
  eapply mining_rewards; [exact Hm1|done..| |].
  - by destruct (mi_rows _ _ _ Hm1).
  - intros id. cbn. destruct (decide (x = id)) as [->|Hne]; [rewrite lookup_insert_eq|by rewrite lookup_insert_ne].
    match goal with Hx : rewards _ !! _ = Some _ |- _ => by rewrite Hx end.
Qed.
End actions.

(** ** The division of a reward among the currencies. *)
Section division.
Context (price : Z -> Z -> Z -> result Z) (cur : Z).

(** The power of a currency: the value of the age recorded in block [cur]. *)
Definition power (s : state) (id : Z) : Z :=
  match rewards s !! id with
  | None => 0
  | Some rc =>
      match stats s !! (rc_chain rc, Sym.name (symbol (rc_supply rc))) with
      | None => 0
      | Some st =>
          match reward_mine s !! (reward_scope st, cur), price cur (chain st) (symbol (supply st)) with
          | Some info, Ok p => rm_total_mineage info * p / precision (Sym.precision (symbol (supply st)))
          | _, _ => 0
          end
      end
  end.

Definition power_sum (s : state) (l : list Z) : Z := foldr (fun id n => power s id + n) 0 l.

(** Prices and quantities whose products fit 128 bits. *)
Definition priced (q : asset) (s : state) : Prop :=
  0 <= amount q <= max_amount /\
  forall id rc st info p, rewards s !! id = Some rc ->
    stats s !! (rc_chain rc, Sym.name (symbol (rc_supply rc))) = Some st ->
    reward_mine s !! (reward_scope st, cur) = Some info -> price cur (chain st) (symbol (supply st)) = Ok p ->
    0 <= p /\ 0 < precision (Sym.precision (symbol (supply st))) /\
    rm_total_mineage info * p * (amount q + 1) * Z.of_nat (size (rewards s)) < 2 ^ 127.

Definition set_pool (x : Z) (r : reward_mine_info) : reward_mine_info :=
  RewardMine (rm_total_mineage r) (Asset x CORE_SYMBOL) (reward_block_num r).

(** The state after the shares of [l] are recorded. *)
Record divided (total : Z) (q : asset) (l : list Z) (s s' : state) : Prop := {
  dv_accounts : accounts s' = accounts s;
  dv_ids : account_ids s' = account_ids s;
  dv_stats : stats s' = stats s;
  dv_rewards : rewards s' = rewards s;
  dv_mine : forall sc n, reward_mine s' !! (sc, n) =
    (if decide (n = cur /\ sc ∈ l) then set_pool (power s sc * amount q / total) else id) <$> reward_mine s !! (sc, n);
}.

Section run.
Context (now : Z) (dsc : Z * Z -> Z) (s : state) (q : asset).
Hypothesis Hm : mining now dsc s.
Hypothesis Hcur : 0 <= cur < 2 ^ 31.
Hypothesis Hq : priced q s.

Lemma divided_tm total l s1 sc n :
  divided total q l s s1 -> rm_total_mineage <$> reward_mine s1 !! (sc, n) = rm_total_mineage <$> reward_mine s !! (sc, n).
Proof.
  intros Hd. rewrite (dv_mine _ _ _ _ _ Hd). destruct (reward_mine s !! (sc, n)); [|done]. cbn. by case_decide.
Qed.

Lemma divided_power total l s1 id : divided total q l s s1 -> power s1 id = power s id.
Proof.
  intros Hd. unfold power. rewrite (dv_rewards _ _ _ _ _ Hd), (dv_stats _ _ _ _ _ Hd).
  destruct (rewards s !! id); [|done]. destruct (stats s !! _) as [st|]; [|done].
  pose proof (divided_tm _ _ _ (reward_scope st) cur Hd) as E.
  destruct (reward_mine s1 !! _), (reward_mine s !! _); cbn in E; try done. by injection E as ->.
Qed.

Lemma power_bound id : is_Some (rewards s !! id) ->
  0 <= power s id /\ power s id * (amount q + 1) * Z.of_nat (size (rewards s)) < 2 ^ 127.
Proof.
  intros [rc Hrc]. destruct Hq as [Hq0 Hp]. unfold power. rewrite Hrc. destruct (stats s !! _) as [st|] eqn:Hst; [|lia].
  destruct (reward_mine s !! _) as [info|] eqn:Hi; [|lia]. destruct (price _ _ _) as [p|] eqn:Hpr; [|lia].
  destruct (Hp _ _ _ _ _ Hrc Hst Hi Hpr) as (H1 & H2 & H3).
  destruct (mi_records _ _ _ Hm _ _ _ Hi) as (_ & _ & _ & Htm & _).
  set (x := _ / _). assert (0 <= x <= rm_total_mineage info * p).
  { split; [apply Z.div_pos; nia|]. apply Z.div_le_upper_bound; nia. }
  split; [lia|]. eapply Z.le_lt_trans; [|exact H3]. repeat apply Zmult_le_compat_r; lia.
Qed.

Lemma power_sum_nonneg l : (forall id, id ∈ l -> is_Some (rewards s !! id)) -> 0 <= power_sum s l.
Proof.
  induction l as [|id l IH]; [cbn; lia|]. intros H. change (0 <= power s id + power_sum s l).
  pose proof (power_bound id (H _ ltac:(left))).
  assert (0 <= power_sum s l) by (apply IH; intros; apply H; by right). lia.
Qed.

Lemma power_sum_bound l : (forall id, id ∈ l -> is_Some (rewards s !! id)) -> (length l <= size (rewards s))%nat ->
  power_sum s l * (amount q + 1) < 2 ^ 127.
Proof.
  intros Hin Hlen. set (N := Z.of_nat (size (rewards s))) in *.
  assert (Hsum : power_sum s l * (amount q + 1) * N <= (2 ^ 127 - 1) * Z.of_nat (length l)).
  { clear Hlen. induction l as [|id l IH]; cbn [power_sum foldr length]; [lia|].
    destruct (power_bound id (Hin _ ltac:(left))) as [_ Hb]. fold N in Hb. fold (power_sum s l).
    specialize (IH ltac:(intros; apply Hin; by right)). lia. }
  destruct l as [|id l]; [cbn; lia|]. assert (0 < N) by (unfold N; cbn in Hlen; lia).
  assert (Z.of_nat (length (id :: l)) <= N) by (unfold N; lia). nia.
Qed.

Lemma mining_power_inv id e s1 r s2 :
  (exists total l, divided total q l s (db s1)) -> mining_power price cur id e s1 = Ok (r, s2) ->
  s2 = s1 /\ exists info, reward_mine (db s1) !! (id, cur) = Some info /\ r = (id, info, power s id).
Proof.
  intros (total & l & Hd) H. rewrite <- (divided_power _ _ _ id Hd).
  assert (Hu : u64 cur = cur) by (apply wrapU_small; width_norm; lia).
  unfold mining_power in H. rewrite Hu in H.
  apply mbind_ok in H as (x & s3 & (rc & Hrc & [= -> ->])%get_ok & H).
  apply mbind_ok in H as (x & s3 & [= -> ->]%find_ok & H). 
  apply mbind_ok in H as (y & s3 & (st & Hst & [= -> ->])%lift_ok & H). apply of_option_ok in Hst. cbn in Hrc, Hst.
  apply mbind_ok in H as (y & s3 & (p & Hpr & [= -> ->])%lift_ok & H).
  apply mbind_ok in H as (y & s3 & (info & Hi & [= -> ->])%get_ok & H). cbn in Hi.
  apply mbind_ok in H as (y & s3 & (prec & Hpc & [= -> ->])%lift_ok & H). apply mret_ok in H as [= -> ->].
  split; [done|]. 
  pose proof Hrc as Hrc0. rewrite (dv_rewards _ _ _ _ _ Hd) in Hrc0.
  pose proof Hst as Hst0. rewrite (dv_stats _ _ _ _ _ Hd) in Hst0.
  destruct (mi_rewards _ _ _ Hm _ _ Hrc0) as (_ & st' & Hst' & Hsc). assert (st' = st) as -> by congruence.
  rewrite Hsc in *. exists info. split; [done|]. unfold power. rewrite Hrc, Hst. rewrite Hsc, Hi, Hpr.
  case_match; [done|]. injection Hpc as <-. 
  pose proof (divided_tm _ _ _ id cur Hd) as E. rewrite Hi in E. destruct (reward_mine s !! (id, cur)) as [info0|] eqn:Hi0; [|done].
  injection E as E. destruct Hq as [Hq0 Hp]. rewrite <- Hsc in Hi0.
  destruct (Hp _ _ _ _ _ Hrc0 Hst0 Hi0 Hpr) as (Hp0 & Hpc & Hb). rewrite <- E in Hb.
  destruct (mi_records _ _ _ Hm _ _ _ Hi0) as (_ & _ & _ & Htm & _). rewrite <- E in Htm.
  assert (0 < Z.of_nat (size (rewards s))).
  { assert (size (rewards s) <> 0%nat); [|lia]. intros Hz. apply map_size_empty_iff in Hz. rewrite Hz in Hrc0. done. }
  assert (0 <= rm_total_mineage info * p <= rm_total_mineage info * p * (amount q + 1) * Z.of_nat (size (rewards s))) by nia.
  f_equal. rewrite wrapS_small by (width_norm; lia). apply Z.quot_div_nonneg; lia.
Qed.

Lemma divided_nil total : divided total q [] s s.
Proof. split; try done. intros sc n. rewrite decide_False; [|intros [_ ?%elem_of_nil]; done]. by destruct (_ !! _). Qed.

Lemma add_powers l e : forall s1 t r s2,
  db s1 = s -> 0 <= t -> t + power_sum s l < 2 ^ 128 -> (forall id, id ∈ l -> is_Some (rewards s !! id)) ->
  mfor (add_power price cur) t l e s1 = Ok (r, s2) -> s2 = s1 /\ r = t + power_sum s l.
Proof.
  induction l as [|id l IH]; intros s1 t r s2 Hs Ht Hb Hin H; cbn [mfor] in H.
  - injection H as <- <-. cbn. split; [done|lia].
  - change (power_sum s (id :: l)) with (power s id + power_sum s l) in *.
    pose proof (power_bound id (Hin _ ltac:(left))) as [Hp _].
    assert (Hin' : forall i, i ∈ l -> is_Some (rewards s !! i)) by (intros; apply Hin; by right).
    pose proof (power_sum_nonneg l Hin').
    apply mbind_ok in H as (t1 & s3 & H1 & H). unfold add_power in H1. apply mbind_ok in H1 as ([[? ?] ?] & s4 & H1 & H2).
    apply mining_power_inv in H1 as (-> & info & _ & [= -> -> ->]);
      [|exists 1, []; rewrite Hs; apply divided_nil]. apply mret_ok in H2 as [= -> ->].
    rewrite wrapU_small in H by (width_norm; lia). apply IH in H as [-> ->]; try done; try lia. split; [done|lia].
Qed.

Lemma power_le_sum l id : (forall i, i ∈ l -> is_Some (rewards s !! i)) -> id ∈ l -> power s id <= power_sum s l.
Proof.
  induction l as [|i l IH]; intros Hin Hid; [by apply elem_of_nil in Hid|].
  change (power_sum s (i :: l)) with (power s i + power_sum s l).
  assert (Hin' : forall i, i ∈ l -> is_Some (rewards s !! i)) by (intros; apply Hin; by right).
  pose proof (power_sum_nonneg l Hin'). pose proof (power_bound i (Hin _ ltac:(left))) as [Hp _].
  apply elem_of_cons in Hid as [->|Hid]; [lia|]. specialize (IH Hin' Hid). lia.
Qed.

Lemma divide_reward_step total l u id e s1 u' s2 :
  divided total q l s (db s1) -> 0 < total -> 0 <= power s id <= total -> power s id * amount q < 2 ^ 127 ->
  divide_reward price cur total q u id e s1 = Ok (u', s2) -> divided total q (id :: l) s (db s2).
Proof.
  intros Hd Ht Hp Hb H. unfold divide_reward in H. apply mbind_ok in H as ([[sc info] pw] & s3 & H1 & H).
  apply mining_power_inv in H1 as (-> & info' & Hi & [= -> -> ->]); [|by eauto].
  destruct Hq as [Hq0 _]. assert (Hle : 0 <= power s id * amount q / total <= amount q).
  { split; [apply Z.div_pos; nia|]. apply Z.div_le_upper_bound; nia. }
  rewrite (wrapS_small 128), (wrapU_small 128), (wrapU_small 64) in H by (width_norm; nia). 
  apply mbind_ok in H as (pool & s3 & (z & Hz & [= -> ->])%lift_ok & H). apply core_asset_ok in Hz as [_ ->].
  rewrite (wrapS_small 64) in H by (arange; width_norm; lia). apply modify_ok in H as [_ [= _ ->]].
  destruct Hd as [H1 H2 H3 H4 H5]. split; cbn; try done. intros sc n.

  destruct (decide ((id, cur) = (sc, n))) as [[= -> ->]|Hne].
  - rewrite lookup_insert_eq, decide_True by (split; [done|left]). pose proof (H5 sc n) as E. rewrite Hi in E.
    destruct (reward_mine s !! (sc, n)) as [r0|]; [|done]. injection E as ->. cbn. by case_decide.
  - rewrite lookup_insert_ne by done. rewrite H5.
    destruct (decide (n = cur /\ sc ∈ l)) as [Hl|Hl]; [rewrite decide_True|rewrite decide_False]; try done.
    + destruct Hl. split; [done|by right].
    + intros [-> [->|?]%elem_of_cons]; [done|]. by apply Hl.
Qed.

Lemma divided_perm total l l' s1 : (forall x, x ∈ l <-> x ∈ l') -> divided total q l s s1 -> divided total q l' s s1.
Proof.
  intros Hl [H1 H2 H3 H4 H5]. split; try done. intros sc n. rewrite H5.
  destruct (decide (n = cur /\ sc ∈ l)) as [?|Hn]; [rewrite decide_True|rewrite decide_False]; rewrite <- ?Hl; done.
Qed.

Lemma divide_rewards total e : forall l l1 u s1 u' s2,
  divided total q l1 s (db s1) -> 0 < total ->
  (forall id, id ∈ l -> 0 <= power s id <= total /\ power s id * amount q < 2 ^ 127) ->
  mfor (divide_reward price cur total q) u l e s1 = Ok (u', s2) -> divided total q (l1 ++ l) s (db s2).
Proof.
  induction l as [|id l IH]; intros l1 u s1 u' s2 Hd Ht Hp H; cbn [mfor] in H.
  - injection H as _ <-. by rewrite app_nil_r.
  - apply mbind_ok in H as (u1 & s3 & H1 & H). destruct (Hp id ltac:(left)) as [? ?].
    eapply divide_reward_step in H1; [|done..]. apply (IH _ _ _ _ _ H1 Ht) in H; [|intros; apply Hp; by right].
    eapply divided_perm; [|exact H]. set_solver.
Qed.

Lemma rewardmine_divided e s1 u s2 :
  db s1 = s -> current_block_num e = cur -> rewardmine price q e s1 = Ok (u, s2) ->
  let ids := sorted_keys (rewards s) in
  (power_sum s ids = 0 /\ db s2 = s) \/ (0 < power_sum s ids /\ divided (power_sum s ids) q ids s (db s2)).
Proof.
  intros Hs He H ids. unfold rewardmine in H.
  apply mbind_ok in H as (? & s3 & Hau & H). apply mbind_ok in H as (? & s4 & [= -> ->]%ask_ok & H).
  apply mbind_ok in H as (rows & s4 & [= -> ->]%all_rows_ok & H). cbn in H. rewrite He in H.
  assert (s3 = s1) as -> by (by minv). rewrite Hs in H. fold ids in H.
  assert (Hin : forall id, id ∈ ids -> is_Some (rewards s !! id)) by (intros; by apply sorted_keys_spec).
  assert (Hlen : (length ids <= size (rewards s))%nat) by (unfold ids; by rewrite sorted_keys_length).
  pose proof (power_sum_nonneg ids Hin) as H0. pose proof (power_sum_bound ids Hin Hlen) as Hb. destruct Hq as [Hq0 _].
  apply mbind_ok in H as (total & s4 & H1 & H). apply add_powers in H1 as [-> ->]; try done; [|nia].
  rewrite Z.add_0_l in H. destruct (power_sum s ids =? 0) eqn:E.
  - left. apply Z.eqb_eq in E. split; [done|]. by apply mret_ok in H as [= _ ->].
  - right. apply Z.eqb_neq in E. split; [lia|].
    apply (divide_rewards _ _ _ []) in H; [done|rewrite Hs; apply divided_nil|lia|].
    intros id Hid. pose proof (power_le_sum ids id Hin Hid). pose proof (power_bound id (Hin _ Hid)) as [? _]. split; nia.
Qed.

Lemma recorded_tm (m m' : gmap (Z * Z) reward_mine_info) sc n :
  (forall k, rm_total_mineage <$> m' !! k = rm_total_mineage <$> m !! k) ->
  recorded m' sc n = recorded m sc n /\ recorded_all m' sc = recorded_all m sc.
Proof.
  intros H. assert (E : rm_total_mineage <$> m' = rm_total_mineage <$> m).
  { apply map_eq. intros k. by rewrite !lookup_fmap. }
  unfold recorded, recorded_all. split.
  - rewrite <- !(map_sum_fmap (fun k x => if decide (k.1 = sc /\ k.2 <= n) then x else 0) rm_total_mineage). by rewrite E.
  - rewrite <- !(map_sum_fmap (fun k x => if decide (k.1 = sc) then x else 0) rm_total_mineage). by rewrite E.
Qed.

Lemma divided_mining total l s' :
  divided total q l s s' -> 0 < total -> (forall id, id ∈ l -> 0 <= power s id) -> rows_ok s' -> mining now dsc s'.
Proof.
  intros Hd Ht Hl Hok. destruct Hm as [_ H2 H3 H4 H5 H6 H7 H8 H9]. pose proof Hd as [E1 E2 E3 E4 E5].
  assert (Htm : forall k, rm_total_mineage <$> reward_mine s' !! k = rm_total_mineage <$> reward_mine s !! k).
  { intros [sc n]. by eapply divided_tm. }
  assert (Hr : forall sc n r, reward_mine s' !! (sc, n) = Some r -> exists r0, reward_mine s !! (sc, n) = Some r0 /\
    rm_total_mineage r = rm_total_mineage r0 /\ reward_block_num r = reward_block_num r0 /\
    (0 <= amount (reward_pool r0) -> 0 <= amount (reward_pool r))).
  { intros sc n r Hr. rewrite E5 in Hr. destruct (reward_mine s !! (sc, n)) as [r0|]; [|done]. exists r0. split; [done|].
    injection Hr as <-. case_decide as Hin; [|done]. split_and!; try done. intros _. cbn.
    apply Z.div_pos; [|done]. specialize (Hl _ (proj2 Hin)). destruct Hq as [? _]. nia. }
  assert (Hsome : forall sc n, is_Some (reward_mine s' !! (sc, n)) <-> is_Some (reward_mine s !! (sc, n))).
  { intros sc n. rewrite E5. apply fmap_is_Some. }
  assert (Hlat : forall sc n, later (reward_mine s') sc n <-> later (reward_mine s) sc n).
  { intros sc n. by apply later_same. }
  split; unfold ages, offsets in *; rewrite ?E1, ?E3, ?E4; try done.
  - intros sc n r (r0 & Hr0 & -> & -> & Hp)%Hr. destruct (H5 _ _ _ Hr0) as (? & ? & ? & ? & ? & ?).
    split_and!; try done; try lia; auto. by rewrite Hlat.
  - intros t st n r Hst (r0 & Hr0 & -> & _)%Hr. eauto.
  - intros t st n Hst. rewrite Hlat. intros Hx. destruct (recorded_tm _ _ (reward_scope st) n Htm) as [-> _]. eauto.
  - intros t st Hst. destruct (recorded_tm _ _ (reward_scope st) 0 Htm) as [_ ->]. eauto.
  - intros i Hi. destruct (H9 _ Hi) as [n Hn]. exists n. by apply Hsome.
Qed.
End run.
End division.

Lemma rewardmine_mining price now q e s u s' :
  mining now (fun _ => 0) (db s) -> rows_ok (db s) -> 0 <= now <= current_block_num e -> current_block_num e < 2 ^ 31 ->
  priced price (current_block_num e) q (db s) ->
  rewardmine price q e s = Ok (u, s') -> mining (current_block_num e) (fun _ => 0) (db s').
Proof.
  intros Hm Hok Hc Hc31 Hp H. pose proof (same_ledger_rows _ _ (rewardmine_ledger _ _ _ _ _ _ H) Hok) as Hok'.
  eapply mining_weaken; [|apply Hc|done].
  apply (rewardmine_divided price (current_block_num e) now (fun _ => 0) (db s) q) in H as [[_ ->]|[Ht Hd]]; try done; [|lia].
  eapply divided_mining; try done. intros id Hid. eapply power_bound; [done..|]. by apply sorted_keys_spec.
Qed.

(** ** Runs. *)

(** An action at block [current_block_num e] after block [now]: ages fit 64 bits, a cycle
    closes only in a later block and before its records are full, and the prices are such
    that the products fit. *)
Definition timely (price : env -> Z -> Z -> Z -> result Z) (now : Z) (c : call) (e : env) (s : state) : Prop :=
  0 <= now <= current_block_num e /\ fits (current_block_num e) s /\
  match c with
  | Settlemine _ => now < current_block_num e /\
      forall t st, stats s !! t = Some st -> reward_size st <> COIN_REWARD_RECORD_SIZE
  | Addreward _ _ _ => forall id, available_primary_key (rewards s) = Ok id -> id < max_amount
  | Rewardmine q => priced (price e) (current_block_num e) q s
  | _ => True
  end.

Inductive mining_run (price : env -> Z -> Z -> Z -> result Z) : Z -> state -> Prop :=
  | run_init : mining_run price 0 (State ∅ ∅ ∅ ∅ ∅)
  | run_step now s c e u s' :
      mining_run price now s -> call_typed c -> timely price now c e s ->
      apply (price e) c e (St s [] []) = Ok (u, s') -> mining_run price (current_block_num e) (db s').

Lemma init_mining : mining 0 (fun _ => 0) (State ∅ ∅ ∅ ∅ ∅).
Proof.
  destruct init_inv as [Hok _]. split; [exact Hok|..]; cbn; intros *; rewrite ?lookup_empty; try done; by intros [? ?].
Qed.

Lemma apply_mining price now c e s u s' :
  mining now (fun _ => 0) s -> inv s -> call_typed c -> timely price now c e s ->
  apply (price e) c e (St s [] []) = Ok (u, s') -> mining (current_block_num e) (fun _ => 0) (db s').
Proof.
  intros Hm Hinv Hc (Hcur & Hf & Ht) H. destruct c; cbn in Hc, Ht, H; destruct_and?.
  - by eapply (on_mining now e (St s [] [])).
  - by eapply (create_mining now e (St s [] [])).
  - by eapply (issue_mining now e (St s [] [])).
  - by eapply (destroy_mining now e (St s [] [])).
  - by eapply (transfer_mining now e (St s [] [])).
  - by eapply (trade_mining now e (St s [] [])).
  - eapply (rewardmine_mining (price e) now _ e (St s [] [])); try done; [apply Hinv|apply Hf].
  - by eapply (addreward_mining now e (St s [] [])).
  - by eapply (claim_mining now e (St s [] [])).
  - eapply (settlemine_mining now _ e (St s [] [])); try done; lia.
  - by eapply (activemine_mining now e (St s [] [])).
Qed.

Lemma run_mining price now s : mining_run price now s -> inv s /\ mining now (fun _ => 0) s.
Proof.
  induction 1 as [|now s c e u s' _ [IH1 IH2] Hc Ht H]; [split; [apply init_inv|apply init_mining]|].
  split; [exact (relay_apply_inv (price e) c e (St s [] []) u s' IH1 Hc H)|by eapply apply_mining].
Qed.


Definition shares (power : Z -> Z) (total q : Z) (l : list Z) : Z := foldr (fun id n => power id * q / total + n) 0 l.

Lemma shares_le f total q l :
  0 < total -> shares f total q l * total <= foldr (fun id n => f id + n) 0 l * q.
Proof.
  intros Ht. induction l as [|id l IH]; cbn; [lia|]. pose proof (Z.mul_div_le (f id * q) total Ht).
  fold (shares f total q l). lia.
Qed.

(** A mined reward is divided among the listed currencies in proportion to the value of
    their ages, rounded down: together they get no more than it. *)
(** C8: In a run as above, a mined reward is divided among the listed currencies in
    proportion to the value of the ages recorded in the block, rounded down;
    together they get no more than the reward, nothing else changes, and without any
    value nothing changes at all. *)
Theorem relay_reward_divided price now s e q u s' :
  mining_run price now s -> call_typed (Rewardmine q) -> timely price now (Rewardmine q) e s ->
  apply (price e) (Rewardmine q) e (St s [] []) = Ok (u, s') ->
  let cur := current_block_num e in
  let ids := sorted_keys (rewards s) in
  let total := power_sum (price e) cur s ids in
  (total = 0 /\ db s' = s) \/
  (0 < total /\ divided (price e) cur total q ids s (db s') /\
   shares (power (price e) cur s) total (amount q) ids <= amount q).
Proof.
  intros [_ Hm]%run_mining _ (Hcur & [Hf _] & Hp) H cur ids total.
  assert (Hc : 0 <= cur < 2 ^ 31) by (unfold cur; lia).
  destruct (rewardmine_divided (price e) cur now (fun _ => 0) s q Hm Hc Hp e (St s [] []) u s' eq_refl eq_refl H) as [?|[Ht Hd]];
    [by left|].
  right. split_and!; try done. pose proof (shares_le (power (price e) cur s) total (amount q) ids Ht) as Hle.
  change (foldr _ 0 ids) with total in Hle. change (0 < total) in Ht. clearbody total. nia.
Qed.

(** ** A concrete run. *)
Definition priced_b (price : Z -> Z -> Z -> result Z) (cur : Z) (q : asset) (s : state) : bool :=
  (0 <=? amount q) && (amount q <=? max_amount) &&
  forallb (fun kv : Z * reward_currency =>
    match stats s !! (rc_chain kv.2, Sym.name (symbol (rc_supply kv.2))) with
    | None => true
    | Some st =>
        match reward_mine s !! (reward_scope st, cur), price cur (chain st) (symbol (supply st)) with
        | Some info, Ok p =>
            (0 <=? p) && (0 <? precision (Sym.precision (symbol (supply st)))) &&
            (rm_total_mineage info * p * (amount q + 1) * Z.of_nat (size (rewards s)) <? 2 ^ 127)
        | _, _ => true
        end
    end) (map_to_list (rewards s)).

Lemma priced_b_spec price cur q s : priced_b price cur q s = true -> priced price cur q s.
Proof.
  unfold priced_b. intros [[H1 H2]%andb_true_iff H]%andb_true_iff. split; [lia|].
  intros id rc st info p Hrc Hst Hi Hp. rewrite forallb_forall in H.
  specialize (H (id, rc)). rewrite <- list_elem_of_In, elem_of_map_to_list in H. specialize (H Hrc). cbn in H.
  rewrite Hst, Hi, Hp in H. lia.
Qed.

Definition timely_b (price : env -> Z -> Z -> Z -> result Z) (now : Z) (c : call) (e : env) (s : state) : bool :=
  let cur := current_block_num e in
  (0 <=? now) && (now <=? cur) && (cur <? 2 ^ 31) &&
  bool_decide (map_Forall (fun _ st => amount (max_supply st) * cur < 2 ^ 63) (stats s)) &&
  match c with
  | Settlemine _ => (now <? cur) && bool_decide (map_Forall (fun _ st => reward_size st <> COIN_REWARD_RECORD_SIZE) (stats s))
  | Addreward _ _ _ => match available_primary_key (rewards s) with Ok id => id <? max_amount | Err _ => true end
  | Rewardmine q => priced_b (price e) cur q s
  | _ => true
  end.

Lemma timely_b_spec price now c e s : timely_b price now c e s = true -> timely price now c e s.
Proof.
  unfold timely_b. intros [[[[H1 H2]%andb_true_iff H3]%andb_true_iff H4%bool_decide_eq_true]%andb_true_iff H]%andb_true_iff.
  split; [lia|]. split; [split; [lia|exact H4]|]. destruct c; try done.
  - by apply priced_b_spec.
  - intros id Hid. rewrite Hid in H. lia.
  - apply andb_true_iff in H as [H5 H6%bool_decide_eq_true]. split; [lia|exact H6].
Qed.

Fixpoint run_timely (price : env -> Z -> Z -> Z -> result Z) (now : Z) (s : state) (l : list (call * env)) : option (Z * state) :=
  match l with
  | [] => Some (now, s)
  | (c, e) :: l =>
      if bool_decide (call_typed c) && timely_b price now c e s then
        match apply (price e) c e (St s [] []) with
        | Ok (_, s') => run_timely price (current_block_num e) (db s') l
        | Err _ => None
        end
      else None
  end.

Lemma run_timely_spec price l : forall now s now' s',
  mining_run price now s -> run_timely price now s l = Some (now', s') -> mining_run price now' s'.
Proof.
  induction l as [|[c e] l IH]; intros now s now' s' Hs H; cbn in H; [by injection H as <- <-|].
  destruct (bool_decide (call_typed c)) eqn:Hc; [|done]. apply bool_decide_eq_true in Hc.
  destruct (timely_b price now c e s) eqn:Ht; [|done]. apply timely_b_spec in Ht. cbn in H.
  destruct (apply _ _ _ _) as [[u s1]|] eqn:E; [|done]. eapply IH; [|exact H]. by eapply run_step.
Qed.

Lemma rt_mining_run : mining_run rt_price 50 rt_state.
Proof.
  apply (run_timely_spec rt_price rt_calls 0 (State ∅ ∅ ∅ ∅ ∅)); [apply run_init|]. vm_compute. reflexivity.
Qed.


(** Two listed currencies of different age, just before a reward is divided. *)
Definition far_chain : Z := Eval vm_compute in N_ "far".
Definition two_calls : list (call * env) :=
  [ (Create rt_alice side_chain 0 0 (coins 1000000), rt_env side_chain 10);
    (Create rt_bob far_chain 0 0 (coins 1000000), rt_env far_chain 10);
    (Issue side_chain rt_alice (coins 3000) "first", rt_env rt_alice 20);
    (Issue far_chain rt_bob (coins 1000) "second", rt_env rt_bob 20);
    (Addreward side_chain (coins 0) 1, rt_env relay_acct 30);
    (Addreward far_chain (coins 0) 1, rt_env relay_acct 30);
    (Settlemine config.system_account_name, rt_env config.system_account_name 40) ]%string.
Definition two_settled : state :=
  match run rt_price (State ∅ ∅ ∅ ∅ ∅) two_calls with Ok s => s | Err _ => State ∅ ∅ ∅ ∅ ∅ end.
Definition rt_reward : env := rt_env config.system_account_name 40.
Definition two_divided : st state :=
  match apply (rt_price rt_reward) (Rewardmine (coins 900001)) rt_reward (St two_settled [] []) with
  | Ok (_, s) => s
  | Err _ => St (State ∅ ∅ ∅ ∅ ∅) [] []
  end.

(** Of 900001, three quarters and one quarter, rounded down. *)
Lemma relay_reward_divided_witness :
  divided (rt_price rt_reward) 40 80000 (coins 900001) [0; 1] two_settled (db two_divided) /\
  shares (power (rt_price rt_reward) 40 two_settled) 80000 900001 [0; 1] <= 900001 /\
  (amount ∘ reward_pool <$> reward_mine (db two_divided) !! (0, 40)) = Some 675000 /\
  (amount ∘ reward_pool <$> reward_mine (db two_divided) !! (1, 40)) = Some 225000.
Proof.
  edestruct (relay_reward_divided rt_price 40 two_settled rt_reward (coins 900001) tt two_divided) as [[H _]|(_ & Hd & H)].
  - apply (run_timely_spec rt_price two_calls 0 (State ∅ ∅ ∅ ∅ ∅)); [apply run_init|]. vm_compute. reflexivity.
  - apply (bool_decide_unpack _). vm_compute. reflexivity.
  - apply timely_b_spec. vm_compute. reflexivity.
  - vm_compute. reflexivity.
  - by vm_compute in H.
  - split; [exact Hd|]. split; [exact H|]. split; vm_compute; reflexivity.
Defined.

(** ** Full records.

    Once a currency has [COIN_REWARD_RECORD_SIZE] records, a new cycle erases the oldest one;
    an age of that record not yet settled is then charged to the next record, whose total it
    exceeds, and the holders that settle later skip that record and are paid from the record
    after it for the age of all three. *)
Definition cycle (n : nat) : call * env :=
  (Settlemine config.system_account_name, rt_env config.system_account_name (40 + 10 * Z.of_nat n)).
(** Two holders of 1000 each of a currency listed at block 30. *)
Definition overrun_setup : list (call * env) :=
  [ (Create rt_alice side_chain 0 0 (coins 1000000), rt_env side_chain 10);
    (Issue side_chain rt_alice (coins 2000) "all", rt_env rt_alice 20);
    (Transfer rt_alice rt_bob side_chain (coins 1000) "half", rt_env rt_alice 20);
    (Addreward side_chain (coins 0) 1, rt_env relay_acct 30) ]%string.
Definition overrun_start : state :=
  match run rt_price (State ∅ ∅ ∅ ∅ ∅) overrun_setup with Ok s => s | Err _ => State ∅ ∅ ∅ ∅ ∅ end.
(** A reward of 900000 in the third of 361 cycles. *)
Definition overrun_cycles : list (call * env) :=
  (cycle <$> seq 0 3) ++ [ (Rewardmine (coins 900000), rt_env config.system_account_name 60) ] ++
  (cycle <$> seq 3 358).
Definition overrun_full : state :=
  match run rt_price overrun_start overrun_cycles with Ok s => s | Err _ => State ∅ ∅ ∅ ∅ ∅ end.
Definition claimed (holder : Z) (s : state) : st state :=
  match apply (rt_price (rt_env holder 4000)) (Claim side_chain (coins 0) holder) (rt_env holder 4000) (St s [] []) with
  | Ok (_, s) => s
  | Err _ => St s [] []
  end.

Lemma overrun_start_inv : inv overrun_start.
Proof.
  apply (relay_reachable_inv rt_price).
  apply (run_reachable rt_price overrun_setup (State ∅ ∅ ∅ ∅ ∅)); [apply reach_init| |vm_compute; reflexivity].
  apply (bool_decide_unpack _). vm_compute. reflexivity.
Qed.

(** C7: Well-formed tables with two holders of 1000 of one token, from which a run of
    361 cycles reaches the state in which the oldest of 360 records has been
    dropped, and the transfers the contract sends are taken to succeed: the first
    holder's claim makes the age of the next record negative, the second one is paid
    from the record after it for more than its age, and one reward of 900000 is paid
    out as 2250000 and leaves a pool of minus 1350000. *)
Theorem relay_records_overrun :
  inv overrun_start /\
  (amount ∘ balance <$> accounts overrun_start !! (rt_alice, 1)) = Some 1000 /\
  (amount ∘ balance <$> accounts overrun_start !! (rt_bob, 1)) = Some 1000 /\
  run rt_price overrun_start overrun_cycles = Ok overrun_full /\
  (amount ∘ reward_pool <$> reward_mine overrun_full !! (0, 60)) = Some 900000 /\
  let a := claimed rt_alice overrun_full in
  let b := claimed rt_bob (db a) in
  (rm_total_mineage <$> reward_mine (db a) !! (0, 50)) = Some (-10000) /\
  casts (inline_actions a) = 450000 /\ casts (inline_actions b) = 1800000 /\
  (amount ∘ reward_pool <$> reward_mine (db b) !! (0, 60)) = Some (-1350000).
Proof.
  split; [exact overrun_start_inv|]. cbv zeta. split_and!; vm_compute; reflexivity.
Qed.
