(* ===== verification/Bridge.v ===== *)
(** * The markets of the bridge contract, [contracts/sys.bridge].

    A market is made by an account, which mortgages two coins; others exchange one for the
    other at the ratio of the two weights, for a fee that stays with the market.  The coins
    lie in the contract's account: mortgages and payments arrive with the actions
    [addmortgage] and [exchange] that the token contracts send after a transfer, and leave
    by transfers the contract sends.  [exchange] for the type [bancor] computes with the
    [pow] of the C library; the amount it yields is a parameter, and no market has that type. *)
From stdpp Require Import base gmap list.
From Stdlib Require Import ZArith Lia.
From stdpp Require Import strings.
From S2P Require Import Prelude Name Asset Runtime.

Open Scope Z_scope.

Module Bridge.

Definition PROPORTION_CARD : Z := 10000.

(** [enum class fee_type], [trade_type] and [coin_type]. *)
Definition fee_fixed : Z := 1.
Definition fee_proportion : Z := 2.
Definition fee_proportion_mincost : Z := 3.
Definition equal_ratio : Z := 1.
Definition bancor : Z := 2.
Definition coin_base : Z := 1.
Definition coin_market : Z := 2.

(** ** State. *)
Record trans_contract := TransContract {
  tc_chain : Z;
  tc_quantity : asset;
  tc_contract_name : Z;
}.

Record trade_fee := TradeFee {
  fee_base : asset;
  fee_market : asset;
  base_ratio : Z;
  market_ratio : Z;
  fee_kind : Z;       (* [fee_type] *)
}.

Record coin := Coin {
  coin_chain : Z;
  coin_amount : asset;
  weight : Z;
  fee_amount : asset;
}.

Record trade_pair := TradePair {
  tp_type : Z;
  tp_base : coin;
  tp_market : coin;
  isactive : bool;
  tp_fee : trade_fee;
}.

(** [tradepairs] by maker and name, [transcon] by id. *)
Record state := State {
  tradepairs : gmap (Z * Z) trade_pair;
  transcon : gmap Z trans_contract;
}.

Abbreviation tradepairs_t := (View tradepairs (fun m s => State m (transcon s))) (only parsing).
Abbreviation transcon_t := (View transcon (fun m s => State (tradepairs s) m)) (only parsing).

Definition get_contract_idx (chain : Z) (a : asset) : Z := u128 (Z.shiftl chain 64 + Sym.name (symbol a)).

(** The first row of the index by chain and symbol. *)
Definition find_bychain (key : Z) (rows : gmap Z trans_contract) : option (Z * trans_contract) :=
  head (omap (fun id => c ← rows !! id;
                        if get_contract_idx (tc_chain c) (tc_quantity c) =? key then Some (id, c) else None)
             (sorted_keys rows)).

Definition send_transfer_action (chain recv : Z) (quantity : asset) (memo : string) : M state unit :=
  rows ← all_rows transcon_t;
  '(_, contract) ← lift (of_option (find_bychain (get_contract_idx chain quantity) rows) "contract object not found");
  e ← ask;
  if tc_contract_name contract =? config.relay_token_account_name then
    send (Action (tc_contract_name contract) (N_ "transfer") [(self e, active)]
            (relay_transfer_args (self e) recv chain quantity memo))
  else if tc_contract_name contract =? config.token_account_name then
    send (Action (tc_contract_name contract) (N_ "transfer") [(self e, active)]
            (transfer_args (self e) recv quantity memo))
  else eosio_assert false "the contract is invalid".

(** ** Markets. *)
Definition checked_amount (a : asset) : M state unit :=
  eosio_assert (Sym.is_valid_symbol (symbol a)) "invalid symbol name";;
  eosio_assert (is_valid a) "invalid supply".

Definition addmarket (trade trade_maker type base_chain : Z) (base_amount : asset) (base_weight market_chain : Z)
    (market_amount : asset) (market_weight : Z) : M state unit :=
  require_auth trade_maker;;
  checked_amount base_amount;;
  eosio_assert (0 <=? amount base_amount) "max-supply must be positive";;
  checked_amount market_amount;;
  eosio_assert (0 <=? amount market_amount) "max-supply must be positive";;
  eosio_assert (negb (symbol base_amount =? symbol market_amount) || negb (base_chain =? market_chain))
    "a market must on two coin";;
  eosio_assert (type =? equal_ratio) "invalid trade type";;
  eosio_assert (0 <? market_weight) "invalid market_weight";;
  eosio_assert (0 <? base_weight) "invalid base_weight";;
  base0 ← lift (mk_asset 0 (symbol base_amount));
  market0 ← lift (mk_asset 0 (symbol market_amount));
  (* the ratios are left unset; they are read only after one of the fees in proportion has set them *)
  emplace tradepairs_t (trade_maker, trade)
    (TradePair type (Coin base_chain base0 base_weight base0) (Coin market_chain market0 market_weight market0) true
       (TradeFee base0 market0 0 0 fee_fixed)).

Definition with_base (p : trade_pair) (a fee : asset) : trade_pair :=
  TradePair (tp_type p) (Coin (coin_chain (tp_base p)) a (weight (tp_base p)) fee) (tp_market p) (isactive p) (tp_fee p).
Definition with_market (p : trade_pair) (a fee : asset) : trade_pair :=
  TradePair (tp_type p) (tp_base p) (Coin (coin_chain (tp_market p)) a (weight (tp_market p)) fee) (isactive p) (tp_fee p).

Definition find_market (trade trade_maker : Z) : M state trade_pair :=
  existing ← find tradepairs_t (trade_maker, trade);
  lift (of_option existing "the market is not exist").

Definition addmortgage (trade trade_maker recharge_account chain : Z) (recharge_amount : asset) (type : Z) : M state unit :=
  e ← ask;
  require_auth (self e);;
  existing ← find_market trade trade_maker;
  checked_amount recharge_amount;;
  eosio_assert (0 <? amount recharge_amount) "max-supply must be positive";;
  let coin := if type =? coin_base then tp_base existing else tp_market existing in
  eosio_assert (symbol recharge_amount =? symbol (coin_amount coin)) "recharge coin is not the same coin on the market";;
  eosio_assert (chain =? coin_chain coin) "recharge chain is not the same chain on the market";;
  a ← lift (asset_add (coin_amount coin) recharge_amount);
  modify tradepairs_t (trade_maker, trade)
    (if type =? coin_base then with_base existing a (fee_amount coin) else with_market existing a (fee_amount coin)).

Definition claimmortgage (trade trade_maker recv_account : Z) (claim_amount : asset) (type : Z) : M state unit :=
  require_auth trade_maker;;
  existing ← find_market trade trade_maker;
  checked_amount claim_amount;;
  eosio_assert (0 <? amount claim_amount) "max-supply must be positive";;
  let coin := if type =? coin_base then tp_base existing else tp_market existing in
  eosio_assert (symbol claim_amount =? symbol (coin_amount coin)) "recharge coin is not the same coin on the market";;
  enough ← lift (asset_le claim_amount (coin_amount coin));
  eosio_assert enough "overdrawn balance";;
  a ← lift (asset_sub (coin_amount coin) claim_amount);
  modify tradepairs_t (trade_maker, trade)
    (if type =? coin_base then with_base existing a (fee_amount coin) else with_market existing a (fee_amount coin));;
  send_transfer_action (coin_chain coin) recv_account claim_amount "claim market transfer coin market".

Definition set_active (b : bool) (p : trade_pair) : trade_pair :=
  TradePair (tp_type p) (tp_base p) (tp_market p) b (tp_fee p).

Definition frozenmarket (trade trade_maker : Z) : M state unit :=
  require_auth trade_maker;;
  existing ← find_market trade trade_maker;
  eosio_assert (isactive existing) "the market is not active";;
  modify tradepairs_t (trade_maker, trade) (set_active false existing).

Definition trawmarket (trade trade_maker : Z) : M state unit :=
  require_auth trade_maker;;
  existing ← find_market trade trade_maker;
  eosio_assert (negb (isactive existing)) "the market is already active";;
  modify tradepairs_t (trade_maker, trade) (set_active true existing).

(** ** Fees and weights. *)
Definition with_fee (p : trade_pair) (f : trade_fee) : trade_pair :=
  TradePair (tp_type p) (tp_base p) (tp_market p) (isactive p) f.

(** The checks on the two amounts of a fee. *)
Definition checked_fee (existing : trade_pair) (base market : asset) : M state unit :=
  checked_amount base;;
  eosio_assert (0 <=? amount base) "max-supply must be positive";;
  checked_amount market;;
  eosio_assert (0 <=? amount market) "max-supply must be positive";;
  eosio_assert (symbol (fee_base (tp_fee existing)) =? symbol base) "base asset is different coin with fee base";;
  eosio_assert (symbol (fee_market (tp_fee existing)) =? symbol market) "base asset is different coin with fee base".

Definition setfixedfee (trade trade_maker : Z) (base market : asset) : M state unit :=
  require_auth trade_maker;;
  existing ← find_market trade trade_maker;
  checked_fee existing base market;;
  eosio_assert (negb (isactive existing)) "only frozen market can set fixedfee";;
  modify tradepairs_t (trade_maker, trade)
    (with_fee existing (TradeFee base market (base_ratio (tp_fee existing)) (market_ratio (tp_fee existing)) fee_fixed)).

(** The ratios are unsigned: only their upper bound is a condition. *)
Definition checked_ratios (base_ratio market_ratio : Z) : M state unit :=
  eosio_assert ((0 <=? base_ratio) && (base_ratio <? PROPORTION_CARD)) "base_ratio must between 0 and 10000";;
  eosio_assert ((0 <=? market_ratio) && (market_ratio <? PROPORTION_CARD)) "market_ratio must between 0 and 10000".

Definition setprofee (trade trade_maker base_ratio market_ratio : Z) : M state unit :=
  require_auth trade_maker;;
  existing ← find_market trade trade_maker;
  checked_ratios base_ratio market_ratio;;
  eosio_assert (negb (isactive existing)) "only frozen market can set proportion fee";;
  modify tradepairs_t (trade_maker, trade)
    (with_fee existing (TradeFee (fee_base (tp_fee existing)) (fee_market (tp_fee existing)) base_ratio market_ratio
                          fee_proportion)).

Definition setprominfee (trade trade_maker base_ratio market_ratio : Z) (base market : asset) : M state unit :=
  require_auth trade_maker;;
  existing ← find_market trade trade_maker;
  checked_fee existing base market;;
  checked_ratios base_ratio market_ratio;;
  eosio_assert (negb (isactive existing)) "only frozen market can set proportion and min fee";;
  modify tradepairs_t (trade_maker, trade)
    (with_fee existing (TradeFee base market base_ratio market_ratio fee_proportion_mincost)).

Definition setweight (trade trade_maker base_weight market_weight : Z) : M state unit :=
  require_auth trade_maker;;
  existing ← find_market trade trade_maker;
  eosio_assert (0 <? market_weight) "invalid market_weight";;
  eosio_assert (0 <? base_weight) "invalid base_weight";;
  eosio_assert (negb (isactive existing)) "only frozen market can set weight";;
  let b := tp_base existing in
  let m := tp_market existing in
  modify tradepairs_t (trade_maker, trade)
    (TradePair (tp_type existing) (Coin (coin_chain b) (coin_amount b) base_weight (fee_amount b))
       (Coin (coin_chain m) (coin_amount m) market_weight (fee_amount m)) (isactive existing) (tp_fee existing)).

(** ** Exchanges. *)

(** The fee of [recv_amount] in [uint64_t], with the ratio and the fixed amount of a coin. *)
Definition exchange_fee (kind recv_amount ratio fixed : Z) : Z :=
  let proportion := u64 (recv_amount * ratio) / PROPORTION_CARD in
  if kind =? fee_fixed then u64 fixed
  else if kind =? fee_proportion then proportion
  else if kind =? fee_proportion_mincost then
    if u64 fixed <? proportion then proportion else u64 fixed
  else recv_amount.

Section exchange.
Context (bancor_amount : Z -> trade_pair -> asset -> Z).   (* type of the coin paid, market, amount *)

Definition exchange (trade trade_maker account_covert account_recv chain : Z) (convert_amount : asset) (type : Z)
  : M state unit :=
  e ← ask;
  require_auth (self e);;
  existing ← find_market trade trade_maker;
  eosio_assert (isactive existing) "the market is not active";;
  checked_amount convert_amount;;
  eosio_assert (0 <? amount convert_amount) "max-supply must be positive";;
  let pays_base := type =? coin_base in
  let paid := if pays_base then tp_base existing else tp_market existing in
  let dest := if pays_base then tp_market existing else tp_base existing in
  eosio_assert (symbol convert_amount =? symbol (coin_amount paid)) "covert coin is not the same coin on the base";;
  eosio_assert (chain =? coin_chain paid) "covert chain is not the same chain on the base";;
  recv_amount ←
    (if tp_type existing =? equal_ratio then
       lift (if weight paid =? 0 then Err "integer divide by zero"
             else Ok (u64 (amount convert_amount * weight dest) / weight paid))
     else mret (u64 (bancor_amount type existing convert_amount)));
  let fee := tp_fee existing in
  let fee_amout := exchange_fee (fee_kind fee) recv_amount (if pays_base then market_ratio fee else base_ratio fee)
                     (amount (if pays_base then fee_market fee else fee_base fee)) in
  let recv_amount := u64 (recv_amount - fee_amout) in
  eosio_assert (recv_amount <? u64 (amount (coin_amount dest))) "the market do not has enough dest coin";;
  recv_asset ← lift (mk_asset (i64 recv_amount) (symbol (coin_amount dest)));
  fee_asset ← lift (mk_asset (i64 fee_amout) (symbol (coin_amount dest)));
  paid' ← lift (asset_add (coin_amount paid) convert_amount);
  d ← lift (asset_sub (coin_amount dest) recv_asset);
  dest' ← lift (asset_sub d fee_asset);
  dest_fee ← lift (asset_add (fee_amount dest) fee_asset);
  modify tradepairs_t (trade_maker, trade)
    (if pays_base then with_market (with_base existing paid' (fee_amount paid)) dest' dest_fee
     else with_base (with_market existing paid' (fee_amount paid)) dest' dest_fee);;
  send_transfer_action (coin_chain (if type =? coin_market then tp_base existing else tp_market existing)) account_recv
    recv_asset "exchange market transfer coin market".
End exchange.

Definition settranscon (chain : Z) (quantity : asset) (contract_name : Z) : M state unit :=
  e ← ask;
  require_auth (self e);;
  rows ← all_rows transcon_t;
  match find_bychain (get_contract_idx chain quantity) rows with
  | None =>
      id ← lift (available_primary_key rows);
      emplace transcon_t id (TransContract chain quantity contract_name)
  | Some (id, con) => modify transcon_t id (TransContract (tc_chain con) (tc_quantity con) contract_name)
  end.

(** Pays a coin of a market that is removed. *)
Definition pay_back (chain recv : Z) (a : asset) (memo : string) : M state unit :=
  if 0 <? amount a then send_transfer_action chain recv a memo else mret tt.

(** The amounts that [modify] sets are not read again: the row is erased. *)
Definition removemarket (trade trade_maker base_recv maker_recv : Z) : M state unit :=
  require_auth trade_maker;;
  existing ← find_market trade trade_maker;
  let b := tp_base existing in
  let m := tp_market existing in
  pay_back (coin_chain b) base_recv (coin_amount b) "remove market return the base coins";;
  pay_back (coin_chain m) maker_recv (coin_amount m) "remove market return the market coins";;
  pay_back (coin_chain b) base_recv (fee_amount b) "remove market return the base fee coins";;
  pay_back (coin_chain m) maker_recv (fee_amount m) "remove market return the market fee coins";;
  b' ← lift (asset_sub (coin_amount b) (coin_amount b));
  m' ← lift (asset_sub (coin_amount m) (coin_amount m));
  bf ← lift (asset_sub (fee_amount b) b');
  mf ← lift (asset_sub (fee_amount m) m');
  modify tradepairs_t (trade_maker, trade) (with_market (with_base existing b' bf) m' mf);;
  erase tradepairs_t (trade_maker, trade).

Definition claimfee (trade trade_maker recv_account type : Z) : M state unit :=
  require_auth trade_maker;;
  existing ← find_market trade trade_maker;
  let coin := if type =? coin_base then tp_base existing else tp_market existing in
  send_transfer_action (coin_chain coin) recv_account (fee_amount coin) "claim fee transfer coin market";;
  zero ← lift (mk_asset 0 (symbol (fee_amount coin)));
  modify tradepairs_t (trade_maker, trade)
    (if type =? coin_base then with_base existing (coin_amount coin) zero else with_market existing (coin_amount coin) zero).

(** ** Dispatch: [EOSIO_ABI( market, ... )]. *)
Inductive call : Type :=
| Addmarket (trade trade_maker type base_chain : Z) (base_amount : asset) (base_weight market_chain : Z)
    (market_amount : asset) (market_weight : Z)
| Addmortgage (trade trade_maker recharge_account coin_chain : Z) (recharge_amount : asset) (type : Z)
| Claimmortgage (trade trade_maker recv_account : Z) (claim_amount : asset) (type : Z)
| Exchange (trade trade_maker account_covert account_recv coin_chain : Z) (convert_amount : asset) (type : Z)
| Frozenmarket (trade trade_maker : Z)
| Trawmarket (trade trade_maker : Z)
| Setfixedfee (trade trade_maker : Z) (base market : asset)
| Setprofee (trade trade_maker base_ratio market_ratio : Z)
| Setprominfee (trade trade_maker base_ratio market_ratio : Z) (base market : asset)
| Setweight (trade trade_maker base_weight market_weight : Z)
| Settranscon (chain : Z) (quantity : asset) (contract_name : Z)
| Removemarket (trade trade_maker base_recv maker_recv : Z)
| Claimfee (trade trade_maker recv_account type : Z).

Definition apply (bancor_amount : Z -> trade_pair -> asset -> Z) (c : call) : M state unit :=
  match c with
  | Addmarket t m ty bc ba bw mc ma mw => addmarket t m ty bc ba bw mc ma mw
  | Addmortgage t m r c a ty => addmortgage t m r c a ty
  | Claimmortgage t m r a ty => claimmortgage t m r a ty
  | Exchange t m ac ar c a ty => exchange bancor_amount t m ac ar c a ty
  | Frozenmarket t m => frozenmarket t m
  | Trawmarket t m => trawmarket t m
  | Setfixedfee t m b mk => setfixedfee t m b mk
  | Setprofee t m br mr => setprofee t m br mr
  | Setprominfee t m br mr b mk => setprominfee t m br mr b mk
  | Setweight t m bw mw => setweight t m bw mw
  | Settranscon c q n => settranscon c q n
  | Removemarket t m br mr => removemarket t m br mr
  | Claimfee t m r ty => claimfee t m r ty
  end.


(** ** Accounts.

    What the markets hold of a token, a chain and a symbol, and what is paid out. *)
Definition well_typed (a : asset) : Prop := is_s 64 (amount a) /\ is_u 64 (symbol a).

(** The arguments have their widths; the type of a coin is one of the two that the memos of the
    token contracts may name. *)
Definition call_typed (c : call) : Prop :=
  match c with
  | Addmarket _ _ _ bc ba bw mc ma mw => well_typed ba /\ well_typed ma /\ is_u 64 bw /\ is_u 64 mw
  | Addmortgage _ _ _ _ a _ | Claimmortgage _ _ _ a _ => well_typed a
  | Exchange _ _ _ _ _ a ty => well_typed a /\ (ty = coin_base \/ ty = coin_market)
  | Setfixedfee _ _ b m => well_typed b /\ well_typed m
  | Setprofee _ _ br mr => is_u 64 br /\ is_u 64 mr
  | Setprominfee _ _ br mr b m => is_u 64 br /\ is_u 64 mr /\ well_typed b /\ well_typed m
  | Setweight _ _ bw mw => is_u 64 bw /\ is_u 64 mw
  | _ => True
  end.

Record coin_ok (c : coin) : Prop := {
  ck_amount : in_range (amount (coin_amount c));
  ck_fee : 0 <= amount (fee_amount c) <= max_amount;
  ck_symbol : symbol (fee_amount c) = symbol (coin_amount c);
  ck_weight : 0 < weight c < 2 ^ 64;
}.

Definition coin_token (c : coin) : Z * Z := (coin_chain c, symbol (coin_amount c)).

Record pair_ok (p : trade_pair) : Prop := {
  pk_base : coin_ok (tp_base p);
  pk_market : coin_ok (tp_market p);
  pk_tokens : coin_token (tp_base p) <> coin_token (tp_market p);
  pk_type : tp_type p = equal_ratio;
  pk_fees : 0 <= amount (fee_base (tp_fee p)) <= max_amount /\ 0 <= amount (fee_market (tp_fee p)) <= max_amount;
  pk_kind : fee_kind (tp_fee p) = fee_fixed \/ fee_kind (tp_fee p) = fee_proportion \/
            fee_kind (tp_fee p) = fee_proportion_mincost;
  pk_ratios : 0 <= base_ratio (tp_fee p) < PROPORTION_CARD /\ 0 <= market_ratio (tp_fee p) < PROPORTION_CARD;
}.

Definition rows_ok (s : state) : Prop := forall k p, tradepairs s !! k = Some p -> pair_ok p.

Definition coin_held (t : Z * Z) (c : coin) : Z :=
  if decide (coin_token c = t) then amount (coin_amount c) + amount (fee_amount c) else 0.
Definition pair_held (t : Z * Z) (p : trade_pair) : Z := coin_held t (tp_base p) + coin_held t (tp_market p).
Definition held (s : state) (t : Z * Z) : Z := map_sum (fun _ p => pair_held t p) (tradepairs s).

(** A transfer the contract asks for. *)
Record payment := Payment { p_chain : Z; p_recv : Z; p_quantity : asset; p_memo : string }.

Definition transfer_of (rows : gmap Z trans_contract) (me : Z) (p : payment) : option action :=
  '(_, c) ← find_bychain (get_contract_idx (p_chain p) (p_quantity p)) rows;
  if tc_contract_name c =? config.relay_token_account_name then
    Some (Action config.relay_token_account_name (N_ "transfer") [(me, active)]
            (relay_transfer_args me (p_recv p) (p_chain p) (p_quantity p) (p_memo p)))
  else if tc_contract_name c =? config.token_account_name then
    Some (Action config.token_account_name (N_ "transfer") [(me, active)]
            (transfer_args me (p_recv p) (p_quantity p) (p_memo p)))
  else None.

Definition pays (t : Z * Z) (p : payment) : Z :=
  if decide ((p_chain p, symbol (p_quantity p)) = t) then amount (p_quantity p) else 0.
Definition paid (l : list payment) (t : Z * Z) : Z := foldr (fun p n => pays t p + n) 0 l.

Lemma paid_app l1 l2 t : paid (l1 ++ l2) t = paid l1 t + paid l2 t.
Proof. induction l1 as [|p l1 IH]; cbn; [done|]. fold (paid (l1 ++ l2) t). fold (paid l1 t). lia. Qed.

(** What arrives with an action. *)
Definition deposit (c : call) (t : Z * Z) : Z :=
  match c with
  | Addmortgage _ _ _ ch a _ | Exchange _ _ _ _ ch a _ => if decide ((ch, symbol a) = t) then amount a else 0
  | _ => 0
  end.

Lemma send_transfer_ok chain recv q memo e s u s' :
  send_transfer_action chain recv q memo e s = Ok (u, s') ->
  exists a, transfer_of (transcon (db s)) (self e) (Payment chain recv q memo) = Some a /\
    s' = St (db s) (notified s) (inline_actions s ++ [a]).
Proof.
  unfold send_transfer_action, transfer_of. intros H. minv. cbn [p_chain p_recv p_quantity p_memo].
  match goal with Hf : find_bychain _ _ = Some _ |- _ => rewrite Hf end.
  cbv beta iota delta [mbind option_bind]. mcase; [|mcase].
  - rewrite Heqb. by eexists.
  - rewrite Heqb0. by eexists.
Qed.

Definition covered (c : call) (s : state) : Prop :=
  match c with
  | Removemarket trade maker _ _ => forall p, tradepairs s !! (maker, trade) = Some p ->
      0 <= amount (coin_amount (tp_base p)) /\ 0 <= amount (coin_amount (tp_market p))
  | _ => True
  end.

(** The transfers an action asks for balance what the markets hold. *)
Definition balanced (e : env) (n : Z * Z -> Z) (s s' : st state) : Prop :=
  exists ps l, inline_actions s' = inline_actions s ++ l /\
    Forall2 (fun p a => transfer_of (transcon (db s)) (self e) p = Some a) ps l /\
    forall t, held (db s') t + paid ps t = held (db s) t + n t.

Lemma market_held_replace s k p p' tc t :
  tradepairs s !! k = Some p ->
  held (State (<[k := p']> (tradepairs s)) tc) t = held s t + (pair_held t p' - pair_held t p).
Proof. intros Hk. unfold held. cbn. rewrite map_sum_insert, (at_key_Some _ _ _ _ Hk). lia. Qed.

Lemma market_rows_replace s k p' tc : rows_ok s -> pair_ok p' -> rows_ok (State (<[k := p']> (tradepairs s)) tc).
Proof. intros Hs Hp k' p; cbn; intros [[_ <-]|[_ H]]%lookup_insert_Some; eauto. Qed.

Lemma balanced_silent e n s s' :
  inline_actions s' = inline_actions s -> (forall t, held (db s') t = held (db s) t + n t) -> balanced e n s s'.
Proof.
  intros Hi Hh. exists [], []. rewrite app_nil_r. split_and!; [done|constructor|]. intros t. cbn. rewrite Hh. lia.
Qed.

Lemma balanced_one e n s s' p a :
  inline_actions s' = inline_actions s ++ [a] -> transfer_of (transcon (db s)) (self e) p = Some a ->
  (forall t, held (db s') t + pays t p = held (db s) t + n t) -> balanced e n s s'.
Proof.
  intros Hi Ha Hh. exists [p], [a]. split_and!; [done|by repeat constructor|]. intros t. cbn. rewrite <- Hh. lia.
Qed.

(** Arithmetic of what a pair holds, by cases on the token. *)
Ltac holds := intros; unfold pair_held, coin_held, coin_token, pays; cbn; repeat case_decide; simplify_eq; try lia.

Lemma find_market_ok trade maker e s p s' :
  find_market trade maker e s = Ok (p, s') -> s' = s /\ tradepairs (db s) !! (maker, trade) = Some p.
Proof. unfold find_market. intros H. minv. done. Qed.

Lemma checked_amount_ok a e s u s' :
  checked_amount a e s = Ok (u, s') -> s' = s /\ Sym.is_valid_symbol (symbol a) = true /\ in_range (amount a).
Proof.
  unfold checked_amount. intros H. minv. split_and!; try done.
  match goal with Hv : is_valid a = true |- _ => unfold is_valid in Hv; apply andb_true_iff in Hv as [Hv _]; by apply within_range_iff end.
Qed.

Ltac binv := minv; repeat (first
  [ match goal with H : find_market _ _ _ _ = Ok _ |- _ => apply find_market_ok in H as [-> ?] end
  | match goal with H : checked_amount _ _ _ = Ok _ |- _ => apply checked_amount_ok in H as (-> & ? & ?) end ]; minv).

Lemma mk_asset_ok n sym a : mk_asset n sym = Ok a -> in_range n /\ a = Asset n sym.
Proof. unfold mk_asset. intros H. rinv. split; [|done]. by apply (within_range_iff (Asset n sym)). Qed.

Lemma addmarket_ok t m ty bc ba bw mc ma mw e s u s' :
  rows_ok (db s) -> is_u 64 bw -> is_u 64 mw -> addmarket t m ty bc ba bw mc ma mw e s = Ok (u, s') ->
  rows_ok (db s') /\ balanced e (fun _ => 0) s s'.
Proof.
  intros Hs Hbw Hmw H. unfold addmarket in H. binv.
  repeat match goal with Hz : mk_asset _ _ = Ok _ |- _ => apply mk_asset_ok in Hz as [? ->] end.
  match goal with Hx : (_ || _) = true |- _ => apply orb_true_iff in Hx end.
  assert (Hmax : 0 <= max_amount) by (vm_compute; congruence).
  split.
  - intros k p; cbn; intros [[_ <-]|[_ Hk]]%lookup_insert_Some; [|eauto].
    split; [split|split|..]; cbn; try done; try (width_norm; lia); try by left.
    unfold coin_token. cbn. intros [= ??]. subst.
    match goal with Hx : _ \/ _ |- _ => rewrite !negb_true_iff, !Z.eqb_neq in Hx end. tauto.
  - apply balanced_silent; [done|]. intros tk. unfold held. cbn. rewrite map_sum_insert_None by done. holds.
Qed.

(** A market whose coins change, with their fees. *)
Lemma with_base_ok p a f : pair_ok p -> in_range (amount a) -> 0 <= amount f <= max_amount ->
  symbol a = symbol (coin_amount (tp_base p)) -> symbol f = symbol a -> pair_ok (with_base p a f).
Proof.
  intros [[? ? ? ?] ? Ht ? ? ?] Ha Hf Hs Hfs. split; [split|..]; cbn; try done. unfold coin_token in *. cbn. by rewrite Hs.
Qed.

Lemma with_market_ok p a f : pair_ok p -> in_range (amount a) -> 0 <= amount f <= max_amount ->
  symbol a = symbol (coin_amount (tp_market p)) -> symbol f = symbol a -> pair_ok (with_market p a f).
Proof.
  intros [? [? ? ? ?] Ht ? ? ?] Ha Hf Hs Hfs. split; [|split|..]; cbn; try done. unfold coin_token in *. cbn. by rewrite Hs.
Qed.

Lemma base_held t p a f : symbol a = symbol (coin_amount (tp_base p)) ->
  pair_held t (with_base p a f) - pair_held t p =
  if decide (coin_token (tp_base p) = t)
  then amount a + amount f - (amount (coin_amount (tp_base p)) + amount (fee_amount (tp_base p))) else 0.
Proof. intros Hs. unfold pair_held, coin_held, coin_token. cbn. rewrite Hs. case_decide; lia. Qed.

Lemma market_held t p a f : symbol a = symbol (coin_amount (tp_market p)) ->
  pair_held t (with_market p a f) - pair_held t p =
  if decide (coin_token (tp_market p) = t)
  then amount a + amount f - (amount (coin_amount (tp_market p)) + amount (fee_amount (tp_market p))) else 0.
Proof. intros Hs. unfold pair_held, coin_held, coin_token. cbn. rewrite Hs. repeat case_decide; lia. Qed.

(** The coin an action names, and the market with that coin replaced. *)
Definition side (type : Z) (p : trade_pair) : coin := if type =? coin_base then tp_base p else tp_market p.
Definition with_side (type : Z) (p : trade_pair) (a f : asset) : trade_pair :=
  if type =? coin_base then with_base p a f else with_market p a f.

Lemma side_ok type p : pair_ok p -> coin_ok (side type p).
Proof. intros [? ?]. unfold side. by case_match. Qed.

Lemma with_side_ok type p a f : pair_ok p -> in_range (amount a) -> 0 <= amount f <= max_amount ->
  symbol a = symbol (coin_amount (side type p)) -> symbol f = symbol a -> pair_ok (with_side type p a f).
Proof. unfold side, with_side. case_match; auto using with_base_ok, with_market_ok. Qed.

Lemma side_held t type p a f : symbol a = symbol (coin_amount (side type p)) ->
  pair_held t (with_side type p a f) - pair_held t p =
  if decide (coin_token (side type p) = t)
  then amount a + amount f - (amount (coin_amount (side type p)) + amount (fee_amount (side type p))) else 0.
Proof. unfold side, with_side. case_match; auto using base_held, market_held. Qed.

Lemma addmortgage_ok t m r ch a ty e s u s' :
  rows_ok (db s) -> well_typed a -> addmortgage t m r ch a ty e s = Ok (u, s') ->
  rows_ok (db s') /\ balanced e (deposit (Addmortgage t m r ch a ty)) s s'.
Proof.
  intros Hs [Ha _] H. unfold addmortgage in H. binv.
  match goal with Hx : tradepairs _ !! _ = Some ?x |- _ => rename Hx into Hp, x into p end.
  pose proof (Hs _ _ Hp) as Hok. pose proof (side_ok ty p Hok) as [Hc1 Hc2 Hc3 Hc4]. unfold side in *.
  match goal with Hx : asset_add _ _ = Ok _ |- _ => apply asset_add_ok in Hx as (Hsym & Hr & ->); [|done|done] end.
  split.
  - apply market_rows_replace; [done|]. by apply (with_side_ok ty).
  - apply balanced_silent; [done|]. intros tk. cbn [db]. erewrite market_held_replace by done.
    change (if ty =? coin_base then _ else _) with (with_side ty p (Asset (amount (coin_amount (side ty p)) + amount a)
      (symbol (coin_amount (side ty p)))) (fee_amount (side ty p))) at 1.
    rewrite side_held by done. cbn [deposit amount]. unfold coin_token. fold (side ty p) in *. 
    rewrite Hsym. subst. case_decide; lia.
Qed.

Lemma claimmortgage_ok t m r a ty e s u s' :
  rows_ok (db s) -> well_typed a -> claimmortgage t m r a ty e s = Ok (u, s') ->
  rows_ok (db s') /\ balanced e (fun _ => 0) s s'.
Proof.
  intros Hs [Ha _] H. unfold claimmortgage in H. binv.
  match goal with Hx : tradepairs _ !! _ = Some ?x |- _ => rename Hx into Hp, x into p end.
  pose proof (Hs _ _ Hp) as Hok. pose proof (side_ok ty p Hok) as [Hc1 Hc2 Hc3 Hc4]. unfold side in *.
  match goal with Hx : asset_sub _ _ = Ok _ |- _ => apply asset_sub_ok in Hx as (Hsym & Hr & ->); [|done|done] end.
  match goal with Hx : send_transfer_action _ _ _ _ _ _ = Ok _ |- _ =>
    apply send_transfer_ok in Hx as (act & Hact & ->) end.
  split; cbn [db].
  - apply market_rows_replace; [done|]. by apply (with_side_ok ty).
  - eapply balanced_one; [done|exact Hact|]. intros tk. cbn [db]. erewrite market_held_replace by done.
    change (if ty =? coin_base then _ else _) with (with_side ty p (Asset (amount (coin_amount (side ty p)) - amount a)
      (symbol (coin_amount (side ty p)))) (fee_amount (side ty p))) at 1.
    rewrite side_held by done. cbn [amount]. unfold coin_token, pays. cbn [p_chain p_quantity]. fold (side ty p) in *. 
    rewrite Hsym. case_decide; lia.
Qed.

(** Actions that change only terms of a market. *)
Lemma terms_ok e s k p p' :
  rows_ok (db s) -> tradepairs (db s) !! k = Some p -> pair_ok p' -> (forall t, pair_held t p' = pair_held t p) ->
  let s' := St (State (<[k := p']> (tradepairs (db s))) (transcon (db s))) (notified s) (inline_actions s) in
  rows_ok (db s') /\ balanced e (fun _ => 0) s s'.
Proof.
  intros Hs Hp Hp' Hh s'. split; [by apply market_rows_replace|]. apply balanced_silent; [done|]. intros t. cbn [db s'].
  erewrite market_held_replace by done. rewrite Hh. lia.
Qed.

Ltac terms := binv;
  match goal with Hs : rows_ok _, Hx : tradepairs _ !! _ = Some _ |- _ =>
    let Hok := fresh "Hok" in pose proof (Hs _ _ Hx) as Hok;
    eapply terms_ok; [exact Hs|exact Hx| |intros; unfold pair_held, coin_held, coin_token; done];
    destruct Hok as [[] [] ? ? ? ?]; split; cbn; try done; try tauto; try (split; cbn; try done; width_norm; lia)
  end.

Lemma frozenmarket_ok t m e s u s' :
  rows_ok (db s) -> frozenmarket t m e s = Ok (u, s') -> rows_ok (db s') /\ balanced e (fun _ => 0) s s'.
Proof. intros Hs H. unfold frozenmarket in H. terms. Qed.

Lemma trawmarket_ok t m e s u s' :
  rows_ok (db s) -> trawmarket t m e s = Ok (u, s') -> rows_ok (db s') /\ balanced e (fun _ => 0) s s'.
Proof. intros Hs H. unfold trawmarket in H. terms. Qed.

Lemma checked_fee_ok p b m e s u s' :
  checked_fee p b m e s = Ok (u, s') ->
  s' = s /\ 0 <= amount b <= max_amount /\ 0 <= amount m <= max_amount.
Proof. unfold checked_fee. intros H. binv. unfold in_range in *. split_and!; try done; lia. Qed.

Lemma setfixedfee_ok t m b mk e s u s' :
  rows_ok (db s) -> setfixedfee t m b mk e s = Ok (u, s') -> rows_ok (db s') /\ balanced e (fun _ => 0) s s'.
Proof.
  intros Hs H. unfold setfixedfee in H. binv.
  match goal with Hx : checked_fee _ _ _ _ _ = Ok _ |- _ => apply checked_fee_ok in Hx as (-> & ? & ?) end. terms.
Qed.

Lemma setprofee_ok t m br mr e s u s' :
  rows_ok (db s) -> setprofee t m br mr e s = Ok (u, s') -> rows_ok (db s') /\ balanced e (fun _ => 0) s s'.
Proof. intros Hs H. unfold setprofee, checked_ratios in H. terms. Qed.

Lemma setprominfee_ok t m br mr b mk e s u s' :
  rows_ok (db s) -> setprominfee t m br mr b mk e s = Ok (u, s') -> rows_ok (db s') /\ balanced e (fun _ => 0) s s'.
Proof.
  intros Hs H. unfold setprominfee, checked_ratios in H. binv.
  match goal with Hx : checked_fee _ _ _ _ _ = Ok _ |- _ => apply checked_fee_ok in Hx as (-> & ? & ?) end. terms.
Qed.

Lemma setweight_ok t m bw mw e s u s' :
  rows_ok (db s) -> is_u 64 bw -> is_u 64 mw -> setweight t m bw mw e s = Ok (u, s') ->
  rows_ok (db s') /\ balanced e (fun _ => 0) s s'.
Proof. intros Hs Hbw Hmw H. unfold setweight in H. unfold is_u in *. terms. Qed.

Lemma settranscon_ok c q n e s u s' :
  rows_ok (db s) -> settranscon c q n e s = Ok (u, s') -> rows_ok (db s') /\ balanced e (fun _ => 0) s s'.
Proof.
  intros Hs H. unfold settranscon in H. minv.
  match goal with Hx : (match ?o with Some _ => _ | None => _ end) _ _ = _ |- _ => destruct o as [[]|] end; minv;
    (split; [done|]; apply balanced_silent; [done|]; intros; unfold held; cbn; lia).
Qed.

Lemma claimfee_ok t m r ty e s u s' :
  rows_ok (db s) -> claimfee t m r ty e s = Ok (u, s') -> rows_ok (db s') /\ balanced e (fun _ => 0) s s'.
Proof.
  intros Hs H. unfold claimfee in H. binv.
  match goal with Hx : tradepairs _ !! _ = Some ?x |- _ => rename Hx into Hp, x into p end.
  pose proof (Hs _ _ Hp) as Hok. pose proof (side_ok ty p Hok) as [Hc1 Hc2 Hc3 Hc4]. unfold side in *.
  match goal with Hx : send_transfer_action _ _ _ _ _ _ = Ok _ |- _ =>
    apply send_transfer_ok in Hx as (act & Hact & ->) end.
  match goal with Hx : mk_asset _ _ = Ok _ |- _ => apply mk_asset_ok in Hx as [_ ->] end.
  assert (0 <= max_amount) by (vm_compute; congruence).
  split; cbn [db].
  - apply market_rows_replace; [done|]. by apply (with_side_ok ty).
  - eapply balanced_one; [done|exact Hact|]. intros tk. cbn [db]. erewrite market_held_replace by done.
    change (if ty =? coin_base then _ else _) with (with_side ty p (coin_amount (side ty p))
      (Asset 0 (symbol (fee_amount (side ty p))))) at 1.
    rewrite side_held by done. cbn [amount]. unfold coin_token, pays. cbn [p_chain p_quantity]. fold (side ty p) in *.
    rewrite Hc3. case_decide; lia.
Qed.

(** A payment back, if there is one. *)
Lemma pay_back_ok chain recv a memo e s u s' :
  pay_back chain recv a memo e s = Ok (u, s') ->
  exists ps l, s' = St (db s) (notified s) (inline_actions s ++ l) /\
    Forall2 (fun p a => transfer_of (transcon (db s)) (self e) p = Some a) ps l /\
    forall t, paid ps t = if decide ((chain, symbol a) = t) then Z.max 0 (amount a) else 0.
Proof.
  unfold pay_back. intros H. destruct (0 <? amount a) eqn:E.
  - apply send_transfer_ok in H as (act & Hact & ->). exists [Payment chain recv a memo], [act].
    split_and!; [done|by repeat constructor|]. intros t. cbn. unfold pays. cbn. case_decide; lia.
  - apply mret_ok in H as [= -> ->]. exists [], []. rewrite app_nil_r. destruct s. split_and!; [done|constructor|].
    intros t. cbn. case_decide; lia.
Qed.

Lemma removemarket_ok t m br mr e s u s' :
  rows_ok (db s) -> covered (Removemarket t m br mr) (db s) -> removemarket t m br mr e s = Ok (u, s') ->
  rows_ok (db s') /\ balanced e (fun _ => 0) s s'.
Proof.
  intros Hs Hcov H. unfold removemarket in H. binv.
  match goal with Hx : tradepairs _ !! _ = Some ?x |- _ => rename Hx into Hp, x into p end.
  repeat match goal with Hx : pay_back _ _ _ _ _ _ = Ok _ |- _ =>
    let ps := fresh "ps" in let l := fresh "l" in let Hf := fresh "Hf" in let Hpd := fresh "Hpd" in
    apply pay_back_ok in Hx as (ps & l & -> & Hf & Hpd) end.
  cbn [db notified inline_actions] in *. destruct (Hs _ _ Hp) as [[B1 B2 B3 _] [M1 M2 M3 _] _ _ _ _ _].
  specialize (Hcov _ Hp) as [Hb Hmk]. split.
  - intros k y; cbn. rewrite delete_insert_eq. intros [_ Hy]%lookup_delete_Some. eauto.
  - eexists (_ ++ _ ++ _ ++ _), _. split; [by rewrite <- !app_assoc|]. split; [by repeat apply Forall2_app|].
    intros tk. rewrite !paid_app. repeat match goal with Hx : forall t, paid _ t = _ |- _ => rewrite Hx end.
    unfold held. cbn. rewrite delete_insert_eq, map_sum_delete, (at_key_Some _ _ _ _ Hp).
    unfold pair_held, coin_held, coin_token. rewrite B3, M3. repeat case_decide; simplify_eq; lia.
Qed.

(** The coin that is received. *)
Definition other (type : Z) (p : trade_pair) : coin := if type =? coin_base then tp_market p else tp_base p.

Lemma exchange_fee_range kind r ratio fixed :
  (kind = fee_fixed \/ kind = fee_proportion \/ kind = fee_proportion_mincost) -> 0 <= fixed <= max_amount ->
  0 <= exchange_fee kind r ratio fixed < 2 ^ 63.
Proof.
  intros Hk Hf. unfold exchange_fee. assert (Hu : u64 fixed = fixed) by (apply wrapU_small; arange; lia).
  assert (0 <= u64 (r * ratio) / PROPORTION_CARD < 2 ^ 63).
  { pose proof (wrapU_range 64 (r * ratio) ltac:(lia)). unfold PROPORTION_CARD.
    split; [apply Z.div_pos; lia|]. apply Z.div_lt_upper_bound; width_norm; lia. }
  rewrite Hu. destruct Hk as [->|[->| ->]]; cbn; try case_match; arange; lia.
Qed.

(** What a successful exchange does. *)
Lemma exchange_inv f t m ac ar ch a ty e s u s' :
  rows_ok (db s) -> well_typed a -> ty = coin_base \/ ty = coin_market -> exchange f t m ac ar ch a ty e s = Ok (u, s') ->
  exists p fee recv act,
    let paid := side ty p in let dest := other ty p in
    let got := u64 (amount a * weight dest) / weight paid in
    tradepairs (db s) !! (m, t) = Some p /\ isactive p = true /\ 0 < amount a /\
    ch = coin_chain paid /\ symbol a = symbol (coin_amount paid) /\
    fee = exchange_fee (fee_kind (tp_fee p)) got
            (if ty =? coin_base then market_ratio (tp_fee p) else base_ratio (tp_fee p))
            (amount (if ty =? coin_base then fee_market (tp_fee p) else fee_base (tp_fee p))) /\
    0 <= fee <= max_amount /\ recv = i64 (u64 (got - fee)) /\ u64 (got - fee) < u64 (amount (coin_amount dest)) /\
    in_range recv /\ in_range (amount (coin_amount paid) + amount a) /\
    in_range (amount (coin_amount dest) - recv - fee) /\ amount (fee_amount dest) + fee <= max_amount /\
    transfer_of (transcon (db s)) (self e)
      (Payment (coin_chain dest) ar (Asset recv (symbol (coin_amount dest))) "exchange market transfer coin market") = Some act /\
    let p1 := with_side ty p (Asset (amount (coin_amount paid) + amount a) (symbol (coin_amount paid))) (fee_amount paid) in
    let d := Asset (amount (coin_amount dest) - recv - fee) (symbol (coin_amount dest)) in
    let df := Asset (amount (fee_amount dest) + fee) (symbol (fee_amount dest)) in
    s' = St (State (<[(m, t) := if ty =? coin_base then with_market p1 d df else with_base p1 d df]> (tradepairs (db s)))
               (transcon (db s))) (notified s) (inline_actions s ++ [act]).
Proof.
  intros Hs [Ha _] Hty H. unfold exchange in H. binv.
  match goal with Hx : tradepairs _ !! _ = Some ?x |- _ => rename Hx into Hp, x into p end.
  pose proof (Hs _ _ Hp) as Hok. pose proof (side_ok ty p Hok) as [Hc1 Hc2 Hc3 Hc4].
  assert (Hd : coin_ok (other ty p)) by (destruct Hok; unfold other; by destruct (ty =? coin_base)). destruct Hd as [Hd1 Hd2 Hd3 Hd4].
  rewrite (pk_type _ Hok) in *. minv.
  change (if ty =? coin_base then tp_base p else tp_market p) with (side ty p) in *.
  change (if ty =? coin_base then tp_market p else tp_base p) with (other ty p) in *.
  match goal with Hx : (if equal_ratio =? equal_ratio then _ else _) _ _ = _ |- _ => cbn in Hx; rename Hx into Hgot end.
  rewrite (proj2 (Z.eqb_neq _ _)) in Hgot by lia. injection Hgot as <- <-.
  set (got := u64 (amount a * weight (other ty p)) / weight (side ty p)) in *.
  match goal with Hx : u64 (got - ?x) < _ |- _ => remember x as fee eqn:Efee; assert (Hfee : 0 <= fee < 2 ^ 63) end.
  { rewrite Efee. apply exchange_fee_range; [apply (pk_kind _ Hok)|]. destruct (pk_fees _ Hok). by destruct (ty =? coin_base). }
  repeat match goal with Hx : mk_asset _ _ = Ok _ |- _ => apply mk_asset_ok in Hx as [? ->] end.
  rewrite (wrapS_small 64 fee) in * by (width_norm; lia). set (recv := i64 (u64 (got - fee))) in *.
  match goal with Hx : asset_add (coin_amount _) _ = Ok _ |- _ => apply asset_add_ok in Hx as (_ & ? & ->); [|done|done] end.
  match goal with Hx : asset_sub (coin_amount _) _ = Ok _ |- _ =>
    apply asset_sub_ok in Hx as (_ & ? & ->); [|done|cbn; arange; lia] end.
  match goal with Hx : asset_sub _ _ = Ok _ |- _ => apply asset_sub_ok in Hx as (_ & ? & ->); [|done|cbn; arange; lia] end.
  match goal with Hx : asset_add (fee_amount _) _ = Ok _ |- _ =>
    apply asset_add_ok in Hx as (_ & ? & ->); [|cbn; arange; lia|cbn; arange; lia] end.
  match goal with Hx : send_transfer_action _ _ _ _ _ _ = Ok _ |- _ =>
    apply send_transfer_ok in Hx as (act & Hact & ->) end.
  assert (Hch : coin_chain (if ty =? coin_market then tp_base p else tp_market p) = coin_chain (other ty p)).
  { unfold other. destruct Hty as [->| ->]; done. }
  rewrite Hch in Hact. cbn [amount symbol db notified inline_actions transcon] in *. exists p, fee, recv, act. cbv zeta.
  split_and!; try done; try (arange; lia). unfold with_side. by destruct (ty =? coin_base).
Qed.

Lemma exchange_ok f t m ac ar ch a ty e s u s' :
  rows_ok (db s) -> well_typed a -> ty = coin_base \/ ty = coin_market -> exchange f t m ac ar ch a ty e s = Ok (u, s') ->
  rows_ok (db s') /\ balanced e (deposit (Exchange t m ac ar ch a ty)) s s'.
Proof.
  intros Hs Ha Hty H. apply exchange_inv in H as
    (p & fee & recv & act & Hp & _ & _ & -> & Hsym & _ & Hfee & _ & _ & Hr & Hr1 & Hr2 & Hf2 & Hact & ->); [|done..].
  pose proof (Hs _ _ Hp) as Hok. destruct (side_ok ty p Hok) as [_ S2 S3 _].
  pose proof (pk_base _ Hok) as [_ B2 B3 _]. pose proof (pk_market _ Hok) as [_ M2 M3 _].
  assert (Hp1 : pair_ok (with_side ty p (Asset (amount (coin_amount (side ty p)) + amount a)
    (symbol (coin_amount (side ty p)))) (fee_amount (side ty p)))) by (by apply with_side_ok).
  pose proof (pk_tokens _ Hok) as Hne. split; cbn [db].
  - apply market_rows_replace; [done|]. unfold with_side, side, other in *.
    destruct (ty =? coin_base); [apply with_market_ok|apply with_base_ok]; cbn in *; try done; lia.
  - eapply balanced_one; [done|exact Hact|]. intros tk. cbn [db]. erewrite market_held_replace by done.
    cbn [deposit]. rewrite Hsym. unfold pays. cbn [p_chain p_quantity symbol amount].
    unfold with_side, side, other, pair_held, coin_held, coin_token in *.
    destruct (ty =? coin_base); cbn; repeat case_decide; simplify_eq; try lia.
Qed.

Lemma apply_ok f c e s u s' :
  rows_ok (db s) -> call_typed c -> covered c (db s) -> apply f c e s = Ok (u, s') ->
  rows_ok (db s') /\ balanced e (deposit c) s s'.
Proof.
  intros Hs Hc Hcov H. destruct c; cbn [apply call_typed] in *; destruct_and?.
  - by apply addmarket_ok in H.
  - by apply addmortgage_ok in H.
  - by apply claimmortgage_ok in H.
  - by apply exchange_ok in H.
  - by apply frozenmarket_ok in H.
  - by apply trawmarket_ok in H.
  - by apply setfixedfee_ok in H.
  - by apply setprofee_ok in H.
  - by apply setprominfee_ok in H.
  - by apply setweight_ok in H.
  - by apply settranscon_ok in H.
  - by apply removemarket_ok in H.
  - by apply claimfee_ok in H.
Qed.

(** ** Runs. *)

(** The transfer a payment is made by. *)
Definition pays_as (me : Z) (p : payment) (a : action) : Prop :=
  a = Action config.relay_token_account_name (N_ "transfer") [(me, active)]
        (relay_transfer_args me (p_recv p) (p_chain p) (p_quantity p) (p_memo p)) \/
  a = Action config.token_account_name (N_ "transfer") [(me, active)]
        (transfer_args me (p_recv p) (p_quantity p) (p_memo p)).

Lemma transfer_of_pays rows me p a : transfer_of rows me p = Some a -> pays_as me p a.
Proof.
  unfold transfer_of, pays_as. intros H. apply bind_Some in H as ([i c] & _ & H).
  destruct (_ =? _); [left; by injection H|]. destruct (_ =? _); [right; by injection H|done].
Qed.

Definition nonneg (p : trade_pair) : Prop :=
  0 <= amount (coin_amount (tp_base p)) /\ 0 <= amount (coin_amount (tp_market p)).

(** The exchanges whose market holds what the ratio of the weights gives for them: the code
    compares only what is left of it after the fee. *)
Definition fee_covered (c : call) (s : state) : Prop :=
  match c with
  | Exchange t m _ _ _ a ty => forall p, tradepairs s !! (m, t) = Some p ->
      amount a * weight (other ty p) / weight (side ty p) <= amount (coin_amount (other ty p))
  | _ => True
  end.

(** A sequence of actions from the empty tables: what arrived with them, and what they sent. *)
Inductive bridge_run (f : Z -> trade_pair -> asset -> Z) (me : Z) : state -> (Z * Z -> Z) -> list action -> Prop :=
  | br_init din : (forall t, din t = 0) -> bridge_run f me (State ∅ ∅) din []
  | br_step s din sent c e u s' din' :
      bridge_run f me s din sent -> self e = me -> call_typed c -> apply f c e (St s [] []) = Ok (u, s') ->
      fee_covered c s -> (forall t, din' t = din t + deposit c t) ->
      bridge_run f me (db s') din' (sent ++ inline_actions s').

Lemma bridge_run_ext f me s din din' sent :
  bridge_run f me s din sent -> (forall t, din' t = din t) -> bridge_run f me s din' sent.
Proof.
  intros H He. inversion H; subst; [apply br_init|eapply br_step; [done..|]]; intros t; by rewrite He.
Qed.

Lemma side_nonneg type p : nonneg p -> 0 <= amount (coin_amount (side type p)).
Proof. intros [? ?]. unfold side. by case_match. Qed.

Lemma with_side_nonneg type p a f : nonneg p -> 0 <= amount a -> nonneg (with_side type p a f).
Proof. intros [? ?] Ha. unfold with_side. by case_match. Qed.

Lemma other_ok type p : pair_ok p -> coin_ok (other type p).
Proof. intros Hok. destruct Hok. unfold other. by destruct (type =? coin_base). Qed.

Lemma other_nonneg type p : nonneg p -> 0 <= amount (coin_amount (other type p)).
Proof. intros [? ?]. unfold other. by case_match. Qed.

(** What is received and the fee make up the value of what is exchanged: a fee above it would
    leave a 64-bit amount that no market has. *)
Lemma exchange_amounts x w recv fee d :
  0 < w -> 0 <= x -> 0 <= fee <= max_amount -> 0 <= d <= max_amount ->
  recv = i64 (u64 (u64 x / w - fee)) -> u64 (u64 x / w - fee) < u64 d ->
  0 <= recv < d /\ recv + fee = u64 x / w /\ u64 x / w <= x / w.
Proof.
  intros Hw Hx Hfee Hd Hrecv Hlt. pose proof (wrapU_range 64 x ltac:(lia)) as Hu.
  assert (Hle : u64 x / w <= x / w) by (apply Z.div_le_mono; [lia|]; apply Z.mod_le; lia).
  assert (Hgot : 0 <= u64 x / w <= u64 x).
  { split; [apply Z.div_pos; lia|]. apply Z.div_le_upper_bound; nia. }
  set (got := u64 x / w) in *. clearbody got. rewrite (wrapU_small 64 d) in Hlt by (arange; lia).
  assert (Hge : fee <= got).
  { destruct (Z.le_gt_cases fee got) as [|Hgt]; [done|]. exfalso.
    assert (Hw1 : u64 (got - fee) = got - fee + 2 ^ 64).
    { unfold wrapU. rewrite <- (Z.mod_add _ 1) by lia. rewrite Z.mod_small; arange; lia. }
    rewrite Hw1 in Hlt. arange. lia. }
  rewrite (wrapU_small 64 (got - fee)) in * by (width_norm; lia).
  rewrite (wrapS_small 64) in Hrecv by (arange; lia). lia.
Qed.

(** No market falls below zero. *)
Lemma apply_nonneg f c e s u s' :
  rows_ok (db s) -> call_typed c -> (forall k p, tradepairs (db s) !! k = Some p -> nonneg p) ->
  apply f c e s = Ok (u, s') -> fee_covered c (db s) -> forall k p, tradepairs (db s') !! k = Some p -> nonneg p.
Proof.
  intros Hs Hc Hn H Hf. assert (Hins : forall k p' tc, nonneg p' -> forall k0 p,
    tradepairs (State (<[k := p']> (tradepairs (db s))) tc) !! k0 = Some p -> nonneg p).
  { intros k p' tc Hp' k0 p. cbn. intros [[_ <-]|[_ Hk]]%lookup_insert_Some; eauto. }
  assert (Hrow : forall k p, tradepairs (db s) !! k = Some p -> forall type,
    in_range (amount (coin_amount (side type p))) /\ 0 <= amount (coin_amount (side type p))).
  { intros k p Hp type. split; [apply side_ok|apply side_nonneg]; eauto. }
  destruct c; cbn [apply call_typed fee_covered] in *; destruct_and?.
  4: { apply exchange_inv in H as
         (p & fee & recv & act & Hp & _ & Hpos & _ & _ & _ & Hfee & Hrecv & Hlt & _ & _ & _ & _ & _ & ->); [|done..].
    pose proof (Hs _ _ Hp) as Hok. pose proof (side_ok type p Hok) as [_ _ _ Hw].
    pose proof (other_ok type p Hok) as [Hd1 _ _ Hwd]. pose proof (other_nonneg type p (Hn _ _ Hp)) as Hd0.
    destruct (exchange_amounts (amount convert_amount * weight (other type p)) (weight (side type p)) recv fee
                (amount (coin_amount (other type p)))) as (? & ? & ?); [lia|nia|lia|arange; lia|done|done|].
    specialize (Hf _ Hp). pose proof (side_nonneg type p (Hn _ _ Hp)).
    cbn [db] in *. intros k p0; cbn; intros [[_ <-]|[_ Hk]]%lookup_insert_Some; [|eauto].
    unfold with_side, side, other in *. destruct (type =? coin_base); split; cbn in *; lia. }
  all: unfold frozenmarket, trawmarket, setfixedfee, setprofee, setprominfee, checked_fee, checked_ratios, setweight,
    addmarket, addmortgage, claimmortgage, settranscon, removemarket, claimfee in H; binv;
    try (match goal with Hx : tradepairs _ !! _ = Some _ |- _ => apply Hins; exact (Hn _ _ Hx) end).
  - repeat match goal with Hz : mk_asset _ _ = Ok _ |- _ => apply mk_asset_ok in Hz as [? ->] end.
    apply Hins. split; cbn; lia.
  - match goal with Hx : tradepairs _ !! _ = Some ?p, Ht : asset_add _ _ = Ok _ |- _ =>
      destruct (Hrow _ _ Hx type) as [Hr1 Hr2]; pose proof (Hn _ _ Hx) as Hnp;
      apply asset_add_ok in Ht as (_ & _ & ->); [|exact Hr1|apply Hc]; apply Hins;
      apply (with_side_nonneg type p); [done|]; change (amount _) with (amount (coin_amount (side type p)) + amount recharge_amount) end.
    lia.
  - match goal with Hx : tradepairs _ !! _ = Some ?p, Ht : asset_sub _ _ = Ok _, Hl : asset_le _ _ = Ok _ |- _ =>
      destruct (Hrow _ _ Hx type) as [Hr1 Hr2]; pose proof (Hn _ _ Hx) as Hnp;
      apply asset_sub_ok in Ht as (_ & _ & ->); [|exact Hr1|apply Hc]; apply asset_cmp_ok in Hl as [_ Hl] end.
    match goal with Hx : send_transfer_action _ _ _ _ _ _ = Ok _ |- _ => apply send_transfer_ok in Hx as (act & _ & ->) end.
    apply Hins. apply (with_side_nonneg type); [done|]. unfold side in Hr2. cbn in *. lia.
  - match goal with Hx : (match ?o with Some _ => _ | None => _ end) _ _ = _ |- _ => destruct o as [[]|] end; minv; exact Hn.
  - repeat match goal with Hx : pay_back _ _ _ _ _ _ = Ok _ |- _ => apply pay_back_ok in Hx as (? & ? & -> & _ & _) end.
    intros k p; cbn. rewrite delete_insert_eq. intros [_ Hk]%lookup_delete_Some. eauto.
  - match goal with Hx : send_transfer_action _ _ _ _ _ _ = Ok _ |- _ => apply send_transfer_ok in Hx as (act & _ & ->) end.
    match goal with Hx : tradepairs _ !! _ = Some _ |- _ =>
      apply Hins; apply (with_side_nonneg type); [exact (Hn _ _ Hx)|]; apply (Hrow _ _ Hx type) end.
Qed.

Lemma markets_held_nonneg s t :
  rows_ok s -> (forall k p, tradepairs s !! k = Some p -> nonneg p) -> 0 <= held s t.
Proof.
  intros Hs Hn. apply map_sum_nonneg. intros k p Hp. destruct (Hs _ _ Hp) as [[_ ? _ _] [_ ? _ _] _ _ _ _ _].
  destruct (Hn _ _ Hp) as [? ?]. unfold pair_held, coin_held. repeat case_decide; lia.
Qed.

Lemma bridge_run_inv f me s din sent :
  bridge_run f me s din sent ->
  rows_ok s /\ (forall k p, tradepairs s !! k = Some p -> nonneg p) /\
  exists ps, Forall2 (pays_as me) ps sent /\ forall t, held s t + paid ps t = din t.
Proof.
  induction 1 as [din Hd|s din sent c e u s' din' _ (Hs & Hn & ps & Hps & Hh) He Hc Ha Hf Hd].
  - split_and!; [by intros ? ? ?|by intros ? ? ?|]. exists []. split; [constructor|]. intros t. by rewrite Hd.
  - destruct (apply_ok f c e (St s [] []) u s') as (Hs' & ps' & l & Hl & Hpl & Hb); [done..| |done|].
    { destruct c; cbn; try done. intros p Hp. exact (Hn _ _ Hp). }
    cbn in Hl. rewrite Hl. split_and!; [done|by eapply (apply_nonneg f c e (St s [] []))|].
    exists (ps ++ ps'). split.
    + apply Forall2_app; [done|]. eapply Forall2_impl; [exact Hpl|]. cbn. rewrite He. apply transfer_of_pays.
    + intros t. rewrite paid_app, Hd. specialize (Hb t). cbn in Hb. specialize (Hh t). lia.
Qed.

(** The contract pays out only what it got: whatever the sequence of actions, as long as the
    fees that exchanges take are covered, each transfer it sends is of an amount some market
    held, of every token the transfers and what the markets still hold make up what arrived,
    and so no more is sent than arrived. *)
(** C11: In every run of the bridge contract in which each exchange finds in its market
    what the ratio gives for it, before the fee is taken off, no market falls below
    zero, and of every token what the contract has sent and what its markets hold
    make up what arrived, so it never pays out more than it got. *)
Theorem bridge_solvent f me s din sent :
  bridge_run f me s din sent ->
  (forall k p, tradepairs s !! k = Some p -> nonneg p) /\
  exists ps, Forall2 (pays_as me) ps sent /\
    forall t, held s t + paid ps t = din t /\ 0 <= held s t /\ paid ps t <= din t.
Proof.
  intros (Hs & Hn & ps & Hps & Hh)%bridge_run_inv. split; [done|]. exists ps. split; [done|]. intros t.
  pose proof (markets_held_nonneg s t Hs Hn). specialize (Hh t). lia.
Qed.

(** The fee a market takes of an amount [got]: a fixed one, a share in ten thousandths rounded
    down, or that share but at least a fixed fee. *)
Definition market_fee (f : trade_fee) (ty got : Z) : Z :=
  let fixed := amount (if ty =? coin_base then fee_market f else fee_base f) in
  let share := got * (if ty =? coin_base then market_ratio f else base_ratio f) / PROPORTION_CARD in
  if fee_kind f =? fee_fixed then fixed
  else if fee_kind f =? fee_proportion then share else Z.max fixed share.

Lemma exchange_fee_spec p ty got :
  pair_ok p -> 0 <= got -> got * PROPORTION_CARD < 2 ^ 64 ->
  exchange_fee (fee_kind (tp_fee p)) got
    (if ty =? coin_base then market_ratio (tp_fee p) else base_ratio (tp_fee p))
    (amount (if ty =? coin_base then fee_market (tp_fee p) else fee_base (tp_fee p))) = market_fee (tp_fee p) ty got.
Proof.
  intros [_ _ _ _ [Hf1 Hf2] Hk [Hr1 Hr2]] Hg Hfit. unfold exchange_fee, market_fee.
  set (ratio := if ty =? coin_base then market_ratio (tp_fee p) else base_ratio (tp_fee p)).
  set (fixed := amount (if ty =? coin_base then fee_market (tp_fee p) else fee_base (tp_fee p))).
  assert (Hr : 0 <= ratio < PROPORTION_CARD) by (unfold ratio; by destruct (ty =? coin_base)).
  assert (Hf : 0 <= fixed <= max_amount) by (unfold fixed; by destruct (ty =? coin_base)).
  rewrite (wrapU_small 64 (got * ratio)) by (split; nia). rewrite (wrapU_small 64 fixed) by (arange; lia).
  destruct Hk as [->|[->| ->]]; cbn; [done|done|]. destruct (Z.ltb_spec fixed (got * ratio / PROPORTION_CARD)); lia.
Qed.

(** C13: An exchange of an active market pays what the ratio of the weights gives,
    rounded down, less the fee of the market, takes from the market exactly what is
    paid and the fee, and adds what is exchanged to the other coin; provided that
    the coins of the markets are not negative and the amount times the weight times
    10000 fits 64 bits. *)
Theorem exchange_rate f t m ac ar ch a ty e s u s'
  (Hs : rows_ok (db s)) (Hn : forall k p, tradepairs (db s) !! k = Some p -> nonneg p)
  (Hty : call_typed (Exchange t m ac ar ch a ty))
  (Hfit : forall p, tradepairs (db s) !! (m, t) = Some p ->
     amount a * weight (other ty p) * PROPORTION_CARD < 2 ^ 64)
  (H : exchange f t m ac ar ch a ty e s = Ok (u, s')) :
  exists p p' act,
    let got := amount a * weight (other ty p) / weight (side ty p) in
    let fee := market_fee (tp_fee p) ty got in
    tradepairs (db s) !! (m, t) = Some p /\ tradepairs (db s') !! (m, t) = Some p' /\ isactive p = true /\
    0 <= fee <= got /\ got - fee < amount (coin_amount (other ty p)) /\
    amount (coin_amount (side ty p')) = amount (coin_amount (side ty p)) + amount a /\
    amount (coin_amount (other ty p')) = amount (coin_amount (other ty p)) - got /\
    amount (fee_amount (other ty p')) = amount (fee_amount (other ty p)) + fee /\
    inline_actions s' = inline_actions s ++ [act] /\
    pays_as (self e) (Payment (coin_chain (other ty p)) ar (Asset (got - fee) (symbol (coin_amount (other ty p))))
                        "exchange market transfer coin market") act.
Proof.
  destruct Hty as [Ha Hty]. apply exchange_inv in H as
    (p & fee & recv & act & Hp & Hact & Hpos & _ & _ & Efee & Hfee & Hrecv & Hlt & _ & _ & _ & _ & Htr & ->); [|done..].
  pose proof (Hs _ _ Hp) as Hok. pose proof (side_ok ty p Hok) as [_ _ _ Hw].
  pose proof (other_ok ty p Hok) as [Hd1 _ _ Hwd]. pose proof (other_nonneg ty p (Hn _ _ Hp)) as Hd0.
  specialize (Hfit _ Hp). set (x := amount a * weight (other ty p)) in *.
  assert (Hx : 0 <= x) by (unfold x; nia).
  destruct (exchange_amounts x (weight (side ty p)) recv fee (amount (coin_amount (other ty p))))
    as (Hr & Hsum & _); [lia|done|lia|arange; lia|done|done|].
  rewrite (wrapU_small 64 x) in * by (unfold PROPORTION_CARD in *; width_norm; lia).
  assert (Hgx : 0 <= x / weight (side ty p) <= x).
  { split; [apply Z.div_pos; lia|]. apply Z.div_le_upper_bound; nia. }
  rewrite exchange_fee_spec in Efee; [|done|lia|unfold PROPORTION_CARD in *; lia].
  exists p. eexists. exists act. cbv zeta. fold x. rewrite <- Efee.
  set (got := x / weight (side ty p)) in *. clearbody got. replace (got - fee) with recv by lia.
  split_and!; [done|cbn; apply lookup_insert_eq|done|lia|lia|lia|..|done|by eapply transfer_of_pays];
    unfold side, other, with_side; destruct (ty =? coin_base); cbn; try done; lia.
Qed.

(** ** Concrete markets. *)
#[export] Instance call_typed_dec c : Decision (call_typed c).
Proof. destruct c; cbn; unfold well_typed, is_u, is_s; apply _. Defined.

(** A sequence of actions and the transfers they ask for. *)
Fixpoint run (f : Z -> trade_pair -> asset -> Z) (s : state) (sent : list action) (l : list (call * env))
  : result (state * list action) :=
  match l with
  | [] => Ok (s, sent)
  | (c, e) :: l => match apply f c e (St s [] []) with
                   | Ok (_, s') => run f (db s') (sent ++ inline_actions s') l
                   | Err m => Err m
                   end
  end.

#[export] Instance nonneg_dec p : Decision (nonneg p).
Proof. unfold nonneg. apply _. Defined.

(** Every action is typed, runs for the contract [me] and takes a fee the market covers. *)
Fixpoint run_covered (f : Z -> trade_pair -> asset -> Z) (me : Z) (s : state) (l : list (call * env)) : bool :=
  match l with
  | [] => true
  | (c, e) :: l =>
      bool_decide (call_typed c) && (self e =? me) &&
      match apply f c e (St s [] []) with
      | Ok (_, s') =>
          match c with
          | Exchange t m _ _ _ a ty =>
              match tradepairs s !! (m, t) with
              | Some p => amount a * weight (other ty p) / weight (side ty p) <=? amount (coin_amount (other ty p))
              | None => true
              end
          | _ => true
          end && run_covered f me (db s') l
      | Err _ => true
      end
  end.

Lemma run_bridge f me l : forall s din sent s' sent',
  bridge_run f me s din sent -> run_covered f me s l = true -> run f s sent l = Ok (s', sent') ->
  bridge_run f me s' (fun t => din t + foldr (fun x n => deposit x.1 t + n) 0 l) sent'.
Proof.
  induction l as [|[c e] l IH]; intros s din sent s' sent' Hr Hc H; cbn in *.
  - injection H as <- <-. by eapply bridge_run_ext; [exact Hr|intros t; lia].
  - apply andb_true_iff in Hc as [Hc1 Hc]. apply andb_true_iff in Hc1 as [Hc1 He].
    apply bool_decide_eq_true in Hc1. apply Z.eqb_eq in He.
    destruct (apply f c e (St s [] [])) as [[u s1]|] eqn:Ea; [|done].
    apply andb_true_iff in Hc as [Hcov Hc].
    assert (Hf : fee_covered c s).
    { destruct c; cbn; try done. intros p Hp. rewrite Hp in Hcov. lia. }
    eapply bridge_run_ext; [eapply IH; [eapply (br_step _ _ _ _ _ _ _ _ _ (fun t => din t + deposit c t)); done|done|done]|].
    intros t. cbn. lia.
Qed.

Definition br_alice : Z := N_ "alice".
Definition br_mallory : Z := N_ "mallory".
Definition br_carol : Z := N_ "carol".
Definition far_chain : Z := N_ "far".
Definition br_env (auth : Z) : env :=
  Env config.bridge_account_name [(auth, active)] {[ br_alice; br_mallory; br_carol ]} 10 0.
Definition core_coins (n : Z) : asset := Asset n CORE_SYMBOL.
Definition junk (n : Z) : asset := Asset n (Sym.string_to_symbol 0 (String.list_ascii_of_string "JUNK")).
Definition no_bancor (_ : Z) (_ : trade_pair) (_ : asset) : Z := 0.

(** Alice mortgages 1000000 of the core token in a market of theirs. *)
Definition br_open (maker base_mortgage : Z) : list (call * env) :=
  [ (Addmarket 1 maker equal_ratio 0 (core_coins 0) 1 far_chain (junk 0) 1, br_env maker);
    (Addmortgage 1 maker maker 0 (core_coins base_mortgage) coin_base, br_env config.bridge_account_name) ].

Definition br_setup : list (call * env) :=
  [ (Settranscon 0 (core_coins 0) config.token_account_name, br_env config.bridge_account_name);
    (Settranscon far_chain (junk 0) config.relay_token_account_name, br_env config.bridge_account_name) ] ++
  br_open br_alice 1000000.

(** Carol exchanges 5000 with Alice, who takes 1 percent. *)
Definition br_honest : list (call * env) :=
  br_setup ++
  [ (Frozenmarket 1 br_alice, br_env br_alice);
    (Setprofee 1 br_alice 100 100, br_env br_alice);
    (Trawmarket 1 br_alice, br_env br_alice) ].
Definition br_trade : call := Exchange 1 br_alice br_carol br_carol far_chain (junk 5000) coin_market.

Definition br_state : state :=
  match run no_bancor (State ∅ ∅) [] br_honest with Ok (s, _) => s | Err _ => State ∅ ∅ end.

(** Mallory opens a market on the same token with a mortgage of 101, takes 99.99 percent of an
    exchange of a coin of their own, and claims the fee. *)
Definition br_theft : list (call * env) :=
  br_setup ++ br_open br_mallory 101 ++
  [ (Frozenmarket 1 br_mallory, br_env br_mallory);
    (Setprofee 1 br_mallory 9999 0, br_env br_mallory);
    (Trawmarket 1 br_mallory, br_env br_mallory);
    (Exchange 1 br_mallory br_mallory br_mallory far_chain (junk 1000000) coin_market, br_env config.bridge_account_name);
    (Claimfee 1 br_mallory br_mallory coin_base, br_env br_mallory) ].

Definition br_core : Z * Z := (0, CORE_SYMBOL).

Lemma bridge_solvent_witness :
  exists s sent, run no_bancor (State ∅ ∅) [] (br_honest ++ [(br_trade, br_env config.bridge_account_name)]) = Ok (s, sent) /\
    held s br_core = 995050 /\
    exists ps, Forall2 (pays_as config.bridge_account_name) ps sent /\ paid ps br_core <= 1000000.
Proof.
  destruct (run no_bancor (State ∅ ∅) [] (br_honest ++ [(br_trade, br_env config.bridge_account_name)])) as [[s sent]|] eqn:E;
    [|by vm_compute in E].
  exists s, sent. split; [done|]. split; [vm_compute in E; injection E as <- <-; vm_compute; reflexivity|].
  destruct (bridge_solvent no_bancor config.bridge_account_name s
    (fun t => 0 + foldr (fun x n => deposit x.1 t + n) 0 (br_honest ++ [(br_trade, br_env config.bridge_account_name)])) sent)
    as (_ & ps & Hps & Hp).
  - apply (run_bridge _ _ _ (State ∅ ∅) (fun _ => 0) []); [by apply br_init|vm_compute; reflexivity|done].
  - exists ps. split; [done|]. destruct (Hp br_core) as (_ & _ & Hle). exact Hle.
Defined.

(** The fee is not checked against what the market holds: with a mortgage of 101 Mallory is sent
    1000000 of the core token out of Alice's mortgage, of which 101 are left for the 1000000
    that Alice's market still records. *)
(** C12: An exchange checks only what the recipient gets, not the fee, against the coins
    of the market: a maker with a mortgage of 101 is sent 1000000 out of the
    mortgage of another market. *)
Theorem bridge_fee_uncovered :
  exists s, run no_bancor (State ∅ ∅) [] br_theft =
    Ok (s, map (fun '(n, memo) => Action config.token_account_name (N_ "transfer") [(config.bridge_account_name, active)]
                  (transfer_args config.bridge_account_name br_mallory (core_coins n) memo))
               [(100, "exchange market transfer coin market"); (999900, "claim fee transfer coin market")]%string) /\
    (amount ∘ coin_amount ∘ tp_base <$> tradepairs s !! (br_alice, 1)) = Some 1000000 /\
    (amount ∘ coin_amount ∘ tp_base <$> tradepairs s !! (br_mallory, 1)) = Some (-999899) /\
    held s br_core = 101.
Proof. eexists. split; [vm_compute; reflexivity|]. split_and!; vm_compute; reflexivity. Qed.

Lemma exchange_rate_witness :
  let e := br_env config.bridge_account_name in
  exists s', exchange no_bancor 1 br_alice br_carol br_carol far_chain (junk 5000) coin_market e (St br_state [] []) = Ok (tt, s') /\
  exists act, inline_actions s' = [act] /\
    pays_as config.bridge_account_name (Payment 0 br_carol (core_coins 4950) "exchange market transfer coin market") act.
Proof.
  intros e. destruct (exchange no_bancor 1 br_alice br_carol br_carol far_chain (junk 5000) coin_market e (St br_state [] []))
    as [[[] s']|] eqn:E; [|by vm_compute in E]. exists s'. split; [done|].
  assert (Hr : bridge_run no_bancor config.bridge_account_name br_state
    (fun t => 0 + foldr (fun x n => deposit x.1 t + n) 0 br_honest) []).
  { apply (run_bridge _ _ _ (State ∅ ∅) (fun _ => 0) []); [by apply br_init|vm_compute; reflexivity|vm_compute; reflexivity]. }
  apply bridge_run_inv in Hr as (Hs & Hn & _).
  destruct (exchange_rate no_bancor 1 br_alice br_carol br_carol far_chain (junk 5000) coin_market e (St br_state [] []) tt s')
    as (p & p' & act & Hp & _ & _ & _ & _ & _ & _ & _ & Hi & Hpay); [done|done| | |done|].
  { apply (bool_decide_unpack _). vm_compute. reflexivity. }
  { intros p Hp. vm_compute in Hp. injection Hp as <-. vm_compute. reflexivity. }
  exists act. split; [done|]. vm_compute in Hp. injection Hp as <-. exact Hpay.
Defined.
End Bridge.
