(* ===== verification/Datastream.v ===== *)
(** * Serialization in the contract library: [eosiolib/datastream.hpp], [varint.hpp].

    Arguments of actions, rows of tables and transactions are packed to bytes and unpacked
    from them.  An [operator<<] is the sequence of the [write]s it makes on a stream, which
    is either a buffer or a stream that only counts; an [operator>>] reads from what is left
    of a buffer.  A codec pairs the two for a type; the class [CodecOk] states what they
    promise each other, with an instance for each of the library's combinators, so that the
    codec of a structure keeps the promise by type class search. *)
From stdpp Require Import base list.
From Stdlib Require Import ZArith Lia Sorted.
From stdpp Require Import strings.
From S2P Require Import Prelude Asset.

Open Scope Z_scope.

(** Bytes, each an unsigned 8-bit integer. *)
Abbreviation bytes := (list Z) (only parsing).
Definition is_byte (b : Z) : Prop := is_u 8 b.

Definition len {A} (l : list A) : Z := Z.of_nat (length l).

(** ** Streams. *)

(** [datastream<const char*>] is what is left of its buffer. *)
Definition read (s : Z) (l : bytes) : result (bytes * bytes) :=
  if s <=? len l then Ok (take (Z.to_nat s) l, drop (Z.to_nat s) l) else Err "read".

Definition get_char (l : bytes) : result (Z * bytes) :=
  match l with [] => Err "get" | b :: l => Ok (b, l) end.

(** The streams that are written to. *)
Class Stream (S : Type) := write : bytes -> S -> result S.

(** [datastream<size_t>]; [size_t] has 32 bits. *)
Record size_stream := SizeStream { tellp : Z }.
#[export] Instance size_write : Stream size_stream :=
  fun d s => Ok (SizeStream (u32 (tellp s + len d))).

(** [datastream<char*>]: what is written, and the bytes left.  A chunk of 2^31 bytes or more
    passes the check, which casts its size to [int32_t]. *)
Record buffer := Buffer { written : bytes; remaining : Z }.
#[export] Instance buffer_write : Stream buffer :=
  fun d s =>
    (check* i32 (len d) <=? remaining s with "write" in
     check* len d <=? remaining s with "access out of bounds" in
     Ok (Buffer (written s ++ d) (remaining s - len d)))%res.

(** ** Codecs. *)
Record codec (A : Type) := Codec {
  put : A -> list bytes;                      (* the writes of [operator<<] *)
  get : bytes -> result (A * bytes);          (* [operator>>] *)
}.
Arguments Codec {A} put get.
Arguments put {A} c a.
Arguments get {A} c l.

Definition out {S A} `{Stream S} (c : codec A) (a : A) (s : S) : result S := rfold (fun s d => write d s) s (put c a).

Definition pack_size {A} (c : codec A) (a : A) : result Z :=
  (let* ps := out c a (SizeStream 0) in Ok (tellp ps))%res.

Definition pack {A} (c : codec A) (a : A) : result bytes :=
  (let* size := pack_size c a in
   let* ds := out c a (Buffer [] size) in
   Ok (written ds ++ repeat 0 (Z.to_nat (remaining ds))))%res.

Definition unpack {A} (c : codec A) (l : bytes) : result A := (let* r := get c l in Ok (fst r))%res.

(** *** Primitive types: the bytes in memory, the lowest first. *)
Fixpoint memory_of (n : nat) (v : Z) : bytes :=
  match n with
  | O => []
  | S n => u8 v :: memory_of n (Z.shiftr v 8)
  end.

Definition uint (n : nat) : codec Z :=
  Codec (fun v => [memory_of n v])
        (fun l => let* r := read (Z.of_nat n) l in Ok (bytes_val (fst r), snd r))%res.

Definition int (n : nat) : codec Z :=
  Codec (fun v => [memory_of n v])
        (fun l => let* r := read (Z.of_nat n) l in Ok (wrapS (8 * Z.of_nat n) (bytes_val (fst r)), snd r))%res.

Definition boolean : codec bool :=
  Codec (fun d : bool => put (uint 1) (if d then 1 else 0))
        (fun l => let* r := get (uint 1) l in Ok (negb (fst r =? 0), snd r))%res.

(** Checksums and keys. *)
Definition raw (n : nat) : codec bytes := Codec (fun d => [d]) (read (Z.of_nat n)).

(** *** [unsigned_int] and [signed_int]. *)

(** The loop of both [operator<<]; [fuel] bounds the number of groups of seven bits. *)
Fixpoint put_groups (fuel : nat) (val : Z) : list bytes :=
  match fuel with
  | O => []
  | S fuel =>
      let b := Z.land (u8 val) 0x7f in
      let val := Z.shiftr val 7 in
      let b := Z.lor b (Z.shiftl (if 0 <? val then 1 else 0) 7) in
      [b] :: (if val =? 0 then [] else put_groups fuel val)
  end.

(** The loop of both [operator>>]: [by] counts the bits read, in [uint8_t] or in [int].  Shifts
    of 32 and more, after five bytes, are taken modulo 32, as WebAssembly does. *)
Fixpoint get_groups (width : Z) (v by_ : Z) (l : bytes) : result (Z * bytes) :=
  match l with
  | [] => Err "get"
  | b :: l =>
      let v := Z.lor v (u32 (Z.shiftl (Z.land b 0x7f) (by_ mod 32))) in
      let by_ := wrapU width (by_ + 7) in
      if Z.land b 0x80 =? 0 then Ok (v, l) else get_groups width v by_ l
  end.

Definition unsigned_int : codec Z :=
  Codec (put_groups 10) (fun l => let* r := get_groups 8 0 0 l in Ok (u32 (fst r), snd r))%res.

Definition zigzag (v : Z) : Z := u32 (Z.lxor (i32 (Z.shiftl v 1)) (Z.shiftr v 31)).

Definition unzigzag (v : Z) : Z :=
  let value := i32 (u32 (Z.lxor (Z.shiftr v 1) (Z.shiftr v 31) + Z.land v 1)) in
  let value := if Z.land v 1 =? 0 then i32 (- value) else value in
  i32 (- value).

Definition signed_int : codec Z :=
  Codec (fun v => put_groups 10 (zigzag v)) (fun l => let* r := get_groups 31 0 0 l in Ok (unzigzag (fst r), snd r))%res.

(** *** Sequences. *)

(** [vector<char>]; the string's [operator<<] writes nothing where there is nothing. *)
Definition char_vector : codec bytes :=
  Codec (fun v => put unsigned_int (u32 (len v)) ++ [v])
        (fun l => let* s := get unsigned_int l in read (fst s) (snd s))%res.

Definition string_ : codec bytes :=
  Codec (fun v => put unsigned_int (u32 (len v)) ++ (if len v =? 0 then [] else [v])) (get char_vector).

(** [n] elements one after the other. *)
Fixpoint get_n {A} (c : codec A) (n : nat) (l : bytes) : result (list A * bytes) :=
  match n with
  | O => Ok ([], l)
  | S n => (let* a := get c l in let* r := get_n c n (snd a) in Ok (fst a :: fst r, snd r))%res
  end.

(** [std::array<T,N>], and [T[N]], which has its size in front. *)
Definition array {A} (c : codec A) (n : nat) : codec (list A) := Codec (mjoin ∘ fmap (put c)) (get_n c n).

Definition c_array {A} (c : codec A) (n : nat) : codec (list A) :=
  Codec (fun v => put unsigned_int (u32 (Z.of_nat n)) ++ mjoin (put c <$> v))
        (fun l => let* s := get unsigned_int l in
                  check* Z.of_nat n =? fst s with "T[] size and unpacked size don't match" in
                  get_n c n (snd s))%res.

(** [T[N]] of a primitive type of [size] bytes. *)
Fixpoint values_of (size n : nat) (l : bytes) : list Z :=
  match n with
  | O => []
  | S n => bytes_val (take size l) :: values_of size n (drop size l)
  end.

Definition primitive_array (size n : nat) : codec (list Z) :=
  Codec (fun v => put unsigned_int (u32 (Z.of_nat n)) ++ [mjoin (memory_of size <$> v)])
        (fun l => let* s := get unsigned_int l in
                  check* Z.of_nat n =? fst s with "T[] size and unpacked size don't match" in
                  let* r := read (Z.of_nat (n * size)) (snd s) in
                  Ok (values_of size n (fst r), snd r))%res.

(** [vector<T>] of other types. *)
Definition vector {A} (c : codec A) : codec (list A) :=
  Codec (fun v => put unsigned_int (u32 (len v)) ++ mjoin (put c <$> v))
        (fun l => let* s := get unsigned_int l in get_n c (Z.to_nat (fst s)) (snd s))%res.

(** [std::set], [flat_set], [std::map] and [flat_map], as their elements in ascending order:
    [emplace] keeps an element with the same key. *)
Fixpoint emplace_sorted {A} (lt : A -> A -> bool) (x : A) (l : list A) : list A :=
  match l with
  | [] => [x]
  | y :: l => if lt y x then y :: emplace_sorted lt x l else if lt x y then x :: y :: l else y :: l
  end.

Definition ordered {A} (lt : A -> A -> bool) (c : codec A) : codec (list A) :=
  Codec (put (vector c))
        (fun l => let* r := get (vector c) l in
                  Ok (foldl (fun s x => emplace_sorted lt x s) [] (fst r), snd r))%res.

(** *** Tuples and structures: their members in order. *)
Definition pair_codec {A B} (c : codec A) (d : codec B) : codec (A * B) :=
  Codec (fun p => put c (fst p) ++ put d (snd p))
        (fun l => let* a := get c l in let* b := get d (snd a) in Ok ((fst a, fst b), snd b))%res.
Declare Scope codec_scope.
Infix "**" := pair_codec (at level 40, left associativity) : codec_scope.
Delimit Scope codec_scope with codec.

(** A structure with the members of a tuple. *)
Definition struct {A B} (of_tuple : A -> B) (to_tuple : B -> A) (c : codec A) : codec B :=
  Codec (fun b => put c (to_tuple b)) (fun l => let* r := get c l in Ok (of_tuple (fst r), snd r))%res.

(** ** Structures of the contract library: [action.hpp], [transaction.hpp], [asset.hpp]. *)
Definition permission_level_codec : codec (Z * Z) := pair_codec (uint 8) (uint 8).

Record raw_action := RawAction {
  a_account : Z;
  a_name : Z;
  a_authorization : list (Z * Z);
  a_data : bytes;
}.

Definition action_codec : codec raw_action :=
  struct (fun '(a, n, au, d) => RawAction a n au d) (fun a => (a_account a, a_name a, a_authorization a, a_data a))
    (uint 8 ** uint 8 ** vector permission_level_codec ** char_vector)%codec.

Record transaction_header := TransactionHeader {
  expiration : Z;
  ref_block_num : Z;
  ref_block_prefix : Z;
  net_usage_words : Z;
  max_cpu_usage_ms : Z;
  delay_sec : Z;
}.

Definition header_codec : codec transaction_header :=
  struct (fun '(e, n, p, w, c, d) => TransactionHeader e n p w c d)
    (fun h => (expiration h, ref_block_num h, ref_block_prefix h, net_usage_words h, max_cpu_usage_ms h, delay_sec h))
    (uint 4 ** uint 2 ** uint 4 ** unsigned_int ** uint 1 ** unsigned_int)%codec.

Record transaction := Transaction {
  header : transaction_header;
  context_free_actions : list raw_action;
  actions : list raw_action;
  transaction_extensions : list (Z * bytes);
}.

Definition transaction_codec : codec transaction :=
  struct (fun '(h, c, a, x) => Transaction h c a x)
    (fun t => (header t, context_free_actions t, actions t, transaction_extensions t))
    (header_codec ** vector action_codec ** vector action_codec ** vector (uint 2 ** char_vector))%codec.

Definition asset_codec : codec asset :=
  struct (fun '(a, s) => Asset a s) (fun a => (amount a, symbol a)) (int 8 ** uint 8)%codec.

(** [onerror]. *)
Definition onerror_codec : codec (Z * bytes) := pair_codec (uint 16) char_vector.

(** ** What a codec promises.

    For the values that satisfy [P]: what is put is got back, whatever follows it; what is got
    is such a value, and depends only on the bytes it was got from. *)
Definition put_bytes {A} (c : codec A) (a : A) : bytes := mjoin (put c a).

Class CodecOk {A} (c : codec A) (P : A -> Prop) : Prop := {
  ok_roundtrip a r : P a -> get c (put_bytes c a ++ r) = Ok (a, r);
  ok_bytes a : P a -> Forall is_byte (put_bytes c a);
  ok_typed l a r : Forall is_byte l -> get c l = Ok (a, r) -> P a;
  ok_local l a r : get c l = Ok (a, r) -> exists u, l = u ++ r /\ forall r', get c (u ++ r') = Ok (a, r');
}.

(** *** Reading. *)
Lemma read_app d r : read (len d) (d ++ r) = Ok (d, r).
Proof.
  unfold read, len. rewrite length_app, (proj2 (Z.leb_le _ _)) by lia.
  rewrite Nat2Z.id, take_app_length, drop_app_length. done.
Qed.

Lemma read_ok s l d r : read s l = Ok (d, r) -> l = d ++ r /\ Z.of_nat (length d) = Z.max 0 s.
Proof.
  unfold read, len. destruct (Z.leb_spec s (Z.of_nat (length l))); [|done]. intros [= <- <-]. split; [by rewrite take_drop|].
  rewrite length_take. lia.
Qed.

Lemma read_local s l d r : read s l = Ok (d, r) -> l = d ++ r /\ forall r', read s (d ++ r') = Ok (d, r').
Proof.
  intros H. pose proof H as [-> Hl]%read_ok. split; [done|]. intros r'.
  destruct (Z.le_gt_cases 0 s) as [Hs|Hs].
  - replace s with (len d) by (unfold len; lia). apply read_app.
  - destruct d; [|cbn in Hl; lia]. unfold read, len in *. cbn. rewrite (proj2 (Z.leb_le _ _)) by lia.
    by replace (Z.to_nat s) with 0%nat by lia.
Qed.

(** *** Primitive types. *)
Lemma memory_of_length n v : length (memory_of n v) = n.
Proof. revert v. induction n as [|n IH]; intros v; [done|]. cbn. by rewrite IH. Qed.

Lemma memory_of_bytes n v : Forall is_byte (memory_of n v).
Proof. revert v. induction n as [|n IH]; intros v; constructor; [apply wrapU_range; lia|apply IH]. Qed.

Lemma memory_of_value n v : bytes_val (memory_of n v) = wrapU (8 * Z.of_nat n) v.
Proof.
  revert v. induction n as [|n IH]; intros v.
  - cbn. unfold wrapU. change (2 ^ _) with 1. by rewrite Z.mod_1_r.
  - cbn [memory_of bytes_val foldr]. fold (bytes_val (memory_of n (Z.shiftr v 8))). rewrite IH, shiftr_8. unfold wrapU.
    replace (8 * Z.of_nat (S n)) with (8 + 8 * Z.of_nat n) by lia. rewrite Z.pow_add_r by lia. change (2 ^ 8) with 256.
    rewrite Z.rem_mul_r by lia. done.
Qed.

#[export] Instance uint_ok n : CodecOk (uint n) (is_u (8 * Z.of_nat n)).
Proof.
  split.
  - intros a r Ha. unfold put_bytes. cbn. rewrite app_nil_r.
    pose proof (read_app (memory_of n a) r) as Hr. unfold len in Hr. rewrite memory_of_length in Hr. rewrite Hr. cbn.
    by rewrite memory_of_value, wrapU_small.
  - intros a _. unfold put_bytes. cbn. rewrite app_nil_r. apply memory_of_bytes.
  - intros l a r Hl H. apply rbind_ok in H as ([d r'] & Hd & [= <- <-]). apply read_ok in Hd as [-> Hd].
    apply Forall_app in Hl as [Hd' _]. replace (Z.of_nat n) with (Z.of_nat (length d)) by lia. by apply bytes_val_range.
  - intros l a r H. apply rbind_ok in H as ([d r'] & Hd & [= <- <-]). apply read_local in Hd as [-> Hr]. exists d. split; [done|].
    intros r''. cbn. by rewrite Hr.
Qed.

Lemma wrapS_of_wrapU w z : wrapS w (wrapU w z) = wrapS w z.
Proof. unfold wrapS, wrapU. by rewrite Zplus_mod_idemp_l. Qed.

#[export] Instance int_ok n : CodecOk (int (S n)) (is_s (8 * Z.of_nat (S n))).
Proof.
  split.
  - intros a r Ha. unfold put_bytes. cbn [put int mjoin list_join]. rewrite app_nil_r.
    pose proof (read_app (memory_of (S n) a) r) as Hr. unfold len in Hr. rewrite memory_of_length in Hr.
    cbn [get int]. rewrite Hr. cbn [rbind fst snd]. rewrite memory_of_value, wrapS_of_wrapU, wrapS_small; [done|lia|done].
  - intros a _. unfold put_bytes. cbn [put int mjoin list_join]. rewrite app_nil_r. apply memory_of_bytes.
  - intros l a r Hl H. apply rbind_ok in H as ([d r'] & Hd & [= <- <-]). apply wrapS_range. lia.
  - intros l a r H. apply rbind_ok in H as ([d r'] & Hd & [= <- <-]). apply read_local in Hd as [-> Hr]. exists d. split; [done|].
    intros r''. cbn [get int]. by rewrite Hr.
Qed.

#[export] Instance boolean_ok : CodecOk boolean (fun _ => True).
Proof.
  split.
  - intros a r _. cbn [get boolean]. change (put_bytes boolean a) with (put_bytes (uint 1) (if a then 1 else 0)).
    rewrite ok_roundtrip by (destruct a; cbn; unfold is_u; lia). by destruct a.
  - intros a _. apply (ok_bytes (c := uint 1) (P := is_u 8)). destruct a; unfold is_u; lia.
  - done.
  - intros l a r H. apply rbind_ok in H as ([d r'] & Hd & [= <- <-]). apply (ok_local (P := is_u 8)) in Hd as (u & -> & Hr).
    exists u. split; [done|]. intros r''. cbn [get boolean]. by rewrite Hr.
Qed.

#[export] Instance raw_ok n : CodecOk (raw n) (fun d => Forall is_byte d /\ length d = n).
Proof.
  split.
  - intros a r [_ <-]. unfold put_bytes. cbn. rewrite app_nil_r. apply read_app.
  - intros a [Ha _]. unfold put_bytes. cbn. by rewrite app_nil_r.
  - intros l a r Hl H. cbn in H. apply read_ok in H as [-> Hd]. apply Forall_app in Hl as [? _]. split; [done|lia].
  - intros l a r H. cbn in H. apply read_local in H as [-> Hr]. by exists a.
Qed.

(** *** Variable-length integers. *)
Lemma land_127 z : Z.land z 0x7f = z mod 128.
Proof. change 0x7f with (Z.ones 7). by rewrite Z.land_ones by lia. Qed.

Lemma land_128 z : 0 <= z < 256 -> (Z.land z 0x80 =? 0) = (z <? 128).
Proof.
  intros Hz. assert (H : forallb (fun z => Bool.eqb (Z.land z 0x80 =? 0) (z <? 128)) (seqZ 0 256) = true) by done.
  rewrite forallb_forall in H. apply Bool.eqb_prop, H, list_elem_of_In, elem_of_seqZ. lia.
Qed.

(** The byte of a group, and the value that is left. *)
Lemma put_groups_step fuel val : 0 <= val ->
  put_groups (S fuel) val =
  [val mod 128 + (if 0 <? val / 128 then 128 else 0)] :: (if val / 128 =? 0 then [] else put_groups fuel (val / 128)).
Proof.
  intros Hv. cbn [put_groups]. rewrite land_127, Z.shiftr_div_pow2 by lia. change (2 ^ 7) with 128.
  rewrite lor_shiftl_add; [|lia|change (2 ^ 7) with 128; apply Z.mod_pos_bound; lia].
  unfold wrapU. change (2 ^ 8) with (128 * 2). rewrite Z.rem_mul_r by lia. rewrite (Z.mul_comm 128), Z.mod_add by lia.
  rewrite Z.mod_mod by lia. by destruct (0 <? _).
Qed.

Lemma put_groups_bytes fuel val : 0 <= val -> Forall is_byte (mjoin (put_groups fuel val)).
Proof.
  revert val. induction fuel as [|fuel IH]; intros val Hv; [constructor|]. rewrite put_groups_step by done.
  pose proof (Z.mod_pos_bound val 128 ltac:(lia)). pose proof (Z.div_pos val 128 Hv ltac:(lia)). cbn. constructor.
  - unfold is_byte, is_u. destruct (0 <? _); lia.
  - destruct (_ =? 0); [constructor|by apply IH].
Qed.

Lemma get_group width acc k b l :
  6 <= width -> 0 <= b < 256 -> 0 <= k <= 4 -> 0 <= acc < 2 ^ (7 * k) -> b mod 128 * 2 ^ (7 * k) < 2 ^ 32 ->
  get_groups width acc (7 * k) (b :: l) =
  if b <? 128 then Ok (acc + b mod 128 * 2 ^ (7 * k), l)
  else get_groups width (acc + b mod 128 * 2 ^ (7 * k)) (7 * (k + 1)) l.
Proof.
  intros Hw Hb Hk Ha Hs. cbn [get_groups]. rewrite land_127, land_128 by done. rewrite (Z.mod_small (7 * k)) by lia.
  pose proof (Z.mod_pos_bound b 128 ltac:(lia)). pose proof (Z.pow_pos_nonneg 2 (7 * k) ltac:(lia) ltac:(lia)).
  rewrite wrapU_small by (rewrite Z.shiftl_mul_pow2 by lia; nia).
  rewrite lor_shiftl_add by lia. rewrite (wrapU_small width); [by replace (7 * k + 7) with (7 * (k + 1)) by lia|].
  pose proof (Z.pow_le_mono_r 2 6 width ltac:(lia) Hw). change (2 ^ 6) with 64 in *. lia.
Qed.

Lemma get_put_groups width fuel : 6 <= width -> forall val k acc r,
  0 <= val < 2 ^ (7 * Z.of_nat fuel) -> 0 <= k <= 4 -> 0 <= acc < 2 ^ (7 * k) -> acc + val * 2 ^ (7 * k) < 2 ^ 32 ->
  get_groups width acc (7 * k) (mjoin (put_groups (S fuel) val) ++ r) = Ok (acc + val * 2 ^ (7 * k), r).
Proof.
  intros Hw. induction fuel as [|fuel IH]; intros val k acc r Hv Hk Ha Hb.
  { replace val with 0 in * by (change (2 ^ _) with 1 in Hv; lia). change (mjoin (put_groups 1 0) ++ r) with (0 :: r).
    rewrite get_group; [done|lia|lia|lia|lia|]. rewrite Z.mod_0_l by lia. lia. }
  rewrite put_groups_step by lia. pose proof (Z.mod_pos_bound val 128 ltac:(lia)).
  pose proof (Z.div_mod val 128 ltac:(lia)) as Hdm. pose proof (Z.div_pos val 128 ltac:(lia) ltac:(lia)).
  pose proof (Z.pow_pos_nonneg 2 (7 * k) ltac:(lia) ltac:(lia)).
  cbn [mjoin list_join app]. destruct (Z.ltb_spec 0 (val / 128)) as [Hd|Hd].
  - rewrite (proj2 (Z.eqb_neq (val / 128) 0)) by lia.
    replace (val mod 128 + 128) with (val mod 128 + 1 * 128) by lia.
    assert (Hm : (val mod 128 + 1 * 128) mod 128 = val mod 128) by (rewrite Z.mod_add, Z.mod_mod by lia; done).
    rewrite get_group; rewrite ?Hm; [|lia|lia|lia|lia|nia]. rewrite (proj2 (Z.ltb_ge _ _)) by lia.
    assert (Hp : 2 ^ (7 * (k + 1)) = 128 * 2 ^ (7 * k)) by (replace (7 * (k + 1)) with (7 + 7 * k) by lia; by rewrite Z.pow_add_r by lia).
    assert (Hk' : k < 4).
    { destruct (Z.le_gt_cases 4 k); [|done]. assert (k = 4) as -> by lia. change (2 ^ (7 * 4)) with 268435456 in *. lia. }
    rewrite IH.
    + f_equal. f_equal. rewrite Hp. nia.
    + split; [lia|]. apply Z.div_lt_upper_bound; [lia|]. replace (7 * Z.of_nat (S fuel)) with (7 + 7 * Z.of_nat fuel) in Hv by lia.
      rewrite Z.pow_add_r in Hv by lia. change (2 ^ 7) with 128 in Hv. lia.
    + lia.
    + rewrite Hp. nia.
    + rewrite Hp. nia.
  - assert (Hz : val / 128 = 0) by lia. rewrite Hz in *. cbn [Z.eqb mjoin list_join app].
    rewrite Z.add_0_r in *. rewrite get_group; rewrite ?Z.mod_mod by lia; [|lia|lia|lia|lia|nia].
    rewrite (proj2 (Z.ltb_lt _ _)) by lia. f_equal. f_equal. lia.
Qed.

Lemma get_groups_local width l : forall v k a r,
  get_groups width v k l = Ok (a, r) -> exists u, l = u ++ r /\ forall r', get_groups width v k (u ++ r') = Ok (a, r').
Proof.
  induction l as [|b l IH]; intros v k a r H; [done|]. cbn [get_groups] in H. destruct (_ =? 0) eqn:E.
  - injection H as <- <-. exists [b]. split; [done|]. intros r'. cbn [get_groups app]. by rewrite E.
  - apply IH in H as (u & -> & Hu). exists (b :: u). split; [done|]. intros r'. cbn [get_groups app]. rewrite E. apply Hu.
Qed.

#[export] Instance unsigned_int_ok : CodecOk unsigned_int (is_u 32).
Proof.
  split.
  - intros a r Ha. unfold is_u in Ha. cbn [get unsigned_int]. unfold put_bytes. cbn [put unsigned_int].
    change 0 with (7 * 0) at 2. rewrite (get_put_groups 8 9); [|lia|change (2 ^ (7 * Z.of_nat 9)) with (2 ^ 63); lia|lia|cbn; lia|cbn; lia].
    cbn [rbind fst snd]. rewrite wrapU_small; [|cbn; lia]. cbn. f_equal. f_equal. lia.
  - intros a [Ha _]. by apply put_groups_bytes.
  - intros l a r _ H. apply rbind_ok in H as ([d r'] & Hd & [= <- <-]). apply wrapU_range. lia.
  - intros l a r H. apply rbind_ok in H as ([d r'] & Hd & [= <- <-]). apply get_groups_local in Hd as (u & -> & Hu).
    exists u. split; [done|]. intros r''. cbn [get unsigned_int]. by rewrite Hu.
Qed.

(** *** Sequences. *)
Lemma put_bytes_app {A B} (c : codec A) (d : codec B) a b x :
  put c a = put d b ++ x -> put_bytes c a = put_bytes d b ++ mjoin x.
Proof. intros H. unfold put_bytes. rewrite H. apply join_app. Qed.

Lemma size_u32 {A} (v : list A) : len v < 2 ^ 32 -> is_u 32 (u32 (len v)) /\ u32 (len v) = len v.
Proof. unfold len. intros H. split; [apply wrapU_range; lia|apply wrapU_small; lia]. Qed.

#[export] Instance char_vector_ok : CodecOk char_vector (fun v => Forall is_byte v /\ len v < 2 ^ 32).
Proof.
  split.
  - intros v r [_ Hv]. destruct (size_u32 v Hv) as [Hu He]. rewrite (put_bytes_app char_vector unsigned_int v _ _ eq_refl).
    rewrite <- app_assoc. cbn [get char_vector]. rewrite ok_roundtrip by done. cbn [rbind fst snd mjoin list_join].
    rewrite He, app_nil_r. apply read_app.
  - intros v [Hv Hl]. rewrite (put_bytes_app char_vector unsigned_int v _ _ eq_refl). apply Forall_app. split.
    + apply ok_bytes, size_u32, Hl.
    + cbn. by rewrite app_nil_r.
  - intros l v r Hl H. apply rbind_ok in H as ([n r'] & Hn & H). cbn [fst snd] in H. pose proof Hn as Hn'.
    apply ok_typed in Hn; [|done]. apply ok_local in Hn' as (u & -> & _). apply Forall_app in Hl as [_ Hl].
    apply read_ok in H as [-> Hv]. apply Forall_app in Hl as [Hl _]. split; [done|]. unfold is_u, len in *. lia.
  - intros l v r H. apply rbind_ok in H as ([n r'] & Hn & H). cbn [fst snd] in H.
    apply ok_local in Hn as (u & -> & Hu). apply read_local in H as [-> Hr]. exists (u ++ v). split; [by rewrite app_assoc|].
    intros r''. cbn [get char_vector]. rewrite <- app_assoc, Hu. apply Hr.
Qed.

#[export] Instance string_ok : CodecOk string_ (fun v => Forall is_byte v /\ len v < 2 ^ 32).
Proof.
  assert (Hp : forall v, put_bytes string_ v = put_bytes char_vector v).
  { intros v. rewrite (put_bytes_app string_ unsigned_int v _ _ eq_refl), (put_bytes_app char_vector unsigned_int v _ _ eq_refl).
    f_equal. unfold len. by destruct v. }
  split.
  - intros v r Hv. rewrite Hp. cbn [get string_]. by apply ok_roundtrip.
  - intros v Hv. rewrite Hp. by apply ok_bytes.
  - exact (@ok_typed _ _ _ char_vector_ok).
  - exact (@ok_local _ _ _ char_vector_ok).
Qed.

Section sequences.
Context {A : Type} (c : codec A) (P : A -> Prop) `{!CodecOk c P}.

Lemma get_n_roundtrip v : Forall P v -> forall r, get_n c (length v) (mjoin (mjoin (put c <$> v)) ++ r) = Ok (v, r).
Proof.
  induction 1 as [|a v Ha _ IH]; intros r; [done|]. cbn [length get_n fmap list_fmap mjoin list_join]. fold (fmap (put c) v).
  rewrite join_app, <- app_assoc. fold (put_bytes c a). rewrite ok_roundtrip by done. cbn [rbind fst snd]. by rewrite IH.
Qed.

Lemma put_elements_bytes v : Forall P v -> Forall is_byte (mjoin (mjoin (put c <$> v))).
Proof.
  induction 1 as [|a v Ha _ IH]; [constructor|]. cbn [fmap list_fmap mjoin list_join]. rewrite join_app.
  apply Forall_app. split; [by apply ok_bytes|done].
Qed.

Lemma get_n_ok n : forall l v r, get_n c n l = Ok (v, r) ->
  length v = n /\ (Forall is_byte l -> Forall P v) /\ exists u, l = u ++ r /\ forall r', get_n c n (u ++ r') = Ok (v, r').
Proof.
  induction n as [|n IH]; intros l v r H; cbn [get_n] in H.
  - injection H as <- <-. split_and!; [done|constructor|]. by exists [].
  - apply rbind_ok in H as ([a l1] & Ha & H). apply rbind_ok in H as ([v' l2] & Hv & [= <- <-]). cbn [fst snd] in *.
    pose proof Ha as Hl. apply ok_local in Hl as (u & -> & Hu). apply IH in Hv as (Hlen & Hf & u' & -> & Hu').
    split_and!; [cbn; lia| |].
    + intros Hb. pose proof (ok_typed _ _ _ Hb Ha). apply Forall_app in Hb as [_ Hb]. constructor; auto.
    + exists (u ++ u'). split; [by rewrite app_assoc|]. intros r'. cbn [get_n]. rewrite <- app_assoc, Hu. cbn [rbind fst snd].
      by rewrite Hu'.
Qed.

#[export] Instance array_ok n : CodecOk (array c n) (fun v => Forall P v /\ length v = n).
Proof.
  split.
  - intros v r [Hv <-]. by apply get_n_roundtrip.
  - intros v [Hv _]. by apply put_elements_bytes.
  - intros l v r Hl H. apply get_n_ok in H as (? & ? & _). auto.
  - intros l v r H. by apply get_n_ok in H as (_ & _ & ?).
Qed.

#[export] Instance vector_ok : CodecOk (vector c) (fun v => Forall P v /\ len v < 2 ^ 32).
Proof.
  split.
  - intros v r [Hv Hl]. destruct (size_u32 v Hl) as [Hu He]. rewrite (put_bytes_app (vector c) unsigned_int v _ _ eq_refl).
    rewrite <- app_assoc. cbn [get vector]. rewrite ok_roundtrip by done. cbn [rbind fst snd].
    rewrite He. unfold len. rewrite Nat2Z.id. by apply get_n_roundtrip.
  - intros v [Hv Hl]. rewrite (put_bytes_app (vector c) unsigned_int v _ _ eq_refl). apply Forall_app. split.
    + apply ok_bytes, size_u32, Hl.
    + by apply put_elements_bytes.
  - intros l v r Hl H. apply rbind_ok in H as ([n r'] & Hn & H). cbn [fst snd] in H. pose proof Hn as Hn'.
    apply ok_typed in Hn; [|done]. apply ok_local in Hn' as (u & -> & _). apply Forall_app in Hl as [_ Hl].
    apply get_n_ok in H as (Hlen & Hf & _). split; [auto|]. unfold is_u, len in *. lia.
  - intros l v r H. apply rbind_ok in H as ([n r'] & Hn & H). cbn [fst snd] in H.
    apply ok_local in Hn as (u & -> & Hu). apply get_n_ok in H as (_ & _ & u' & -> & Hu').
    exists (u ++ u'). split; [by rewrite app_assoc|]. intros r''. cbn [get vector]. rewrite <- app_assoc, Hu. apply Hu'.
Qed.

#[export] Instance c_array_ok n : Z.of_nat n < 2 ^ 32 -> CodecOk (c_array c n) (fun v => Forall P v /\ length v = n).
Proof.
  intros Hn. assert (Hu : is_u 32 (u32 (Z.of_nat n)) /\ u32 (Z.of_nat n) = Z.of_nat n).
  { split; [apply wrapU_range; lia|apply wrapU_small; lia]. }
  destruct Hu as [Hu He]. split.
  - intros v r [Hv Hl]. rewrite (put_bytes_app (c_array c n) unsigned_int v _ _ eq_refl).
    rewrite <- app_assoc. cbn [get c_array]. rewrite ok_roundtrip by done. cbn [rbind fst snd].
    rewrite He, Z.eqb_refl. cbn [rassert rbind]. rewrite <- Hl. by apply get_n_roundtrip.
  - intros v [Hv Hl]. rewrite (put_bytes_app (c_array c n) unsigned_int v _ _ eq_refl). apply Forall_app. split.
    + by apply ok_bytes.
    + by apply put_elements_bytes.
  - intros l v r Hl H. apply rbind_ok in H as ([m r'] & Hm & H). cbn [fst snd] in H. apply rbind_ok in H as (_ & _ & H).
    apply ok_local in Hm as (u & -> & _). apply Forall_app in Hl as [_ Hl].
    apply get_n_ok in H as (Hlen & Hf & _). auto.
  - intros l v r H. apply rbind_ok in H as ([m r'] & Hm & H). cbn [fst snd] in H. apply rbind_ok in H as ([] & Ha & H).
    apply ok_local in Hm as (u & -> & Hu'). apply get_n_ok in H as (_ & _ & u' & -> & Hr).
    exists (u ++ u'). split; [by rewrite app_assoc|]. intros r''. cbn [get c_array]. rewrite <- app_assoc, Hu'. cbn [rbind fst snd].
    rewrite Ha. cbn [rbind]. apply Hr.
Qed.
End sequences.

(** *** Arrays of primitive types. *)
Lemma memories_length size v : length (mjoin (memory_of size <$> v)) = (length v * size)%nat.
Proof.
  induction v as [|a v IH]; [done|]. change (mjoin (memory_of size <$> a :: v)) with (memory_of size a ++ mjoin (memory_of size <$> v)).
  rewrite length_app, memory_of_length, IH. done.
Qed.

Lemma values_of_memory size v : Forall (is_u (8 * Z.of_nat size)) v ->
  values_of size (length v) (mjoin (memory_of size <$> v)) = v.
Proof.
  induction 1 as [|a v Ha _ IH]; [done|]. cbn [length values_of].
  change (mjoin (memory_of size <$> a :: v)) with (memory_of size a ++ mjoin (memory_of size <$> v)).
  rewrite take_app_length', drop_app_length' by (by rewrite memory_of_length). by rewrite memory_of_value, wrapU_small, IH.
Qed.

Lemma values_of_ok size n : forall l, length l = (n * size)%nat -> Forall is_byte l ->
  Forall (is_u (8 * Z.of_nat size)) (values_of size n l) /\ length (values_of size n l) = n.
Proof.
  induction n as [|n IH]; intros l Hl Hb; [by split; [constructor|]|]. cbn [values_of].
  destruct (IH (drop size l)) as [H1 H2]; [rewrite length_drop; lia|by apply Forall_drop|]. split; [|cbn; lia].
  constructor; [|done]. assert (Ht : length (take size l) = size) by (rewrite length_take; lia).
  rewrite <- Ht at 1. apply bytes_val_range. by apply Forall_take.
Qed.

#[export] Instance primitive_array_ok size n : Z.of_nat n < 2 ^ 32 ->
  CodecOk (primitive_array size n) (fun v => Forall (is_u (8 * Z.of_nat size)) v /\ length v = n).
Proof.
  intros Hn. assert (Hu : is_u 32 (u32 (Z.of_nat n)) /\ u32 (Z.of_nat n) = Z.of_nat n).
  { split; [apply wrapU_range; lia|apply wrapU_small; lia]. }
  destruct Hu as [Hu He].
  assert (Hp : forall v, put_bytes (primitive_array size n) v =
    put_bytes unsigned_int (u32 (Z.of_nat n)) ++ mjoin (memory_of size <$> v)).
  { intros v. rewrite (put_bytes_app (primitive_array size n) unsigned_int v _ _ eq_refl). cbn. by rewrite app_nil_r. }
  split.
  - intros v r [Hv Hl]. rewrite Hp, <- app_assoc. cbn [get primitive_array]. rewrite ok_roundtrip by done. cbn [rbind fst snd].
    rewrite He, Z.eqb_refl. cbn [rassert rbind].
    replace (Z.of_nat (n * size)) with (len (mjoin (memory_of size <$> v))) by (unfold len; by rewrite memories_length, Hl).
    rewrite read_app. cbn [rbind fst snd]. by rewrite <- Hl, values_of_memory.
  - intros v [Hv _]. rewrite Hp. apply Forall_app. split; [by apply ok_bytes|].
    clear Hv. induction v as [|a v IH]; [constructor|]. cbn. apply Forall_app. split; [apply memory_of_bytes|exact IH].
  - intros l v r Hl H. apply rbind_ok in H as ([m r'] & Hm & H). cbn [fst snd] in H. apply rbind_ok in H as (_ & _ & H).
    apply rbind_ok in H as ([d r''] & Hd & [= <- <-]). apply ok_local in Hm as (u & -> & _). apply Forall_app in Hl as [_ Hl].
    apply read_ok in Hd as [-> Hd]. apply Forall_app in Hl as [Hl _]. apply values_of_ok; [cbn [fst]; lia|done].
  - intros l v r H. apply rbind_ok in H as ([m r'] & Hm & H). cbn [fst snd] in H. apply rbind_ok in H as ([] & Ha & H).
    apply rbind_ok in H as ([d r''] & Hd & [= <- <-]). apply ok_local in Hm as (u & -> & Hu'). apply read_local in Hd as [-> Hr].
    exists (u ++ d). split; [by rewrite app_assoc|]. intros r0. cbn [get primitive_array]. rewrite <- app_assoc, Hu'. cbn [rbind fst snd].
    rewrite Ha. cbn [rbind]. by rewrite Hr.
Qed.

(** *** Tuples and structures. *)
#[export] Instance pair_codec_ok {A B} (c : codec A) (d : codec B) P Q `{!CodecOk c P, !CodecOk d Q} :
  CodecOk (pair_codec c d) (fun p => P (fst p) /\ Q (snd p)).
Proof.
  split.
  - intros [a b] r [Ha Hb]. cbn in Ha, Hb. unfold put_bytes. cbn [put pair_codec fst snd]. rewrite join_app, <- app_assoc.
    cbn [get pair_codec]. fold (put_bytes c a) (put_bytes d b). rewrite ok_roundtrip by done. cbn [rbind fst snd].
    by rewrite ok_roundtrip.
  - intros [a b] [Ha Hb]. unfold put_bytes. cbn [put pair_codec fst snd]. rewrite join_app. apply Forall_app.
    split; by apply ok_bytes.
  - intros l p r Hl H. apply rbind_ok in H as ([a l1] & Ha & H). apply rbind_ok in H as ([b l2] & Hb & [= <- <-]).
    cbn [fst snd] in *. pose proof (ok_typed _ _ _ Hl Ha). apply ok_local in Ha as (u & -> & _). apply Forall_app in Hl as [_ Hl].
    split; [done|]. by eapply ok_typed.
  - intros l p r H. apply rbind_ok in H as ([a l1] & Ha & H). apply rbind_ok in H as ([b l2] & Hb & [= <- <-]).
    cbn [fst snd] in *. apply ok_local in Ha as (u & -> & Hu). apply ok_local in Hb as (u' & -> & Hu').
    exists (u ++ u'). split; [by rewrite app_assoc|]. intros r'. cbn [get pair_codec]. rewrite <- app_assoc, Hu. cbn [rbind fst snd].
    by rewrite Hu'.
Qed.

Lemma struct_ok {A B} (f : A -> B) (g : B -> A) (c : codec A) P `{!CodecOk c P} :
  (forall a, g (f a) = a) -> (forall b, f (g b) = b) -> CodecOk (struct f g c) (P ∘ g).
Proof.
  intros Hgf Hfg. split.
  - intros b r Hb. cbn [get struct]. change (put_bytes (struct f g c) b) with (put_bytes c (g b)). rewrite ok_roundtrip by done.
    cbn [rbind fst snd]. by rewrite Hfg.
  - intros b Hb. by apply (ok_bytes (g b)).
  - intros l b r Hl H. apply rbind_ok in H as ([a l1] & Ha & [= <- <-]). cbn. rewrite Hgf. by eapply ok_typed.
  - intros l b r H. apply rbind_ok in H as ([a l1] & Ha & [= <- <-]). apply ok_local in Ha as (u & -> & Hu).
    exists u. split; [done|]. intros r'. cbn [get struct]. by rewrite Hu.
Qed.

(** *** Sets and maps. *)
Section ordered.
Context {A : Type} (lt : A -> A -> bool) (c : codec A) (P : A -> Prop) `{!CodecOk c P}.
Context `{Hlt : !Transitive (fun x y => lt x y = true)}.

Lemma emplace_sorted_last x l : Forall (fun y => lt y x = true) l -> emplace_sorted lt x l = l ++ [x].
Proof. induction 1 as [|y l Hy _ IH]; cbn; [done|]. by rewrite Hy, IH. Qed.

Lemma emplace_all l : forall s, StronglySorted (fun x y => lt x y = true) (s ++ l) ->
  foldl (fun s x => emplace_sorted lt x s) s l = s ++ l.
Proof.
  induction l as [|x l IH]; intros s Hs; cbn; [by rewrite app_nil_r|].
  rewrite emplace_sorted_last.
  - rewrite IH; rewrite <- app_assoc; done.
  - clear IH. induction s as [|y s IHs]; [constructor|]. cbn in Hs. apply StronglySorted_inv in Hs as [Hs Hy].
    constructor; [|auto]. apply Forall_app in Hy as [_ Hy]. by inversion Hy.
Qed.

Lemma emplace_sorted_Forall (Q : A -> Prop) x l : Q x -> Forall Q l -> Forall Q (emplace_sorted lt x l).
Proof.
  intros Hx. induction 1 as [|y l Hy Hl IH]; cbn; [by constructor|].
  destruct (lt y x); [by constructor|]. destruct (lt x y); by repeat constructor.
Qed.

Lemma emplace_sorted_sorted x l : StronglySorted (fun x y => lt x y = true) l ->
  StronglySorted (fun x y => lt x y = true) (emplace_sorted lt x l).
Proof.
  induction 1 as [|y l Hl IH Hy]; cbn; [by repeat constructor|]. destruct (lt y x) eqn:E1.
  - constructor; [done|]. by apply emplace_sorted_Forall.
  - destruct (lt x y) eqn:E2; [|by constructor]. constructor; [by constructor|]. constructor; [done|].
    eapply Forall_impl; [exact Hy|]. intros z Hz. by eapply (Hlt x y z).
Qed.

Lemma emplace_sorted_length x l : (length (emplace_sorted lt x l) <= S (length l))%nat.
Proof. induction l as [|y l IH]; cbn; [lia|]. destruct (lt y x); [cbn; lia|]. destruct (lt x y); cbn; lia. Qed.

Lemma emplace_all_ok l : forall s, Forall P s -> Forall P l -> StronglySorted (fun x y => lt x y = true) s ->
  let s' := foldl (fun s x => emplace_sorted lt x s) s l in
  Forall P s' /\ StronglySorted (fun x y => lt x y = true) s' /\ (length s' <= length s + length l)%nat.
Proof.
  induction l as [|x l IH]; intros s Hs Hl Hss; cbn; [split_and!; [done..|lia]|].
  inversion Hl as [|? ? Hx Hl']; subst.
  destruct (IH (emplace_sorted lt x s)) as (H1 & H2 & H3);
    [by apply emplace_sorted_Forall|done|by apply emplace_sorted_sorted|].
  split_and!; [done..|]. pose proof (emplace_sorted_length x s). lia.
Qed.

#[export] Instance ordered_ok :
  CodecOk (ordered lt c) (fun v => Forall P v /\ StronglySorted (fun x y => lt x y = true) v /\ len v < 2 ^ 32).
Proof.
  split.
  - intros v r (Hv & Hs & Hl). cbn [get ordered]. change (put_bytes (ordered lt c) v) with (put_bytes (vector c) v).
    rewrite ok_roundtrip by done. cbn [rbind fst snd]. by rewrite (emplace_all v []).
  - intros v (Hv & _ & Hl). by apply (ok_bytes (c := vector c) (P := fun v => Forall P v /\ len v < 2 ^ 32)).
  - intros l v r Hb H. apply rbind_ok in H as ([v' r'] & Hv & [= <- <-]). apply ok_typed in Hv as [Hv Hl]; [|done].
    destruct (emplace_all_ok v' []) as (H1 & H2 & H3); [constructor|done|constructor|].
    split_and!; [done..|]. cbn in H3. unfold len in *. cbn [fst]. lia.
  - intros l v r H. apply rbind_ok in H as ([v' r'] & Hv & [= <- <-]). apply ok_local in Hv as (u & -> & Hu).
    exists u. split; [done|]. intros r''. cbn [get ordered]. by rewrite Hu.
Qed.
End ordered.

(** ** Packing. *)
Lemma out_size {A} (c : codec A) a : pack_size c a = Ok (u32 (len (put_bytes c a))).
Proof.
  unfold pack_size, out, put_bytes. assert (H : forall l n, rfold (fun s d => size_write d s) (SizeStream (u32 n)) l =
    Ok (SizeStream (u32 (n + len (mjoin l))))).
  { induction l as [|d l IH]; intros n; cbn [rfold]; [unfold len; cbn [mjoin list_join length]; by rewrite Z.add_0_r|].
    unfold size_write at 1. cbn [tellp rbind].
    assert (Hw : u32 (u32 n + len d) = u32 (n + len d)) by (unfold wrapU; apply Zplus_mod_idemp_l).
    rewrite Hw, IH. change (mjoin (d :: l)) with (d ++ mjoin l). unfold len. rewrite length_app. do 3 f_equal. lia. }
  specialize (H (put c a) 0). change (u32 0) with 0 in H. unfold write. rewrite H. done.
Qed.

Lemma out_buffer {A} (c : codec A) a w n :
  len (put_bytes c a) <= n -> len (put_bytes c a) < 2 ^ 31 ->
  out c a (Buffer w n) = Ok (Buffer (w ++ put_bytes c a) (n - len (put_bytes c a))).
Proof.
  unfold out, put_bytes. revert w n. induction (put c a) as [|d l IH]; intros w n Hn Hs; cbn -[write].
  - unfold len. cbn. by rewrite app_nil_r, Z.sub_0_r.
  - change (mjoin (d :: l)) with (d ++ mjoin l) in *. unfold len in *. rewrite length_app in *. unfold write, buffer_write at 1, len.
    cbn [remaining written].
    rewrite wrapS_small by (cbn; lia). rewrite (proj2 (Z.leb_le _ _)) by lia. cbn [rassert rbind].
    change (rfold _ ?b ?x) with (rfold (fun s d => write d s) b x). rewrite IH by lia. rewrite <- app_assoc. f_equal. rewrite Nat2Z.inj_add. by rewrite Z.sub_add_distr.
Qed.

(** A buffer of the size that was counted is filled exactly. *)
Lemma pack_exact {A} (c : codec A) a : len (put_bytes c a) < 2 ^ 31 -> pack c a = Ok (put_bytes c a).
Proof.
  intros H. unfold pack. rewrite out_size. cbn [rbind].
  assert (Hl : u32 (len (put_bytes c a)) = len (put_bytes c a)) by (apply wrapU_small; unfold len in *; lia).
  rewrite Hl, out_buffer by lia. cbn [rbind written remaining app]. rewrite Z.sub_diag. cbn. by rewrite app_nil_r.
Qed.

(** What is packed is what was put. *)
Lemma out_written {A} (c : codec A) a b b' :
  out c a b = Ok b' -> written b' = written b ++ put_bytes c a /\ remaining b' = remaining b - len (put_bytes c a) /\
  (0 <= remaining b -> 0 <= remaining b').
Proof.
  unfold out, put_bytes. revert b. induction (put c a) as [|d l IH]; intros b H; cbn -[write] in H.
  - injection H as <-. unfold len. cbn. rewrite app_nil_r. split_and!; [done|lia|done].
  - apply rbind_ok in H as (b1 & H1 & H). apply IH in H as (Hw & Hr & Hp). unfold write, buffer_write in H1.
    apply rbind_ok in H1 as ([] & _ & H1). apply rbind_ok in H1 as ([] & Hl%rassert_ok & [= <-]). cbn [written remaining] in *.
    change (mjoin (d :: l)) with (d ++ mjoin l). rewrite app_assoc. split; [done|]. apply Z.leb_le in Hl. unfold len in *.
    rewrite length_app. split; [lia|]. intros _. apply Hp. lia.
Qed.

Lemma pack_ok {A} (c : codec A) a l : pack c a = Ok l -> l = put_bytes c a.
Proof.
  intros H. apply rbind_ok in H as (size & Hs & H). apply rbind_ok in H as (b & Hb & [= <-]). rewrite out_size in Hs.
  injection Hs as <-. assert (Hu : 0 <= u32 (len (put_bytes c a)) <= len (put_bytes c a)).
  { unfold wrapU, len. split; [apply Z.mod_pos_bound; lia|apply Z.mod_le; lia]. }
  apply out_written in Hb as (-> & Hr & Hp). cbn [written remaining app] in *. specialize (Hp (proj1 Hu)).
  replace (remaining b) with 0 by lia. by rewrite app_nil_r.
Qed.

Lemma unpack_put {A} (c : codec A) P `{!CodecOk c P} a r : P a -> unpack c (put_bytes c a ++ r) = Ok a.
Proof. intros Ha. unfold unpack. by rewrite ok_roundtrip. Qed.

(** Nothing short of the whole encoding is a value. *)
Lemma unpack_truncated {A} (c : codec A) P `{!CodecOk c P} a l x :
  P a -> x <> [] -> put_bytes c a = l ++ x -> exists m, unpack c l = Err m.
Proof.
  intros Ha Hx Hl. unfold unpack. destruct (get c l) as [[b r]|m] eqn:E; [|by exists m]. exfalso.
  apply ok_local in E as (u & -> & Hu). pose proof (ok_roundtrip a [] Ha) as Hr. rewrite app_nil_r, Hl, <- app_assoc, Hu in Hr.
  injection Hr as _ Hr. by apply app_nil in Hr as [_ ->].
Qed.

(** ** Signed integers of variable length. *)
Lemma zigzag_value v : is_s 32 v -> zigzag v = if 0 <=? v then 2 * v else - 2 * v - 1.
Proof.
  unfold is_s. change (2 ^ (32 - 1)) with 2147483648. intros Hv. unfold zigzag. rewrite Z.shiftl_mul_pow2 by lia. change (2 ^ 1) with 2.
  assert (Hs : exists q, i32 (v * 2) = v * 2 + q * 2 ^ 32).
  { exists (- ((v * 2 + 2 ^ 31) / 2 ^ 32)). unfold wrapS. change (32 - 1) with 31. rewrite Z.mod_eq by lia. lia. }
  destruct Hs as [q Hq]. rewrite Hq. rewrite Z.shiftr_div_pow2 by lia. change (2 ^ 31) with 2147483648.
  destruct (Z.leb_spec 0 v).
  - rewrite (Z.div_small v) by lia. rewrite Z.lxor_0_r. unfold wrapU. rewrite Z.mod_add by lia. rewrite Z.mod_small; lia.
  - replace (v / 2147483648) with (-1) by (apply (Z.div_unique v 2147483648 (-1) (v + 2147483648)); lia).
    rewrite Z.lxor_m1_r. unfold Z.lnot, wrapU. replace (Z.pred (- (v * 2 + q * 2 ^ 32))) with (- 2 * v - 1 + (- q) * 2 ^ 32) by lia.
    rewrite Z.mod_add by lia. rewrite Z.mod_small; lia.
Qed.

Lemma land_1 z : Z.land z 1 = z mod 2.
Proof. change 1 with (Z.ones 1). by rewrite Z.land_ones by lia. Qed.

Lemma lxor_1 z : Z.lxor z 1 = if Z.even z then z + 1 else z - 1.
Proof.
  destruct (Z.even z) eqn:E.
  - apply Z.even_spec in E as [k ->]. rewrite <- Z.add_nocarry_lxor; [done|].
    rewrite land_1, Z.mul_comm. apply Z.mod_mul. lia.
  - assert (Ho : Z.odd z = true) by (by rewrite <- Z.negb_even, E). apply Z.odd_spec in Ho as [k ->].
    replace (2 * k + 1 - 1) with (2 * k) by lia.
    assert (H : 2 * k + 1 = Z.lxor (2 * k) 1).
    { rewrite <- Z.add_nocarry_lxor; [done|]. rewrite land_1, Z.mul_comm. apply Z.mod_mul. lia. }
    rewrite H, Z.lxor_assoc, Z.lxor_nilpotent, Z.lxor_0_r. done.
Qed.

Lemma i32_mod z : exists q, i32 z = z + q * 2 ^ 32.
Proof. exists (- ((z + 2 ^ 31) / 2 ^ 32)). unfold wrapS. change (32 - 1) with 31. rewrite Z.mod_eq by lia. lia. Qed.

(** Of the upper half of the 32-bit range the lowest bit is flipped. *)
Lemma unzigzag_low v : 0 <= v < 2 ^ 31 -> unzigzag v = if v mod 2 =? 0 then v / 2 else - (v / 2) - 1.
Proof.
  intros Hv. unfold unzigzag. rewrite !Z.shiftr_div_pow2 by lia. rewrite (Z.div_small v (2 ^ 31)) by lia. rewrite Z.lxor_0_r.
  rewrite land_1. change (2 ^ 1) with 2.
  pose proof (Z.mod_pos_bound v 2 ltac:(lia)). pose proof (Z.div_mod v 2 ltac:(lia)).
  change (2 ^ 31) with 2147483648 in Hv.
  rewrite (wrapU_small 32) by (width_norm; lia). rewrite (wrapS_small 32 (v / 2 + v mod 2)) by (width_norm; lia).
  destruct (Z.eqb_spec (v mod 2) 0) as [E|E].
  - rewrite (wrapS_small 32 (- (v / 2 + v mod 2))) by (width_norm; lia). rewrite wrapS_small by (width_norm; lia). lia.
  - rewrite wrapS_small by (width_norm; lia). lia.
Qed.

Lemma unzigzag_high v : 2 ^ 31 <= v < 2 ^ 32 ->
  exists q d, (d = 1 \/ d = -1) /\ unzigzag v = (if v mod 2 =? 0 then v / 2 else - (v / 2) - 1) + d + q * 2 ^ 32.
Proof.
  intros Hv. unfold unzigzag. rewrite !Z.shiftr_div_pow2 by lia. change (2 ^ 31) with 2147483648 in *. change (2 ^ 1) with 2.
  replace (v / 2147483648) with 1 by (apply (Z.div_unique v 2147483648 1 (v - 2147483648)); lia).
  rewrite land_1, lxor_1.
  pose proof (Z.mod_pos_bound v 2 ltac:(lia)). pose proof (Z.div_mod v 2 ltac:(lia)).
  set (x := if Z.even (v / 2) then v / 2 + 1 else v / 2 - 1). assert (Hx : exists d, (d = 1 \/ d = -1) /\ x = v / 2 + d).
  { unfold x. destruct (Z.even _); [exists 1|exists (-1)]; lia. }
  clearbody x. destruct Hx as (d & Hd & ->). unfold wrapU. rewrite (Z.mod_eq _ (2 ^ 32)) by lia.
  set (q0 := (v / 2 + d + v mod 2) / 2 ^ 32).
  destruct (i32_mod (v / 2 + d + v mod 2 - 2 ^ 32 * q0)) as [q1 ->].
  destruct (Z.eqb_spec (v mod 2) 0) as [E|E].
  - destruct (i32_mod (- (v / 2 + d + v mod 2 - 2 ^ 32 * q0 + q1 * 2 ^ 32))) as [q2 ->].
    destruct (i32_mod (- (- (v / 2 + d + v mod 2 - 2 ^ 32 * q0 + q1 * 2 ^ 32) + q2 * 2 ^ 32))) as [q3 ->].
    exists (- q0 + q1 - q2 + q3), d. split; [done|]. lia.
  - destruct (i32_mod (- (v / 2 + d + v mod 2 - 2 ^ 32 * q0 + q1 * 2 ^ 32))) as [q2 ->].
    exists (q0 - q1 + q2), (- d). split; [lia|]. lia.
Qed.

(** A signed integer is unpacked to itself exactly if it lies in the lower half of its range:
    [operator>>] undoes the sign by a shift that does not fit it. *)
(** C26: A signed_int is read back as what was written exactly when it is at least minus
    2^30 and less than 2^30. *)
Theorem signed_int_roundtrip_iff v :
  is_s 32 v -> unpack signed_int (put_bytes signed_int v) = Ok v <-> - 2 ^ 30 <= v < 2 ^ 30.
Proof.
  intros Hv. pose proof (zigzag_value v Hv) as Hz. unfold is_s in Hv. change (2 ^ (32 - 1)) with 2147483648 in Hv.
  assert (Hr : 0 <= zigzag v < 2 ^ 32) by (rewrite Hz; destruct (Z.leb_spec 0 v); lia).
  assert (Hu : unpack signed_int (put_bytes signed_int v) = Ok (unzigzag (zigzag v))).
  { unfold unpack, put_bytes. cbn [get put signed_int]. rewrite <- (app_nil_r (mjoin _)).
    change 0 with (7 * 0) at 2. rewrite (get_put_groups 31 9); [|lia|change (2 ^ (7 * Z.of_nat 9)) with (2 ^ 63); lia|lia|cbn; lia|cbn; lia].
    cbn [rbind fst snd]. do 2 f_equal. lia. }
  rewrite Hu. clear Hu. assert (Hval : (if zigzag v mod 2 =? 0 then zigzag v / 2 else - (zigzag v / 2) - 1) = v).
  { rewrite Hz. destruct (Z.leb_spec 0 v).
    - rewrite (Z.mul_comm 2), Z.mod_mul, Z.div_mul by lia. done.
    - replace (- 2 * v - 1) with (1 + (- v - 1) * 2) by lia. rewrite Z.mod_add, Z.div_add by lia. change (1 mod 2 =? 0) with false. change (1 / 2) with 0. cbv iota. lia. }
  assert (Hlow : zigzag v < 2 ^ 31 <-> - 2 ^ 30 <= v < 2 ^ 30) by (rewrite Hz; destruct (Z.leb_spec 0 v); lia).
  rewrite <- Hlow. split.
  - intros [= He]. destruct (Z.lt_ge_cases (zigzag v) (2 ^ 31)) as [|Hge]; [done|]. exfalso.
    destruct (unzigzag_high (zigzag v)) as (q & d & Hd & Hh); [lia|]. rewrite Hval in Hh. lia.
  - intros Hl. by rewrite unzigzag_low, Hval by lia.
Qed.

(** ** The structures. *)
Lemma codec_ok_iff {A} (c : codec A) P Q : CodecOk c P -> (forall a, P a <-> Q a) -> CodecOk c Q.
Proof.
  intros HP H. split; intros.
  - apply ok_roundtrip. by apply H.
  - apply ok_bytes. by apply H.
  - apply H. by eapply ok_typed.
  - by apply ok_local.
Qed.

(** Values of the widths of their members. *)
Definition bytes_ok (l : bytes) : Prop := Forall is_byte l /\ len l < 2 ^ 32.
Definition level_ok (p : Z * Z) : Prop := is_u 64 (fst p) /\ is_u 64 (snd p).
Definition list_ok {A} (P : A -> Prop) (l : list A) : Prop := Forall P l /\ len l < 2 ^ 32.

Definition action_ok (a : raw_action) : Prop :=
  is_u 64 (a_account a) /\ is_u 64 (a_name a) /\ list_ok level_ok (a_authorization a) /\ bytes_ok (a_data a).

Definition header_ok (h : transaction_header) : Prop :=
  is_u 32 (expiration h) /\ is_u 16 (ref_block_num h) /\ is_u 32 (ref_block_prefix h) /\ is_u 32 (net_usage_words h) /\
  is_u 8 (max_cpu_usage_ms h) /\ is_u 32 (delay_sec h).

Definition transaction_ok (t : transaction) : Prop :=
  header_ok (header t) /\ list_ok action_ok (context_free_actions t) /\ list_ok action_ok (actions t) /\
  list_ok (fun x => is_u 16 (fst x) /\ bytes_ok (snd x)) (transaction_extensions t).

#[export] Instance permission_level_codec_ok : CodecOk permission_level_codec level_ok.
Proof. apply pair_codec_ok; apply _. Qed.

#[export] Instance bytes_codec_ok : CodecOk char_vector bytes_ok.
Proof. apply char_vector_ok. Qed.

#[export] Instance list_codec_ok {A} (c : codec A) P `{!CodecOk c P} : CodecOk (vector c) (list_ok P).
Proof. by apply vector_ok. Qed.

#[export] Instance action_codec_ok : CodecOk action_codec action_ok.
Proof.
  eapply codec_ok_iff; [eapply struct_ok; [apply _|by intros [[[]]]|by intros []]|].
  intros []. unfold action_ok. cbn -[list_ok bytes_ok]. unfold level_ok at 1. cbn -[list_ok bytes_ok]. tauto.
Qed.

#[export] Instance header_codec_ok : CodecOk header_codec header_ok.
Proof.
  eapply codec_ok_iff; [eapply struct_ok; [apply _|by intros [[[[[]]]]]|by intros []]|].
  intros []. unfold header_ok. cbn. tauto.
Qed.

#[export] Instance transaction_codec_ok : CodecOk transaction_codec transaction_ok.
Proof.
  eapply codec_ok_iff; [eapply struct_ok; [apply _|by intros [[[]]]|by intros []]|].
  intros []. unfold transaction_ok. cbn. tauto.
Qed.

#[export] Instance asset_codec_ok : CodecOk asset_codec (fun a => is_s 64 (amount a) /\ is_u 64 (symbol a)).
Proof.
  eapply codec_ok_iff; [eapply struct_ok; [apply _|by intros []|by intros []]|].
  intros []. cbn. tauto.
Qed.

#[export] Instance onerror_codec_ok : CodecOk onerror_codec (fun x => is_u 128 (fst x) /\ bytes_ok (snd x)).
Proof. apply pair_codec_ok; apply _. Qed.

(** A transaction is packed without an error to exactly as many bytes as were counted, and
    unpacked from them to itself; its header is unpacked from the same bytes, and no proper
    beginning of them is a transaction. *)
(** C25: A transaction is packed without an error to exactly as many bytes as were
    counted and unpacked from them to itself; its header is unpacked from the same
    bytes, and no proper beginning of them is a transaction. *)
Theorem transaction_roundtrip (t : transaction) :
  transaction_ok t -> len (put_bytes transaction_codec t) < 2 ^ 31 ->
  exists l, pack transaction_codec t = Ok l /\ pack_size transaction_codec t = Ok (len l) /\
    unpack transaction_codec l = Ok t /\ unpack header_codec l = Ok (header t) /\
    forall l' x, x <> [] -> l = l' ++ x -> exists m, unpack transaction_codec l' = Err m.
Proof.
  intros Ht Hl. exists (put_bytes transaction_codec t).
  assert (Hu : u32 (len (put_bytes transaction_codec t)) = len (put_bytes transaction_codec t)).
  { apply wrapU_small. unfold len in *. lia. }
  rewrite pack_exact, out_size, Hu by done. split_and!; [done|done| | |].
  - rewrite <- (app_nil_r (put_bytes _ _)). by apply (unpack_put transaction_codec transaction_ok).
  - unfold put_bytes. cbn [put transaction_codec struct pair_codec fst snd]. rewrite <- !app_assoc, join_app.
    fold (put_bytes header_codec (header t)). apply (unpack_put header_codec header_ok), Ht.
  - intros l' x Hx Hp. by apply (unpack_truncated transaction_codec transaction_ok t l' x).
Qed.

(** Whatever bytes are unpacked, the transaction has the widths of its members. *)
Lemma unpacked_transaction_ok l t :
  Forall is_byte l -> unpack transaction_codec l = Ok t -> transaction_ok t.
Proof. intros Hl H. apply rbind_ok in H as ([t' r] & Ht & [= <-]). by eapply ok_typed. Qed.

(** * Examples. *)
Definition ds_transaction : transaction :=
  Transaction (TransactionHeader 1060 7 9 0 0 0) []
    [RawAction 5 6 [(5, 7)] [1; 2; 3]; RawAction 5 8 [] []] [(1, [255])].

Lemma signed_int_roundtrip_iff_witness :
  unpack signed_int (put_bytes signed_int (- 2 ^ 30)) = Ok (- 2 ^ 30) <-> - 2 ^ 30 <= - 2 ^ 30 < 2 ^ 30.
Proof. apply signed_int_roundtrip_iff. split; vm_compute; [discriminate|reflexivity]. Defined.

Lemma transaction_roundtrip_witness :
  exists l, pack transaction_codec ds_transaction = Ok l /\ pack_size transaction_codec ds_transaction = Ok (len l) /\
    unpack transaction_codec l = Ok ds_transaction /\ unpack header_codec l = Ok (header ds_transaction) /\
    forall l' x, x <> [] -> l = l' ++ x -> exists m, unpack transaction_codec l' = Err m.
Proof.
  apply transaction_roundtrip; [|vm_compute; reflexivity].
  apply (ok_typed (c := transaction_codec) (put_bytes transaction_codec ds_transaction) ds_transaction []); [|vm_compute; reflexivity].
  vm_compute. repeat constructor; discriminate.
Defined.
