(* ===== verification/TrxContext.v ===== *)
(** * The resources of one transaction.

    [libraries/chain/transaction_context.cpp] and [chain_config]: the limits a transaction
    runs under, what it is billed for the network and the processor, and the charge to its
    accounts and to the block, on top of the resource manager.  The clock is an argument of
    the operations that read it.  Exceptions are values, by the name of their type.  The part
    for the resource model that takes fees is compiled out in the model of the build. *)
From stdpp Require Import base gmap list strings.
From Stdlib Require Import ZArith Lia.
From S2P Require Import Prelude Name Asset Runtime Resources.

Open Scope Z_scope.

(** ** [chain_config]. *)
Record chain_config := ChainConfig {
  max_block_net_usage : Z;
  target_block_net_usage_pct : Z;
  max_transaction_net_usage : Z;
  base_per_transaction_net_usage : Z;
  net_usage_leeway : Z;
  context_free_discount_net_usage_num : Z;
  context_free_discount_net_usage_den : Z;
  max_block_cpu_usage : Z;
  target_block_cpu_usage_pct : Z;
  max_transaction_cpu_usage : Z;
  min_transaction_cpu_usage : Z;
  max_transaction_lifetime : Z;
  deferred_trx_expiration_window : Z;
  cfg_max_transaction_delay : Z;
  max_inline_action_size : Z;
  max_inline_action_depth : Z;
  cfg_max_authority_depth : Z;
}.

Definition min_net_usage_delta_between_base_and_max_for_trx : Z := 10 * 1024.

Definition validate_config (c : chain_config) : result unit :=
  (check* target_block_net_usage_pct c <=? 10000 with "target block net usage percentage cannot exceed 100%" in
   check* 100 / 10 <=? target_block_net_usage_pct c with "target block net usage percentage must be at least 0.1%" in
   check* target_block_cpu_usage_pct c <=? 10000 with "target block cpu usage percentage cannot exceed 100%" in
   check* 100 / 10 <=? target_block_cpu_usage_pct c with "target block cpu usage percentage must be at least 0.1%" in
   check* max_transaction_net_usage c <? max_block_net_usage c
     with "max transaction net usage must be less than max block net usage" in
   check* max_transaction_cpu_usage c <? max_block_cpu_usage c
     with "max transaction cpu usage must be less than max block cpu usage" in
   check* base_per_transaction_net_usage c <? max_transaction_net_usage c
     with "base net usage per transaction must be less than the max transaction net usage" in
   check* min_net_usage_delta_between_base_and_max_for_trx
          <=? u32 (max_transaction_net_usage c - base_per_transaction_net_usage c)
     with "max transaction net usage must be larger than base net usage per transaction" in
   check* 0 <? context_free_discount_net_usage_den c
     with "net usage discount ratio for context free data cannot have a 0 denominator" in
   check* context_free_discount_net_usage_num c <=? context_free_discount_net_usage_den c
     with "net usage discount ratio for context free data cannot exceed 1" in
   check* min_transaction_cpu_usage c <=? max_transaction_cpu_usage c
     with "min transaction cpu usage cannot exceed max transaction cpu usage" in
   check* max_transaction_cpu_usage c <? u32 (max_block_cpu_usage c - min_transaction_cpu_usage c)
     with "max transaction cpu usage must be at less than the difference" in
   check* 1 <=? cfg_max_authority_depth c with "max authority depth should be at least 1" in
   Ok tt)%res.

(** [operator ==], with the maximum of the processor named twice. *)
Definition config_eqb (l r : chain_config) : bool :=
  bool_decide
    ((max_block_net_usage l, target_block_net_usage_pct l, max_transaction_net_usage l, base_per_transaction_net_usage l,
      net_usage_leeway l, context_free_discount_net_usage_num l, context_free_discount_net_usage_den l,
      max_block_cpu_usage l, target_block_cpu_usage_pct l, max_transaction_cpu_usage l, max_transaction_cpu_usage l,
      max_transaction_lifetime l, deferred_trx_expiration_window l, cfg_max_transaction_delay l, max_inline_action_size l,
      max_inline_action_depth l, cfg_max_authority_depth l) =
     (max_block_net_usage r, target_block_net_usage_pct r, max_transaction_net_usage r, base_per_transaction_net_usage r,
      net_usage_leeway r, context_free_discount_net_usage_num r, context_free_discount_net_usage_den r,
      max_block_cpu_usage r, target_block_cpu_usage_pct r, max_transaction_cpu_usage r, max_transaction_cpu_usage r,
      max_transaction_lifetime r, deferred_trx_expiration_window r, cfg_max_transaction_delay r, max_inline_action_size r,
      max_inline_action_depth r, cfg_max_authority_depth r)).

(** The configuration of the genesis state. *)
Definition initial_configuration : chain_config :=
  ChainConfig (1024 * 1024) 1000 (1024 * 1024 / 2) 12 500 20 100 1000000 1000 (3 * 1000000 / 4) 100 (60 * 60) (10 * 60)
    (45 * 24 * 3600) (256 * 1024) 4 6.

Definition transaction_id_net_usage : Z := 32.

(** ** The context of a transaction. *)

(** What a transaction declares of its resources. *)
Record trx_limits := TrxLimits {
  trx_max_net_usage_words : Z;
  trx_max_cpu_usage_ms : Z;
  actors : list Z;                (* of the authorizations of its actions, in order *)
}.

(** The node a transaction runs on. *)
Record control := Control {
  skip_trx_checks : bool;
  producing : bool;
  is_resource_greylisted : Z -> bool;
  block_slot : Z;                 (* of the pending block *)
}.

Record net_state := NetState {
  net_limit : Z;
  net_limit_due_to_block : bool;
  net_limit_due_to_greylist : bool;
  eager_net_limit : Z;
  net_used : Z;                   (* [net_usage] *)
}.

Record cpu_state := CpuState {
  objective_duration_limit : Z;
  initial_objective_duration_limit : Z;
  cpu_limit_due_to_greylist : bool;
  billing_timer_exception_code : string;
  billing_timer_duration_limit : Z;
  internal_deadline : Z;          (* [_deadline] *)
  deadline_exception_code : string;
  pseudo_start : Z;
  billed_time : Z;
  billed_cpu_time_us : Z;
}.

Record trx_context := TrxContext {
  start : Z;
  deadline : Z;
  leeway : Z;
  explicit_billed_cpu_time : bool;
  bill_to_accounts : list Z;      (* a set *)
  validate_ram_usage : list Z;
  net : net_state;
  cpu : cpu_state;
  is_initialized : bool;
}.

Definition set_net (n : net_state) (c : trx_context) : trx_context :=
  TrxContext (start c) (deadline c) (leeway c) (explicit_billed_cpu_time c) (bill_to_accounts c) (validate_ram_usage c) n (cpu c)
    (is_initialized c).
Definition set_cpu (p : cpu_state) (c : trx_context) : trx_context :=
  TrxContext (start c) (deadline c) (leeway c) (explicit_billed_cpu_time c) (bill_to_accounts c) (validate_ram_usage c) (net c) p
    (is_initialized c).

(** The constructor, with what the controller sets before the initialization. *)
Definition new_context (now caller_deadline caller_leeway billed : Z) (explicit : bool) : trx_context :=
  TrxContext now caller_deadline caller_leeway explicit [] []
    (NetState 0 true false 0 0)
    (CpuState 0 0 false "block_cpu_usage_exceeded" 0 0 "block_cpu_usage_exceeded" now 0 billed) false.

Definition large_number_no_overflow : Z := (2 ^ 63 - 1) / 2.

Section context.
Context (cfg : chain_config) (ctl : control).
Implicit Types (c : trx_context) (db : resource_db).

(** One account of [max_bandwidth_billed_accounts_can_pay]. *)
Definition bandwidth_of (force_elastic_limits : bool) db (acc : Z * Z * bool * bool) (a : Z) : result (Z * Z * bool * bool) :=
  let '(account_net_limit, account_cpu_limit, greylisted_net, greylisted_cpu) := acc in
  let elastic := force_elastic_limits || negb (producing ctl && is_resource_greylisted ctl a) in
  (let* n := get_account_net_limit a elastic db in
   let* p := get_account_cpu_limit a elastic db in
   Ok (if 0 <=? n then Z.min account_net_limit n else account_net_limit,
       if 0 <=? p then Z.min account_cpu_limit p else account_cpu_limit,
       greylisted_net || (0 <=? n) && negb elastic,
       greylisted_cpu || (0 <=? p) && negb elastic))%res.

Definition max_bandwidth_billed_accounts_can_pay (force_elastic_limits : bool) (accounts : list Z) db
  : result (Z * Z * bool * bool) :=
  rfold (bandwidth_of force_elastic_limits db) (large_number_no_overflow, large_number_no_overflow, false, false) accounts.

Definition check_net_usage (n : net_state) : result unit :=
  if skip_trx_checks ctl then Ok tt
  else if eager_net_limit n <? net_used n then
    Err (if net_limit_due_to_block n then "block_net_usage_exceeded"
         else if net_limit_due_to_greylist n then "greylist_net_usage_exceeded"
         else "tx_net_usage_exceeded")
  else Ok tt.

Definition add_net_usage (u : Z) (n : net_state) : result net_state :=
  let n := NetState (net_limit n) (net_limit_due_to_block n) (net_limit_due_to_greylist n) (eager_net_limit n)
             (u64 (net_used n + u)) in
  (let* _ := check_net_usage n in Ok n)%res.

(** [expired] is the flag of the deadline's timer. *)
Definition checktime (expired : bool) (now : Z) c : result unit :=
  if negb expired then Ok tt
  else if internal_deadline (cpu c) <? now then
    let code := deadline_exception_code (cpu c) in
    Err (if explicit_billed_cpu_time c || bool_decide (code = "deadline_exception"%string) then "deadline_exception"
         else if bool_decide (code = "block_cpu_usage_exceeded"%string) then "block_cpu_usage_exceeded"
         else if bool_decide (code = "tx_cpu_usage_exceeded"%string) then
           (if cpu_limit_due_to_greylist (cpu c) then "greylist_cpu_usage_exceeded" else "tx_cpu_usage_exceeded")
         else if bool_decide (code = "leeway_deadline_exception"%string) then "leeway_deadline_exception"
         else "transaction_exception")
  else Ok tt.

Definition validate_cpu_usage_to_bill (billed_us : Z) (check_minimum : bool) (p : cpu_state) : result unit :=
  if skip_trx_checks ctl then Ok tt
  else
    (check* negb check_minimum || (min_transaction_cpu_usage cfg <=? billed_us) with "transaction_exception" in
     if billed_us <=? objective_duration_limit p then Ok tt
     else Err (if bool_decide (billing_timer_exception_code p = "block_cpu_usage_exceeded"%string)
               then "block_cpu_usage_exceeded"
               else if cpu_limit_due_to_greylist p then "greylist_cpu_usage_exceeded"
               else "tx_cpu_usage_exceeded"))%res.

Definition update_billed_cpu_time (now : Z) c : trx_context :=
  if explicit_billed_cpu_time c then c
  else
    let p := cpu c in
    set_cpu (CpuState (objective_duration_limit p) (initial_objective_duration_limit p) (cpu_limit_due_to_greylist p)
               (billing_timer_exception_code p) (billing_timer_duration_limit p) (internal_deadline p)
               (deadline_exception_code p) (pseudo_start p) (billed_time p)
               (Z.max (now - pseudo_start p) (min_transaction_cpu_usage cfg))) c.

(** [flat_set::insert], in ascending order. *)
Fixpoint insert_account (a : Z) (l : list Z) : list Z :=
  match l with
  | [] => [a]
  | b :: l' => if a <? b then a :: l else if a =? b then l else b :: insert_account a l'
  end.

(** *** [init]. *)

(** The limits of the network for a transaction, before those of the accounts. *)
Definition initial_net_limit (t : trx_limits) db : Z * bool :=
  let limit := get_block_net_limit db in
  let '(limit, due_to_block) :=
    if max_transaction_net_usage cfg <=? limit then (max_transaction_net_usage cfg, false) else (limit, true) in
  let specified := u64 (trx_max_net_usage_words t * 8) in
  if (0 <? specified) && (specified <=? limit) then (specified, false) else (limit, due_to_block).

(** The limit of the processor, and the exception that exceeding it raises. *)
Definition initial_cpu_limit (t : trx_limits) db : Z * string :=
  let limit := i64 (get_block_cpu_limit db) in
  let '(limit, code) :=
    if max_transaction_cpu_usage cfg <=? limit then (max_transaction_cpu_usage cfg, "tx_cpu_usage_exceeded"%string)
    else (limit, "block_cpu_usage_exceeded"%string) in
  if (0 <? trx_max_cpu_usage_ms t) && (trx_max_cpu_usage_ms t * 1000 <=? limit)
  then (trx_max_cpu_usage_ms t * 1000, "tx_cpu_usage_exceeded"%string) else (limit, code).

Definition init (initial_net_usage : Z) (t : trx_limits) (expired : bool) (now : Z) c db : result (trx_context * resource_db) :=
  let '(limit, due_to_block) := initial_net_limit t db in
  let '(objective, code) := initial_cpu_limit t db in
  let billed := billed_cpu_time_us (cpu c) in
  let p := CpuState objective objective false code 0 (start c + objective) (deadline_exception_code (cpu c)) (pseudo_start (cpu c))
             (billed_time (cpu c)) billed in
  (check* negb (is_initialized c) with "transaction_exception" in
   let* _ := if 0 <? billed then validate_cpu_usage_to_bill billed false p else Ok tt in
   let accounts := foldl (fun s a => insert_account a s) [] (actors t) in
   let* db := update_account_usage accounts (block_slot ctl) db in
   let* (account_net_limit, account_cpu_limit, greylisted_net, greylisted_cpu) :=
     max_bandwidth_billed_accounts_can_pay false accounts db in
   let new_eager := Z.min limit (u64 (account_net_limit + net_usage_leeway cfg)) in
   let '(eager, due_to_block) := if new_eager <? limit then (new_eager, false) else (limit, due_to_block) in
   let '(internal, code) :=
     if account_cpu_limit + leeway c <=? objective
     then (start c + account_cpu_limit + leeway c, "leeway_deadline_exception"%string) else (start c + objective, code) in
   let duration := internal - start c in
   let '(internal, deadline_code) :=
     if explicit_billed_cpu_time c || (deadline c <? internal) then (deadline c, "deadline_exception"%string) else (internal, code) in
   let p := CpuState objective objective greylisted_cpu code duration internal deadline_code (pseudo_start (cpu c))
              (billed_time (cpu c)) billed in
   let n := NetState limit due_to_block greylisted_net (eager / 8 * 8) (net_used (net c)) in
   let* n := if 0 <? initial_net_usage then add_net_usage initial_net_usage n else Ok n in
   let c := TrxContext (start c) (deadline c) (leeway c) (explicit_billed_cpu_time c) accounts (validate_ram_usage c) n p false in
   let* _ := checktime expired now c in
   Ok (TrxContext (start c) (deadline c) (leeway c) (explicit_billed_cpu_time c) accounts (validate_ram_usage c) n p true, db))%res.

(** The network usage an input transaction starts with. *)
Definition input_net_usage (unprunable prunable delay_sec : Z) : Z :=
  let discounted :=
    if (0 <? context_free_discount_net_usage_den cfg)
       && (context_free_discount_net_usage_num cfg <? context_free_discount_net_usage_den cfg)
    then u64 (u64 (u64 (prunable * context_free_discount_net_usage_num cfg) + context_free_discount_net_usage_den cfg) - 1)
         / context_free_discount_net_usage_den cfg
    else prunable in
  let usage := u64 (u64 (base_per_transaction_net_usage cfg + unprunable) + discounted) in
  if 0 <? delay_sec then u64 (usage + u64 (base_per_transaction_net_usage cfg + transaction_id_net_usage)) else usage.

(** [add_ram_usage]. *)
Definition add_ram_usage (account ram_delta : Z) c db : result (trx_context * resource_db) :=
  (let* db := add_pending_ram_usage account ram_delta db in
   Ok (if 0 <? ram_delta
       then TrxContext (start c) (deadline c) (leeway c) (explicit_billed_cpu_time c) (bill_to_accounts c)
              (insert_account account (validate_ram_usage c)) (net c) (cpu c) (is_initialized c)
       else c, db))%res.

(** *** [finalize], up to the charge. *)
Definition finalize_checks (now : Z) c db : result trx_context :=
  (check* is_initialized c with "transaction_exception" in
   let* _ := rfold (fun _ a => verify_account_ram_usage a db) tt (validate_ram_usage c) in
   let* (account_net_limit, account_cpu_limit, greylisted_net, greylisted_cpu) :=
     max_bandwidth_billed_accounts_can_pay false (bill_to_accounts c) db in
   let n := net c in
   let '(limit, due_to_block) :=
     if u64 account_net_limit <=? net_limit n then (u64 account_net_limit, false) else (net_limit n, net_limit_due_to_block n) in
   let p := cpu c in
   let '(objective, code) :=
     if account_cpu_limit <=? objective_duration_limit p then (account_cpu_limit, "tx_cpu_usage_exceeded"%string)
     else (objective_duration_limit p, billing_timer_exception_code p) in
   let n := NetState limit due_to_block (net_limit_due_to_greylist n || greylisted_net) limit (u64 (u64 (net_used n + 7) / 8 * 8)) in
   let* _ := check_net_usage n in
   let p := CpuState objective (initial_objective_duration_limit p) (cpu_limit_due_to_greylist p || greylisted_cpu) code
              (billing_timer_duration_limit p) (internal_deadline p) (deadline_exception_code p) (pseudo_start p) (billed_time p)
              (billed_cpu_time_us p) in
   let c := update_billed_cpu_time now (set_cpu p (set_net n c)) in
   let* _ := validate_cpu_usage_to_bill (billed_cpu_time_us (cpu c)) true (cpu c) in
   Ok c)%res.

Definition finalize (now : Z) c db : result (trx_context * resource_db) :=
  (let* c := finalize_checks now c db in
   let* db := add_transaction_usage (bill_to_accounts c) (u64 (billed_cpu_time_us (cpu c))) (net_used (net c)) (block_slot ctl) db in
   Ok (c, db))%res.

(** *** The billing timer, stopped while code is compiled. *)
Definition pause_billing_timer (now : Z) c : trx_context :=
  let p := cpu c in
  if explicit_billed_cpu_time c || (pseudo_start p =? 0) then c
  else set_cpu (CpuState (objective_duration_limit p) (initial_objective_duration_limit p) (cpu_limit_due_to_greylist p)
                  (billing_timer_exception_code p) (billing_timer_duration_limit p) (internal_deadline p)
                  "deadline_exception" 0 (now - pseudo_start p) (billed_cpu_time_us p)) c.

Definition resume_billing_timer (now : Z) c : trx_context :=
  let p := cpu c in
  if explicit_billed_cpu_time c || negb (pseudo_start p =? 0) then c
  else
    let pseudo := now - billed_time p in
    let '(internal, code) :=
      if pseudo + billing_timer_duration_limit p <=? deadline c
      then (pseudo + billing_timer_duration_limit p, billing_timer_exception_code p) else (deadline c, "deadline_exception"%string) in
    set_cpu (CpuState (objective_duration_limit p) (initial_objective_duration_limit p) (cpu_limit_due_to_greylist p)
               (billing_timer_exception_code p) (billing_timer_duration_limit p) internal code pseudo (billed_time p)
               (billed_cpu_time_us p)) c.
End context.

(** * Theorems. *)

(** The comparison misses the minimum of the processor. *)
Lemma config_eqb_incomplete :
  exists l r, config_eqb l r = true /\ min_transaction_cpu_usage l <> min_transaction_cpu_usage r.
Proof.
  exists initial_configuration, (ChainConfig (1024 * 1024) 1000 (1024 * 1024 / 2) 12 500 20 100 1000000 1000 (3 * 1000000 / 4) 200
    (60 * 60) (10 * 60) (45 * 24 * 3600) (256 * 1024) 4 6). by vm_compute.
Qed.

(** ** The charge. *)
Lemma insert_account_elem a b l : b ∈ insert_account a l <-> b = a \/ b ∈ l.
Proof.
  induction l as [|x l IH]; cbn; [set_solver|]. destruct (a <? x); [set_solver|]. destruct (Z.eqb_spec a x); set_solver.
Qed.

Lemma insert_account_sorted a l : Sorted.StronglySorted Z.lt l -> Sorted.StronglySorted Z.lt (insert_account a l).
Proof.
  induction 1 as [|x l Hl IH Hx]; cbn; [by repeat constructor|]. rewrite Forall_forall in Hx. destruct (Z.ltb_spec a x).
  - constructor; [constructor; [done|by apply Forall_forall]|]. constructor; [done|]. apply Forall_forall. intros y Hy.
    specialize (Hx y Hy). lia.
  - destruct (Z.eqb_spec a x); [by constructor; [|apply Forall_forall]|]. constructor; [done|]. apply Forall_forall.
    intros y [->|Hy]%insert_account_elem; [lia|auto].
Qed.

Lemma sorted_NoDup l : Sorted.StronglySorted Z.lt l -> NoDup l.
Proof.
  induction 1 as [|x l _ IH Hx]; constructor; [|done]. intros Hin. rewrite Forall_forall in Hx. specialize (Hx x Hin). lia.
Qed.

Section charge.
Context (db : resource_db) (cpu net slot : Z).
Hypothesis Hcpu : 0 < cpu <= max_raw_value.
Hypothesis Hnet : 0 < net <= max_raw_value.
Hypothesis Hvirtual : 0 <= virtual_net_limit (rl_state db) < 2 ^ 40.
Hypothesis Hgmr : 0 <= net_byte (gmr db) <= cpu_us (gmr db) /\ cpu_us (gmr db) < 2 ^ 64.

(** The rows of an account, with averages that a charge does not overflow. *)
Definition chargeable (a : Z) : Prop :=
  exists u ram nw cw, usages db !! a = Some u /\ get_account_limits a db = Ok (ram, nw, cw) /\ nw < 2 ^ 63 /\
    room (account_cpu_usage_average_window (rl_config db)) slot (cpu_usage u) /\
    room (account_net_usage_average_window (rl_config db)) slot (net_usage u).

(** What is used is available to the account. *)
Definition affordable (a : Z) : Prop :=
  exists cpu_limit net_limit, get_account_cpu_limit_ex a true db = Ok cpu_limit /\
    get_account_net_limit_ex a true db = Ok net_limit /\
    (limit_max cpu_limit = -1 \/ cpu <= available cpu_limit) /\ (limit_max net_limit = -1 \/ net <= available net_limit).

Lemma charge_accounts l : forall U,
  NoDup l -> (forall a, a ∈ l -> U !! a = usages db !! a) -> Forall chargeable l -> Forall affordable l ->
  exists U', rfold (charge_account cpu net slot) (with_usages U db) l = Ok (with_usages U' db).
Proof.
  induction l as [|a l IH]; intros U Hd HU Hc Ha; cbn [rfold]; [by eexists|].
  apply NoDup_cons in Hd as [Hnin Hd]. inversion Hc as [|? ? (u & ram & nw & cw & Hu & Hl & Hnw & Hrc & Hrn) Hc']; subst.
  inversion Ha as [|? ? (cl & nl & Hcl & Hnl & Hca & Hna) Ha']; subst.
  assert (HUa : U !! a = Some u) by (rewrite HU by set_solver; done).
  destruct (charge_accepted (with_usages U db) a u cpu net slot ram nw cw) with (cpu_limit := cl) (net_limit := nl)
    as (u' & Hch & _); try done.
  - unfold get_account_cpu_limit_ex in *. cbn [usages rl_state rl_config gmr with_usages].
    change (get_account_limits a (with_usages U db)) with (get_account_limits a db). rewrite HUa. by rewrite Hu in Hcl.
  - unfold get_account_net_limit_ex in *. cbn [usages rl_state rl_config gmr with_usages].
    change (get_account_limits a (with_usages U db)) with (get_account_limits a db). rewrite HUa. by rewrite Hu in Hnl.
  - rewrite Hch. cbn [rbind]. apply IH; [done| |done|done]. intros b Hb. cbn [usages with_usages].
    rewrite lookup_insert_ne by (intros ->; done). apply HU. set_solver.
Qed.

(** Every account pays and the block has room: the charge does not fail. *)
Lemma charge_succeeds l :
  NoDup l -> Forall chargeable l -> Forall affordable l ->
  0 <= pending_cpu_usage (rl_state db) -> pending_cpu_usage (rl_state db) + cpu <= max (cpu_limit_parameters (rl_config db)) ->
  0 <= pending_net_usage (rl_state db) -> pending_net_usage (rl_state db) + net <= max (net_limit_parameters (rl_config db)) ->
  max (cpu_limit_parameters (rl_config db)) < 2 ^ 64 -> max (net_limit_parameters (rl_config db)) < 2 ^ 64 ->
  exists db', add_transaction_usage l cpu net slot db = Ok db'.
Proof.
  intros Hd Hc Ha Hp1 Hp2 Hp3 Hp4 Hm1 Hm2. unfold add_transaction_usage.
  destruct (charge_accounts l (usages db) Hd) as [U' HU]; [done..|].
  replace (with_usages (usages db) db) with db in HU by (by destruct db). rewrite HU. cbn [rbind].
  cbn [rl_state rl_config with_usages pending_cpu_usage pending_net_usage].
  rewrite !wrapU_small by (clear -Hp1 Hp2 Hp3 Hp4 Hm1 Hm2 Hcpu Hnet; lia).
  rewrite (proj2 (Z.leb_le _ _) Hp2). cbn [rassert rbind]. rewrite (proj2 (Z.leb_le _ _) Hp4). cbn [rassert rbind]. by eexists.
Qed.
End charge.

(** ** Limits. *)
Lemma net_limit_spec a elastic db n :
  get_account_net_limit a elastic db = Ok n ->
  exists l, get_account_net_limit_ex a elastic db = Ok l /\ available l = n /\ (n < 0 -> limit_max l = -1).
Proof.
  unfold get_account_net_limit. intros H. apply rbind_ok in H as (l & Hl & [= <-]). exists l. split; [done|]. split; [done|].
  intros Hn. unfold get_account_net_limit_ex in Hl. apply rbind_ok in Hl as (u & _ & Hl).
  apply rbind_ok in Hl as ([[ram w] cw] & _ & Hl). destruct (_ || _); [by injection Hl as <-|].
  apply limit_from_inv in Hl as (_ & _ & Ha). lia.
Qed.

Lemma cpu_limit_spec a elastic db n :
  get_account_cpu_limit a elastic db = Ok n ->
  exists l, get_account_cpu_limit_ex a elastic db = Ok l /\ available l = n /\ (n < 0 -> limit_max l = -1).
Proof.
  unfold get_account_cpu_limit. intros H. apply rbind_ok in H as (l & Hl & [= <-]). exists l. split; [done|]. split; [done|].
  intros Hn. unfold get_account_cpu_limit_ex in Hl. apply rbind_ok in Hl as (u & _ & Hl).
  apply rbind_ok in Hl as ([[ram w] cw] & _ & Hl). destruct (_ || _); [by injection Hl as <-|].
  apply limit_from_inv in Hl as (_ & _ & Ha). lia.
Qed.

(** The bandwidth is at most what each account has. *)
Lemma bandwidth_le ctl f db l : forall acc n p gn gc,
  rfold (bandwidth_of ctl f db) acc l = Ok (n, p, gn, gc) ->
  n <= fst (fst (fst acc)) /\ p <= snd (fst (fst acc)) /\ (0 <= fst (fst (fst acc)) -> 0 <= n) /\
  Forall (fun a => let elastic := f || negb (producing ctl && is_resource_greylisted ctl a) in
    exists ln lp, get_account_net_limit a elastic db = Ok ln /\ get_account_cpu_limit a elastic db = Ok lp /\
      (ln < 0 \/ n <= ln) /\ (lp < 0 \/ p <= lp)) l.
Proof.
  induction l as [|a l IH]; intros [[[n0 p0] g1] g2] n p gn gc H; cbn [rfold] in H.
  - injection H as <- <- _ _. cbn. split_and!; [lia|lia|done|constructor].
  - apply rbind_ok in H as (acc & Hacc & H). cbn [bandwidth_of] in Hacc. apply rbind_ok in Hacc as (ln & Hln & Hacc).
    apply rbind_ok in Hacc as (lp & Hlp & [= <-]). apply IH in H as (Hn & Hp & Hpos & Hl). cbn [fst snd] in *.
    destruct (Z.leb_spec 0 ln), (Z.leb_spec 0 lp); split_and!; try lia; constructor; try done; exists ln, lp; split_and!; try done; lia.
Qed.

Lemma initial_net_limit_le cfg t db : fst (initial_net_limit cfg t db) <= get_block_net_limit db.
Proof.
  unfold initial_net_limit. destruct (Z.leb_spec (max_transaction_net_usage cfg) (get_block_net_limit db)); cbn [fst];
    destruct ((0 <? _) && _) eqn:E; cbn [fst]; lia.
Qed.

Lemma initial_cpu_limit_le cfg t db : fst (initial_cpu_limit cfg t db) <= i64 (get_block_cpu_limit db).
Proof.
  unfold initial_cpu_limit. destruct (Z.leb_spec (max_transaction_cpu_usage cfg) (i64 (get_block_cpu_limit db))); cbn [fst];
    destruct ((0 <? _) && _) eqn:E; cbn [fst]; lia.
Qed.

(** An initialized transaction has the limits of the block at most, and a set of accounts. *)
Lemma init_limits cfg ctl u t expired now c db c' db' :
  init cfg ctl u t expired now c db = Ok (c', db') ->
  net_limit (net c') <= get_block_net_limit db /\ objective_duration_limit (cpu c') <= i64 (get_block_cpu_limit db) /\
  NoDup (bill_to_accounts c').
Proof.
  unfold init. pose proof (initial_net_limit_le cfg t db) as Hn. pose proof (initial_cpu_limit_le cfg t db) as Hp.
  destruct (initial_net_limit cfg t db) as [limit due], (initial_cpu_limit cfg t db) as [objective code]. cbn [fst] in *. intros H.
  apply rbind_ok in H as (_ & _ & H). apply rbind_ok in H as (_ & _ & H). apply rbind_ok in H as (db1 & _ & H).
  apply rbind_ok in H as ([[[an ac] gn] gc] & _ & H).
  destruct (Z.min limit _ <? limit) eqn:E1; destruct (ac + leeway c <=? objective); destruct (explicit_billed_cpu_time c || _);
    apply rbind_ok in H as (n & Hnn & H); apply rbind_ok in H as (_ & _ & [= <- <-]); cbn [net cpu bill_to_accounts objective_duration_limit];
    (split; [|split; [done|]]).
  all: try (assert (Hacc : forall l s, Sorted.StronglySorted Z.lt s ->
      Sorted.StronglySorted Z.lt (foldl (fun s a => insert_account a s) s l)) by
      (induction l as [|x l IH]; intros s Hs; [done|]; cbn; apply IH; by apply insert_account_sorted);
    apply sorted_NoDup, Hacc; constructor).
  all: destruct (0 <? u); [apply rbind_ok in Hnn as (_ & _ & [= <-])|injection Hnn as <-]; cbn [net_limit]; done.
Qed.

(** What the checks of [finalize] leave: the rounded use of the network and the billed time are
    within the limits of the transaction and of every account. *)
Lemma finalize_checked cfg ctl now c db c' :
  skip_trx_checks ctl = false -> 0 <= net_used (net c) < 2 ^ 63 -> finalize_checks cfg ctl now c db = Ok c' ->
  exists n p gn gc, max_bandwidth_billed_accounts_can_pay ctl false (bill_to_accounts c) db = Ok (n, p, gn, gc) /\
    bill_to_accounts c' = bill_to_accounts c /\
    net_used (net c) <= net_used (net c') <= Z.min (net_limit (net c)) n /\
    min_transaction_cpu_usage cfg <= billed_cpu_time_us (cpu c') <= Z.min (objective_duration_limit (cpu c)) p.
Proof.
  intros Hskip Hu H. unfold finalize_checks in H. apply rbind_ok in H as (_ & _ & H). apply rbind_ok in H as (_ & _ & H).
  apply rbind_ok in H as ([[[n p] gn] gc] & Hb & H). exists n, p, gn, gc. split; [done|].
  apply bandwidth_le in Hb as (Hn & _ & Hpos & _). cbn [fst snd] in *. unfold large_number_no_overflow in *.
  change ((2 ^ 63 - 1) / 2) with 4611686018427387903 in *. specialize (Hpos ltac:(lia)).
  assert (Hun : u64 n = n) by (apply wrapU_small; lia). rewrite Hun in H.
  assert (Hround : net_used (net c) <= u64 (u64 (net_used (net c) + 7) / 8 * 8)).
  { rewrite (wrapU_small _ (_ + 7)) by lia. pose proof (Z.div_mod (net_used (net c) + 7) 8 ltac:(lia)).
    pose proof (Z.mod_pos_bound (net_used (net c) + 7) 8 ltac:(lia)). rewrite wrapU_small by lia. lia. }
  destruct (Z.leb_spec n (net_limit (net c))); destruct (Z.leb_spec p (objective_duration_limit (cpu c)));
    apply rbind_ok in H as (? & Hc & H); apply rbind_ok in H as (? & Hv & [= <-]);
    unfold check_net_usage in Hc; rewrite Hskip in Hc; cbn [eager_net_limit net_used] in Hc;
    destruct (Z.ltb_spec n (u64 (u64 (net_used (net c) + 7) / 8 * 8))), (Z.ltb_spec (net_limit (net c)) (u64 (u64 (net_used (net c) + 7) / 8 * 8)));
    try done; unfold validate_cpu_usage_to_bill in Hv; rewrite Hskip in Hv; apply rbind_ok in Hv as (? & Hm & Hv);
    apply rassert_ok in Hm; cbn [negb orb] in Hm;
    destruct (_ <=? objective_duration_limit _) eqn:Ho in Hv; try done; unfold update_billed_cpu_time in *;
    cbn [explicit_billed_cpu_time set_cpu set_net] in *; destruct (explicit_billed_cpu_time c);
    cbn [bill_to_accounts net cpu net_used billed_cpu_time_us objective_duration_limit pseudo_start set_cpu set_net] in *;
    split_and!; try done; lia.
Qed.

(** [finalize] never fails in the charge: once its checks have passed, the accounts can pay for
    the transaction and the block has room for it, provided the transaction uses the network. *)
(** C23: On a node that makes the checks of transactions and has no greylisted accounts,
    on a chain that charges some processor time for every transaction and guarantees
    no more bytes of the network than microseconds of the processor: when a
    transaction that uses the network has passed the checks of finalize, under the
    limits it was given by init and with the accumulated use of its accounts and of
    the block and the virtual limits in range, the charge to its accounts and to the
    block does not fail, as the code says. With a greater guarantee for the network
    it can fail (theorem guaranteed_network_not_charged). *)
Theorem finalize_charge_never_fails cfg ctl u t expired now0 c0 db0 c1 db1 now c db c' :
  init cfg ctl u t expired now0 c0 db0 = Ok (c1, db1) ->
  net_limit (net c) = net_limit (net c1) -> objective_duration_limit (cpu c) = objective_duration_limit (cpu c1) ->
  bill_to_accounts c = bill_to_accounts c1 -> rl_state db = rl_state db0 -> rl_config db = rl_config db0 ->
  skip_trx_checks ctl = false -> (forall a, producing ctl && is_resource_greylisted ctl a = false) ->
  0 < min_transaction_cpu_usage cfg -> 0 < net_used (net c) < 2 ^ 63 ->
  block_inv db -> virtual_net_limit (rl_state db) < 2 ^ 40 ->
  0 <= net_byte (gmr db) <= cpu_us (gmr db) /\ cpu_us (gmr db) < 2 ^ 64 ->
  Forall (chargeable db (block_slot ctl)) (bill_to_accounts c) ->
  finalize_checks cfg ctl now c db = Ok c' ->
  exists db', finalize cfg ctl now c db = Ok (c', db').
Proof.
  intros Hinit Hnl Hol Hbill Hst Hcf Hskip Hgrey Hmin Hnet Hinv Hvirt Hgmr Hch Hfin.
  pose proof (init_limits _ _ _ _ _ _ _ _ _ _ Hinit) as (Hln & Hlo & Hd).
  assert (Hnu : 0 <= net_used (net c) < 2 ^ 63) by lia.
  destruct (finalize_checked _ _ _ _ _ _ Hskip Hnu Hfin) as (n & p & gn & gc & Hb & Hacc & Hn & Hp).
  destruct (bandwidth_le _ _ _ _ _ _ _ _ _ Hb) as (_ & _ & _ & Hl).
  destruct Hinv as [[_ Hcm _ _ _] [_ Hnm _ _ _] _ _ Hcp Hnp _ Hnv]. cbv zeta in Hnv.
  unfold get_block_net_limit, get_block_cpu_limit in *. rewrite <- Hst, <- Hcf in *.
  assert (Hmax : max_raw_value < 2 ^ 45) by done.
  rewrite (wrapU_small 64) in Hln by (clear -Hnp Hnm Hmax; lia).
  rewrite (wrapU_small 64) in Hlo by (clear -Hcp Hcm Hmax; lia).
  rewrite (wrapS_small 64) in Hlo; [|lia|change (2 ^ (64 - 1)) with (2 ^ 63); clear -Hcp Hcm Hmax; lia].
  unfold finalize. rewrite Hfin. cbn [rbind]. rewrite Hacc.
  rewrite (wrapU_small 64 (billed_cpu_time_us _)) by (clear -Hp Hlo Hol Hcp Hcm Hmax Hmin; lia).
  destruct (charge_succeeds db (billed_cpu_time_us (cpu c')) (net_used (net c')) (block_slot ctl)) with (l := bill_to_accounts c)
    as [db' Hdb]; try done; try (clear -Hp Hn Hlo Hln Hol Hnl Hcp Hcm Hnp Hnm Hnv Hvirt Hmax Hmin Hnet; lia).
  - by rewrite Hbill.
  - eapply Forall_impl; [exact Hl|]. intros a (ln & lp & Hln' & Hlp' & Hn' & Hp'). rewrite Hgrey in Hln', Hlp'. cbn in Hln', Hlp'.
    apply net_limit_spec in Hln' as (nl & Hnl' & Hav & Hneg). apply cpu_limit_spec in Hlp' as (cl & Hcl & Hav' & Hneg').
    exists cl, nl. split_and!; [done|done|destruct Hp'; [left; auto|right; lia]|destruct Hn'; [left; auto|right; lia]].
  - rewrite Hdb. by eexists.
Qed.

(** ** The end of a block: what [finalize_block] does to the resources. *)

(** The parameters of a resource with the limit of a block, and the part of it that is the target:
    the averages are over a minute, and the virtual limit is up to a thousand times the limit. *)
Definition block_parameters (limit pct : Z) : elastic_limit_parameters :=
  ElasticLimitParameters (EOS_PERCENT limit pct) limit 60 1000 (Ratio 99 100) (Ratio 1000 999).

Definition finalize_resources (cfg : chain_config) (g : gmr_parameters) (block_num : Z) (db : resource_db) : result resource_db :=
  (let* db := process_account_limit_updates db in
   let* db := set_block_parameters (block_parameters (max_block_cpu_usage cfg) (target_block_cpu_usage_pct cfg))
                (block_parameters (max_block_net_usage cfg) (target_block_net_usage_pct cfg)) db in
   let* db := process_block_usage block_num db in
   set_gmr_parameters g db)%res.

(** The parameters with the widest limit considered, of 32 bits. *)
Definition widest : elastic_limit_parameters := block_parameters (2 ^ 32 - 1) 0.

Lemma widest_ok : elastic_ok widest.
Proof. split; [by vm_compute|by vm_compute|by vm_compute|by vm_compute|]. intros r [->| ->]; by vm_compute. Qed.

(** A state in which a block can be made: what is in force and what was used is within the
    widest limits. *)
Record block_ready (db : resource_db) : Prop := {
  ready_cpu_limit : max (cpu_limit_parameters (rl_config db)) < 2 ^ 32;
  ready_net_limit : max (net_limit_parameters (rl_config db)) < 2 ^ 32;
  ready_within : within_block db;
  ready_cpu_average : average_ok widest (average_block_cpu_usage (rl_state db));
  ready_net_average : average_ok widest (average_block_net_usage (rl_state db));
  ready_cpu_virtual : 0 <= virtual_cpu_limit (rl_state db) <= max widest * 1000;
  ready_net_virtual : 0 <= virtual_net_limit (rl_state db) <= max widest * 1000;
}.

Lemma elastic_within limit pct cur avg :
  0 <= limit < 2 ^ 32 -> 0 <= cur <= max widest * 1000 ->
  exists v, update_elastic_limit cur avg (block_parameters limit pct) = Ok v /\ limit <= v <= limit * 1000.
Proof.
  intros Hl Hc. change (max widest) with (2 ^ 32 - 1) in Hc. unfold update_elastic_limit.
  destruct (target _ <? avg); rewrite ratio_mul_ok by (cbn; lia); cbn [rbind block_parameters max max_multiplier];
    (eexists; split; [reflexivity|]); rewrite wrapU_small by lia; lia.
Qed.

(** What a block needs to be closed, under parameters that may be new. *)
Definition closable (n : Z) (db : resource_db) : Prop :=
  before_block n db /\
  0 <= pending_cpu_usage (rl_state db) <= max widest /\ 0 <= pending_net_usage (rl_state db) <= max widest /\
  average_ok widest (average_block_cpu_usage (rl_state db)) /\ average_ok widest (average_block_net_usage (rl_state db)) /\
  0 <= virtual_cpu_limit (rl_state db) <= max widest * 1000 /\ 0 <= virtual_net_limit (rl_state db) <= max widest * 1000.

Lemma process_block_within db n cl cp nl np w1 w2 :
  closable n db -> n < 2 ^ 32 -> 0 <= cl < 2 ^ 32 -> 0 <= nl < 2 ^ 32 ->
  rl_config db = ResourceConfig (block_parameters cl cp) (block_parameters nl np) w1 w2 ->
  exists db', process_block_usage n db = Ok db' /\ block_ready db' /\ before_block (n + 1) db' /\
    db' = with_state (rl_state db') db /\ pending_cpu_usage (rl_state db') = 0 /\ pending_net_usage (rl_state db') = 0 /\
    cl <= virtual_cpu_limit (rl_state db') <= cl * 1000 /\ nl <= virtual_net_limit (rl_state db') <= nl * 1000 /\
    total_ram_bytes (rl_state db') = total_ram_bytes (rl_state db) /\
    total_cpu_weight (rl_state db') = total_cpu_weight (rl_state db) /\
    total_net_weight (rl_state db') = total_net_weight (rl_state db).
Proof.
  intros ([Hb1 Hb2] & Hcp & Hnp & Hca & Hna & Hcv & Hnv) Hn Hcl Hnl Hcfg.
  destruct (average_add widest _ _ n widest_ok Hca Hcp ltac:(lia)) as (ac & Hac & Hacok & Hacl & _).
  destruct (average_add widest _ _ n widest_ok Hna Hnp ltac:(lia)) as (an & Han & Hanok & Hanl & _).
  destruct (elastic_within cl cp _ (average ac) Hcl Hcv) as (vc & Hvc & Hvc').
  destruct (elastic_within nl np _ (average an) Hnl Hnv) as (vn & Hvn & Hvn').
  eexists. unfold process_block_usage. rewrite Hcfg. cbn [cpu_limit_parameters net_limit_parameters].
  change (periods (block_parameters cl cp)) with (periods widest). change (periods (block_parameters nl np)) with (periods widest).
  rewrite Hac. cbn [rbind]. rewrite Hvc. cbn [rbind]. rewrite Han. cbn [rbind]. rewrite Hvn. cbn [rbind].
  split; [reflexivity|]. change (max widest) with (2 ^ 32 - 1).
  split_and!; try done; cbn; try lia; [|split; cbn; lia].
  split; unfold within_block; cbn; rewrite ?Hcfg; cbn; try done; lia.
Qed.

Lemma block_ready_closable n db : block_ready db -> before_block n db -> closable n db.
Proof.
  intros [Hc Hn [Hcp Hnp] Hca Hna Hcv Hnv] Hb. change (max widest) with (2 ^ 32 - 1) in *.
  unfold closable. change (max widest) with (2 ^ 32 - 1). split_and!; try done; lia.
Qed.

Lemma closable_same n db db' :
  closable n db -> average_block_cpu_usage (rl_state db') = average_block_cpu_usage (rl_state db) ->
  average_block_net_usage (rl_state db') = average_block_net_usage (rl_state db) ->
  virtual_cpu_limit (rl_state db') = virtual_cpu_limit (rl_state db) ->
  virtual_net_limit (rl_state db') = virtual_net_limit (rl_state db) ->
  pending_cpu_usage (rl_state db') = pending_cpu_usage (rl_state db) ->
  pending_net_usage (rl_state db') = pending_net_usage (rl_state db) -> closable n db'.
Proof. unfold closable, before_block. by intros H -> -> -> -> -> ->. Qed.

Lemma set_parameters_ok cl cp nl np db :
  set_block_parameters (block_parameters cl cp) (block_parameters nl np) db =
  Ok (with_config (ResourceConfig (block_parameters cl cp) (block_parameters nl np)
    (account_cpu_usage_average_window (rl_config db)) (account_net_usage_average_window (rl_config db))) db).
Proof. done. Qed.

Lemma totals_run ops db db' :
  totals_inv db -> Forall in_block ops -> rfold apply_op db ops = Ok db' -> totals_inv db'.
Proof.
  intros Ht Hops. apply (rfold_inv totals_inv); [|done]. intros d o d' Ho Hd.
  apply (proj1 (Forall_forall _ _) Hops) in Ho as [Ho _]. by apply totals_inv_step.
Qed.

(** C33: Whatever transactions and changes of limits a block holds, what finalize_block
    does to the resources never throws, also when the configuration of the chain has
    changed: the pending limits come into force, the use of the block is added to
    the averages without overflow, the virtual limits lie between the limit of a
    block and a thousand times it, and the next block starts with its full limits.
    The limits of blocks are below 2^32, the guaranteed resources are positive, and
    the sums of the weights in force and of the pending ones fit 64 bits. *)
Theorem block_always_closes cfg g db ops db1 n :
  block_ready db -> totals_inv db -> before_block n db -> n < 2 ^ 32 ->
  Forall in_block ops -> rfold apply_op db ops = Ok db1 ->
  0 <= max_block_cpu_usage cfg < 2 ^ 32 -> 0 <= max_block_net_usage cfg < 2 ^ 32 ->
  0 < cpu_us g -> 0 < net_byte g -> 0 <= ram_byte g ->
  (forall f, f ∈ [ram_bytes; cpu_weight; net_weight] -> weights f (limits db1) + weights f (pending_limits db1) <= 2 ^ 64 - 1) ->
  exists db2, finalize_resources cfg g n db1 = Ok db2 /\ block_ready db2 /\ totals_inv db2 /\ before_block (n + 1) db2 /\
    limits db2 = pending_limits db1 ∪ limits db1 /\ pending_limits db2 = ∅ /\ gmr db2 = g /\
    get_block_cpu_limit db2 = max_block_cpu_usage cfg /\ get_block_net_limit db2 = max_block_net_usage cfg /\
    max_block_cpu_usage cfg <= get_virtual_block_cpu_limit db2 <= max_block_cpu_usage cfg * 1000 /\
    max_block_net_usage cfg <= get_virtual_block_net_limit db2 <= max_block_net_usage cfg * 1000.
Proof.
  intros Hr Ht Hb Hn Hops Hrun Hcl Hnl Hg1 Hg2 Hg3 Hfit.
  pose proof (totals_run _ _ _ Ht Hops Hrun) as Ht1.
  destruct (in_block_run _ _ _ Hops (ready_within _ Hr) Hrun) as [Hw1 Hpart]. injection Hpart as Hc1 Ha1 Ha2 Hv1 Hv2.
  assert (Hclos : closable n db1).
  { apply block_ready_closable; [|by unfold before_block; rewrite Ha1, Ha2].
    destruct Hr. split; rewrite ?Hc1, ?Ha1, ?Ha2, ?Hv1, ?Hv2; done. }
  destruct (pending_limits_applied db1 Ht1 Hfit) as (d1 & H1 & Hlim & Hpend & Hti).
  destruct (process_limits_block _ _ H1) as (Hpart1 & Hcp & Hnp). injection Hpart1 as Hcc Hca Hna Hcv Hnv.
  unfold finalize_resources. rewrite H1. cbn [rbind]. rewrite set_parameters_ok. cbn [rbind].
  set (d2 := with_config _ d1).
  destruct (process_block_within d2 n (max_block_cpu_usage cfg) (target_block_cpu_usage_pct cfg) (max_block_net_usage cfg)
    (target_block_net_usage_pct cfg) (account_cpu_usage_average_window (rl_config d1)) (account_net_usage_average_window (rl_config d1)))
    as (d3 & H3 & Hr3 & Hb3 & Heq & Hp3 & Hq3 & Hvc & Hvn & Htr & Htc & Htn); [by apply (closable_same _ db1)|done..|].
  rewrite H3. cbn [rbind]. unfold set_gmr_parameters, validate_gmr.
  rewrite (proj2 (Z.ltb_lt 0 (cpu_us g))), (proj2 (Z.ltb_lt 0 (net_byte g))), (proj2 (Z.leb_le 0 (ram_byte g))) by done.
  cbn [rassert rbind]. eexists. split; [reflexivity|].
  unfold get_block_cpu_limit, get_block_net_limit. cbn [with_gmr rl_config rl_state]. rewrite Hp3, Hq3, !Z.sub_0_r.
  replace (rl_config d3) with (rl_config d2) by by rewrite Heq.
  replace (limits (with_gmr g d3)) with (limits d1) by by rewrite Heq.
  replace (pending_limits (with_gmr g d3)) with (pending_limits d1) by by rewrite Heq.
  cbn. rewrite !wrapU_small by lia.
  split_and!; try done; [by destruct Hr3; split| | | | |]; try apply Hvc; try apply Hvn.
  destruct Hti as (Ht1' & Ht2' & Ht3' & Ht4').
  unfold totals_inv. cbn. rewrite Htr, Htc, Htn.
  replace (limits d3) with (limits d1) by by rewrite Heq. replace (pending_limits d3) with (pending_limits d1) by by rewrite Heq.
  done.
Qed.

(** ** Examples. *)
Definition tx_control : control := Control false false (fun _ => false) 12.

(** Account 5 has staked next to account 6; it signs a transaction of 200 bytes. *)
Definition tx_setup : list resource_op :=
  [OpAccount 5; OpAccount 6; OpLimits 5 (-1) 100 100; OpLimits 6 (-1) 1000000000 1000000000; OpProcessLimits].
Definition tx_db : resource_db := rx_run_db tx_setup.
Definition tx_limits : trx_limits := TrxLimits 0 0 [5].
Definition tx_context0 : trx_context := new_context 1000 (2 ^ 62) 3000 0 false.

Definition tx_initial : trx_context * resource_db :=
  Eval vm_compute in
    match init initial_configuration tx_control 200 tx_limits false 1000 tx_context0 tx_db with Ok r => r | Err _ => (tx_context0, tx_db) end.
Definition tx_final : trx_context :=
  Eval vm_compute in
    match finalize_checks initial_configuration tx_control 1500 (fst tx_initial) (snd tx_initial) with Ok c => c | Err _ => tx_context0 end.

Lemma finalize_charge_never_fails_witness :
  (exists db', finalize initial_configuration tx_control 1500 (fst tx_initial) (snd tx_initial) = Ok (tx_final, db')) /\
  net_used (net tx_final) = 200 /\ billed_cpu_time_us (cpu tx_final) = 500.
Proof.
  split; [|split; reflexivity].
  apply (finalize_charge_never_fails initial_configuration tx_control 200 tx_limits false 1000 tx_context0 tx_db (fst tx_initial)
    (snd tx_initial) 1500 (fst tx_initial) (snd tx_initial) tx_final).
  - vm_compute. reflexivity.
  - reflexivity.
  - reflexivity.
  - reflexivity.
  - vm_compute. reflexivity.
  - vm_compute. reflexivity.
  - reflexivity.
  - intros a. reflexivity.
  - vm_compute. reflexivity.
  - split; vm_compute; reflexivity.
  - split; try (apply default_elastic_ok; auto); unfold average_ok, accumulator_ok; vm_compute; intuition discriminate.
  - vm_compute. reflexivity.
  - vm_compute. intuition discriminate.
  - constructor; [|constructor]. eexists _, _, _, _. split; [vm_compute; reflexivity|]. split; [vm_compute; reflexivity|].
    split; [vm_compute; reflexivity|]. unfold room, accumulator_ok. split; vm_compute; intuition discriminate.
  - vm_compute. reflexivity.
Defined.

(** Account 5 used 400000 bytes before its stake was lowered. *)
Definition over_db : resource_db :=
  rx_run_db [OpAccount 5; OpAccount 6; OpLimits 5 (-1) 1000000000 1000; OpLimits 6 (-1) 1 1; OpProcessLimits;
             OpTransaction [5] 1000 400000 10; OpLimits 5 (-1) 1 1000; OpLimits 6 (-1) 1000000000 1; OpProcessLimits].

(** A transaction that uses no network, as a deferred one, passes all checks of [finalize] for an
    account that has used more than its lowered stake allows; then the charge of nothing fails,
    which the code says never happens. *)
(** C24: A transaction that uses no network passes every check of finalize for an
    account that has used more than its lowered stake allows, and then the charge
    fails, which the code says never happens. *)
Theorem unused_network_charge_fails :
  exists c db c', init initial_configuration tx_control 0 tx_limits false 1000 tx_context0 over_db = Ok (c, db) /\
    finalize_checks initial_configuration tx_control 1500 c db = Ok c' /\ net_used (net c') = 0 /\
    finalize initial_configuration tx_control 1500 c db =
      Err "authorizing account has insufficient net resources for this transaction".
Proof. eexists _, _, _. split; [vm_compute; reflexivity|]. split; [vm_compute; reflexivity|]. split; vm_compute; reflexivity. Qed.

(** A block in which account 6 has asked for less. *)
Definition end_ops : list resource_op := rx_ops ++ [OpLimits 6 (-1) 7 9].

Lemma initial_ready : block_ready (initialize_database ∅ None).
Proof.
  split; try (by vm_compute); unfold within_block, average_ok, accumulator_ok; vm_compute; intuition discriminate.
Qed.

Lemma block_always_closes_witness :
  exists db2, finalize_resources initial_configuration default_gmr 2 (rx_run_db end_ops) = Ok db2 /\ block_ready db2 /\
    get_block_cpu_limit db2 = 1000000 /\ pending_limits db2 = ∅.
Proof.
  destruct (block_always_closes initial_configuration default_gmr (initialize_database ∅ None) end_ops (rx_run_db end_ops) 2)
    as (db2 & H & Hr & _ & _ & _ & Hp & _ & Hc & _).
  - exact initial_ready.
  - split_and!; [done..|]. intros a [? H]. done.
  - by split.
  - lia.
  - repeat constructor; cbn; try lia; set_solver.
  - vm_compute. reflexivity.
  - by vm_compute.
  - by vm_compute.
  - done.
  - done.
  - done.
  - intros f [->|[->|[->|[]%elem_of_nil]%elem_of_cons]%elem_of_cons]%elem_of_cons; vm_compute; discriminate.
  - exists db2. split; [exact H|]. split; [exact Hr|]. split; [exact Hc|exact Hp].
Defined.

(** A chain that guarantees more bytes of the network than microseconds of the processor; account
    5 has no stake. *)
Definition guaranteed_db : resource_db :=
  rx_run_db [OpAccount 5; OpAccount 6; OpLimits 5 (-1) 0 0; OpLimits 6 (-1) 1000 1000; OpProcessLimits;
             OpGmr (GmrParameters 8192 1000 1000000)].

(** The charge adds the guaranteed time of the processor, instead of the guaranteed bytes, to the
    limit of the network: a transaction of 2000 bytes that is within all limits it was checked
    against fails in the charge. *)
Theorem guaranteed_network_not_charged :
  exists c db c', init initial_configuration tx_control 2000 tx_limits false 1000 tx_context0 guaranteed_db = Ok (c, db) /\
    get_account_net_limit 5 true db = Ok 1000000 /\
    finalize_checks initial_configuration tx_control 1500 c db = Ok c' /\ net_used (net c') = 2000 /\
    finalize initial_configuration tx_control 1500 c db =
      Err "authorizing account has insufficient net resources for this transaction".
Proof.
  eexists _, _, _. split; [vm_compute; reflexivity|]. split; [vm_compute; reflexivity|].
  split; [vm_compute; reflexivity|]. split; vm_compute; reflexivity.
Qed.
