(* ===== verification/Transactions.v ===== *)
(** * Transactions of a block.

    [controller.cpp], [transaction_context.cpp] and [apply_context.cpp]: input transactions
    are checked against their expiration, the reference block, the accounts they name, and the
    permissions of those who signed, and are recorded so that they run once; transactions that
    are delayed, or that contracts send, are stored and run later, within a window of time.
    A transaction that fails leaves no trace.

    The code of the contracts is arbitrary.  What it does to the chain is the sequence of the
    operations of the host it calls; an execution is given by that sequence, and the theorems
    hold for all of them.  The serialization of the host, the hash of a transaction and the
    keys recovered from signatures belong to other libraries and are parameters. *)
From stdpp Require Import base gmap list strings.
From Stdlib Require Import ZArith Lia Sorted.
From S2P Require Import Prelude Name Asset Runtime Datastream Authority Permissions NativeActions Resources TrxContext.

Open Scope Z_scope.

(** A deferred transaction, [generated_transaction_object]. *)
Record generated_transaction_object := Gto {
  gto_trx_id : Z;
  gto_sender : Z;
  gto_sender_id : Z;
  gto_payer : Z;
  gto_delay_until : Z;
  gto_expiration : Z;
  gto_published : Z;
  gto_packed_trx : list Z;
}.

Definition gto_billable_size : Z := billable_size_v (96 + 4 + 32 * 5).

(** What of a block id the reference of a transaction is compared with. *)
Record block_ref := BlockRef { br_num : Z; br_prefix : Z }.

Definition set_reference_block (b : block_ref) (h : transaction_header) : transaction_header :=
  TransactionHeader (expiration h) (u16 (br_num b)) (u32 (br_prefix b)) (net_usage_words h) (max_cpu_usage_ms h) (delay_sec h).

Definition verify_reference_block (b : block_ref) (h : transaction_header) : bool :=
  (ref_block_num h =? u16 (br_num b)) && (ref_block_prefix h =? u32 (br_prefix b)).

(** The receipts of a block: who was run and how it ended. *)
Inductive receipt_status := executed | soft_fail | hard_fail | delayed | expired.
Inductive receipt_source :=
| Input (t : transaction)        (* a transaction that came in, or one that starts a block *)
| Scheduled (id trx : Z).        (* a deferred one: the row it had, and the id in the receipt *)
Record receipt := Receipt { r_source : receipt_source; r_status : receipt_status; r_time : Z }.

(** ** The lists of a node: [check_actor_list].

    Sets are their elements in ascending order. *)
Record actor_lists := ActorLists { actor_whitelist : list Z; actor_blacklist : list Z }.

(** [std::lower_bound], as what is left from there on. *)
Fixpoint lower_bound (a : Z) (l : list Z) : list Z :=
  match l with
  | [] => []
  | b :: l' => if b <? a then lower_bound a l' else l
  end.

(** The loop over the actors, from the place of the last one in the whitelist. *)
Fixpoint walk_subset (rest : list Z) (actors : list Z) : bool :=
  match actors with
  | [] => true
  | a :: actors =>
      match lower_bound a rest with
      | [] => false
      | b :: rest => if b =? a then walk_subset rest actors else false
      end
  end.

Fixpoint walk_intersects (rest : list Z) (actors : list Z) : bool :=
  match actors with
  | [] => false
  | a :: actors =>
      match lower_bound a rest with
      | [] => false
      | (b :: _) as rest => if b =? a then true else walk_intersects rest actors
      end
  end.

Definition check_actor_list (lists : actor_lists) (actors : list Z) : result unit :=
  match actors with
  | [] => Ok tt
  | first :: _ =>
      let last_actor := List.last actors first in
      match actor_whitelist lists with
      | w :: _ =>
          let whitelist := actor_whitelist lists in
          rassert ((w <=? first) && (last_actor <=? List.last whitelist w) && walk_subset whitelist actors)
            "actor_whitelist_exception"
      | [] =>
          match actor_blacklist lists with
          | b :: _ =>
              let blacklist := actor_blacklist lists in
              rassert (negb ((first <=? List.last blacklist b) && (b <=? last_actor) && walk_intersects blacklist actors))
                "actor_blacklist_exception"
          | [] => Ok tt
          end
      end
  end.

(** ** The chain. *)
Section transactions.
Context {key : Type} `{!EqDecision key}.
Context (microseconds_maximum : Z).
(** [fc::raw::pack] and [unpack], [transaction::id], [transaction_id_to_sender_id]. *)
Context (host_pack : transaction -> list Z) (host_unpack : list Z -> result transaction).
Context (trx_id_of : transaction -> Z) (sender_id_of_trx : Z -> Z).
(** The packed arguments of [onerror]. *)
Context (host_pack_onerror : Z -> list Z -> list Z).
(** The arguments of an action where they are those of a native action. *)
Context (native_data_of : raw_action -> native_data (key := key)).
(** The tables of the contracts. *)
Context {W : Type}.
Abbreviation auth_db := (Permissions.auth_db (key := key)) (only parsing).

Record chain := Chain {
  dedupe : gmap Z Z;                (* [transaction_object]: the expiration by id *)
  summaries : gmap Z block_ref;     (* [block_summary_object] *)
  generated : gmap Z generated_transaction_object;
  next_gto_id : Z;
  resources : resource_db;
  auths : auth_db;
  tables : W;
}.
Implicit Types (c : chain) (t : transaction) (x : trx_context).

Definition set_dedupe d c : chain :=
  Chain d (summaries c) (generated c) (next_gto_id c) (resources c) (auths c) (tables c).
Definition set_summaries s c : chain :=
  Chain (dedupe c) s (generated c) (next_gto_id c) (resources c) (auths c) (tables c).
Definition set_generated g next c : chain :=
  Chain (dedupe c) (summaries c) g next (resources c) (auths c) (tables c).
Definition set_resources r c : chain :=
  Chain (dedupe c) (summaries c) (generated c) (next_gto_id c) r (auths c) (tables c).
Definition set_auths a c : chain :=
  Chain (dedupe c) (summaries c) (generated c) (next_gto_id c) (resources c) a (tables c).
Definition set_tables a w c : chain :=
  Chain (dedupe c) (summaries c) (generated c) (next_gto_id c) (resources c) a w.

(** The node and its pending block. *)
Record node := Node {
  configuration : chain_config;
  node_control : control;
  skip_auth : bool;                       (* [skip_auth_check()] *)
  lists : actor_lists;
  sender_bypass : Z -> bool;              (* [sender_avoids_whitelist_blacklist_enforcement] *)
  allow_ram_billing_in_notify : bool;
  chain_maintain : bool;                  (* [is_func_has_open( chain_maintain_stat )] *)
  pending_block_time : Z;
  head_block : block_ref;
}.
Implicit Types (n : node).

Definition is_producing n : bool := producing (node_control n).

Definition to_native (a : raw_action) : chain_action (key := key) :=
  ChainAction (a_account a) (a_name a) (a_authorization a) (native_data_of a).

(** The permissions, with the deferred transactions they are checked against. *)
Definition auth_view c : auth_db :=
  let d := auths c in
  AuthDb (perm_index d) (perm_by_owner d) (next_perm_id d) (usage_index d) (next_usage_id d) (link_index d) (account_index d)
    (list_to_map (map (fun g => (gto_trx_id g, GeneratedTransaction (gto_sender g) (gto_delay_until g) (gto_published g)
       (match host_unpack (gto_packed_trx g) with Ok t => map a_authorization (actions t) | Err _ => [] end)))
       (map snd (map_to_list (generated c)))))
    (Permissions.ram_deltas d).

(** *** Checks on a transaction. *)
Definition seconds (s : Z) : Z := s * 1000000.

Definition validate_expiration n (h : transaction_header) : result unit :=
  (check* pending_block_time n <=? seconds (expiration h) with "expired_tx_exception" in
   rassert (seconds (expiration h) <=? pending_block_time n + seconds (max_transaction_lifetime (configuration n)))
     "tx_exp_too_far_exception")%res.

Definition validate_tapos (h : transaction_header) c : result unit :=
  (let* s := of_option (summaries c !! u16 (ref_block_num h)) "unknown key" in
   rassert (verify_reference_block s h) "invalid_ref_block_exception")%res.

Definition validate_auth (d : auth_db) (auth : Z * Z) : result unit :=
  (check* bool_decide (is_Some (account_index d !! fst auth)) with "transaction_exception" in
   let* o := find_permission auth d in
   rassert (bool_decide (o <> None)) "transaction_exception")%res.

Definition validate_referenced_accounts n t (enforce_actor_whitelist_blacklist : bool) c : result unit :=
  let d := auths c in
  (let* _ := rfold (fun _ a => check* bool_decide (is_Some (account_index d !! a_account a)) with "transaction_exception" in
                               rassert (bool_decide (a_authorization a = [])) "transaction_exception")
               tt (context_free_actions t) in
   let* _ := rfold (fun _ a => check* bool_decide (is_Some (account_index d !! a_account a)) with "transaction_exception" in
                               rfold (fun _ auth => validate_auth d auth) tt (a_authorization a))
               tt (actions t) in
   check* existsb (fun a => bool_decide (a_authorization a <> [])) (actions t) with "tx_no_auths" in
   if enforce_actor_whitelist_blacklist
   then check_actor_list (lists n)
          (foldl (fun s a => insert_account a s) [] (concat (map (fun a => map fst (a_authorization a)) (actions t))))
   else Ok tt)%res.

(** [check_action]: what is allowed while the chain is maintained. *)
Definition check_actions n (l : list raw_action) : result unit :=
  rfold (fun _ a =>
    rassert (negb (chain_maintain n)
             || (a_account a =? config.system_account_name) && ((a_name a =? N_ "setconfig") || (a_name a =? N_ "onblock"))
             || (a_account a =? config.token_account_name) && (a_name a =? N_ "fee"))
      "invalid_action_args_exception") tt l.

Definition record_transaction (id expire : Z) c : result chain :=
  match dedupe c !! id with
  | Some _ => Err "tx_duplicate"
  | None => Ok (set_dedupe (<[id := expire]> (dedupe c)) c)
  end.

(** The oldest are removed as long as they have expired. *)
Definition clear_expired_input_transactions n c : chain :=
  set_dedupe (filter (fun p : Z * Z => pending_block_time n <= seconds (snd p)) (dedupe c)) c.

Definition create_block_summary (b : block_ref) c : chain :=
  set_summaries (<[Z.land (br_num b) 0xffff := b]> (summaries c)) c.

(** *** Deferred transactions. *)

Definition find_by_sender (sender sender_id : Z) c : option (Z * generated_transaction_object) :=
  head (List.filter (fun p => (gto_sender (snd p) =? sender) && (gto_sender_id (snd p) =? sender_id))
          (map_to_list (generated c))).

Definition find_by_trx_id (id : Z) c : option (Z * generated_transaction_object) :=
  head (List.filter (fun p => gto_trx_id (snd p) =? id) (map_to_list (generated c))).

(** The indices by transaction and by sender are unique. *)
Definition create_gto (g : generated_transaction_object) c : result chain :=
  match find_by_trx_id (gto_trx_id g) c, find_by_sender (gto_sender g) (gto_sender_id g) c with
  | None, None => Ok (set_generated (<[next_gto_id c := g]> (generated c)) (next_gto_id c + 1) c)
  | _, _ => Err "could not insert object, most likely a uniqueness constraint was violated"
  end.

Definition gto_size (g : generated_transaction_object) : Z := gto_billable_size + len (gto_packed_trx g).

(** Who sends: the receiver that runs, for which action, and with which privilege. *)
Record sender := Sender {
  s_receiver : Z;
  s_act_account : Z;
  s_act_authorization : list (Z * Z);
  s_privileged : bool;
}.

Definition add_ram (account delta : Z) (cx : chain * trx_context) : result (chain * trx_context) :=
  (let* (x, db) := TrxContext.add_ram_usage account delta (snd cx) (resources (fst cx)) in
   Ok (set_resources db (fst cx), x))%res.

Definition add_net n (u : Z) (cx : chain * trx_context) : result (chain * trx_context) :=
  (let* s := add_net_usage (node_control n) u (net (snd cx)) in Ok (fst cx, set_net s (snd cx)))%res.

(** The checks of what a contract without privilege sends. *)
Definition check_sent n (s : sender) (payer : Z) t c : result unit :=
  if skip_auth n || s_privileged s then Ok tt else
  (check* (payer =? s_receiver s) || has_authorization (s_act_authorization s) payer with "missing_auth_exception" in
   match check_authorization microseconds_maximum (cfg_max_transaction_delay (configuration n))
           (Z.to_nat (cfg_max_authority_depth (configuration n))) (map to_native (actions t)) []
           [(s_receiver s, eosio_code_name)] (seconds (delay_sec (header t))) false [] (auth_view c) with
   | Ok _ => Ok tt
   | Err m =>
       if negb (forallb (fun a => a_account a =? s_receiver s) (actions t)) then Err m
       else if is_producing n then Err "subjective_block_production_exception"
       else Ok tt
   end)%res.

(** Rounded up to the next second; the reference is that of the head block. *)
Definition stamp n t : transaction :=
  let h := header t in
  Transaction (set_reference_block (head_block n)
                 (TransactionHeader (u32 ((pending_block_time n + 999999) / 1000000)) (ref_block_num h) (ref_block_prefix h)
                    (net_usage_words h) (max_cpu_usage_ms h) (delay_sec h)))
    (context_free_actions t) (actions t) (transaction_extensions t).

Definition retire_net_usage n : Z := u64 (base_per_transaction_net_usage (configuration n) + transaction_id_net_usage).

Definition schedule_deferred_transaction n (enforce : bool) (s : sender) (sender_id payer : Z) t (replace_existing : bool)
    (cx : chain * trx_context) : result (chain * trx_context) :=
  (check* bool_decide (context_free_actions t = []) with "cfa_inside_generated_tx" in
   let t := stamp n t in
   let* _ := validate_referenced_accounts n t (enforce && is_producing n && negb (sender_bypass n (s_receiver s))) (fst cx) in
   let* (c, x) := add_net n (retire_net_usage n) cx in
   let delay := seconds (delay_sec (header t)) in
   let* _ := check_sent n s payer t c in
   let published := pending_block_time n in
   let delay_until := published + delay in
   let expires := delay_until + seconds (deferred_trx_expiration_window (configuration n)) in
   let packed := host_pack t in
   let* c :=
     match find_by_sender (s_receiver s) sender_id c with
     | Some (id, g) =>
         check* replace_existing with "deferred_tx_duplicate" in
         check* negb (is_producing n) with "subjective_block_production_exception" in
         Ok (set_generated (<[id := Gto (gto_trx_id g) (s_receiver s) sender_id payer delay_until expires published packed]>
                              (generated c)) (next_gto_id c) c)
     | None => create_gto (Gto (trx_id_of t) (s_receiver s) sender_id payer delay_until expires published packed) c
     end in
   check* negb (is_producing n) || allow_ram_billing_in_notify n || (s_receiver s =? s_act_account s) || (s_receiver s =? payer)
          || s_privileged s with "subjective_block_production_exception" in
   add_ram payer (gto_billable_size + u32 (len packed)) (c, x))%res.

Definition cancel_deferred_transaction (sender_id sender_account : Z) (cx : chain * trx_context) : result (chain * trx_context) :=
  match find_by_sender sender_account sender_id (fst cx) with
  | None => Ok cx
  | Some (id, g) =>
      (let* (c, x) := add_ram (gto_payer g) (- gto_size g) cx in
       Ok (set_generated (delete id (generated c)) (next_gto_id c) c, x))%res
  end.

Definition first_authorizor t : Z :=
  match concat (map a_authorization (actions t)) with [] => 0 | u :: _ => fst u end.

(** [schedule_transaction]: an input transaction with a delay. *)
Definition schedule_transaction n t (cx : chain * trx_context) : result (chain * trx_context) :=
  (let* (c, x) := if delay_sec (header t) =? 0 then add_net n (retire_net_usage n) cx else Ok cx in
   let published := pending_block_time n in
   let delay_until := published + seconds (delay_sec (header t)) in
   let packed := host_pack t in
   let g := Gto (trx_id_of t) 0 (sender_id_of_trx (trx_id_of t)) (first_authorizor t) delay_until
              (delay_until + seconds (deferred_trx_expiration_window (configuration n))) published packed in
   let* c := create_gto g c in
   add_ram (first_authorizor t) (gto_billable_size + u32 (len packed)) (c, x))%res.

(** *** What code calls. *)
Inductive host_op : Type :=
| HSchedule (s : sender) (sender_id payer : Z) (t : transaction) (replace_existing : bool)
| HCancel (sender_id sender_account : Z)
| HRam (account delta : Z)
| HNet (u : Z)
| HLimits (account ram net cpu : Z)
| HWrite (a : auth_db) (w : W)          (* any change of the permissions and of the tables of contracts *)
| HAbort (m : string).

Definition run_op n (enforce : bool) (cx : chain * trx_context) (o : host_op) : result (chain * trx_context) :=
  match o with
  | HSchedule s sender_id payer t r => schedule_deferred_transaction n enforce s sender_id payer t r cx
  | HCancel sender_id a => cancel_deferred_transaction sender_id a cx
  | HRam a delta => add_ram a delta cx
  | HNet u => add_net n u cx
  | HLimits a ram net cpu =>
      (let* r := set_account_limits a ram net cpu (resources (fst cx)) in Ok (set_resources (snd r) (fst cx), snd cx))%res
  | HWrite a w => Ok (set_tables a w (fst cx), snd cx)
  | HAbort m => Err m
  end.

Definition run_ops n (enforce : bool) (ops : list host_op) (cx : chain * trx_context) : result (chain * trx_context) :=
  rfold (run_op n enforce) cx ops.

(** *** Transactions. *)

(** The clock, where it is read: at the start, when the limits are set, and at the end. *)
Record clock := Clock { at_start : Z; timer_expired : bool; at_init : Z; at_end : Z }.

Definition declared t : trx_limits :=
  TrxLimits (net_usage_words (header t)) (max_cpu_usage_ms (header t)) (concat (map (fun a => map fst (a_authorization a)) (actions t))).

Definition init_context n (usage : Z) t (k : clock) (cx : chain * trx_context) : result (chain * trx_context) :=
  (let* (x, db) := init (configuration n) (node_control n) usage (declared t) (timer_expired k) (at_init k) (snd cx)
                     (resources (fst cx)) in
   Ok (set_resources db (fst cx), x))%res.

Definition finalize_context n (k : clock) (cx : chain * trx_context) : result (chain * trx_context) :=
  (let* (x, db) := finalize (configuration n) (node_control n) (at_end k) (snd cx) (resources (fst cx)) in
   Ok (set_resources db (fst cx), x))%res.

(** [finalize] of an input transaction marks the permissions that were used. *)
Definition mark_used n t c : result chain :=
  (let* d := rfold (fun d auth => let* p := get_permission auth d in
                                  Ok (update_permission_usage (snd p) (pending_block_time n) d))
               (auths c) (concat (map a_authorization (actions t))) in
   Ok (set_auths d c))%res.

(** The caller's terms: the deadline, the leeway, and the time that is billed, where a block says so. *)
Record terms := Terms { t_deadline : Z; t_leeway : Z; t_billed : Z; t_explicit : bool }.

Definition default_leeway : Z := 3000.

Definition open_context (k : clock) (m : terms) t : result trx_context :=
  (check* len (transaction_extensions t) <=? 16 with "tx_too_big" in
   Ok (new_context (at_start k) (t_deadline m) (t_leeway m) (t_billed m) (t_explicit m)))%res.

(** [push_transaction] of an input transaction: the sizes it has on the wire, the keys that
    signed it, and the operations its actions make.  An error leaves the chain as it was. *)
Definition push_transaction n (m : terms) (k : clock) t (unprunable prunable : Z) (keys : list key) (skip_recording : bool)
    (ops : list host_op) c : result (chain * receipt) :=
  (check* negb (t_deadline m =? 0) with "transaction_exception" in
   let* _ := check_actions n (actions t) in
   let* x := open_context k m t in
   let* _ := if skip_trx_checks (node_control n) then Ok tt else
             (let* _ := validate_expiration n (header t) in
              let* _ := validate_tapos (header t) c in
              validate_referenced_accounts n t (is_producing n) c) in
   let* (c, x) := init_context n (input_net_usage (configuration n) unprunable prunable (delay_sec (header t))) t k (c, x) in
   let* c := if skip_recording then Ok c else record_transaction (trx_id_of t) (expiration (header t)) c in
   let* _ := if skip_auth n then Ok tt else
             check_authorization microseconds_maximum (cfg_max_transaction_delay (configuration n))
               (Z.to_nat (cfg_max_authority_depth (configuration n))) (map to_native (actions t)) keys []
               (seconds (delay_sec (header t))) false [] (auth_view c) in
   let* (c, x) := if delay_sec (header t) =? 0 then run_ops n true ops (c, x) else schedule_transaction n t (c, x) in
   let* c := mark_used n t c in
   let* (c, x) := finalize_context n k (c, x) in
   Ok (c, Receipt (Input t) (if delay_sec (header t) =? 0 then executed else delayed) (pending_block_time n)))%res.

(** *** Running what was deferred. *)
Definition subjective_names : list string :=
  ["subjective_block_production_exception"; "block_net_usage_exceeded"; "greylist_net_usage_exceeded";
   "block_cpu_usage_exceeded"; "greylist_cpu_usage_exceeded"; "deadline_exception"; "leeway_deadline_exception";
   "actor_whitelist_exception"; "actor_blacklist_exception"; "contract_whitelist_exception";
   "contract_blacklist_exception"; "action_blacklist_exception"; "key_blacklist_exception"]%string.

Definition failure_is_subjective (e : string) : bool := bool_decide (e ∈ subjective_names).
Definition scheduled_failure_is_subjective (e : string) : bool :=
  bool_decide (e = "tx_cpu_usage_exceeded"%string) || failure_is_subjective e.

Definition remove_scheduled_transaction (id : Z) (g : generated_transaction_object) c : result chain :=
  (let* db := add_pending_ram_usage (gto_payer g) (- gto_size g) (resources c) in
   Ok (set_generated (delete id (generated c)) (next_gto_id c) (set_resources db c)))%res.

(** The transaction itself, up to the receipt. *)
Definition run_deferred n (enforce : bool) t (k : clock) (ops : list host_op) c x : result chain :=
  (let* _ := check_actions n (actions t) in
   let* (c, x) := init_context n 0 t k (c, x) in
   let* _ := if enforce && is_producing n then check_actor_list (lists n) (bill_to_accounts x) else Ok tt in
   let* (c, x) := run_ops n enforce ops (c, x) in
   let* (c, x) := finalize_context n k (c, x) in
   Ok c)%res.

(** [apply_onerror]: the sender is told. *)
Definition onerror_transaction n (g : generated_transaction_object) : transaction :=
  Transaction (set_reference_block (head_block n)
                 (TransactionHeader (u32 ((pending_block_time n + 999999) / 1000000)) 0 0 0 0 0)) []
    [RawAction config.system_account_name (N_ "onerror") [(gto_sender g, active)]
       (host_pack_onerror (gto_sender_id g) (gto_packed_trx g))] [].

Definition apply_onerror n (enforce : bool) (g : generated_transaction_object) (k : clock) (m : terms) (ops : list host_op) c
  : result chain :=
  let t := onerror_transaction n g in
  (let* x := open_context k m t in
   let* (c, x) := init_context n 0 t k (c, x) in
   let* (c, x) := run_ops n enforce ops (c, x) in
   let* (c, x) := finalize_context n k (c, x) in
   Ok c)%res.

(** What the context of a failed transaction holds: the accounts to bill and the limit of the
    processor, as far as they were set. *)
Definition failed_context n t x c : list Z * Z :=
  match check_actions n (actions t) with
  | Err _ => ([], 0)
  | Ok _ =>
      let '(objective, code) := initial_cpu_limit (configuration n) (declared t) (resources c) in
      let p := CpuState objective objective false code 0 0 code 0 0 0 in
      let billed := billed_cpu_time_us (cpu x) in
      (if (0 <? billed) && negb (is_ok (validate_cpu_usage_to_bill (configuration n) (node_control n) billed false p)) then []
       else foldl (fun s a => insert_account a s) [] (actors (declared t)), objective)
  end.

(** The charge for a transaction that failed hard. *)
Definition bill_failed n (m : terms) (accounts : list Z) (limit cpu_time : Z) c : result chain :=
  (let* (db, cpu_time) :=
     if t_explicit m then Ok (resources c, cpu_time) else
     (let* db := update_account_usage accounts (block_slot (node_control n)) (resources c) in
      let* (_, account_cpu_limit, _, _) := max_bandwidth_billed_accounts_can_pay (node_control n) true accounts db in
      Ok (db, u32 (Z.min (Z.min cpu_time account_cpu_limit) limit))) in
   let* db := add_transaction_usage accounts cpu_time 0 (block_slot (node_control n)) db in
   Ok (set_resources db c))%res.

(** The time to bill a failed transaction that started at [start]. *)
Definition failed_time n (m : terms) (from till : Z) : Z :=
  if t_explicit m then u32 (t_billed m) else u32 (Z.max (till - from) (min_transaction_cpu_usage (configuration n))).

(** [push_scheduled_transaction]: without a receipt the failure was subjective, and the
    transaction stays for another block. *)
Definition push_scheduled_transaction n (m : terms) (k k_error : clock) (id : Z) (ops onerror_ops : list host_op) c
  : result (chain * option receipt) :=
  (let* g := of_option (generated c !! id) "unknown_transaction_exception" in
   let* c1 := remove_scheduled_transaction id g c in
   check* gto_delay_until g <=? pending_block_time n with "transaction_exception" in
   let* t := host_unpack (gto_packed_trx g) in
   let done status c := Ok (c, Some (Receipt (Scheduled id (gto_trx_id g)) status (pending_block_time n))) in
   if gto_expiration g <? pending_block_time n then done expired c1 else
   let enforce := if gto_sender g =? 0 then true else negb (sender_bypass n (gto_sender g)) in
   let* x := open_context k (Terms (t_deadline m) 0 (t_billed m) (t_explicit m)) t in
   match run_deferred n enforce t k ops c1 x with
   | Ok c2 => done executed c2
   | Err e =>
       let on_error :=
         if (negb (gto_sender g =? 0)) && negb (failure_is_subjective e)
         then Some (apply_onerror n enforce g (Clock (at_start k) (timer_expired k_error) (at_init k_error) (at_end k_error))
                      (Terms (t_deadline m) default_leeway (t_billed m) (t_explicit m)) onerror_ops c1)
         else None in
       match on_error with
       | Some (Ok c2) => done soft_fail c2
       | _ =>
           let e := match on_error with Some (Err e) => e | _ => e end in
           let till := match on_error with Some _ => at_end k_error | None => at_end k end in
           if (if t_explicit m then failure_is_subjective e else scheduled_failure_is_subjective e) then Ok (c, None) else
           let '(accounts, limit) := failed_context n t x c1 in
           let* c2 := bill_failed n m accounts limit (failed_time n m (at_start k) till) c1 in
           done hard_fail c2
       end
   end)%res.

(** *** The start of a block: the transaction that runs [onblock], whose failure is ignored, and
    the records of expired transactions. *)
Definition start_block n (ops : list host_op) (k : clock) t c : chain :=
  let onblock :=
    (let* _ := check_actions n (actions t) in
     let* x := open_context k (Terms microseconds_maximum default_leeway (min_transaction_cpu_usage (configuration n)) true) t in
     let* (c, x) := init_context n 0 t k (c, x) in
     let* (c, x) := run_ops n false ops (c, x) in
     let* (c, x) := finalize_context n k (c, x) in
     Ok c)%res in
  clear_expired_input_transactions n (match onblock with Ok c => c | Err _ => c end).
End transactions.

(** * Theorems. *)

(** ** The lists of actors. *)
Lemma lower_bound_spec a l : StronglySorted Z.lt l ->
  StronglySorted Z.lt (lower_bound a l) /\ (forall b, b ∈ lower_bound a l <-> b ∈ l /\ a <= b).
Proof.
  induction 1 as [|x l Hl IH Hx]; cbn; [split; [constructor|set_solver]|]. rewrite Forall_forall in Hx.
  destruct (Z.ltb_spec x a).
  - destruct IH as [IH1 IH2]. split; [done|]. intros b. rewrite IH2. set_solver by lia.
  - split; [by constructor; [|apply Forall_forall]|]. intros b. split; [|by intros [? _]].
    intros Hb. split; [done|]. apply elem_of_cons in Hb as [->|Hb]; [lia|]. specialize (Hx b Hb). lia.
Qed.

Lemma walk_subset_iff actors : StronglySorted Z.lt actors -> forall rest, StronglySorted Z.lt rest ->
  walk_subset rest actors = true <-> forall a, a ∈ actors -> a ∈ rest.
Proof.
  induction 1 as [|a actors Ha IH Hlt]; intros rest Hr; cbn; [set_solver|]. rewrite Forall_forall in Hlt.
  destruct (lower_bound_spec a rest Hr) as [Hs Hm]. destruct (lower_bound a rest) as [|b rest'] eqn:E.
  - split; [done|]. intros H. specialize (H a ltac:(set_solver)). exfalso. apply (not_elem_of_nil (A := Z) a). apply Hm. split; [done|lia].
  - apply StronglySorted_inv in Hs as [Hs' Hb]. rewrite Forall_forall in Hb. destruct (Z.eqb_spec b a) as [->|Hne].
    + rewrite (IH rest' Hs'). split.
      * intros H x [->|Hx]%elem_of_cons; [by apply Hm; left|]. apply Hm. right. auto.
      * intros H x Hx. assert (Hin : x ∈ a :: rest').
        { apply Hm. split; [apply H; by right|]. specialize (Hlt x Hx). lia. }
        apply elem_of_cons in Hin as [->|?]; [|done]. specialize (Hlt a Hx). lia.
    + split; [done|]. intros H. assert (Hin : a ∈ b :: rest') by (apply Hm; split; [apply H; by left|lia]).
      apply elem_of_cons in Hin as [->|Hin]; [done|]. specialize (Hb a Hin).
      assert (b ∈ rest /\ a <= b) as [_ ?] by (apply Hm; by left). lia.
Qed.

Lemma walk_intersects_iff actors : StronglySorted Z.lt actors -> forall rest, StronglySorted Z.lt rest ->
  walk_intersects rest actors = true <-> exists a, a ∈ actors /\ a ∈ rest.
Proof.
  induction 1 as [|a actors Ha IH Hlt]; intros rest Hr; cbn; [set_solver|]. rewrite Forall_forall in Hlt.
  destruct (lower_bound_spec a rest Hr) as [Hs Hm]. destruct (lower_bound a rest) as [|b rest'] eqn:E.
  - split; [done|]. intros (x & Hx & Hin). exfalso. apply (not_elem_of_nil (A := Z) x). apply Hm. split; [done|].
    apply elem_of_cons in Hx as [->|Hx]; [lia|]. specialize (Hlt x Hx). lia.
  - destruct (Z.eqb_spec b a) as [->|Hne].
    + split; [|done]. intros _. exists a. split; [by left|]. assert (a ∈ rest /\ a <= a) as [? _] by (apply Hm; by left). done.
    + rewrite (IH (b :: rest') Hs). split; intros (x & Hx & Hin).
      * exists x. split; [by right|]. by apply Hm in Hin as [? _].
      * exists x. assert (Hxa : x <> a).
        { intros ->. assert (Hin' : a ∈ b :: rest') by (apply Hm; split; [done|lia]).
          apply elem_of_cons in Hin' as [->|Hin']; [done|]. apply StronglySorted_inv in Hs as [_ Hb].
          rewrite Forall_forall in Hb. specialize (Hb a Hin').
          assert (b ∈ rest /\ a <= b) as [_ ?] by (apply Hm; by left). lia. }
        apply elem_of_cons in Hx as [->|Hx]; [done|]. split; [done|]. apply Hm. split; [done|]. specialize (Hlt x Hx). lia.
Qed.

Lemma sorted_last l x d : StronglySorted Z.lt l -> x ∈ l -> x <= List.last l d.
Proof.
  intros Hs. revert x. induction Hs as [|y l Hl IH Hy]; intros x; [by intros ?%elem_of_nil|]. intros [->|Hx]%elem_of_cons.
  - destruct l as [|z l]; [cbn; lia|]. rewrite Forall_forall in Hy. transitivity z; [specialize (Hy z ltac:(by left)); lia|].
    apply IH. by left.
  - destruct l; [by apply elem_of_nil in Hx|]. by apply IH.
Qed.

Lemma sorted_first y l x : StronglySorted Z.lt (y :: l) -> x ∈ y :: l -> y <= x.
Proof.
  intros [_ Hy]%StronglySorted_inv [->|Hx]%elem_of_cons; [lia|]. rewrite Forall_forall in Hy. specialize (Hy x Hx). lia.
Qed.

Lemma last_elem (l : list Z) d : l <> [] -> List.last l d ∈ l.
Proof.
  induction l as [|x l IH]; [done|]. intros _. destruct l as [|y l]; [by left|]. right. by apply IH.
Qed.

(** The walk with its quick checks decides whether the actors are all on the whitelist, or,
    without one, whether none is on the blacklist. *)
(** C28: The walk through the sorted lists with its quick checks decides whether the
    actors are all on the whitelist or, without one, whether none is on the
    blacklist. *)
Theorem check_actor_list_iff (lists : actor_lists) (l : list Z) :
  StronglySorted Z.lt (actor_whitelist lists) -> StronglySorted Z.lt (actor_blacklist lists) -> StronglySorted Z.lt l ->
  check_actor_list lists l = Ok tt <->
  if bool_decide (actor_whitelist lists = []) then forall a, a ∈ l -> a ∉ actor_blacklist lists
  else forall a, a ∈ l -> a ∈ actor_whitelist lists.
Proof.
  intros Hw Hb Hl. destruct lists as [ws bs]. cbn [actor_whitelist actor_blacklist] in *. unfold check_actor_list.
  cbn [actor_whitelist actor_blacklist]. destruct l as [|a l].
  { case_bool_decide; (split; [set_solver|done]). }
  destruct ws as [|w ws].
  - rewrite bool_decide_eq_true_2 by done. destruct bs as [|b bs]; [split; [set_solver|done]|].
    rewrite rassert_ok, negb_true_iff, <- not_true_iff_false, !andb_true_iff, (walk_intersects_iff (a :: l)) by done. split.
    + intros Hn x Hx Hin. apply Hn. split_and!; [apply Z.leb_le|apply Z.leb_le|by exists x].
      * transitivity x; [by apply (sorted_first a l)|by apply sorted_last].
      * transitivity x; [by apply (sorted_first b bs)|by apply sorted_last].
    + intros H (_ & x & Hx & Hin). by apply (H x).
  - rewrite bool_decide_eq_false_2 by done.
    rewrite rassert_ok, !andb_true_iff, (walk_subset_iff (a :: l)), !Z.leb_le by done. split; [by intros (_ & ?)|].
    intros H. split; [|done]. split.
    + apply (sorted_first w ws); [done|]. apply H. by left.
    + apply sorted_last; [done|]. apply H. by apply last_elem.
Qed.

(** ** Runs. *)
Section runs.
Context {key : Type} `{!EqDecision key}.
Context (microseconds_maximum : Z).
Context (host_pack : transaction -> list Z) (host_unpack : list Z -> result transaction).
Context (trx_id_of : transaction -> Z) (sender_id_of_trx : Z -> Z).
Context (host_pack_onerror : Z -> list Z -> list Z).
Context (native_data_of : raw_action -> native_data (key := key)).
Context {W : Type}.
Abbreviation chain := (chain (key := key) (W := W)) (only parsing).
Abbreviation host_op := (host_op (key := key) (W := W)) (only parsing).
Abbreviation push_transaction :=
  (push_transaction microseconds_maximum host_pack host_unpack trx_id_of sender_id_of_trx native_data_of (W := W)) (only parsing).
Abbreviation push_scheduled_transaction :=
  (push_scheduled_transaction microseconds_maximum host_pack host_unpack trx_id_of host_pack_onerror native_data_of (W := W))
  (only parsing).
Abbreviation run_ops := (run_ops microseconds_maximum host_pack host_unpack trx_id_of native_data_of (W := W)) (only parsing).
Abbreviation start_block := (start_block microseconds_maximum host_pack host_unpack trx_id_of native_data_of (W := W)) (only parsing).
Implicit Types (c : chain) (n : node) (t : transaction).

(** What the execution of code leaves: the records of input transactions are not touched, and
    every deferred transaction was there before or has a new number. *)
Record keeps c c' : Prop := {
  kp_dedupe : dedupe c' = dedupe c;
  kp_next : next_gto_id c <= next_gto_id c';
  kp_new : forall id, is_Some (generated c' !! id) -> is_Some (generated c !! id) \/ next_gto_id c <= id < next_gto_id c';
}.

Lemma keeps_refl c : keeps c c.
Proof. split; [done|lia|auto]. Qed.

Lemma keeps_trans c1 c2 c3 : keeps c1 c2 -> keeps c2 c3 -> keeps c1 c3.
Proof.
  intros [D1 N1 G1] [D2 N2 G2]. split; [by rewrite D2|lia|]. intros id H. apply G2 in H as [H|H]; [|lia].
  apply G1 in H as [H|H]; [by left|lia].
Qed.

(** Changes of other parts. *)
Lemma keeps_same c c' :
  dedupe c' = dedupe c -> next_gto_id c' = next_gto_id c -> generated c' = generated c -> keeps c c'.
Proof. intros Hd Hn Hg. split; [done|lia|]. rewrite Hg. auto. Qed.

Lemma find_by_sender_elem s i c id g : find_by_sender s i c = Some (id, g) -> generated c !! id = Some g.
Proof.
  unfold find_by_sender. intros H. apply elem_of_map_to_list. apply list_elem_of_In.
  destruct (List.filter _ _) as [|p l] eqn:E; [done|]. injection H as ->.
  assert (Hin : In (id, g) ((id, g) :: l)) by (by left). rewrite <- E in Hin. by apply filter_In in Hin as [? _].
Qed.

Lemma create_gto_keeps g c c' :
  create_gto g c = Ok c' -> keeps c c' /\ c' = set_generated (<[next_gto_id c := g]> (generated c)) (next_gto_id c + 1) c.
Proof.
  unfold create_gto. destruct (find_by_trx_id _ _); [done|]. destruct (find_by_sender _ _ _); [done|]. intros [= <-].
  split; [|done]. split; cbn; [done|lia|]. intros id [h [[<- _]|[_ H]]%lookup_insert_Some]; [right; lia|left; eauto].
Qed.

Lemma add_ram_keeps a d cx cx' : add_ram a d cx = Ok cx' -> keeps (fst cx) (fst cx').
Proof. unfold add_ram. intros H. apply rbind_ok in H as ([x db] & _ & [= <-]). by apply keeps_same. Qed.

Lemma add_net_keeps n u (cx cx' : chain * trx_context) : add_net n u cx = Ok cx' -> fst cx' = fst cx.
Proof. unfold add_net. intros H. by apply rbind_ok in H as (s & _ & [= <-]). Qed.

Lemma schedule_deferred_keeps n enforce s i p t r cx cx' :
  schedule_deferred_transaction microseconds_maximum host_pack host_unpack trx_id_of native_data_of n enforce s i p t r cx = Ok cx' ->
  keeps (fst cx) (fst cx').
Proof.
  unfold schedule_deferred_transaction. intros H. apply rbind_ok in H as (_ & _ & H). apply rbind_ok in H as (_ & _ & H).
  apply rbind_ok in H as ([c1 x1] & Hn & H). apply add_net_keeps in Hn. cbn [fst] in Hn. subst c1.
  apply rbind_ok in H as (_ & _ & H). apply rbind_ok in H as (c2 & Hc & H). apply rbind_ok in H as (_ & _ & H).
  apply add_ram_keeps in H. eapply keeps_trans; [|exact H]. cbn [fst].
  destruct (find_by_sender _ _ _) as [[id g]|] eqn:E.
  - apply rbind_ok in Hc as (_ & _ & Hc). apply rbind_ok in Hc as (_ & _ & [= <-]). apply find_by_sender_elem in E.
    split; cbn; [done|lia|]. intros id' [h [[<- _]|[_ Hh]]%lookup_insert_Some]; left; eauto.
  - by apply create_gto_keeps in Hc as [? _].
Qed.

Lemma cancel_deferred_keeps i a (cx cx' : chain * trx_context) :
  cancel_deferred_transaction i a cx = Ok cx' -> keeps (fst cx) (fst cx').
Proof.
  unfold cancel_deferred_transaction. destruct (find_by_sender _ _ _) as [[id g]|]; [|intros [= <-]; apply keeps_refl].
  intros H. apply rbind_ok in H as ([c x] & Hr & [= <-]). apply add_ram_keeps in Hr. eapply keeps_trans; [exact Hr|].
  split; cbn; [done|lia|]. intros id' [h [_ Hh]%lookup_delete_Some]. left. eauto.
Qed.

Lemma run_ops_keeps n enforce ops cx cx' : run_ops n enforce ops cx = Ok cx' -> keeps (fst cx) (fst cx').
Proof.
  unfold Transactions.run_ops. apply (rfold_inv (fun y => keeps (fst cx) (fst y))); [|apply keeps_refl].
  intros y o y' _ Hy H. eapply keeps_trans; [exact Hy|]. destruct o; cbn [run_op] in H.
  - by eapply schedule_deferred_keeps.
  - by eapply cancel_deferred_keeps.
  - by eapply add_ram_keeps.
  - apply add_net_keeps in H as ->. apply keeps_refl.
  - apply rbind_ok in H as ([b db] & _ & [= <-]). by apply keeps_same.
  - injection H as <-. by apply keeps_same.
  - done.
Qed.

Lemma init_context_keeps n u t k (cx cx' : chain * trx_context) : init_context n u t k cx = Ok cx' -> keeps (fst cx) (fst cx').
Proof. unfold init_context. intros H. apply rbind_ok in H as ([x db] & _ & [= <-]). by apply keeps_same. Qed.

Lemma finalize_context_keeps n k (cx cx' : chain * trx_context) : finalize_context n k cx = Ok cx' -> keeps (fst cx) (fst cx').
Proof. unfold finalize_context. intros H. apply rbind_ok in H as ([x db] & _ & [= <-]). by apply keeps_same. Qed.

Lemma schedule_transaction_keeps n t (cx cx' : chain * trx_context) :
  schedule_transaction host_pack trx_id_of sender_id_of_trx n t cx = Ok cx' -> keeps (fst cx) (fst cx').
Proof.
  unfold schedule_transaction. intros H. apply rbind_ok in H as ([c x] & Hn & H).
  assert (c = fst cx) as ->. { destruct (_ =? 0); [by apply add_net_keeps in Hn|by injection Hn as ->]. }
  apply rbind_ok in H as (c2 & Hc & H). apply create_gto_keeps in Hc as [Hc _]. apply add_ram_keeps in H.
  by eapply keeps_trans.
Qed.

(** What an input transaction that is accepted went through. *)
Lemma push_transaction_inv n m k t un pr keys skip ops c c' r :
  push_transaction n m k t un pr keys skip ops c = Ok (c', r) ->
  r = Receipt (Input t) (if delay_sec (header t) =? 0 then executed else delayed) (pending_block_time n) /\
  (skip_trx_checks (node_control n) = false -> validate_expiration n (header t) = Ok tt /\ validate_tapos (header t) c = Ok tt) /\
  exists c1 c2, keeps c c1 /\
    (if skip then Ok c1 else record_transaction (trx_id_of t) (expiration (header t)) c1) = Ok c2 /\ keeps c2 c' /\
    (skip_auth n = false ->
       check_authorization microseconds_maximum (cfg_max_transaction_delay (configuration n))
         (Z.to_nat (cfg_max_authority_depth (configuration n))) (map (to_native native_data_of) (actions t)) keys []
         (seconds (delay_sec (header t))) false [] (auth_view host_unpack c2) = Ok tt) /\
    auths c2 = auths c /\ generated c2 = generated c.
Proof.
  unfold Transactions.push_transaction. intros H. apply rbind_ok in H as (_ & _ & H). apply rbind_ok in H as (_ & _ & H).
  apply rbind_ok in H as (x0 & _ & H). apply rbind_ok in H as (u1 & Hv & H). apply rbind_ok in H as ([c1 x1] & Hi & H).
  apply rbind_ok in H as (c2 & Hrec & H). apply rbind_ok in H as (u2 & Ha & H). apply rbind_ok in H as ([c3 x3] & Hx & H).
  apply rbind_ok in H as (c4 & Hm & H). apply rbind_ok in H as ([c5 x5] & Hf & [= <- <-]). split; [done|]. split.
  { intros Hs. rewrite Hs in Hv. apply rbind_ok in Hv as ([] & He & Hv). by apply rbind_ok in Hv as ([] & Ht & _). }
  exists c1, c2. pose proof Hi as Hk. apply init_context_keeps in Hk. split_and!; [done|done| | | |].
  - apply finalize_context_keeps in Hf. eapply keeps_trans; [|exact Hf]. cbn [fst].
    unfold mark_used in Hm. apply rbind_ok in Hm as (d & _ & [= <-]).
    eapply keeps_trans; [|by apply (keeps_same c3)]. destruct (_ =? 0).
    + by apply run_ops_keeps in Hx.
    + by apply schedule_transaction_keeps in Hx.
  - intros Hs. rewrite Hs in Ha. by destruct u2.
  - unfold init_context in Hi. apply rbind_ok in Hi as ([x db] & _ & [= <- _]).
    destruct skip; [by injection Hrec as <-|]. unfold record_transaction in Hrec. destruct (dedupe _ !! _); [done|]. by injection Hrec as <-.
  - unfold init_context in Hi. apply rbind_ok in Hi as ([x db] & _ & [= <- _]).
    destruct skip; [by injection Hrec as <-|]. unfold record_transaction in Hrec. destruct (dedupe _ !! _); [done|]. by injection Hrec as <-.
Qed.

Lemma remove_scheduled_ok id g c c' :
  remove_scheduled_transaction id g c = Ok c' ->
  dedupe c' = dedupe c /\ next_gto_id c' = next_gto_id c /\ generated c' = delete id (generated c) /\ auths c' = auths c.
Proof. unfold remove_scheduled_transaction. intros H. by apply rbind_ok in H as (db & _ & [= <-]). Qed.

(** What is run of the deferred transactions: one whose time has come; all that its execution
    leaves is new, and the transaction itself is gone, unless the failure was subjective. *)
Lemma push_scheduled_inv n m k k' id ops ops' c c' r :
  push_scheduled_transaction n m k k' id ops ops' c = Ok (c', r) ->
  exists g, generated c !! id = Some g /\ gto_delay_until g <= pending_block_time n /\
    match r with
    | None => c' = c
    | Some r => r_source r = Scheduled id (gto_trx_id g) /\ r_time r = pending_block_time n /\
        (r_status r = expired <-> gto_expiration g < pending_block_time n) /\
        (r_status r = expired -> remove_scheduled_transaction id g c = Ok c') /\
        exists c1, remove_scheduled_transaction id g c = Ok c1 /\ keeps c1 c'
    end.
Proof.
  unfold Transactions.push_scheduled_transaction. intros H. apply rbind_ok in H as (g & Hg & H). apply of_option_ok in Hg.
  apply rbind_ok in H as (c1 & Hr & H). apply rbind_ok in H as (u0 & Hd & H). apply rassert_ok, Z.leb_le in Hd.
  apply rbind_ok in H as (t & Ht & H). exists g. split; [done|]. split; [done|].
  destruct (Z.ltb_spec (gto_expiration g) (pending_block_time n)) as [He|He].
  { injection H as <- <-. cbn. split_and!; [done..|]. exists c1. split; [done|apply keeps_refl]. }
  apply rbind_ok in H as (x & _ & H). destruct (run_deferred _ _ _ _ _ _ _ _ _ _ _) as [c2|e] eqn:Hrun.
  { injection H as <- <-. cbn. split_and!; [done|done|split; [done|lia]|done|]. exists c1. split; [done|].
    unfold run_deferred in Hrun. apply rbind_ok in Hrun as (_ & _ & Hrun). apply rbind_ok in Hrun as ([ca xa] & Ha & Hrun).
    apply rbind_ok in Hrun as (_ & _ & Hrun). apply rbind_ok in Hrun as ([cb xb] & Hb & Hrun).
    apply rbind_ok in Hrun as ([cc xc] & Hc & [= <-]). apply init_context_keeps in Ha. apply run_ops_keeps in Hb.
    apply finalize_context_keeps in Hc. cbn [fst] in *. eapply keeps_trans; [exact Ha|]. by eapply keeps_trans. }
  assert (Hhard : forall e l, (if (if t_explicit m then failure_is_subjective e else scheduled_failure_is_subjective e) then Ok (c, None)
      else let '(accounts, limit) := failed_context n t x c1 in
        rbind (bill_failed n m accounts limit l c1) (fun c2 => Ok (c2, Some (Receipt (Scheduled id (gto_trx_id g)) hard_fail (pending_block_time n))))) =
      Ok (c', r) -> match r with None => c' = c | Some r => r_source r = Scheduled id (gto_trx_id g) /\ r_time r = pending_block_time n /\
        (r_status r = expired <-> gto_expiration g < pending_block_time n) /\
        (r_status r = expired -> remove_scheduled_transaction id g c = Ok c') /\
        exists c1, remove_scheduled_transaction id g c = Ok c1 /\ keeps c1 c' end).
  { intros e' l Hh. set (b := if t_explicit m then failure_is_subjective e' else scheduled_failure_is_subjective e') in Hh.
    destruct b; [by injection Hh as <- <-|].
    destruct (failed_context n t x c1) as [accounts limit]. apply rbind_ok in Hh as (c2 & Hb & [= <- <-]). cbn.
    split_and!; [done|done|split; [done|lia]|done|]. exists c1. split; [done|]. unfold bill_failed in Hb.
    apply rbind_ok in Hb as ([db ct] & _ & Hb). apply rbind_ok in Hb as (db2 & _ & [= <-]). by apply keeps_same. }
  destruct (negb (gto_sender g =? 0) && negb (failure_is_subjective e)); [|by eapply Hhard].
  destruct (apply_onerror _ _ _ _ _ _ _ _ _ _ _ _ _) as [c2|e2] eqn:Hon; [|by eapply Hhard].
  injection H as <- <-. cbn. split_and!; [done|done|split; [done|lia]|done|]. exists c1. split; [done|].
  unfold apply_onerror in Hon. apply rbind_ok in Hon as (xo & _ & Hon). apply rbind_ok in Hon as ([ca xa] & Ha & Hon).
  apply rbind_ok in Hon as ([cb xb] & Hb & Hon). apply rbind_ok in Hon as ([cc xc] & Hc & [= <-]).
  apply init_context_keeps in Ha. apply run_ops_keeps in Hb. apply finalize_context_keeps in Hc. cbn [fst] in *.
  eapply keeps_trans; [exact Ha|]. by eapply keeps_trans.
Qed.

(** A chain that starts without records, and whose blocks are never earlier than the one
    before; transactions that fail are not part of a block. *)
Inductive chain_run : chain -> list receipt -> Z -> Prop :=
| cr_init c now :
    dedupe c = ∅ -> (forall id, is_Some (generated c !! id) -> id < next_gto_id c) -> chain_run c [] now
| cr_start c log now n ops k t :
    chain_run c log now -> now <= pending_block_time n -> chain_run (start_block n ops k t c) log (pending_block_time n)
| cr_push c log now n m k t un pr keys ops c' r :
    chain_run c log now -> pending_block_time n = now -> skip_trx_checks (node_control n) = false ->
    push_transaction n m k t un pr keys false ops c = Ok (c', r) -> chain_run c' (r :: log) now
| cr_scheduled c log now n m k k' id ops ops' c' r :
    chain_run c log now -> pending_block_time n = now ->
    push_scheduled_transaction n m k k' id ops ops' c = Ok (c', r) ->
    chain_run c' (match r with Some r => r :: log | None => log end) now
| cr_summary c log now b : chain_run c log now -> chain_run (create_block_summary b c) log now.

(** Each receipt stands for a transaction that cannot be run again. *)
Definition retired now c (s : receipt_source) : Prop :=
  match s with
  | Input t => seconds (expiration (header t)) < now \/ dedupe c !! trx_id_of t = Some (expiration (header t))
  | Scheduled id _ => id < next_gto_id c /\ generated c !! id = None
  end.

Record run_inv c (log : list receipt) (now : Z) : Prop := {
  ri_new : forall id, is_Some (generated c !! id) -> id < next_gto_id c;
  ri_retired : forall r, r ∈ log -> retired now c (r_source r);
  ri_once : NoDup (r_source <$> log);
}.

Lemma retired_keeps now c c' s : keeps c c' -> retired now c s -> retired now c' s.
Proof.
  intros [Hd Hn Hg]. destruct s as [t|id i]; cbn; [by rewrite Hd|]. intros [Hlt Hno]. split; [lia|].
  destruct (generated c' !! id) eqn:E; [|done]. destruct (Hg id) as [H|H]; [by rewrite E| |lia]. rewrite Hno in H. by destruct H.
Qed.

Lemma keeps_new c c' : keeps c c' -> (forall id, is_Some (generated c !! id) -> id < next_gto_id c) ->
  forall id, is_Some (generated c' !! id) -> id < next_gto_id c'.
Proof. intros [_ Hn Hg] H id Hid. apply Hg in Hid as [Hid|?]; [|lia]. specialize (H id Hid). lia. Qed.

Lemma run_inv_keeps c c' log now : keeps c c' -> run_inv c log now -> run_inv c' log now.
Proof.
  intros Hk [H1 H2 H3]. split; [by eapply keeps_new| |done]. intros r Hr. eapply retired_keeps; [done|auto].
Qed.

(** A receipt is added for a transaction that was not retired before. *)
Lemma run_inv_cons c log now r :
  run_inv c log now -> retired now c (r_source r) -> r_source r ∉ r_source <$> log -> run_inv c (r :: log) now.
Proof.
  intros [H1 H2 H3] Hr Hn. split; [done| |]. - intros r' [->|Hr']%elem_of_cons; auto. - cbn. by constructor.
Qed.

Lemma start_block_inv n ops k t c log now :
  run_inv c log now -> now <= pending_block_time n -> run_inv (start_block n ops k t c) log (pending_block_time n).
Proof.
  intros Hi Ht. unfold Transactions.start_block.
  set (c1 := match _ with Ok c0 => c0 | Err _ => c end).
  assert (Hk : keeps c c1).
  { unfold c1. destruct (rbind _ _) as [c2|] eqn:E; [|apply keeps_refl]. apply rbind_ok in E as (_ & _ & E).
    apply rbind_ok in E as (x & _ & E). apply rbind_ok in E as ([ca xa] & Ha & E). apply rbind_ok in E as ([cb xb] & Hb & E).
    apply rbind_ok in E as ([cc xc] & Hc & [= <-]). apply init_context_keeps in Ha. apply run_ops_keeps in Hb.
    apply finalize_context_keeps in Hc. cbn [fst] in *. eapply keeps_trans; [exact Ha|]. by eapply keeps_trans. }
  clearbody c1. destruct (run_inv_keeps _ _ _ _ Hk Hi) as [H1 H2 H3]. split; [done| |done].
  intros r Hr. specialize (H2 r Hr). destruct (r_source r) as [t'|id i]; cbn in *; [|done].
  destruct H2 as [H2|H2]; [left; lia|]. destruct (Z.lt_ge_cases (seconds (expiration (header t'))) (pending_block_time n)); [by left|right].
  apply map_lookup_filter_Some. by split.
Qed.

Lemma chain_run_inv c log now : chain_run c log now -> run_inv c log now.
Proof.
  induction 1 as [c now Hd Hg|c log now n ops k t _ IH Ht|c log now n m k t un pr keys ops c' r _ IH Hn Hs H
    |c log now n m k k' id ops ops' c' r _ IH Hn H|c log now b _ IH].
  - split; [done|by intros r ?%elem_of_nil|constructor].
  - by apply (start_block_inv _ _ _ _ _ _ now).
  - apply push_transaction_inv in H as (-> & Hv & c1 & c2 & Hk & Hrec & Hk' & _). destruct (Hv Hs) as [He _]. clear Hv.
    unfold record_transaction in Hrec. destruct (dedupe c1 !! trx_id_of t) eqn:Hno; [done|]. injection Hrec as <-.
    assert (Hfresh : Input t ∉ r_source <$> log).
    { intros (r & Hr & Hlog)%list_elem_of_fmap. pose proof (ri_retired _ _ _ IH r Hlog) as Hret. rewrite <- Hr in Hret. cbn in Hret.
      rewrite <- (kp_dedupe _ _ Hk), Hno in Hret. destruct Hret as [Hret|]; [|done].
      unfold validate_expiration in He. apply rbind_ok in He as (u1 & He & _). apply rassert_ok, Z.leb_le in He. lia. }
    apply run_inv_cons; [|right|done].
    + eapply run_inv_keeps; [exact Hk'|]. destruct (run_inv_keeps _ _ _ _ Hk IH) as [H1 H2 H3]. split; [done| |done].
      intros r Hr. specialize (H2 r Hr). destruct (r_source r) as [t'|id i]; cbn in *; [|done].
      destruct H2 as [?|H2]; [by left|right]. rewrite lookup_insert_ne; [done|]. intros E. rewrite E, H2 in Hno. done.
    + rewrite (kp_dedupe _ _ Hk'). cbn. apply lookup_insert_eq.
  - apply push_scheduled_inv in H as (g & Hg & _ & H). destruct r as [r|]; [|by subst c'].
    destruct H as (Hsrc & _ & _ & _ & c1 & Hr & Hk). apply remove_scheduled_ok in Hr as (Rd & Rn & Rg & _).
    assert (Hk1 : keeps c c1).
    { split; [done|lia|]. rewrite Rg. intros i [h [_ Hh]%lookup_delete_Some]. left. eauto. }
    apply run_inv_cons; rewrite ?Hsrc.
    + eapply run_inv_keeps; [exact Hk|]. by eapply run_inv_keeps.
    + apply (retired_keeps _ _ _ _ Hk). cbn. rewrite Rn, Rg, lookup_delete_eq. split; [|done]. apply (ri_new _ _ _ IH). by rewrite Hg.
    + intros (r' & Hr' & Hlog)%list_elem_of_fmap. pose proof (ri_retired _ _ _ IH r' Hlog) as Hret. rewrite <- Hr' in Hret.
      destruct Hret as [_ Hret]. by rewrite Hg in Hret.
  - destruct IH as [H1 H2 H3]. split; [done|exact H2|done].
Qed.

(** No transaction of a chain is run twice: an input transaction, which is recorded until it has
    expired, stands in one receipt at most, and so does every deferred transaction. *)
(** C20: In every run of blocks on a node that makes the checks of transactions,
    whatever the code of contracts does, no input transaction and no deferred
    transaction has two receipts: a transaction is recorded until it expires and
    refused when it has, and a deferred one is removed with its receipt. *)
Theorem transactions_run_once c log now : chain_run c log now -> NoDup (r_source <$> log).
Proof. intros H. by apply chain_run_inv in H as [_ _ ?]. Qed.

(** C27: A deferred transaction is executed at or after the time it was delayed to and
    no later than its expiration; one that has expired is only removed. *)
Theorem deferred_in_window n m k k' id ops ops' c c' r :
  push_scheduled_transaction n m k k' id ops ops' c = Ok (c', Some r) ->
  exists g, generated c !! id = Some g /\ gto_delay_until g <= pending_block_time n /\
    (r_status r <> expired -> pending_block_time n <= gto_expiration g) /\
    (r_status r = expired -> gto_expiration g < pending_block_time n /\ remove_scheduled_transaction id g c = Ok c').
Proof.
  intros H. apply push_scheduled_inv in H as (g & Hg & Hd & _ & _ & He & Hrem & _). exists g. split_and!; [done|done| |].
  - intros Hs. destruct (Z.le_gt_cases (pending_block_time n) (gto_expiration g)); [done|]. exfalso. apply Hs, He. lia.
  - intros Hs. split; [by apply He|auto].
Qed.

(** ** Authorization. *)
Lemma tree_ok_view c : tree_ok (auths c) -> tree_ok (auth_view host_unpack c).
Proof. intros [? ? ? ? ? ? ?]. by split. Qed.

Lemma to_native_authorization (a : raw_action) level :
  level ∈ a_authorization a -> level ∈ ca_authorization (to_native native_data_of a).
Proof. done. Qed.

(** Every authorization an accepted input transaction declares is one its actor may use for the
    action, and is granted by the keys that signed. *)
(** C21: On a node that checks authorizations, with permissions in well-formed trees,
    every authorization an accepted input transaction declares is one its actor may
    use for the action and is granted by the keys that signed and some delay. *)
Theorem input_authorized n m k t un pr keys skip ops c c' r a level :
  tree_ok (auths c) -> skip_auth n = false -> push_transaction n m k t un pr keys skip ops c = Ok (c', r) ->
  a ∈ actions t -> level ∈ a_authorization a ->
  entitled (auth_view host_unpack c) (to_native native_data_of a) level /\
  exists delay, granted (authority_of (auth_view host_unpack c)) keys [] delay level.
Proof.
  intros Hok Hs H Ha Hl. apply push_transaction_inv in H as (_ & _ & c1 & c2 & _ & _ & _ & Hc & Hau & Hge). specialize (Hc Hs).
  assert (Hv : auth_view host_unpack c2 = auth_view host_unpack c) by (unfold auth_view; by rewrite Hau, Hge). rewrite Hv in Hc.
  destruct (check_authorization_entitled _ _ _ _ _ _ _ _ _ _ (to_native native_data_of a) level (tree_ok_view c Hok) Hc) as [He Hg].
  - apply list_elem_of_fmap. by exists a.
  - done.
  - split; [done|]. destruct Hg as [Hg|(delay & _ & Hg)]; [by apply not_elem_of_nil in Hg|by exists delay].
Qed.

(** Every authorization of a transaction that a contract without privilege defers, other than
    one that it sends only to itself on a node that does not produce, is granted to the code of
    the contract. *)
(** C22: On a node that checks authorizations, with permissions in well-formed trees,
    every authorization of a transaction that a contract without privilege defers,
    other than one it sends only to itself on a node that does not produce, is
    granted to the code of the contract with some delay. *)
Theorem deferred_authorized n enforce s i p t rep (cx cx' : chain * trx_context) a level :
  tree_ok (auths (fst cx)) -> skip_auth n = false -> s_privileged s = false ->
  is_producing n = true \/ (exists b, b ∈ actions t /\ a_account b <> s_receiver s) ->
  schedule_deferred_transaction microseconds_maximum host_pack host_unpack trx_id_of native_data_of n enforce s i p t rep cx = Ok cx' ->
  a ∈ actions t -> level ∈ a_authorization a ->
  entitled (auth_view host_unpack (fst cx)) (to_native native_data_of a) level /\
  exists delay, granted (authority_of (auth_view host_unpack (fst cx))) [] [(s_receiver s, eosio_code_name)] delay level.
Proof.
  intros Hok Hs Hp Hself H Ha Hl. unfold schedule_deferred_transaction in H. apply rbind_ok in H as (_ & _ & H).
  apply rbind_ok in H as (_ & _ & H). apply rbind_ok in H as ([c1 x1] & Hn & H). apply add_net_keeps in Hn. cbn [fst] in Hn. subst c1.
  apply rbind_ok in H as ([] & Hc & _). unfold check_sent in Hc. rewrite Hs, Hp in Hc. cbn [orb] in Hc.
  apply rbind_ok in Hc as (u0 & _ & Hc). destruct (check_authorization _ _ _ _ _ _ _ _ _ _) as [[]|e] eqn:E.
  - destruct (check_authorization_entitled _ _ _ _ _ _ _ _ _ _ (to_native native_data_of a) level (tree_ok_view _ Hok) E) as [He Hg].
    + apply list_elem_of_fmap. by exists a.
    + done.
    + split; [done|]. destruct Hg as [Hg|(delay & _ & Hg)]; [by apply not_elem_of_nil in Hg|by exists delay].
  - exfalso. destruct (forallb _ _) eqn:Hf; [|done]. cbn [negb] in Hc. destruct Hself as [Hpr|(b & Hb & Hne)]; [by rewrite Hpr in Hc|].
    rewrite forallb_forall in Hf. apply list_elem_of_In in Hb. specialize (Hf b Hb). cbn in Hf. lia.
Qed.
End runs.

(** * Examples.

    Keys are numbers and a transaction is identified by its reference block and its first
    action.  bob lets the code of bob's account use bob's active permission. *)
Definition tr_pack : transaction -> list Z := put_bytes transaction_codec.
Definition tr_unpack : list Z -> result transaction := unpack transaction_codec.
Definition tr_id (t : transaction) : Z := len (actions t) * 1000 + ref_block_num (header t).

Definition tr_update : native_action (key := Z) :=
  NUpdateauth (Updateauth bob active owner_name
    (Authority 1 [KeyWeight 3 1] [PermissionLevelWeight (bob, eosio_code_name) 1] [])).
Definition tr_auths : Permissions.auth_db (key := Z) := ex_of (ex_apply bob tr_update ex_genesis).
Definition tr_resources : resource_db :=
  rx_run_db [OpAccount alice; OpAccount bob; OpLimits alice (-1) 1 1; OpLimits bob (-1) 1 1; OpProcessLimits].
Definition tr_chain : chain (key := Z) (W := unit) :=
  Chain ∅ {[7 := BlockRef 7 9]} ∅ 1 tr_resources tr_auths tt.

Definition tr_node (now : Z) : node :=
  Node initial_configuration (Control false false (fun _ => false) 12) false (ActorLists [] []) (fun _ => false) false false
    (seconds now) (BlockRef 8 10).
Definition tr_terms : terms := Terms (2 ^ 62) default_leeway 0 false.
Definition tr_clock : clock := Clock 1000 false 1010 1500.

(** alice calls bob::hi, and bob's contract sends a transaction to alice's account. *)
Definition tr_call : transaction :=
  Transaction (TransactionHeader 1060 7 9 0 0 0) [] [RawAction bob hi [(alice, active)] []] [].
Definition tr_sent : transaction :=
  Transaction (TransactionHeader 0 0 0 0 0 10) [] [RawAction alice hi [(bob, active)] []; RawAction bob hi [] []] [].
Definition tr_bob : sender := Sender bob bob [(alice, active)] false.
Definition tr_ops : list (host_op (key := Z) (W := unit)) := [HSchedule tr_bob 1 bob tr_sent false].

Definition tr_push now (c : chain (key := Z) (W := unit)) :=
  push_transaction (2 ^ 63 - 1) tr_pack tr_unpack tr_id (fun i => i) (fun _ => OtherData) (tr_node now) tr_terms tr_clock tr_call 100 0 [2]
    false tr_ops c.
Definition tr_after := match tr_push 1000 tr_chain with Ok (c, _) => c | Err _ => tr_chain end.
Definition tr_scheduled now (c : chain (key := Z) (W := unit)) :=
  push_scheduled_transaction (2 ^ 63 - 1) tr_pack tr_unpack tr_id (fun _ l => l) (fun _ => OtherData) (tr_node now) tr_terms tr_clock
    tr_clock 1 [] [] c.
Definition tr_later := start_block (2 ^ 63 - 1) tr_pack tr_unpack tr_id (fun _ => OtherData) (tr_node 1010) [] tr_clock tr_call tr_after.
Definition tr_end := match tr_scheduled 1010 tr_later with Ok (c, _) => c | Err _ => tr_chain end.
Definition tr_receipt : receipt := Receipt (Input tr_call) executed (seconds 1000).
Definition tr_receipt' : receipt := Receipt (Scheduled 1 2008) executed (seconds 1010).

Lemma tr_push_eq : tr_push 1000 tr_chain = Ok (tr_after, tr_receipt).
Proof. vm_compute. reflexivity. Qed.
Lemma tr_scheduled_eq : tr_scheduled 1010 tr_later = Ok (tr_end, Some tr_receipt').
Proof. vm_compute. reflexivity. Qed.

Lemma tr_update_eq : ex_apply bob tr_update ex_genesis = Ok tr_auths.
Proof. vm_compute. reflexivity. Qed.

Lemma tr_auths_ok : db_ok tr_auths.
Proof.
  apply (apply_native_db_ok Z.ltb (fun _ => 34) (fun _ => true) (ex_env bob) tr_update ex_genesis);
    [exact ex_genesis_ok| |exact tr_update_eq].
  unfold native_typed, authority_typed. cbn. split_and!; repeat constructor; simpl; lia.
Qed.

Lemma check_actor_list_iff_witness :
  check_actor_list (ActorLists [1; 3; 5] []) [1; 5] = Ok tt <-> forall a, a ∈ [1; 5] -> a ∈ [1; 3; 5].
Proof. apply (check_actor_list_iff (ActorLists [1; 3; 5] [])); repeat constructor; lia. Defined.

Lemma transactions_run_once_witness : NoDup [Scheduled 1 2008; Input tr_call].
Proof.
  apply (transactions_run_once (2 ^ 63 - 1) tr_pack tr_unpack tr_id (fun i => i) (fun _ l => l) (fun _ => OtherData)
           tr_end [tr_receipt'; tr_receipt] (seconds 1010)).
  apply (cr_scheduled _ _ _ _ _ _ _ tr_later [tr_receipt] _ (tr_node 1010) tr_terms tr_clock tr_clock 1 [] [] tr_end (Some tr_receipt'));
    [|reflexivity|exact tr_scheduled_eq].
  change (seconds 1010) with (pending_block_time (tr_node 1010)). unfold tr_later.
  apply (cr_start _ _ _ _ _ _ _ tr_after [tr_receipt] (seconds 1000) (tr_node 1010) [] tr_clock tr_call);
    [|vm_compute; discriminate].
  apply (cr_push _ _ _ _ _ _ _ tr_chain [] (seconds 1000) (tr_node 1000) tr_terms tr_clock tr_call 100 0 [2] tr_ops);
    [|reflexivity|reflexivity|exact tr_push_eq].
  apply cr_init; [reflexivity|]. intros id Hid. by apply is_Some_None in Hid.
Defined.

Lemma deferred_in_window_witness :
  exists g, generated tr_later !! 1 = Some g /\ gto_delay_until g <= seconds 1010 /\
    (executed <> expired -> seconds 1010 <= gto_expiration g) /\
    (executed = expired -> gto_expiration g < seconds 1010 /\ remove_scheduled_transaction 1 g tr_later = Ok tr_end).
Proof.
  apply (deferred_in_window (2 ^ 63 - 1) tr_pack tr_unpack tr_id (fun _ l => l) (fun _ => OtherData)
           (tr_node 1010) tr_terms tr_clock tr_clock 1 [] [] tr_later tr_end tr_receipt').
  exact tr_scheduled_eq.
Defined.

Lemma input_authorized_witness :
  entitled (auth_view tr_unpack tr_chain) (to_native (fun _ => OtherData) (RawAction bob hi [(alice, active)] [])) (alice, active) /\
  exists delay, granted (authority_of (auth_view tr_unpack tr_chain)) [2] [] delay (alice, active).
Proof.
  apply (input_authorized (2 ^ 63 - 1) tr_pack tr_unpack tr_id (fun i => i) (fun _ => OtherData) (tr_node 1000) tr_terms tr_clock tr_call
           100 0 [2] false tr_ops tr_chain tr_after tr_receipt (RawAction bob hi [(alice, active)] []) (alice, active)).
  - apply tr_auths_ok.
  - reflexivity.
  - exact tr_push_eq.
  - left.
  - left.
Defined.

Definition tr_opened : chain (key := Z) (W := unit) * trx_context :=
  (tr_chain, set_net (NetState 10000 false false 10000 0) (new_context 1000 (2 ^ 62) 3000 0 false)).
Definition tr_sched (cx : chain (key := Z) (W := unit) * trx_context) :=
  schedule_deferred_transaction (2 ^ 63 - 1) tr_pack tr_unpack tr_id (fun _ => OtherData) (tr_node 1000) true tr_bob 1 bob tr_sent false cx.

Lemma deferred_authorized_witness :
  entitled (auth_view tr_unpack tr_chain) (to_native (fun _ => OtherData) (RawAction alice hi [(bob, active)] [])) (bob, active) /\
  exists delay, granted (authority_of (auth_view tr_unpack tr_chain)) [] [(bob, eosio_code_name)] delay (bob, active).
Proof.
  apply (deferred_authorized (2 ^ 63 - 1) tr_pack tr_unpack tr_id (fun _ => OtherData) (tr_node 1000) true tr_bob 1 bob tr_sent false
    tr_opened (match tr_sched tr_opened with Ok r => r | Err _ => tr_opened end) (RawAction alice hi [(bob, active)] []) (bob, active)).
  - apply tr_auths_ok.
  - reflexivity.
  - reflexivity.
  - right. exists (RawAction alice hi [(bob, active)] []). split; [left|vm_compute; discriminate].
  - vm_compute. reflexivity.
  - left.
  - left.
Defined.
