(* ===== verification/Msig.v ===== *)
(** * The multisig contract.

    [contracts/force.msig]: transactions are proposed, approved by the permissions that were
    asked for, and executed as deferred transactions once the approvals carry every
    authorization they declare.  The contract works on the bytes of actions and transactions,
    with the streams of [Datastream], and runs on the chain of [Transactions]: its tables are
    the tables of that chain, and [exec] calls [schedule_deferred_transaction]. *)
From stdpp Require Import base gmap list strings.
From Stdlib Require Import ZArith Lia.
From S2P Require Import Prelude Name Asset Runtime Datastream Authority Permissions NativeActions Resources TrxContext Transactions.

Open Scope Z_scope.

Module Msig.

(** ** Tables, by proposer and name. *)
Record approvals_info := ApprovalsInfo {
  requested_approvals : list (Z * Z);
  provided_approvals : list (Z * Z);
}.
Record tables := Tables {
  proposals : gmap (Z * Z) (list Z);          (* [packed_transaction] *)
  approvals : gmap (Z * Z) approvals_info;
}.

(** [std::find] and the erasure of what was found. *)
Fixpoint erase_found (level : Z * Z) (l : list (Z * Z)) : option (list (Z * Z)) :=
  match l with
  | [] => None
  | x :: l => if decide (x = level) then Some l else cons x <$> erase_found level l
  end.

(** The action a contract runs for. *)
Record call := Call {
  receiver : Z;
  act : raw_action;
  privileged : bool;
}.

(** [apply_context::require_authorization] of an account, and of a permission. *)
Definition require_auth (k : call) (account : Z) : result unit :=
  rassert (has_authorization (a_authorization (act k)) account) "missing_auth_exception".
Definition require_level (k : call) (level : Z * Z) : result unit :=
  rassert (bool_decide (level ∈ a_authorization (act k))) "missing_auth_exception".

(** The messages of the assertions in [check_authorization] that throw an
    [authorization_exception]. *)
Definition authorization_messages : list string :=
  ["Invalid permission";
   "cannot call lookup_minimum_permission on native actions that are not allowed to be linked to minimum permissions";
   "updateauth action should only have one declared authorization";
   "the owner of the affected permission needs to be the actor of the declared authorization";
   "updateauth action declares irrelevant authority"; "deleteauth action should only have one declared authorization";
   "the owner of the permission to delete needs to be the actor of the declared authorization";
   "link action should only have one declared authorization";
   "the owner of the linked permission needs to be the actor of the declared authorization";
   "link action declares irrelevant authority"; "unlink action should only have one declared authorization";
   "unlink action declares irrelevant authority"; "canceldelay action should only have one declared authorization";
   "canceldelay action declares irrelevant authority"; "action declares irrelevant authority";
   "transaction declares authority, but does not have signatures for it";
   "transaction bears irrelevant signatures from these keys"]%string.

Section msig.
Context {key : Type} `{!EqDecision key}.
Context (microseconds_maximum : Z).
Context (host_pack : transaction -> list Z) (host_unpack : list Z -> result transaction).
Context (trx_id_of : transaction -> Z).
Context (native_data_of : raw_action -> native_data (key := key)).
(** [fc::raw::unpack] of a set of permission levels. *)
Context (host_unpack_levels : list Z -> result (list (Z * Z))).
Abbreviation chain := (Transactions.chain (key := key) (W := tables)) (only parsing).
Abbreviation context := (Transactions.chain (key := key) (W := tables) * trx_context)%type (only parsing).
Implicit Types (n : node) (k : call) (c : chain) (cx : context).

Definition set_rows (p : gmap (Z * Z) (list Z)) (a : gmap (Z * Z) approvals_info) cx : context :=
  (Transactions.set_tables (auths (fst cx)) (Tables p a) (fst cx), snd cx).

(** [now()]: the seconds of the pending block. *)
Definition now n : Z := u32 (pending_block_time n / 1000000).

(** *** What the host offers. *)
Definition check_transaction_authorization n (trx_data perms_data : list Z) c : result bool :=
  (let* t := host_unpack trx_data in
   let* provided_permissions := if bool_decide (perms_data = []) then Ok [] else host_unpack_levels perms_data in
   match check_authorization microseconds_maximum (cfg_max_transaction_delay (configuration n))
           (Z.to_nat (cfg_max_authority_depth (configuration n))) (map (to_native native_data_of) (actions t)) []
           provided_permissions (seconds (delay_sec (header t))) false [] (auth_view host_unpack c) with
   | Ok _ => Ok true
   | Err m => if bool_decide (m ∈ authorization_messages) then Ok false else Err m
   end)%res.

Definition send_deferred n (enforce : bool) k (sender_id payer : Z) (data : list Z) (replace_existing : bool) cx : result context :=
  (let* t := host_unpack data in
   schedule_deferred_transaction microseconds_maximum host_pack host_unpack trx_id_of native_data_of n enforce
     (Sender (receiver k) (a_account (act k)) (a_authorization (act k)) (privileged k)) sender_id payer t replace_existing cx)%res.

(** *** The actions. *)
Definition propose n k cx : result context :=
  let t := Transactions.tables (fst cx) in
  (let* (proposer, ds) := get (uint 8) (a_data (act k)) in
   let* (proposal_name, ds) := get (uint 8) ds in
   let* (requested, ds) := get (vector permission_level_codec) ds in
   let packed_transaction := ds in
   let* (trx_header, _) := get header_codec ds in
   let* _ := require_auth k proposer in
   check* now n <=? expiration trx_header with "transaction expired" in
   check* bool_decide (proposals t !! (proposer, proposal_name) = None) with "proposal with the same name exists" in
   let* packed_requested := pack (vector permission_level_codec) requested in
   let* res := check_transaction_authorization n packed_transaction packed_requested (fst cx) in
   check* res with "transaction authorization failed" in
   check* bool_decide (approvals t !! (proposer, proposal_name) = None)
     with "could not insert object, most likely a uniqueness constraint was violated" in
   Ok (set_rows (<[(proposer, proposal_name) := packed_transaction]> (proposals t))
         (<[(proposer, proposal_name) := ApprovalsInfo requested []]> (approvals t)) cx))%res.

Definition approve k (proposer proposal_name : Z) (level : Z * Z) cx : result context :=
  let t := Transactions.tables (fst cx) in
  (let* _ := require_level k level in
   let* apps := of_option (approvals t !! (proposer, proposal_name)) "proposal not found" in
   let* rest := of_option (erase_found level (requested_approvals apps)) "approval is not on the list of requested approvals" in
   Ok (set_rows (proposals t)
         (<[(proposer, proposal_name) := ApprovalsInfo rest (provided_approvals apps ++ [level])]> (approvals t)) cx))%res.

Definition unapprove k (proposer proposal_name : Z) (level : Z * Z) cx : result context :=
  let t := Transactions.tables (fst cx) in
  (let* _ := require_level k level in
   let* apps := of_option (approvals t !! (proposer, proposal_name)) "proposal not found" in
   let* rest := of_option (erase_found level (provided_approvals apps)) "no approval previously granted" in
   Ok (set_rows (proposals t)
         (<[(proposer, proposal_name) := ApprovalsInfo (requested_approvals apps ++ [level]) rest]> (approvals t)) cx))%res.

Definition cancel n k (proposer proposal_name canceler : Z) cx : result context :=
  let t := Transactions.tables (fst cx) in
  (let* _ := require_auth k canceler in
   let* prop := of_option (proposals t !! (proposer, proposal_name)) "proposal not found" in
   let* _ := if canceler =? proposer then Ok tt else
             (let* h := unpack header_codec prop in
              rassert (expiration h <? now n) "cannot cancel until expiration") in
   let* apps := of_option (approvals t !! (proposer, proposal_name)) "proposal not found" in
   Ok (set_rows (delete (proposer, proposal_name) (proposals t)) (delete (proposer, proposal_name) (approvals t)) cx))%res.

Definition exec n (enforce : bool) k (proposer proposal_name executer : Z) cx : result context :=
  let t := Transactions.tables (fst cx) in
  (let* _ := require_auth k executer in
   let* prop := of_option (proposals t !! (proposer, proposal_name)) "proposal not found" in
   let* apps := of_option (approvals t !! (proposer, proposal_name)) "proposal not found" in
   let* (trx_header, _) := get header_codec prop in
   check* now n <=? expiration trx_header with "transaction expired" in
   let* packed_provided_approvals := pack (vector permission_level_codec) (provided_approvals apps) in
   let* res := check_transaction_authorization n prop packed_provided_approvals (fst cx) in
   check* res with "transaction authorization failed" in
   let* cx := send_deferred n enforce k (Z.lor (u128 (Z.shiftl proposer 64)) proposal_name) executer prop false cx in
   Ok (set_rows (delete (proposer, proposal_name) (proposals t)) (delete (proposer, proposal_name) (approvals t)) cx))%res.

(** *** [EOSIO_ABI]: the arguments are unpacked from the data of the action. *)
Definition level_args : codec (Z * Z * (Z * Z)) := pair_codec (pair_codec (uint 8) (uint 8)) permission_level_codec.
Definition account_args : codec (Z * Z * Z) := pair_codec (pair_codec (uint 8) (uint 8)) (uint 8).

Definition apply n (enforce : bool) k cx : result context :=
  let code := a_account (act k) in
  let action := a_name (act k) in
  let data := a_data (act k) in
  (check* negb (action =? N_ "onerror") || (code =? config.system_account_name)
     with "onerror action's are only valid from the system account" in
   if (code =? receiver k) || (action =? N_ "onerror") then
     if action =? N_ "propose" then propose n k cx
     else if action =? N_ "approve" then
       let* (p, m, level) := unpack level_args data in approve k p m level cx
     else if action =? N_ "unapprove" then
       let* (p, m, level) := unpack level_args data in unapprove k p m level cx
     else if action =? N_ "cancel" then
       let* (p, m, canceler) := unpack account_args data in cancel n k p m canceler cx
     else if action =? N_ "exec" then
       let* (p, m, executer) := unpack account_args data in exec n enforce k p m executer cx
     else Ok cx
   else Ok cx)%res.
End msig.

(** ** History.

    What has happened to the proposals, the latest first.  Approvals carry the authorization
    of the action that made them; an execution carries the permissions of the chain and the
    approvals it was checked with. *)
Section theorems.
Context {key : Type} `{!EqDecision key}.
Context (microseconds_maximum : Z).
Context (host_pack : transaction -> list Z) (host_unpack : list Z -> result transaction).
Context (trx_id_of : transaction -> Z).
Context (native_data_of : raw_action -> native_data (key := key)).
Context (host_unpack_levels : list Z -> result (list (Z * Z))).
Context (self : Z).
Abbreviation chain := (Transactions.chain (key := key) (W := tables)) (only parsing).
Abbreviation context := (Transactions.chain (key := key) (W := tables) * trx_context)%type (only parsing).
Abbreviation apply := (apply microseconds_maximum host_pack host_unpack trx_id_of native_data_of host_unpack_levels) (only parsing).
Abbreviation auth_db := (Permissions.auth_db (key := key)) (only parsing).
Implicit Types (n : node) (k : call) (c : chain) (cx : context) (p : Z * Z) (level : Z * Z).

Inductive event :=
| EPropose (p : Z * Z) (trx : list Z) (requested : list (Z * Z))
| EApprove (p : Z * Z) (level : Z * Z) (by_ : list (Z * Z))
| EUnapprove (p : Z * Z) (level : Z * Z) (by_ : list (Z * Z))
| ECancel (p : Z * Z)
| EExec (p : Z * Z) (d : auth_db) (given : list (Z * Z)).

Definition about (e : event) : Z * Z :=
  match e with EPropose p _ _ | EApprove p _ _ | EUnapprove p _ _ | ECancel p | EExec p _ _ => p end.

(** The transaction that is proposed under a name, and the permissions that were asked. *)
Fixpoint proposed p (log : list event) : option (list Z * list (Z * Z)) :=
  match log with
  | [] => None
  | e :: log =>
      if decide (about e = p) then
        match e with
        | EPropose _ trx requested => Some (trx, requested)
        | ECancel _ | EExec _ _ _ => None
        | _ => proposed p log
        end
      else proposed p log
  end.

(** The approvals a permission gave by its own authority since the proposal and has not withdrawn. *)
Fixpoint in_force p level (log : list event) : Z :=
  match log with
  | [] => 0
  | e :: log =>
      if decide (about e = p) then
        match e with
        | EApprove _ l by_ => in_force p level log + (if decide (l = level /\ level ∈ by_) then 1 else 0)
        | EUnapprove _ l by_ => in_force p level log - (if decide (l = level /\ level ∈ by_) then 1 else 0)
        | _ => 0
        end
      else in_force p level log
  end.

(** What an action that succeeds adds to the history. *)
Definition event_of k c : list event :=
  let action := a_name (act k) in
  let data := a_data (act k) in
  if negb (a_account (act k) =? receiver k) then []
  else if action =? N_ "propose" then
    match (let* (proposer, ds) := get (uint 8) data in
           let* (proposal_name, ds) := get (uint 8) ds in
           let* (requested, ds) := get (vector permission_level_codec) ds in
           Ok (EPropose (proposer, proposal_name) ds requested))%res with
    | Ok e => [e] | Err _ => [] end
  else if action =? N_ "approve" then
    match unpack level_args data with
    | Ok (p, level) => [EApprove p level (a_authorization (act k))] | Err _ => [] end
  else if action =? N_ "unapprove" then
    match unpack level_args data with
    | Ok (p, level) => [EUnapprove p level (a_authorization (act k))] | Err _ => [] end
  else if action =? N_ "cancel" then
    match unpack account_args data with Ok (p, _) => [ECancel p] | Err _ => [] end
  else if action =? N_ "exec" then
    match unpack account_args data with
    | Ok (p, _) =>
        match approvals (Transactions.tables c) !! p with
        | Some apps => [EExec p (auth_view host_unpack c) (provided_approvals apps)]
        | None => [] end
    | Err _ => [] end
  else [].

(** The chain as the contract sees it: whatever else happens, its tables and the deferred
    transactions in its name are its own; these may be run or cancelled. *)
Inductive run : chain -> list event -> Prop :=
| run_init c :
    Transactions.tables c = Tables ∅ ∅ -> tree_ok (auths c) ->
    (forall id g, generated c !! id = Some g -> gto_sender g <> self) -> run c []
| run_call c x c' x' log n enforce k :
    run c log -> receiver k = self -> Forall is_byte (a_data (act k)) ->
    apply n enforce k (c, x) = Ok (c', x') -> run c' (event_of k c ++ log)
| run_other c c' log :
    run c log -> Transactions.tables c' = Transactions.tables c -> tree_ok (auths c') ->
    (forall id g, generated c' !! id = Some g -> gto_sender g = self -> generated c !! id = Some g) ->
    run c' log.

(** A deferred transaction is the one that was proposed, and each of its authorizations is
    granted by approvals that were in force. *)
Definition approved (g : generated_transaction_object) (log : list event) : Prop :=
  exists l1 l0 p d given trx requested t n,
    log = l1 ++ EExec p d given :: l0 /\ proposed p l0 = Some (trx, requested) /\ host_unpack trx = Ok t /\
    gto_packed_trx g = host_pack (stamp n t) /\
    (forall level, level ∈ given -> 0 < in_force p level l0 /\ level ∈ requested) /\
    forall a level, a ∈ actions t -> level ∈ a_authorization a ->
      entitled d (to_native native_data_of a) level /\
      exists levels delay, (forall l, l ∈ levels -> l ∈ given) /\ granted (authority_of d) [] levels delay level.

Definition count level (l : list (Z * Z)) : Z := Z.of_nat (length (filter (fun x => x = level) l)).

Record row_ok (trx : list Z) (apps : approvals_info) p (log : list event) : Prop := {
  ro_requested : exists requested, proposed p log = Some (trx, requested) /\ list_ok level_ok requested /\
    requested ≡ₚ requested_approvals apps ++ provided_approvals apps;
  ro_given : forall level, count level (provided_approvals apps) = in_force p level log;
}.

Record inv c (log : list event) : Prop := {
  in_rows : forall p, match proposals (Transactions.tables c) !! p, approvals (Transactions.tables c) !! p with
                      | Some trx, Some apps => row_ok trx apps p log
                      | None, None => proposed p log = None
                      | _, _ => False
                      end;
  in_sent : forall id g, generated c !! id = Some g -> gto_sender g = self -> approved g log;
  in_tree : tree_ok (auths c);
}.

(** *** Lists of permissions. *)
Lemma erase_found_perm level l rest : erase_found level l = Some rest -> l ≡ₚ level :: rest.
Proof.
  revert rest. induction l as [|x l IH]; intros rest; cbn; [done|]. destruct (decide (x = level)) as [->|_]; [by intros [= ->]|].
  destruct (erase_found level l) as [r|]; [|done]. intros [= <-]. rewrite (IH r eq_refl). constructor.
Qed.

Lemma count_perm level l l' : l ≡ₚ l' -> count level l = count level l'.
Proof. intros H. unfold count. by rewrite H. Qed.

Lemma count_cons level x l : count level (x :: l) = count level l + (if decide (x = level) then 1 else 0).
Proof. unfold count. rewrite filter_cons. destruct (decide (x = level)); cbn [length]; lia. Qed.

Lemma count_elem level l : 0 < count level l <-> level ∈ l.
Proof.
  induction l as [|x l IH]; [unfold count; cbn; set_solver by lia|]. rewrite count_cons, elem_of_cons, <- IH.
  assert (0 <= count level l) by (unfold count; lia). destruct (decide (x = level)); [|naive_solver lia].
  split; [intros _; by left|lia].
Qed.

(** *** The rows and the history. *)
Lemma proposed_other p e log : about e <> p -> proposed p (e :: log) = proposed p log.
Proof. intros H. cbn. by rewrite decide_False. Qed.
Lemma in_force_other p level e log : about e <> p -> in_force p level (e :: log) = in_force p level log.
Proof. intros H. cbn. by rewrite decide_False. Qed.

Lemma row_ok_other trx apps p e log : about e <> p -> row_ok trx apps p log -> row_ok trx apps p (e :: log).
Proof.
  intros He [H1 H2]. split; [by rewrite proposed_other|]. intros level. by rewrite in_force_other.
Qed.

Lemma row_ok_propose p trx requested log :
  list_ok level_ok requested -> row_ok trx (ApprovalsInfo requested []) p (EPropose p trx requested :: log).
Proof.
  intros Hr. split; cbn; [|intros level]; rewrite decide_True by done; [|done]. exists requested. by rewrite app_nil_r.
Qed.

Lemma row_ok_approve p trx apps level by_ rest log :
  row_ok trx apps p log -> level ∈ by_ -> erase_found level (requested_approvals apps) = Some rest ->
  row_ok trx (ApprovalsInfo rest (provided_approvals apps ++ [level])) p (EApprove p level by_ :: log).
Proof.
  intros [(r & Hr & Hty & Hp) Hg] Hb He%erase_found_perm. split; cbn; [|intros l]; rewrite decide_True by done.
  - exists r. split; [done|]. split; [done|]. rewrite Hp, He. cbn. rewrite app_assoc. apply Permutation_cons_append.
  - rewrite (count_perm l _ (level :: provided_approvals apps)) by (symmetry; apply Permutation_cons_append).
    rewrite count_cons, Hg. do 2 case_decide; naive_solver lia.
Qed.

Lemma row_ok_unapprove p trx apps level by_ rest log :
  row_ok trx apps p log -> level ∈ by_ -> erase_found level (provided_approvals apps) = Some rest ->
  row_ok trx (ApprovalsInfo (requested_approvals apps ++ [level]) rest) p (EUnapprove p level by_ :: log).
Proof.
  intros [(r & Hr & Hty & Hp) Hg] Hb He%erase_found_perm. split; cbn; [|intros l]; rewrite decide_True by done.
  - exists r. split; [done|]. split; [done|]. by rewrite Hp, He, <- app_assoc.
  - rewrite <- Hg, (count_perm l _ _ He), count_cons. do 2 case_decide; naive_solver lia.
Qed.

(** *** What an action changes. *)
Lemma set_rows_eq pr ap cx :
  Transactions.tables (fst (set_rows pr ap cx)) = Tables pr ap /\ generated (fst (set_rows pr ap cx)) = generated (fst cx) /\
  auths (fst (set_rows pr ap cx)) = auths (fst cx).
Proof. done. Qed.

(** The rows of one proposal change with an event about it. *)
Lemma inv_rows c c' log e pr ap :
  inv c log -> Transactions.tables c' = Tables pr ap ->
  (forall p, p <> about e -> pr !! p = proposals (Transactions.tables c) !! p /\ ap !! p = approvals (Transactions.tables c) !! p) ->
  match pr !! about e, ap !! about e with
  | Some trx, Some apps => row_ok trx apps (about e) (e :: log)
  | None, None => proposed (about e) (e :: log) = None
  | _, _ => False
  end ->
  forall p, match proposals (Transactions.tables c') !! p, approvals (Transactions.tables c') !! p with
            | Some trx, Some apps => row_ok trx apps p (e :: log)
            | None, None => proposed p (e :: log) = None
            | _, _ => False
            end.
Proof.
  intros Hi Ht Ho He p. rewrite Ht. cbn [proposals approvals]. destruct (decide (p = about e)) as [->|Hne]; [done|].
  destruct (Ho p Hne) as [-> ->]. pose proof (in_rows _ _ Hi p) as Hr.
  destruct (proposals _ !! p), (approvals _ !! p); try done; [by apply row_ok_other|by rewrite proposed_other].
Qed.

Lemma approved_cons g log e : approved g log -> approved g (e :: log).
Proof.
  intros (l1 & l0 & p & d & given & trx & requested & t & n & -> & H). by exists (e :: l1), l0, p, d, given, trx, requested, t, n.
Qed.

Lemma inv_set pr ap cx log e :
  inv (fst cx) log ->
  (forall p, p <> about e ->
     pr !! p = proposals (Transactions.tables (fst cx)) !! p /\ ap !! p = approvals (Transactions.tables (fst cx)) !! p) ->
  match pr !! about e, ap !! about e with
  | Some trx, Some apps => row_ok trx apps (about e) (e :: log)
  | None, None => proposed (about e) (e :: log) = None
  | _, _ => False
  end ->
  inv (fst (set_rows pr ap cx)) (e :: log).
Proof.
  intros Hi Ho He. split; [by eapply inv_rows| |apply Hi].
  intros id g Hg Hs. apply approved_cons. by eapply in_sent.
Qed.

Lemma msig_require_level_ok k level : require_level k level = Ok tt -> level ∈ a_authorization (act k).
Proof. unfold require_level. intros H%rassert_ok. by apply bool_decide_eq_true_1 in H. Qed.

Ltac rows := intros ? ?; split; [try done; first [by rewrite lookup_insert_ne|by rewrite lookup_delete_ne|done]|
  first [by rewrite lookup_insert_ne|by rewrite lookup_delete_ne]].

Lemma approve_inv k proposer m level cx cx' log :
  inv (fst cx) log -> approve k proposer m level cx = Ok cx' ->
  inv (fst cx') (EApprove (proposer, m) level (a_authorization (act k)) :: log).
Proof.
  intros Hi H. apply rbind_ok in H as ([] & Hl%msig_require_level_ok & H). apply rbind_ok in H as (apps & Ha%of_option_ok & H).
  apply rbind_ok in H as (rest & Hr%of_option_ok & [= <-]). apply inv_set; [done|rows|]. cbn [about].
  rewrite lookup_insert_eq. pose proof (in_rows _ _ Hi (proposer, m)) as Hp. rewrite Ha in Hp.
  destruct (proposals _ !! _); [|done]. by apply row_ok_approve.
Qed.

Lemma unapprove_inv k proposer m level cx cx' log :
  inv (fst cx) log -> unapprove k proposer m level cx = Ok cx' ->
  inv (fst cx') (EUnapprove (proposer, m) level (a_authorization (act k)) :: log).
Proof.
  intros Hi H. apply rbind_ok in H as ([] & Hl%msig_require_level_ok & H). apply rbind_ok in H as (apps & Ha%of_option_ok & H).
  apply rbind_ok in H as (rest & Hr%of_option_ok & [= <-]). apply inv_set; [done|rows|]. cbn [about].
  rewrite lookup_insert_eq. pose proof (in_rows _ _ Hi (proposer, m)) as Hp. rewrite Ha in Hp.
  destruct (proposals _ !! _); [|done]. by apply row_ok_unapprove.
Qed.

Lemma cancel_inv n k proposer m canceler cx cx' log :
  inv (fst cx) log -> cancel n k proposer m canceler cx = Ok cx' -> inv (fst cx') (ECancel (proposer, m) :: log).
Proof.
  intros Hi H. apply rbind_ok in H as ([] & _ & H). apply rbind_ok in H as (prop & _ & H).
  apply rbind_ok in H as (u0 & _ & H). apply rbind_ok in H as (apps & _ & [= <-]). apply inv_set; [done|rows|]. cbn [about].
  rewrite !lookup_delete_eq. cbn. by rewrite decide_True.
Qed.

Lemma get_rest {A} (d : codec A) P `{!CodecOk d P} l a r : Forall is_byte l -> get d l = Ok (a, r) -> Forall is_byte r.
Proof. intros Hl H. apply ok_local in H as (u & -> & _). by apply Forall_app in Hl as [_ ?]. Qed.

Lemma propose_inv n k cx cx' log :
  inv (fst cx) log -> Forall is_byte (a_data (act k)) ->
  propose microseconds_maximum host_unpack native_data_of host_unpack_levels n k cx = Ok cx' ->
  exists proposer m requested ds ds1 ds2,
    get (uint 8) (a_data (act k)) = Ok (proposer, ds1) /\ get (uint 8) ds1 = Ok (m, ds2) /\
    get (vector permission_level_codec) ds2 = Ok (requested, ds) /\
    inv (fst cx') (EPropose (proposer, m) ds requested :: log).
Proof.
  intros Hi Hb H. apply rbind_ok in H as ([proposer ds1] & H1 & H). apply rbind_ok in H as ([m ds2] & H2 & H).
  apply rbind_ok in H as ([requested ds] & H3 & H). apply rbind_ok in H as ([h r] & _ & H).
  apply rbind_ok in H as ([] & _ & H). apply rbind_ok in H as ([] & _ & H). apply rbind_ok in H as ([] & _ & H).
  apply rbind_ok in H as (pk & _ & H). apply rbind_ok in H as (res & _ & H). apply rbind_ok in H as ([] & _ & H).
  apply rbind_ok in H as ([] & _ & [= <-]). exists proposer, m, requested, ds, ds1, ds2. split_and!; [done..|].
  apply inv_set; [done|rows|]. cbn [about]. rewrite !lookup_insert_eq. apply row_ok_propose.
  eapply (Datastream.ok_typed (c := vector permission_level_codec) (P := list_ok level_ok) ds2 requested ds); [|done].
  apply (get_rest (uint 8) _ ds1 m ds2); [|done]. by apply (get_rest (uint 8) _ (a_data (act k)) proposer ds1).
Qed.

(** *** Execution. *)
Lemma schedule_inv n enforce s i payer t cx cx' :
  schedule_deferred_transaction microseconds_maximum host_pack host_unpack trx_id_of native_data_of n enforce s i payer t false cx
    = Ok cx' ->
  exists id g, gto_packed_trx g = host_pack (stamp n t) /\ generated (fst cx') = <[id := g]> (generated (fst cx)) /\
    auths (fst cx') = auths (fst cx).
Proof.
  unfold schedule_deferred_transaction. intros H. apply rbind_ok in H as (u0 & _ & H). apply rbind_ok in H as (u1 & _ & H).
  apply rbind_ok in H as ([c1 x1] & Hn & H). apply add_net_keeps in Hn. cbn [fst] in Hn. subst c1.
  apply rbind_ok in H as (u2 & _ & H). apply rbind_ok in H as (c2 & Hc & H). apply rbind_ok in H as (u3 & _ & H).
  destruct (find_by_sender _ _ _) as [[id g]|]; [by apply rbind_ok in Hc as ([] & ? & _)|].
  apply create_gto_keeps in Hc as [_ ->]. unfold add_ram in H. apply rbind_ok in H as ([x db] & _ & [= <-]).
  eexists _, (Gto _ _ _ _ _ _ _ _). split; [|split]; [|reflexivity..]. reflexivity.
Qed.

Hypothesis levels_unpacked : forall v l packed, list_ok level_ok v ->
  pack (vector permission_level_codec) v = Ok packed -> host_unpack_levels packed = Ok l -> forall level, level ∈ l -> level ∈ v.

Lemma check_transaction_granted n trx packed given c t a level :
  tree_ok (auths c) -> list_ok level_ok given -> pack (vector permission_level_codec) given = Ok packed ->
  check_transaction_authorization microseconds_maximum host_unpack native_data_of host_unpack_levels n trx packed c = Ok true ->
  host_unpack trx = Ok t -> a ∈ actions t -> level ∈ a_authorization a ->
  entitled (auth_view host_unpack c) (to_native native_data_of a) level /\
  exists levels delay, (forall l, l ∈ levels -> l ∈ given) /\ granted (authority_of (auth_view host_unpack c)) [] levels delay level.
Proof.
  intros Hok Hty Hp H Ht Ha Hl. unfold check_transaction_authorization in H. rewrite Ht in H. cbn [rbind] in H.
  apply rbind_ok in H as (levels & Hlv & H). destruct (check_authorization _ _ _ _ _ _ _ _ _ _) as [[]|e] eqn:E; [|by case_bool_decide].
  destruct (check_authorization_entitled _ _ _ _ _ _ _ _ _ _ (to_native native_data_of a) level (tree_ok_view _ c Hok) E) as [He Hg];
    [apply list_elem_of_fmap; by exists a|done|].
  split; [done|]. destruct Hg as [Hg|(delay & _ & Hg)]; [by apply not_elem_of_nil in Hg|]. exists levels, delay. split; [|done].
  intros l Hin. case_bool_decide; [injection Hlv as <-; by apply not_elem_of_nil in Hin|]. by eapply levels_unpacked.
Qed.

Lemma provided_typed requested l given : list_ok level_ok requested -> requested ≡ₚ l ++ given -> list_ok level_ok given.
Proof.
  intros [H1 H2] Hp. split.
  - rewrite Hp in H1. by apply Forall_app in H1 as [_ ?].
  - unfold len in *. rewrite Hp, length_app in H2. lia.
Qed.

Lemma exec_inv n enforce k proposer m executer cx cx' log :
  inv (fst cx) log ->
  exec microseconds_maximum host_pack host_unpack trx_id_of native_data_of host_unpack_levels n enforce k proposer m executer cx = Ok cx' ->
  exists apps, approvals (Transactions.tables (fst cx)) !! (proposer, m) = Some apps /\
    inv (fst cx') (EExec (proposer, m) (auth_view host_unpack (fst cx)) (provided_approvals apps) :: log).
Proof.
  intros Hi H. apply rbind_ok in H as ([] & _ & H). apply rbind_ok in H as (prop & Hp%of_option_ok & H).
  apply rbind_ok in H as (apps & Ha%of_option_ok & H). apply rbind_ok in H as ([h r] & _ & H).
  apply rbind_ok in H as ([] & _ & H). apply rbind_ok in H as (packed & Hpk & H). apply rbind_ok in H as (res & Hc & H).
  apply rbind_ok in H as ([] & ->%rassert_ok & H). apply rbind_ok in H as (cx1 & Hs & [= <-]). exists apps. split; [done|].
  apply rbind_ok in Hs as (t & Ht & Hs). apply schedule_inv in Hs as (id & g & Hg & Hgen & Hau).
  pose proof (in_rows _ _ Hi (proposer, m)) as Hr. rewrite Hp, Ha in Hr. destruct Hr as [(requested & Hpr & Hty & Hperm) Hgiven]. split.
  - eapply (inv_rows (fst cx) _ _ (EExec _ _ _)); [done|done|cbn [about]; rows|]. cbn [about]. rewrite !lookup_delete_eq.
    cbn. by rewrite decide_True.
  - intros id' g' Hg' Hself. cbn in Hg'. rewrite Hgen in Hg'. apply lookup_insert_Some in Hg' as [[<- <-]|[_ Hg']].
    + exists [], log, (proposer, m), (auth_view host_unpack (fst cx)), (provided_approvals apps), prop, requested, t, n.
      split_and!; [done..| |].
      * intros level Hl. split; [rewrite <- Hgiven; by apply count_elem|]. rewrite Hperm. set_solver.
      * intros a level Hin Hl. eapply check_transaction_granted; [apply Hi|by eapply provided_typed|done|done|done|done|done].
    + apply approved_cons. by eapply in_sent.
  - cbn. rewrite Hau. apply Hi.
Qed.

Lemma onerror_unknown a :
  a = N_ "propose" \/ a = N_ "approve" \/ a = N_ "unapprove" \/ a = N_ "cancel" \/ a = N_ "exec" -> (N_ "onerror" =? a) = false.
Proof. intros H. destruct_or!; subst a; vm_compute; reflexivity. Qed.

Lemma msig_apply_inv n enforce k cx cx' log :
  inv (fst cx) log -> Forall is_byte (a_data (act k)) -> apply n enforce k cx = Ok cx' ->
  inv (fst cx') (event_of k (fst cx) ++ log).
Proof.
  intros Hi Hb H. unfold Msig.apply in H. apply rbind_ok in H as ([] & Ho & H). unfold event_of.
  destruct (Z.eqb_spec (a_account (act k)) (receiver k)) as [_|Hne]; cbn [orb negb] in H |- *.
  - destruct (a_name (act k) =? N_ "propose").
    { apply (propose_inv _ _ _ _ _ Hi Hb) in H as (proposer & m & req & ds & ds1 & ds2 & -> & H2 & H3 & H).
      cbn [rbind]. rewrite H2. cbn [rbind]. by rewrite H3. }
    destruct (a_name (act k) =? N_ "approve").
    { apply rbind_ok in H as ([[proposer m] level] & -> & H). by eapply approve_inv. }
    destruct (a_name (act k) =? N_ "unapprove").
    { apply rbind_ok in H as ([[proposer m] level] & -> & H). by eapply unapprove_inv. }
    destruct (a_name (act k) =? N_ "cancel").
    { apply rbind_ok in H as ([[proposer m] a] & -> & H). by eapply cancel_inv. }
    destruct (a_name (act k) =? N_ "exec"); [|by injection H as <-].
    apply rbind_ok in H as ([[proposer m] a] & -> & H). apply (exec_inv _ _ _ _ _ _ _ _ _ Hi) in H as (apps & -> & H). done.
  - destruct (Z.eqb_spec (a_name (act k)) (N_ "onerror")) as [E|_]; [|by injection H as <-]. rewrite E in H.
    rewrite !onerror_unknown in H by tauto. by injection H as <-.
Qed.

Lemma msig_run_inv c log : run c log -> inv c log.
Proof.
  induction 1 as [c Ht Htree Hg|c x c' x' log n enforce k _ IH Hk Hb H|c c' log _ IH Ht Htree Hg].
  - split; [|by intros id g ? ?; destruct (Hg id g)|done]. intros p. rewrite Ht. cbn. by rewrite !lookup_empty.
  - by apply (msig_apply_inv n enforce k (c, x) (c', x')).
  - split; [|intros id g H1 H2; apply (in_sent _ _ IH id g); auto|done]. intros p. rewrite Ht. apply IH.
Qed.

(** In every run a deferred transaction of the contract is the one that was proposed and executed
    under a name, and each authorization it declares is granted by permissions that were asked
    for, that approved by their own authority after the proposal, and that did not withdraw. *)
(** C14: In every run a deferred transaction of the multisig contract is the one that
    was proposed and executed under a name, and each authorization it declares is
    granted by permissions that were asked for, that approved by their own authority
    after the proposal, and that did not withdraw. *)
Theorem msig_approved c log id g :
  run c log -> generated c !! id = Some g -> gto_sender g = self -> approved g log.
Proof. intros H%msig_run_inv. apply H. Qed.

(** In every run the tables hold what the history says: the transaction proposed last under a name
    and not cancelled or executed since, who was asked, and who has approved. *)
(** C19: In every run the tables of the multisig contract hold what the history says:
    the transaction proposed last under a name and not cancelled or executed since,
    who was asked, and who has approved. *)
Theorem msig_follows_history c log p :
  run c log ->
  match proposed p log with
  | None => proposals (Transactions.tables c) !! p = None /\ approvals (Transactions.tables c) !! p = None
  | Some (trx, requested) =>
      proposals (Transactions.tables c) !! p = Some trx /\
      exists apps, approvals (Transactions.tables c) !! p = Some apps /\
        requested ≡ₚ requested_approvals apps ++ provided_approvals apps /\
        forall level, count level (provided_approvals apps) = in_force p level log
  end.
Proof.
  intros H%msig_run_inv. pose proof (in_rows _ _ H p) as Hr.
  destruct (proposals _ !! p) as [trx|], (approvals _ !! p) as [apps|]; try done; [|by rewrite Hr].
  destruct Hr as [(requested & -> & _ & Hp) Hg]. split; [done|]. by exists apps.
Qed.
End theorems.

(** ** An example: alice proposes a transaction of bob, bob approves, and alice executes it. *)
Definition mx_self : Z := Eval vm_compute in N_ "force.msig".
Definition mx_name : Z := Eval vm_compute in N_ "pay".
Definition mx_trx : transaction :=
  Transaction (TransactionHeader 1060 7 9 0 0 0) [] [RawAction bob hi [(bob, active)] []] [].
Definition mx_unpack_levels (l : list Z) : result (list (Z * Z)) := unpack (vector permission_level_codec) l.

Definition mx_chain : Transactions.chain (key := Z) (W := tables) :=
  Chain ∅ ∅ ∅ 1 tr_resources tr_auths (Tables ∅ ∅).
Definition mx_context : trx_context := set_net (NetState 10000 false false 10000 0) (new_context 1000 (2 ^ 62) 3000 0 false).
Definition mx_call (name : Z) (by_ : Z * Z) (data : list Z) : call := Call mx_self (RawAction mx_self name [by_] data) true.
Definition mx_calls : list call :=
  [mx_call (N_ "propose") (alice, active)
     (put_bytes (pair_codec (pair_codec (uint 8) (uint 8)) (vector permission_level_codec)) (alice, mx_name, [(bob, active)])
      ++ put_bytes transaction_codec mx_trx);
   mx_call (N_ "approve") (bob, active) (put_bytes level_args (alice, mx_name, (bob, active)));
   mx_call (N_ "exec") (alice, active) (put_bytes account_args (alice, mx_name, alice))].

Definition mx_apply := apply (key := Z) (2 ^ 63 - 1) tr_pack tr_unpack tr_id (fun _ => OtherData) mx_unpack_levels (tr_node 1000) true.
Definition mx_step (cx : Transactions.chain (key := Z) (W := tables) * trx_context) (k : call) :=
  match mx_apply k cx with Ok cx => cx | Err _ => cx end.
Definition mx_after (m : nat) : Transactions.chain (key := Z) (W := tables) * trx_context :=
  foldl mx_step (mx_chain, mx_context) (take m mx_calls).
Definition mx_none : call := Call 0 (RawAction 0 0 [] []) false.
Definition mx_log : list (event (key := Z)) :=
  event_of tr_unpack (nth 2 mx_calls mx_none) (fst (mx_after 2)) ++ event_of tr_unpack (nth 1 mx_calls mx_none) (fst (mx_after 1)) ++
  event_of tr_unpack (nth 0 mx_calls mx_none) (fst (mx_after 0)) ++ [].
Definition mx_gto : generated_transaction_object :=
  default (Gto 0 0 0 0 0 0 0 []) (generated (fst (mx_after 3)) !! 1).

Lemma mx_step_eq m : (m < 3)%nat -> mx_apply (nth m mx_calls mx_none) (mx_after m) = Ok (mx_after (S m)).
Proof. intros H. do 3 (destruct m as [|m]; [vm_compute; reflexivity|]). lia. Qed.

Abbreviation mx_run :=
  (run (key := Z) (2 ^ 63 - 1) tr_pack tr_unpack tr_id (fun _ => OtherData) mx_unpack_levels mx_self) (only parsing).

Lemma mx_next c log m :
  (m < 3)%nat -> c = fst (mx_after m) -> mx_run c log ->
  mx_run (fst (mx_after (S m))) (event_of tr_unpack (nth m mx_calls mx_none) c ++ log).
Proof.
  intros Hm -> Hr. pose proof (mx_step_eq m Hm) as H. destruct (mx_after m) as [c x]. destruct (mx_after (S m)) as [c' x'].
  eapply (run_call _ _ _ _ _ _ _ c x c' x' log (tr_node 1000) true); [exact Hr| | |exact H].
  - by do 3 (destruct m as [|m]; [done|]); lia.
  - do 3 (destruct m as [|m]; [vm_compute; repeat constructor; discriminate|]). lia.
Qed.

Lemma mx_run_ok : mx_run (fst (mx_after 3)) mx_log.
Proof.
  unfold mx_log. repeat (apply mx_next; [lia|reflexivity|]). apply run_init; [reflexivity|apply tr_auths_ok|].
  intros id g H. change (generated (fst (mx_after 0))) with (∅ : gmap Z generated_transaction_object) in H.
  by apply lookup_empty_Some in H.
Qed.

Lemma mx_levels v l packed : list_ok level_ok v ->
  pack (vector permission_level_codec) v = Ok packed -> mx_unpack_levels packed = Ok l -> forall level, level ∈ l -> level ∈ v.
Proof.
  intros Hv Hp%pack_ok Hl level Hin. subst packed. unfold mx_unpack_levels in Hl. rewrite <- (app_nil_r (put_bytes _ _)) in Hl.
  rewrite (unpack_put (vector permission_level_codec) (list_ok level_ok)) in Hl by done. by injection Hl as <-.
Qed.

Lemma msig_approved_witness : approved tr_pack tr_unpack (fun _ => OtherData) mx_gto mx_log.
Proof.
  apply (msig_approved (2 ^ 63 - 1) tr_pack tr_unpack tr_id (fun _ => OtherData) mx_unpack_levels mx_self mx_levels (fst (mx_after 3)) mx_log 1).
  - exact mx_run_ok.
  - vm_compute. reflexivity.
  - vm_compute. reflexivity.
Defined.

Lemma msig_follows_history_witness :
  proposals (Transactions.tables (fst (mx_after 3))) !! (alice, mx_name) = None /\
  approvals (Transactions.tables (fst (mx_after 3))) !! (alice, mx_name) = None.
Proof.
  exact (msig_follows_history (2 ^ 63 - 1) tr_pack tr_unpack tr_id (fun _ => OtherData) mx_unpack_levels mx_self mx_levels (fst (mx_after 3))
    mx_log (alice, mx_name) mx_run_ok).
Defined.
End Msig.
