(* ===== verification/BlockRelay.v ===== *)
(** * The blocks of other chains, [contracts/force.relay].

    Accounts that have deposited core tokens with the contract commit the blocks of a chain with
    the actions in them.  A block that committers with two thirds of the deposits have confirmed
    is handled: each of its actions that has a handler is sent to the account of the handler,
    which is [relay.token] in practice.  Deposits arrive as transfers whose memo names the chain. *)
From stdpp Require Import base gmap list sorting.
From Stdlib Require Import ZArith Lia.
From stdpp Require Import strings.
From Stdlib Require Import Sorted.
From S2P Require Import Prelude Name Asset Runtime.

Open Scope Z_scope.

Module BlockRelay.

(** ** State. *)
Record unconfirm_block := UnconfirmBlock {
  base : block_type;
  confirm : asset;
  uc_actions : list relay_action;
  confirmeds : list Z;
}.

Record block_relay_stat := BlockRelayStat {
  last : block_type;
  unconfirms : list unconfirm_block;
}.

Record map_handler := MapHandler {
  actaccount : Z;
  actname : Z;
  relayacc : Z;
  h_account : Z;
  h_data : string;
}.

Record relay_transfer := RelayTransfer {
  deposit : asset;
  t_last : block_type;
}.

Record channel := Channel {
  channel_id : list Z;
  deposit_sum : asset;
}.

(** [relaystat] and [channels] by chain, [handlers] by chain and name, [transfers] by chain and
    account. *)
Record state := State {
  relaystat : gmap Z block_relay_stat;
  handlers : gmap (Z * Z) map_handler;
  transfers : gmap (Z * Z) relay_transfer;
  channels : gmap Z channel;
}.

Abbreviation relaystat_t := (View relaystat (fun m s => State m (handlers s) (transfers s) (channels s))) (only parsing).
Abbreviation handlers_t := (View handlers (fun m s => State (relaystat s) m (transfers s) (channels s))) (only parsing).
Abbreviation transfers_t := (View transfers (fun m s => State (relaystat s) (handlers s) m (channels s))) (only parsing).
Abbreviation channels_t := (View channels (fun m s => State (relaystat s) (handlers s) (transfers s) m)) (only parsing).

(** A block that was not set; its checksums, which nothing reads, are given as zeros. *)
Definition nil_block : block_type :=
  BlockType 0 0 (repeat 0 32) (repeat 0 32) 1 (repeat 0 32) (repeat 0 32).

Definition is_nil (b : block_type) : bool := b_producer b =? 0.

(** [operator ==]. *)
Definition block_eqb (a b : block_type) : bool :=
  bool_decide (b_id a = b_id b) && (b_num a =? b_num b) &&
  bool_decide (b_transaction_mroot a = b_transaction_mroot b) && bool_decide (b_action_mroot a = b_action_mroot b).

(** At least two thirds of the deposits. *)
Definition is_confirmed (confirm_ sum : asset) : M state bool :=
  c ← lift (asset_mul confirm_ 3);
  s ← lift (asset_mul sum 2);
  lift (asset_ge c s).

Section relay.
(** [std::sort] by the number of the block. *)
Context (sort : list unconfirm_block -> list unconfirm_block).

(** ** Commits. *)

(** The first unconfirmed block that equals [block] gets [new_confirm] and the committer. *)
Fixpoint confirm_first (block : block_type) (new_confirm : asset) (committer : Z) (l : list unconfirm_block)
  : result (list unconfirm_block) :=
  match l with
  | [] => Ok []
  | u :: l =>
      if block_eqb (base u) block then
        (check* negb (existsb (Z.eqb committer) (confirmeds u)) with "committer has confirmed" in
         Ok (UnconfirmBlock (base u) new_confirm (uc_actions u) (confirmeds u ++ [committer]) :: l))%res
      else (let* l := confirm_first block new_confirm committer l in Ok (u :: l))%res
  end.

Definition add_confirm (transfer : Z) (d : asset) (block : block_type) (actions : list relay_action) (l : list unconfirm_block)
  : result (list unconfirm_block) :=
  match List.find (fun u => block_eqb (base u) block) l with
  | Some u => (let* new_confirm := asset_add d (confirm u) in confirm_first block new_confirm transfer l)%res
  | None => Ok (sort (l ++ [UnconfirmBlock block d actions [transfer]]))
  end.

(** [onblock] is sent for the confirmed blocks at the front, eight at most. *)
Fixpoint send_confirmed (chain : Z) (sum : asset) (l : list unconfirm_block) : M state unit :=
  match l with
  | [] => mret tt
  | u :: l =>
      b ← is_confirmed (confirm u) sum;
      if (b : bool) then
        e ← ask;
        send (Action (self e) (N_ "onblock") [(self e, active)] (relay_onblock_args chain (base u) (uc_actions u)));;
        send_confirmed chain sum l
      else mret tt
  end.

Definition positive (a : asset) : M state unit :=
  zero ← lift (core_asset 0);
  b ← lift (asset_gt a zero);
  eosio_assert b "no deposit".

Definition commit (chain transfer : Z) (block : block_type) (actions : list relay_action) : M state unit :=
  require_auth transfer;;
  it ← find transfers_t (chain, transfer);
  it ← lift (of_option it "no transfers");
  positive (deposit it);;
  ich ← find channels_t chain;
  ich ← lift (of_option ich "no channel");
  positive (deposit_sum ich);;
  stat ← find relaystat_t chain;
  stat ← lift (of_option stat "no relay stats");
  if negb (is_nil (last stat)) && (b_num block <=? b_num (last stat)) then mret tt
  else
    l ← lift (add_confirm transfer (deposit it) block actions (unconfirms stat));
    modify relaystat_t chain (BlockRelayStat (last stat) l);;
    modify transfers_t (chain, transfer) (RelayTransfer (deposit it) block);;
    send_confirmed chain (deposit_sum ich) (take 8 l).

(** ** Confirmed blocks. *)
Definition onaction (chain : Z) (block : block_type) (act : relay_action) (h : map_handler) : M state unit :=
  e ← ask;
  send (Action (h_account h) (N_ "on") [(self e, active)] (relay_on_args chain (b_id block) act)).

Definition onblockimp (chain : Z) (block : block_type) (actions : list relay_action) : M state unit :=
  ch ← find channels_t chain;
  eosio_assert (bool_decide (ch <> None)) "channel not created";;
  rows ← all_rows handlers_t;
  mfor (fun _ act =>
    mfor (fun _ name =>
      h ← get handlers_t (chain, name) "no such row";
      if (actaccount h =? ra_account act) && (actname h =? ra_name act) then onaction chain block act h else mret tt)
      tt (scope_keys rows chain)) tt actions;;
  stat ← find relaystat_t chain;
  stat ← lift (of_option stat "no relay stats");
  modify relaystat_t chain
    (BlockRelayStat block (List.filter (fun u => negb (b_num (base u) =? b_num block)) (unconfirms stat))).

(** The first unconfirmed block that equals [block] and is confirmed. *)
Fixpoint handle_first (chain : Z) (block : block_type) (sum : asset) (l : list unconfirm_block) : M state unit :=
  match l with
  | [] => mret tt
  | u :: l =>
      if block_eqb (base u) block then
        b ← is_confirmed (confirm u) sum;
        if (b : bool) then onblockimp chain block (uc_actions u) else handle_first chain block sum l
      else handle_first chain block sum l
  end.

Definition onblock (chain : Z) (block : block_type) : M state unit :=
  e ← ask;
  require_auth (self e);;
  stat ← find relaystat_t chain;
  stat ← lift (of_option stat "dereferences the end of the table");
  if b_num block <=? b_num (last stat) then mret tt
  else
    ich ← find channels_t chain;
    ich ← lift (of_option ich "no channel");
    positive (deposit_sum ich);;
    handle_first chain block (deposit_sum ich) (unconfirms stat).

(** ** Channels, handlers and deposits. *)
Definition newchannel (chain : Z) (id : list Z) : M state unit :=
  require_auth chain;;
  eosio_assert (negb (chain =? 0)) "chain name cannot be zero";;
  ch ← find channels_t chain;
  eosio_assert (bool_decide (ch = None)) "channel has created";;
  zero ← lift (core_asset 0);
  emplace channels_t chain (Channel id zero);;
  emplace relaystat_t chain (BlockRelayStat nil_block []).

Definition newmap (chain type act_account act_name account relayacc : Z) (data : string) : M state unit :=
  require_auth chain;;
  ch ← find channels_t chain;
  eosio_assert (bool_decide (ch <> None)) "channel not created";;
  rows ← all_rows handlers_t;
  mfor (fun _ name =>
    h ← get handlers_t (chain, name) "no such row";
    eosio_assert (negb (actaccount h =? act_account) || negb (actname h =? act_name)) "one action can only one handler")
    tt (scope_keys rows chain);;
  hh ← find handlers_t (chain, type);
  match hh with
  | None => emplace handlers_t (chain, type) (MapHandler act_account act_name relayacc account data)
  | Some _ => modify handlers_t (chain, type) (MapHandler act_account act_name relayacc account data)
  end.

Definition new_transfer (chain transfer : Z) (d : asset) : M state unit :=
  eosio_assert (symbol d =? CORE_SYMBOL) "deposit should core symbol";;
  zero ← lift (core_asset 0);
  b ← lift (asset_ge d zero);
  eosio_assert b "deposit should > 0";;
  ch ← find channels_t chain;
  ch ← lift (of_option ch "channel has created");
  it ← find transfers_t (chain, transfer);
  match it with
  | None =>
      sum ← lift (asset_add (deposit_sum ch) d);
      modify channels_t chain (Channel (channel_id ch) sum);;
      emplace transfers_t (chain, transfer) (RelayTransfer d nil_block)
  | Some it =>
      b ← lift (asset_le (deposit it) (deposit_sum ch));
      eosio_assert b "old deposit should <= sum";;
      sum ← lift (asset_sub (deposit_sum ch) (deposit it));
      sum ← lift (asset_add sum d);
      modify channels_t chain (Channel (channel_id ch) sum);;
      modify transfers_t (chain, transfer) (RelayTransfer d (t_last it))
  end.

(** [std::string::c_str]: up to a zero. *)
Fixpoint c_str (l : list Ascii.ascii) : list Ascii.ascii :=
  match l with
  | [] => []
  | a :: l => if decide (a = Ascii.zero) then [] else a :: c_str l
  end.

Definition ontransfer (from to : Z) (quantity : asset) (memo : string) : M state unit :=
  e ← ask;
  if (from =? self e) || negb (to =? self e) then mret tt
  else if bool_decide (memo = "NoProcessMemo"%string) then mret tt
  else new_transfer (Lib.string_to_name (c_str (String.list_ascii_of_string memo))) from quantity.

(** ** Dispatch: the contract's own actions, and the transfers of the token contract. *)
Inductive call : Type :=
| Commit (chain transfer : Z) (block : block_type) (actions : list relay_action)
| Onblock (chain : Z) (block : block_type)
| Newchannel (chain : Z) (id : list Z)
| Newmap (chain type act_account act_name account relayacc : Z) (data : string)
| Transferred (from to : Z) (quantity : asset) (memo : string).

Definition apply (c : call) : M state unit :=
  match c with
  | Commit ch t b acts => commit ch t b acts
  | Onblock ch b => onblock ch b
  | Newchannel ch id => newchannel ch id
  | Newmap ch ty aa an a r d => newmap ch ty aa an a r d
  | Transferred from to q memo => ontransfer from to q memo
  end.
End relay.
(** ** Runs. *)
Section runs.
Context (sort : list unconfirm_block -> list unconfirm_block).
(** What [std::sort] promises. *)
Definition before (a b : unconfirm_block) : Prop := b_num (base a) <= b_num (base b).
Hypothesis sort_perm : forall l, sort l ≡ₚ l.
Hypothesis sort_sorted : forall l, StronglySorted before (sort l).

Definition block_key (b : block_type) : list Z * Z * list Z * list Z :=
  (b_id b, b_num b, b_transaction_mroot b, b_action_mroot b).

(** The deposits for a chain. *)
Definition deposit_for (chain : Z) (k : Z * Z) (r : relay_transfer) : Z :=
  if decide (fst k = chain) then amount (deposit r) else 0.
Definition deposits (chain : Z) (s : state) : Z := map_sum (deposit_for chain) (transfers s).

(** The handlers of a chain, and what the actions sent deliver: to whom, for which chain and
    block, and which action. *)
Definition handlers_of (chain : Z) (s : state) : list map_handler :=
  omap (fun name => handlers s !! (chain, name)) (scope_keys (handlers s) chain).
Definition delivery : Type := Z * Z * list Z * relay_action.
Definition delivered (l : list action) : list delivery :=
  omap (fun a => match act_data a with relay_on_args ch id act => Some (act_account a, ch, id, act) | _ => None end) l.

Definition handles (h : map_handler) (act : relay_action) : bool :=
  (actaccount h =? ra_account act) && (actname h =? ra_name act).
Definition deliveries (chain : Z) (b : block_type) (hs : list map_handler) (acts : list relay_action) : list delivery :=
  flat_map (fun act => map (fun h => (h_account h, chain, b_id b, act)) (List.filter (fun h => handles h act) hs)) acts.

(** What can be seen of a run, the latest first.  A commit that its account has authorized, with
    the deposit of the account.  A block handled: a call after which the last block of the chain
    has a higher number, or that delivers an action; the last block then, what was delivered,
    the handlers and all the deposits for the chain at that time. *)
Inductive event :=
| ECommit (chain transfer : Z) (b : block_type) (actions : list relay_action) (weight : Z)
| EHandled (chain : Z) (b : block_type) (hs : list map_handler) (sent : list delivery) (total : Z).

Definition chain_of (c : call) : Z :=
  match c with
  | Commit ch _ _ _ | Onblock ch _ | Newchannel ch _ | Newmap ch _ _ _ _ _ _ => ch
  | Transferred _ _ _ memo => Lib.string_to_name (c_str (String.list_ascii_of_string memo))
  end.

Definition commit_seen (c : call) (e : env) (s : state) : list event :=
  match c with
  | Commit ch t b acts =>
      match transfers s !! (ch, t), relaystat s !! ch with
      | Some it, Some stat =>
          if negb (is_nil (last stat)) && (b_num b <=? b_num (last stat)) then []
          else if has_authorization (authorization e) t then [ECommit ch t b acts (amount (deposit it))] else []
      | _, _ => []
      end
  | _ => []
  end.

Definition handled_seen (ch : Z) (s : state) (s' : st state) : list event :=
  match relaystat s !! ch, relaystat (db s') !! ch with
  | Some old, Some new =>
      if (b_num (last old) <? b_num (last new)) || negb (bool_decide (delivered (inline_actions s') = []))
      then [EHandled ch (last new) (handlers_of ch s) (delivered (inline_actions s')) (deposits ch s)] else []
  | _, _ => []
  end.

Definition event_of (c : call) (e : env) (s : state) (s' : st state) : list event :=
  commit_seen c e s ++ handled_seen (chain_of c) s s'.

Definition confirmed_in (b : block_type) (sum : asset) (u : unconfirm_block) : bool :=
  block_eqb (base u) b && (2 * amount sum <=? 3 * amount (confirm u)).

Definition call_typed (c : call) : Prop :=
  match c with Transferred _ _ q _ => is_s 64 (amount q) | _ => True end.

Inductive run : state -> list event -> Prop :=
| run_init : run (State ∅ ∅ ∅ ∅) []
| run_call s log e c s' :
    run s log -> call_typed c -> apply sort c e (St s [] []) = Ok (tt, s') -> run (db s') (event_of c e s s' ++ log).

(** Committers, with the deposits they had when they committed a block. *)
Definition committed (chain : Z) (b : block_type) (log : list event) (ts : list (Z * Z)) : Prop :=
  NoDup (fst <$> ts) /\
  forall t w, (t, w) ∈ ts -> exists b' acts, ECommit chain t b' acts w ∈ log /\ block_key b' = block_key b.

Definition weight_of (ts : list (Z * Z)) : Z := foldr (fun x n => snd x + n) 0 ts.

(** Where the actions come from: the first who committed the block. *)
Definition given_by (chain : Z) (b : block_type) (acts : list relay_action) (log : list event) (ts : list (Z * Z)) : Prop :=
  exists t w rest b', ts = (t, w) :: rest /\ ECommit chain t b' acts w ∈ log /\ block_key b' = block_key b.

Record uc_ok (chain : Z) (log : list event) (u : unconfirm_block) : Prop := {
  uo_coin : symbol (confirm u) = CORE_SYMBOL /\ 0 <= amount (confirm u) <= max_amount;
  uo_committed : exists ts, fst <$> ts = confirmeds u /\ committed chain (base u) log ts /\
    amount (confirm u) = weight_of ts /\ given_by chain (base u) (uc_actions u) log ts;
}.

Definition handled_nums (chain : Z) (log : list event) : list Z :=
  omap (fun e => match e with EHandled ch b _ _ _ => if decide (ch = chain) then Some (b_num b) else None | _ => None end) log.

Definition handled_ok (log : list event) : Prop :=
  forall l1 chain b hs sent total l0, log = l1 ++ EHandled chain b hs sent total :: l0 ->
    exists acts ts, committed chain b l0 ts /\ given_by chain b acts l0 ts /\ 2 * total <= 3 * weight_of ts /\
      sent = deliveries chain b hs acts.

Record inv (s : state) (log : list event) : Prop := {
  in_channels : forall ch c, channels s !! ch = Some c ->
    symbol (deposit_sum c) = CORE_SYMBOL /\ 0 <= amount (deposit_sum c) <= max_amount /\ amount (deposit_sum c) = deposits ch s;
  in_transfers : forall ch t r, transfers s !! (ch, t) = Some r ->
    is_Some (channels s !! ch) /\ symbol (deposit r) = CORE_SYMBOL /\ 0 <= amount (deposit r) <= max_amount;
  in_stats : forall ch stat, relaystat s !! ch = Some stat ->
    Forall (uc_ok ch log) (unconfirms stat) /\ StronglySorted before (unconfirms stat) /\
    Forall (fun m => m <= b_num (last stat)) (handled_nums ch log);
  in_none : forall ch, relaystat s !! ch = None -> handled_nums ch log = [];
  in_handled : handled_ok log;
  in_order : forall ch, StronglySorted Z.gt (handled_nums ch log);
}.

(** *** The operations. *)
Lemma block_eqb_key a b : block_eqb a b = true <-> block_key a = block_key b.
Proof.
  unfold block_eqb, block_key. rewrite !andb_true_iff, !bool_decide_eq_true, Z.eqb_eq. split; [|by intros [= -> -> -> ->]].
  by intros [[[-> ->] ->] ->].
Qed.

Lemma is_confirmed_ok c s e st b st' :
  0 <= amount c <= max_amount -> 0 <= amount s <= max_amount ->
  is_confirmed c s e st = Ok (b, st') -> st' = st /\ b = (2 * amount s <=? 3 * amount c).
Proof.
  intros Hc Hs H. unfold is_confirmed in H. minv.
  match goal with H : asset_mul c 3 = Ok _ |- _ => apply asset_mul_ok in H as [_ ->]; [|arange; lia|unfold is_s; lia] end.
  match goal with H : asset_mul s 2 = Ok _ |- _ => apply asset_mul_ok in H as [_ ->]; [|arange; lia|unfold is_s; lia] end.
  match goal with H : asset_ge _ _ = Ok _ |- _ => apply asset_cmp_ok in H as [_ ->] end. cbn [amount]. split; [done|].
  apply eq_true_iff_eq. rewrite Z.geb_le, Z.leb_le. lia.
Qed.

Lemma positive_ok a e s u s' : positive a e s = Ok (u, s') -> s' = s.
Proof. intros H. unfold positive in H. by minv. Qed.

Lemma send_confirmed_db ch sum l e s u s' : send_confirmed ch sum l e s = Ok (u, s') -> db s' = db s.
Proof.
  revert s. induction l as [|x l IH]; intros s H; cbn [send_confirmed] in H; minv; [done|].
  match goal with H : is_confirmed _ _ _ _ = Ok _ |- _ => unfold is_confirmed in H end. minv. mcase; [|done].
  match goal with H : send_confirmed _ _ _ _ _ = Ok _ |- _ => apply IH in H end. done.
Qed.

Lemma delivered_app l1 l2 : delivered (l1 ++ l2) = delivered l1 ++ delivered l2.
Proof. apply omap_app. Qed.

Lemma send_confirmed_delivers ch sum l e s u s' :
  send_confirmed ch sum l e s = Ok (u, s') -> delivered (inline_actions s') = delivered (inline_actions s).
Proof.
  revert s. induction l as [|x l IH]; intros s H; cbn [send_confirmed] in H; minv; [done|].
  match goal with H : is_confirmed _ _ _ _ = Ok _ |- _ => unfold is_confirmed in H end. minv. mcase; [|done].
  match goal with H : send_confirmed _ _ _ _ _ = Ok _ |- _ => apply IH in H end. cbn [inline_actions] in *.
  match goal with H : delivered (inline_actions s') = _ |- _ => rewrite H, delivered_app end. by rewrite app_nil_r.
Qed.

Lemma confirm_first_ok b c t l l' :
  confirm_first b c t l = Ok l' ->
  match List.find (fun u => block_eqb (base u) b) l with
  | None => l' = l
  | Some u => exists l1 l2, l = l1 ++ u :: l2 /\ t ∉ confirmeds u /\
      l' = l1 ++ UnconfirmBlock (base u) c (uc_actions u) (confirmeds u ++ [t]) :: l2
  end.
Proof.
  revert l'. induction l as [|u l IH]; intros l' H; cbn in *; [by injection H as <-|]. destruct (block_eqb (base u) b) eqn:E.
  - apply rbind_ok in H as ([] & Hn%rassert_ok & [= <-]). exists [], l. split_and!; [done| |done].
    intros Hin%list_elem_of_In. apply negb_true_iff, not_true_iff_false in Hn. apply Hn. apply existsb_exists.
    exists t. split; [done|]. lia.
  - apply rbind_ok in H as (l2 & H & [= <-]). specialize (IH l2 H). destruct (List.find _ l); [|by rewrite IH].
    destruct IH as (l1 & l3 & -> & Ht & ->). by exists (u :: l1), l3.
Qed.

Lemma add_confirm_ok t d b acts l l' :
  add_confirm sort t d b acts l = Ok l' ->
  (exists l1 u l2 c, l = l1 ++ u :: l2 /\ block_key (base u) = block_key b /\ asset_add d (confirm u) = Ok c /\ t ∉ confirmeds u /\
     l' = l1 ++ UnconfirmBlock (base u) c (uc_actions u) (confirmeds u ++ [t]) :: l2) \/
  l' = sort (l ++ [UnconfirmBlock b d acts [t]]).
Proof.
  unfold add_confirm. destruct (List.find _ l) as [u|] eqn:E; [|intros [= <-]; by right]. intros H. left.
  apply rbind_ok in H as (c & Hc & H). apply confirm_first_ok in H. rewrite E in H. destruct H as (l1 & l2 & -> & Ht & ->).
  apply List.find_some in E as [_ E%block_eqb_key]. by exists l1, u, l2, c.
Qed.
Lemma handle_first_ok ch b sum l e s u s' :
  Forall (fun x => 0 <= amount (confirm x) <= max_amount) l -> 0 <= amount sum <= max_amount ->
  handle_first ch b sum l e s = Ok (u, s') ->
  match List.find (confirmed_in b sum) l with
  | Some x => onblockimp ch b (uc_actions x) e s = Ok (u, s')
  | None => s' = s
  end.
Proof.
  intros Hl Hs. induction Hl as [|x l Hx _ IH]; intros H; cbn [handle_first List.find] in *; [by minv|]. unfold confirmed_in at 1.
  destruct (block_eqb (base x) b); cbn [andb]; [|by apply IH]. apply mbind_ok in H as (c & s1 & Hc & H).
  apply is_confirmed_ok in Hc as [-> ->]; [|done|done]. destruct (_ <=? _); [done|by apply IH].
Qed.

(** The handlers of one action, and all actions: what is sent delivers them. *)
Lemma onaction_loop ch b act names e s v u s' :
  (forall name, name ∈ names -> is_Some (handlers (db s) !! (ch, name))) ->
  mfor (fun _ name =>
      h ← get handlers_t (ch, name) "no such row";
      if (actaccount h =? ra_account act) && (actname h =? ra_name act) then onaction ch b act h else mret tt)
    v names e s = Ok (u, s') ->
  db s' = db s /\ delivered (inline_actions s') = delivered (inline_actions s) ++
    map (fun h => (h_account h, ch, b_id b, act))
      (List.filter (fun h => handles h act) (omap (fun name => handlers (db s) !! (ch, name)) names)).
Proof.
  revert s v. induction names as [|name names IH]; intros s v Hn H; cbn [mfor] in H.
  { apply mret_ok in H as [= -> ->]. by rewrite app_nil_r. }
  apply mbind_ok in H as (v1 & s1 & H1 & H).
  destruct (Hn name ltac:(left)) as [h Hh].
  assert (E : db s1 = db s /\ delivered (inline_actions s1) = delivered (inline_actions s) ++
      (if handles h act then [(h_account h, ch, b_id b, act)] else [])).
  { unfold handles. minv. cbn [vget] in *. simplify_map_eq. mcase.
    - match goal with H : onaction _ _ _ _ _ _ = Ok _ |- _ => unfold onaction in H end. minv. by rewrite delivered_app.
    - by rewrite app_nil_r. }
  destruct E as [Ed Ei]. apply IH in H as [Hd Hi].
  - split; [congruence|]. rewrite Hi, Ei, Ed. cbn [omap list_omap]. rewrite Hh. cbn [List.filter].
    rewrite <- app_assoc. by destruct (handles h act).
  - intros n Hin. rewrite Ed. apply Hn. by right.
Qed.

Lemma onactions_loop ch b acts names e s v u s' :
  (forall name, name ∈ names -> is_Some (handlers (db s) !! (ch, name))) ->
  mfor (fun _ act =>
    mfor (fun _ name =>
      h ← get handlers_t (ch, name) "no such row";
      if (actaccount h =? ra_account act) && (actname h =? ra_name act) then onaction ch b act h else mret tt)
      tt names) v acts e s = Ok (u, s') ->
  db s' = db s /\ delivered (inline_actions s') = delivered (inline_actions s) ++
    deliveries ch b (omap (fun name => handlers (db s) !! (ch, name)) names) acts.
Proof.
  revert s v. induction acts as [|act acts IH]; intros s v Hn H; cbn [mfor] in H.
  { apply mret_ok in H as [= -> ->]. by rewrite app_nil_r. }
  apply mbind_ok in H as (v1 & s1 & H1 & H). apply onaction_loop in H1 as [Ed Ei]; [|done].
  apply IH in H as [Hd Hi]; [|by rewrite Ed].
  split; [congruence|]. rewrite Hi, Ei, Ed. cbn [deliveries flat_map]. by rewrite <- app_assoc.
Qed.

Lemma onblockimp_ok ch b acts e s u s' :
  onblockimp ch b acts e s = Ok (u, s') ->
  delivered (inline_actions s') = delivered (inline_actions s) ++ deliveries ch b (handlers_of ch (db s)) acts /\
  exists stat, relaystat (db s) !! ch = Some stat /\
    db s' = State (<[ch := BlockRelayStat b (List.filter (fun u => negb (b_num (base u) =? b_num b)) (unconfirms stat))]>
                     (relaystat (db s))) (handlers (db s)) (transfers (db s)) (channels (db s)).
Proof.
  intros H. unfold onblockimp in H. apply mbind_ok in H as (c & s1 & Hf & H). apply find_ok in Hf. injection Hf as -> ->.
  apply mbind_ok in H as (u0 & s2 & Ha & H). apply assert_ok in Ha as [_ [= -> ->]].
  apply mbind_ok in H as (rows & s3 & Hr & H). apply all_rows_ok in Hr. injection Hr as -> ->.
  apply mbind_ok in H as (u1 & s4 & Hm & H). cbn [vget] in Hm.
  apply onactions_loop in Hm as [Hdb Hi]; [|intros name Hn; by apply scope_keys_spec].
  minv. rewrite Hdb in *. split; [exact Hi|]. match goal with H : relaystat _ !! ch = Some ?x |- _ => by exists x end.
Qed.

Lemma weight_app ts ts' : weight_of (ts ++ ts') = weight_of ts + weight_of ts'.
Proof. unfold weight_of. induction ts as [|x ts IH]; cbn; [lia|]. rewrite IH. lia. Qed.

Lemma committed_mono ch b l log ts : committed ch b log ts -> committed ch b (l ++ log) ts.
Proof. intros [H1 H2]. split; [done|]. intros t w Hin. destruct (H2 t w Hin) as (b' & a & ? & ?). exists b', a. split; [apply elem_of_app; by right|done]. Qed.

Lemma given_mono ch b acts l log ts : given_by ch b acts log ts -> given_by ch b acts (l ++ log) ts.
Proof. intros (t & w & r & b' & -> & ? & ?). exists t, w, r, b'. split_and!; [done|apply elem_of_app; by right|done]. Qed.

Lemma uc_ok_mono ch l log u : uc_ok ch log u -> uc_ok ch (l ++ log) u.
Proof.
  intros [H1 (ts & H2 & H3 & H4 & H5)]. split; [done|]. exists ts.
  split_and!; [done|by apply committed_mono|done|by apply given_mono].
Qed.

Lemma committed_key ch b b' log ts : block_key b = block_key b' -> committed ch b log ts -> committed ch b' log ts.
Proof. intros Hb [H1 H2]. split; [done|]. intros t w Hin. rewrite <- Hb. auto. Qed.
Lemma given_key ch b b' acts log ts : block_key b = block_key b' -> given_by ch b acts log ts -> given_by ch b' acts log ts.
Proof. intros Hb (t & w & r & b0 & -> & H & Hk). exists t, w, r, b0. by rewrite <- Hb. Qed.

Lemma handled_nums_commit ch ch' t b acts w log : handled_nums ch (ECommit ch' t b acts w :: log) = handled_nums ch log.
Proof. done. Qed.

(** A new committer's confirmation. *)
Lemma uc_ok_confirm ch log u t b acts d c :
  uc_ok ch log u -> block_key (base u) = block_key b -> t ∉ confirmeds u -> symbol d = CORE_SYMBOL -> 0 <= amount d <= max_amount ->
  asset_add d (confirm u) = Ok c ->
  uc_ok ch (ECommit ch t b acts (amount d) :: log) (UnconfirmBlock (base u) c (uc_actions u) (confirmeds u ++ [t])).
Proof.
  intros [[Hsy Hr] (ts & Hts & Hc & Hw & Hg)] Hk Ht Hd Hdr Ha.
  apply asset_add_ok in Ha as (_ & Hin & ->); [|arange; lia|arange; lia]. cbn [base confirm uc_actions confirmeds amount symbol].
  split; cbn; [split; [done|arange; lia]|]. exists (ts ++ [(t, amount d)]). rewrite fmap_app, Hts. split; [done|].
  split; [|split].
  - destruct Hc as [Hn Hc]. split.
    + rewrite fmap_app, Hts. cbn. apply NoDup_app. rewrite <- Hts. split_and!; [done| |apply NoDup_singleton].
      intros x Hx Hx'. apply list_elem_of_singleton in Hx' as ->. by rewrite Hts in Hx.
    + intros t' w [Hin'|Hin']%elem_of_app.
      * destruct (Hc t' w Hin') as (b' & a & ? & ?). exists b', a. split; [by right|done].
      * apply list_elem_of_singleton in Hin' as [= -> ->]. exists b, acts. by split; [left|].
  - rewrite Hw, weight_app. cbn. lia.
  - destruct Hg as (t0 & w0 & r & b' & -> & H & Hk'). exists t0, w0, (r ++ [(t, amount d)]), b'. split_and!; [done|by right|done].
Qed.

Lemma uc_ok_new ch log t b acts d :
  symbol d = CORE_SYMBOL -> 0 <= amount d <= max_amount ->
  uc_ok ch (ECommit ch t b acts (amount d) :: log) (UnconfirmBlock b d acts [t]).
Proof.
  intros Hd Hr. split; cbn; [done|]. exists [(t, amount d)]. split_and!; [done| |cbn; lia|].
  - split; [apply NoDup_singleton|]. intros t' w Hin. apply list_elem_of_singleton in Hin as [= -> ->]. exists b, acts. by split; [left|].
  - exists t, (amount d), [], b. split_and!; [done|left|done].
Qed.

Lemma sorted_same l1 u u' l2 :
  b_num (base u') = b_num (base u) -> StronglySorted before (l1 ++ u :: l2) -> StronglySorted before (l1 ++ u' :: l2).
Proof.
  intros Hn. induction l1 as [|x l1 IH]; cbn; intros [Hs Hx]%StronglySorted_inv; constructor; auto.
  - eapply Forall_impl; [exact Hx|]. unfold before. intros y. by rewrite Hn.
  - apply Forall_app in Hx as [H1 H2]. apply Forall_cons in H2 as [H2 H3]. apply Forall_app. split; [done|]. constructor; [|done].
    unfold before in *. by rewrite Hn.
Qed.

Lemma sorted_filter P l : StronglySorted before l -> StronglySorted before (List.filter P l).
Proof.
  induction 1 as [|x l _ IH Hx]; cbn; [constructor|]. destruct (P x); [|done]. constructor; [done|].
  rewrite Forall_forall in *. intros y [Hy _]%list_elem_of_In%filter_In. apply Hx. by apply list_elem_of_In.
Qed.

Lemma add_confirm_inv ch log t d b acts l l' :
  Forall (uc_ok ch log) l -> StronglySorted before l -> symbol d = CORE_SYMBOL -> 0 <= amount d <= max_amount ->
  add_confirm sort t d b acts l = Ok l' ->
  Forall (uc_ok ch (ECommit ch t b acts (amount d) :: log)) l' /\ StronglySorted before l'.
Proof.
  intros Hl Hs Hd Hr H. assert (Hmono : forall l, Forall (uc_ok ch log) l -> Forall (uc_ok ch (ECommit ch t b acts (amount d) :: log)) l).
  { intros l0 H0. eapply Forall_impl; [exact H0|]. intros u Hu. by apply (uc_ok_mono ch [_]). }
  apply add_confirm_ok in H as [(l1 & u & l2 & c & -> & Hk & Hc & Ht & ->)| ->].
  - apply Forall_app in Hl as [H1 H2]. apply Forall_cons in H2 as [Hu H2]. split.
    + apply Forall_app. split; [by apply Hmono|]. constructor; [by apply uc_ok_confirm|by apply Hmono].
    + by apply (sorted_same l1 u).
  - split; [|apply sort_sorted]. rewrite sort_perm. apply Forall_app. split; [by apply Hmono|]. constructor; [by apply uc_ok_new|done].
Qed.
(** A deposit that is not changed. *)
Lemma deposits_same ch k r r' (s : state) rs h c :
  transfers s !! k = Some r -> deposit r' = deposit r ->
  deposits ch (State rs h (<[k := r']> (transfers s)) c) = deposits ch s.
Proof.
  intros Hk Hd. unfold deposits. cbn [transfers]. rewrite map_sum_insert, (at_key_Some _ _ _ _ Hk). unfold deposit_for.
  rewrite Hd. lia.
Qed.

Lemma handled_ok_commit ch t b acts w log : handled_ok log -> handled_ok (ECommit ch t b acts w :: log).
Proof.
  intros H l1 ch' b' hs sent total l0 E. destruct l1 as [|e l1]; [done|]. injection E as _ ->. by eapply H.
Qed.

Lemma commit_inv s log ch t b acts e u s' :
  inv s log -> commit sort ch t b acts e (St s [] []) = Ok (u, s') -> inv (db s') (event_of (Commit ch t b acts) e s s' ++ log).
Proof.
  intros Hi H. unfold commit in H. unfold event_of, handled_seen. cbn [commit_seen chain_of].
  apply mbind_ok in H as (u0 & s0 & Ha & H). apply require_auth_ok in Ha as [Hauth [= -> ->]].
  apply mbind_ok in H as (o & s0 & Hf & H). apply find_ok in Hf. injection Hf as -> ->. cbn [vget db] in H.
  apply mbind_ok in H as (it & s0 & Hf & H). apply lift_ok in Hf as (it' & Hit%of_option_ok & [= <- ->]).
  apply mbind_ok in H as (u1 & s0 & Hp%positive_ok & H). subst s0.
  apply mbind_ok in H as (o & s0 & Hf & H). apply find_ok in Hf. injection Hf as -> ->. cbn [vget db] in H.
  apply mbind_ok in H as (ich & s0 & Hf & H). apply lift_ok in Hf as (ich' & Hich%of_option_ok & [= <- ->]).
  apply mbind_ok in H as (u2 & s0 & Hp%positive_ok & H). subst s0.
  apply mbind_ok in H as (o & s0 & Hf & H). apply find_ok in Hf. injection Hf as -> ->. cbn [vget db] in H.
  apply mbind_ok in H as (stat & s0 & Hf & H). apply lift_ok in Hf as (stat' & Hst%of_option_ok & [= <- ->]).
  rewrite Hit, Hst, Hauth. destruct (negb _ && _).
  { minv. cbn [db inline_actions]. by rewrite Hst, Z.ltb_irrefl. }
  apply mbind_ok in H as (l & s0 & Hl & H). apply lift_ok in Hl as (l' & Hl & [= <- ->]).
  apply mbind_ok in H as (u3 & s1 & Hm & H). apply modify_ok in Hm as [_ [= _ ->]]. cbn [vget vset db] in H.
  apply mbind_ok in H as (u4 & s2 & Hm & H). apply modify_ok in Hm as [_ [= _ ->]]. cbn [vget vset db] in H.
  apply send_confirmed_delivers in H as Hdel. apply send_confirmed_db in H. cbn [db inline_actions] in H, Hdel.
  rewrite H, Hdel. clear H. cbn [relaystat]. rewrite lookup_insert_eq. cbn [last]. rewrite Z.ltb_irrefl. cbn [orb negb].
  rewrite bool_decide_eq_true_2 by done. cbn [negb].
  destruct (in_transfers _ _ Hi _ _ _ Hit) as (_ & Hd & Hr). destruct (in_stats _ _ Hi _ _ Hst) as (Hu & Hs & Hh).
  destruct (add_confirm_inv _ _ _ _ _ _ _ _ Hu Hs Hd Hr Hl) as [Hu' Hs']. cbn [app].
  split; cbn [relaystat transfers channels handlers].
  - intros ch' c Hc. erewrite deposits_same; [by apply (in_channels _ _ Hi)|exact Hit|done].
  - intros ch' t' r [[[= <- <-] <-]|[_ Hk]]%lookup_insert_Some; [|by apply (in_transfers _ _ Hi ch' t')]. by apply (in_transfers _ _ Hi ch t it).
  - intros ch' stat' [[<- <-]|[Hne Hk]]%lookup_insert_Some; cbn [unconfirms last]; [by rewrite handled_nums_commit|].
    destruct (in_stats _ _ Hi _ _ Hk) as (H1 & H2 & H3). rewrite handled_nums_commit. split_and!; [|done|done].
    eapply Forall_impl; [exact H1|]. intros x. apply (uc_ok_mono ch' [_]).
  - intros ch' [Hk _]%lookup_insert_None. rewrite handled_nums_commit. by apply (in_none _ _ Hi).
  - apply handled_ok_commit, Hi.
  - intros ch'. rewrite handled_nums_commit. apply Hi.
Qed.

Lemma find_confirmed ch log b sum l u :
  Forall (uc_ok ch log) l -> List.find (confirmed_in b sum) l = Some u ->
  uc_ok ch log u /\ block_key (base u) = block_key b /\ 2 * amount sum <= 3 * amount (confirm u).
Proof.
  intros Hl [Hin Hc]%List.find_some. rewrite Forall_forall in Hl. apply list_elem_of_In in Hin. split; [by apply Hl|].
  apply andb_true_iff in Hc as [Hk%block_eqb_key Hc]. split; [done|lia].
Qed.

Lemma onblock_inv s log ch b e u s' :
  inv s log -> onblock ch b e (St s [] []) = Ok (u, s') -> inv (db s') (event_of (Onblock ch b) e s s' ++ log).
Proof.
  intros Hi H. unfold onblock in H. unfold event_of, handled_seen. cbn [commit_seen chain_of app].
  apply mbind_ok in H as (e0 & s0 & Ha & H). apply ask_ok in Ha. injection Ha as -> ->.
  apply mbind_ok in H as (u0 & s0 & Ha & H). apply require_auth_ok in Ha as [_ [= -> ->]].
  apply mbind_ok in H as (o & s0 & Hf & H). apply find_ok in Hf. injection Hf as -> ->. cbn [vget db] in H.
  apply mbind_ok in H as (stat & s0 & Hf & H). apply lift_ok in Hf as (stat' & Hst%of_option_ok & [= <- ->]).
  rewrite Hst. assert (Hsame : s' = St s [] [] -> inv (db s') ((match relaystat (db s') !! ch with
      | Some new => if (b_num (last stat) <? b_num (last new)) || negb (bool_decide (delivered (inline_actions s') = []))
          then [EHandled ch (last new) (handlers_of ch s) (delivered (inline_actions s')) (deposits ch s)] else []
      | None => [] end) ++ log)).
  { intros ->. cbn [db inline_actions]. by rewrite Hst, Z.ltb_irrefl. }
  destruct (Z.leb_spec (b_num b) (b_num (last stat))) as [_|Hlt]; [minv; by apply Hsame|].
  apply mbind_ok in H as (o & s0 & Hf & H). apply find_ok in Hf. injection Hf as -> ->. cbn [vget db] in H.
  apply mbind_ok in H as (ich & s0 & Hf & H). apply lift_ok in Hf as (ich' & Hich%of_option_ok & [= <- ->]).
  apply mbind_ok in H as (u2 & s0 & Hp%positive_ok & H). subst s0.
  destruct (in_channels _ _ Hi _ _ Hich) as (_ & Hr & Hsum). destruct (in_stats _ _ Hi _ _ Hst) as (Hu & Hs & Hh).
  apply handle_first_ok in H; [|eapply Forall_impl; [exact Hu|]; intros x [[_ ?] _]; done|done].
  destruct (List.find _ _) as [x|] eqn:Ex; [|by apply Hsame]. clear Hsame.
  apply onblockimp_ok in H as (Hdel & stat' & Hst' & H). cbn [db inline_actions] in *.
  rewrite Hst in Hst'. injection Hst' as <-. rewrite H, Hdel. clear H Hdel. cbn [relaystat]. rewrite lookup_insert_eq. cbn [last].
  rewrite (proj2 (Z.ltb_lt _ _) Hlt). cbn [orb delivered omap list_omap app].
  destruct (find_confirmed _ _ _ _ _ _ Hu Ex) as ([_ (ts & Hts & Hc & Hw & Hg)] & Hk & Hq).
  set (ev := EHandled ch b (handlers_of ch s) (deliveries ch b (handlers_of ch s) (uc_actions x)) (deposits ch s)).
  assert (Hnums : forall ch', handled_nums ch' (ev :: log) = if decide (ch = ch') then b_num b :: handled_nums ch' log else handled_nums ch' log).
  { intros ch'. unfold ev. cbn. by destruct (decide (ch = ch')). }
  cbn [app]. split; cbn [relaystat transfers channels handlers].
  - apply (in_channels _ _ Hi).
  - apply (in_transfers _ _ Hi).
  - intros ch' st' [[<- <-]|[Hne Hk']]%lookup_insert_Some; cbn [unconfirms last]; rewrite Hnums.
    + rewrite decide_True by done. split_and!; [|by apply sorted_filter|].
      * rewrite Forall_forall in *. intros y [Hy _]%list_elem_of_In%filter_In. apply (uc_ok_mono ch [ev]), Hu. by apply list_elem_of_In.
      * constructor; [lia|]. eapply Forall_impl; [exact Hh|]. cbn. lia.
    + rewrite decide_False by done. destruct (in_stats _ _ Hi _ _ Hk') as (H1 & H2 & H3). split_and!; [|done|done].
      eapply Forall_impl; [exact H1|]. intros y. apply (uc_ok_mono ch' [ev]).
  - intros ch' [Hk' Hne]%lookup_insert_None. rewrite Hnums, decide_False by done. by apply (in_none _ _ Hi).
  - intros l1 ch' b' hs sent total l0 E. unfold ev in E. destruct l1 as [|e1 l1]; cbn [app] in E.
    + injection E as <- <- <- <- <- <-. exists (uc_actions x), ts.
      split_and!; [by eapply committed_key|by eapply given_key|rewrite <- Hsum, <- Hw; lia|done].
    + injection E as _ ->. by eapply (in_handled _ _ Hi).
  - intros ch'. rewrite Hnums. destruct (decide (ch = ch')) as [<-|_]; [|apply Hi]. constructor; [apply Hi|].
    eapply Forall_impl; [exact Hh|]. cbn. lia.
Qed.
Lemma deposits_none ch s : (forall t r, transfers s !! (ch, t) <> Some r) -> deposits ch s = 0.
Proof.
  intros H. unfold deposits. rewrite (map_sum_ext _ (fun _ _ => 0)); [apply map_sum_0|].
  intros [c t] r Hr. unfold deposit_for. case_decide as Hc; [|done]. cbn in Hc. subst c. by apply H in Hr.
Qed.

Lemma newchannel_inv s log ch id e u s' :
  inv s log -> newchannel ch id e (St s [] []) = Ok (u, s') -> inv (db s') log.
Proof.
  intros Hi H. unfold newchannel in H. minv.
  match goal with H : core_asset 0 = Ok _ |- _ => apply core_asset_ok in H as [_ ->] end.
  cbn [relaystat transfers channels handlers] in *.
  match goal with H : channels s !! ch = None |- _ => pose proof H as Hch end.
  match goal with H : relaystat s !! ch = None |- _ => rename H into Hst end.
  assert (Hnone : forall t r, transfers s !! (ch, t) <> Some r).
  { intros t r Hr. destruct (in_transfers _ _ Hi _ _ _ Hr) as [[? Hx] _]. by rewrite Hch in Hx. }
  split; cbn [relaystat transfers channels handlers]; [| | | |apply Hi..].
  - intros ch' c [[<- <-]|[_ Hc]]%lookup_insert_Some; [|by apply (in_channels _ _ Hi)].
    cbn [deposit_sum amount symbol]. rewrite deposits_none by done. split_and!; [done|lia|arange; lia|done].
  - intros ch' t r Hr. destruct (in_transfers _ _ Hi _ _ _ Hr) as (Hc & ?). split; [|done].
    apply lookup_insert_is_Some'. by right.
  - intros ch' stat [[<- <-]|[_ Hk]]%lookup_insert_Some; [|by apply (in_stats _ _ Hi)]. cbn. rewrite (in_none _ _ Hi) by done.
    by split_and!; [|constructor|].
  - intros ch' [Hk _]%lookup_insert_None. by apply (in_none _ _ Hi).
Qed.

Lemma inv_handlers s log h : inv s log -> inv (State (relaystat s) h (transfers s) (channels s)) log.
Proof. intros [? ? ? ? ? ?]. by split. Qed.

Lemma newmap_inv s log ch ty aa an a r d e u s' :
  inv s log -> newmap ch ty aa an a r d e (St s [] []) = Ok (u, s') -> inv (db s') log.
Proof.
  intros Hi H. unfold newmap in H.
  apply mbind_ok in H as (u0 & s0 & Ha & H). apply require_auth_ok in Ha as [_ [= -> ->]].
  apply mbind_ok in H as (c & s1 & Hf & H). apply find_ok in Hf. injection Hf as -> ->.
  apply mbind_ok in H as (u1 & s2 & Ha & H). apply assert_ok in Ha as [_ [= -> ->]].
  apply mbind_ok in H as (rows & s3 & Hr & H). apply all_rows_ok in Hr. injection Hr as -> ->.
  apply mbind_ok in H as (u2 & s4 & Hm & H).
  apply (mfor_inv (fun _ x => db x = s)) in Hm; [|intros; by minv|done].
  destruct s4 as [d4 n4 i4]. cbn in Hm. subst d4. minv. destruct (handlers s !! (ch, ty)); minv; by apply inv_handlers.
Qed.

(** The deposit of an account replaces the one before. *)
Lemma deposits_set ch ch' t r s rs h c :
  deposits ch' (State rs h (<[(ch, t) := r]> (transfers s)) c) =
  deposits ch' s - at_key (deposit_for ch') (transfers s) (ch, t) + (if decide (ch = ch') then amount (deposit r) else 0).
Proof. unfold deposits. cbn [transfers]. by rewrite map_sum_insert. Qed.

Lemma inv_deposit s log ch t c sum d b :
  inv s log -> channels s !! ch = Some c -> symbol d = CORE_SYMBOL -> 0 <= amount d <= max_amount -> symbol sum = CORE_SYMBOL ->
  0 <= amount sum <= max_amount ->
  amount sum = amount (deposit_sum c) - at_key (deposit_for ch) (transfers s) (ch, t) + amount d ->
  inv (State (relaystat s) (handlers s) (<[(ch, t) := RelayTransfer d b]> (transfers s))
         (<[ch := Channel (channel_id c) sum]> (channels s))) log.
Proof.
  intros Hi Hc Hd Hdr Hsy Hr Hs. split; cbn [relaystat transfers channels handlers]; [| |apply Hi..].
  - intros ch' c' [[<- <-]|[Hne Hk]]%lookup_insert_Some; cbn [deposit_sum channel_id]; rewrite deposits_set; cbn [deposit].
    + rewrite decide_True by done. destruct (in_channels _ _ Hi _ _ Hc) as (_ & _ & <-). split_and!; [done|lia|lia|lia].
    + rewrite decide_False by done. destruct (in_channels _ _ Hi _ _ Hk) as (? & ? & ?). split; [done|]. split; [done|].
      assert (at_key (deposit_for ch') (transfers s) (ch, t) = 0).
      { destruct (transfers s !! (ch, t)) as [r|] eqn:E; [|by apply at_key_None]. rewrite (at_key_Some _ _ _ _ E).
        unfold deposit_for. cbn. by rewrite decide_False. }
      lia.
  - intros ch' t' r [[[= <- <-] <-]|[_ Hk]]%lookup_insert_Some; cbn [deposit].
    + split; [by apply lookup_insert_is_Some'; left|done].
    + destruct (in_transfers _ _ Hi _ _ _ Hk) as (? & ?). split; [apply lookup_insert_is_Some'; by right|done].
Qed.

Lemma new_transfer_inv s log ch t d e u s' :
  inv s log -> is_s 64 (amount d) -> new_transfer ch t d e (St s [] []) = Ok (u, s') -> inv (db s') log.
Proof.
  intros Hi Hty H. unfold new_transfer in H. minv.
  match goal with H : core_asset 0 = Ok _ |- _ => apply core_asset_ok in H as [_ ->] end.
  match goal with H : asset_ge d _ = Ok _ |- _ => apply asset_cmp_ok in H as [Hsy Hge] end. cbn [amount symbol] in *.
  match goal with H : channels s !! ch = Some _ |- _ => rename H into Hc end.
  destruct (in_channels _ _ Hi _ _ Hc) as (Hcs & Hcr & _).
  assert (0 <= amount d). { rewrite Z.geb_leb in Hge. destruct (Z.leb_spec 0 (amount d)); [done|]. subst. done. }
  destruct (transfers s !! (ch, t)) as [it|] eqn:Hit; minv.
  - destruct (in_transfers _ _ Hi _ _ _ Hit) as (_ & Hds & Hdr).
    match goal with H : asset_sub _ _ = Ok _ |- _ => apply asset_sub_ok in H as (_ & H1 & ->); [|arange; lia|arange; lia] end.
    match goal with H : asset_add _ _ = Ok _ |- _ => apply asset_add_ok in H as (_ & H2 & ->); [|done|done] end.
    match goal with H : asset_le _ _ = Ok _ |- _ => apply asset_cmp_ok in H as [_ Hle] end. symmetry in Hle. apply Z.leb_le in Hle.
    cbn [amount symbol relaystat transfers channels handlers] in *.
    apply (inv_deposit s) with (c := x); try done; cbn [amount symbol]; try (arange; lia).
    rewrite (at_key_Some _ _ _ _ Hit). unfold deposit_for. cbn. rewrite decide_True by done. lia.
  - match goal with H : asset_add _ _ = Ok _ |- _ => apply asset_add_ok in H as (_ & H2 & ->); [|arange; lia|done] end.
    cbn [amount symbol relaystat transfers channels handlers] in *.
    apply (inv_deposit s) with (c := x); try done; cbn [amount symbol]; try (arange; lia).
    rewrite at_key_None by done. lia.
Qed.
(** A call that leaves the last blocks alone and delivers nothing is not seen to handle a block. *)
Lemma nothing_handled ch s s' :
  (forall new, relaystat (db s') !! ch = Some new -> relaystat s !! ch = Some new \/ relaystat s !! ch = None) ->
  inline_actions s' = [] -> handled_seen ch s s' = [].
Proof.
  intros Hl Hi. unfold handled_seen. rewrite Hi. destruct (relaystat s !! ch) as [old|]; [|done].
  destruct (relaystat (db s') !! ch) as [new|]; [|done]. destruct (Hl new eq_refl) as [[= ->]|?]; [|done].
  by rewrite Z.ltb_irrefl.
Qed.

Lemma newchannel_seen s ch id e u s' :
  newchannel ch id e (St s [] []) = Ok (u, s') -> handled_seen ch s s' = [].
Proof.
  intros H. unfold newchannel in H. minv. cbn [relaystat] in *. apply nothing_handled; [|done].
  intros new _. by right.
Qed.

Lemma newmap_seen s ch ty aa an a r d e u s' :
  newmap ch ty aa an a r d e (St s [] []) = Ok (u, s') -> handled_seen ch s s' = [].
Proof.
  intros H. unfold newmap in H.
  apply mbind_ok in H as (u0 & s0 & Ha & H). apply require_auth_ok in Ha as [_ [= -> ->]].
  apply mbind_ok in H as (c & s1 & Hf & H). apply find_ok in Hf. injection Hf as -> ->.
  apply mbind_ok in H as (u1 & s2 & Ha & H). apply assert_ok in Ha as [_ [= -> ->]].
  apply mbind_ok in H as (rows & s3 & Hr & H). apply all_rows_ok in Hr. injection Hr as -> ->.
  apply mbind_ok in H as (u2 & s4 & Hm & H).
  apply (mfor_inv (fun _ x => db x = s /\ inline_actions x = [])) in Hm; [|intros; by minv|done].
  destruct s4 as [d4 n4 i4]. cbn in Hm. destruct Hm as [-> ->]. minv.
  destruct (handlers s !! (ch, ty)); minv; apply nothing_handled; cbn [db relaystat]; eauto.
Qed.

Lemma new_transfer_seen s ch t d e u s' :
  new_transfer ch t d e (St s [] []) = Ok (u, s') -> handled_seen ch s s' = [].
Proof.
  intros H. unfold new_transfer in H. minv.
  destruct (transfers s !! (ch, t)) as [it|] eqn:Hit; minv; apply nothing_handled; cbn [db relaystat]; eauto.
Qed.

Lemma block_apply_inv s log e c u s' :
  inv s log -> call_typed c -> apply sort c e (St s [] []) = Ok (u, s') -> inv (db s') (event_of c e s s' ++ log).
Proof.
  intros Hi Hc H. destruct c as [ch t b acts|ch b|ch id|ch ty aa an a r d|from to q memo]; cbn [apply] in H.
  - by eapply commit_inv.
  - by eapply onblock_inv.
  - unfold event_of. cbn [commit_seen chain_of app]. rewrite (newchannel_seen _ _ _ _ _ _ H). by eapply newchannel_inv.
  - unfold event_of. cbn [commit_seen chain_of app]. rewrite (newmap_seen _ _ _ _ _ _ _ _ _ _ _ H). by eapply newmap_inv.
  - unfold event_of. cbn [commit_seen chain_of app].
    unfold ontransfer in H. apply mbind_ok in H as (e0 & s0 & Ha & H). apply ask_ok in Ha. injection Ha as -> ->.
    assert (Hsame : forall ch, handled_seen ch s (St s [] []) = []) by (intros ch; apply nothing_handled; cbn; eauto).
    destruct (_ || _); [minv; by rewrite Hsame|]. case_bool_decide; [minv; by rewrite Hsame|].
    rewrite (new_transfer_seen _ _ _ _ _ _ _ H). by eapply new_transfer_inv.
Qed.

Lemma inv_init : inv (State ∅ ∅ ∅ ∅) [].
Proof.
  split; cbn; intros; simplify_map_eq; try done; [|constructor].
  intros l1 ch b hs sent total l0 E. by destruct l1.
Qed.

Lemma block_run_inv s log : run s log -> inv s log.
Proof. induction 1 as [|s log e c s' _ IH Hc H]; [apply inv_init|]. by eapply block_apply_inv. Qed.

(** In every run, whatever is committed and deposited, a block is handled only if accounts that
    committed it, each counted once with the deposit it had then, have two thirds of the deposits
    there are when it is handled; the blocks of a chain are handled in ascending order, each once;
    and the actions are those that the first of these accounts gave. *)
(** C15: In every run of the relay contract, whenever the last block of a chain gets a
    higher number or an action is sent to a handler, there are accounts that
    committed this block by their own authority, each counted once with the deposit
    it had then, with at least two thirds of the deposits there are now; what is
    sent are exactly the actions the first of these accounts gave for which there is
    a handler, to that handler; and the numbers of the blocks of a chain ascend. *)
Theorem handled_confirmed s log :
  run s log ->
  (forall ch, StronglySorted Z.gt (handled_nums ch log)) /\
  forall l1 ch b hs sent total l0, log = l1 ++ EHandled ch b hs sent total :: l0 ->
    exists acts ts, committed ch b l0 ts /\ given_by ch b acts l0 ts /\ 2 * total <= 3 * weight_of ts /\
      sent = deliveries ch b hs acts.
Proof. intros H%block_run_inv. split; apply H. Qed.

(** ** A block that nobody else confirms. *)

(** The first block of a chain that is waiting is not confirmed, and has a number below all others. *)
Definition stuck (chain : Z) (f : unconfirm_block) (s : state) : Prop :=
  exists stat c rest, relaystat s !! chain = Some stat /\ channels s !! chain = Some c /\ unconfirms stat = f :: rest /\
    Forall (fun u => b_num (base f) < b_num (base u)) rest /\ 3 * amount (confirm f) < 2 * amount (deposit_sum c).

Lemma sorted_first_least f l : StronglySorted before l -> f ∈ l ->
  (forall u, u ∈ l -> u = f \/ b_num (base f) < b_num (base u)) -> exists rest, l = f :: rest.
Proof.
  intros Hs Hin Hl. destruct Hs as [|x l Hs Hx]; [by apply elem_of_nil in Hin|]. destruct (Hl x ltac:(left)) as [->|Hlt]; [by exists l|].
  apply elem_of_cons in Hin as [->|Hin]; [by exists l|]. rewrite Forall_forall in Hx. specialize (Hx f Hin). unfold before in Hx. lia.
Qed.

Lemma stuck_add f rest t d b acts l' :
  StronglySorted before (f :: rest) -> Forall (fun u => b_num (base f) < b_num (base u)) rest -> b_num (base f) < b_num b ->
  add_confirm sort t d b acts (f :: rest) = Ok l' ->
  exists rest', l' = f :: rest' /\ Forall (fun u => b_num (base f) < b_num (base u)) rest'.
Proof.
  intros Hs Hr Hb H. apply add_confirm_ok in H as [(l1 & u & l2 & c & E & Hk & _ & _ & ->)| ->].
  - destruct l1 as [|x l1]; injection E as E1 E2.
    + subst u. injection Hk. lia.
    + subst x rest. eexists. split; [done|]. apply Forall_app in Hr as [H1 H2]. apply Forall_cons in H2 as [H2 H3].
      apply Forall_app. split; [done|]. by constructor.
  - set (u := UnconfirmBlock b d acts [t]). assert (Hp : sort ((f :: rest) ++ [u]) ≡ₚ f :: (rest ++ [u])) by apply sort_perm.
    assert (Hall : Forall (fun v => b_num (base f) < b_num (base v)) (rest ++ [u])).
    { apply Forall_app. split; [done|]. by constructor. }
    destruct (sorted_first_least f (sort ((f :: rest) ++ [u]))) as [rest' E].
    + apply sort_sorted.
    + rewrite Hp. left.
    + intros v Hv. rewrite Hp in Hv. apply elem_of_cons in Hv as [->|Hv]; [by left|right]. rewrite Forall_forall in Hall. auto.
    + exists rest'. split; [done|]. rewrite E in Hp. apply Permutation_cons_inv in Hp. by rewrite Hp.
Qed.

(** C17: A committed block that is waiting in front stops every later one: whatever
    blocks with higher numbers are committed, by however many, none is handled, and
    it stays in front. *)
Theorem waiting_block_stops s log e ch f t b acts s' :
  run s log -> stuck ch f s -> b_num (base f) < b_num b ->
  commit sort ch t b acts e (St s [] []) = Ok (tt, s') -> stuck ch f (db s') /\ inline_actions s' = [].
Proof.
  intros Hi%block_run_inv (stat & c & rest & Hst & Hc & Hu & Hrest & Hf) Hb H. unfold commit in H.
  destruct (in_stats _ _ Hi _ _ Hst) as (Huc & Hs & _). destruct (in_channels _ _ Hi _ _ Hc) as (_ & Hcr & _).
  apply mbind_ok in H as (u0 & s0 & Ha & H). apply require_auth_ok in Ha as [_ [= -> ->]].
  apply mbind_ok in H as (o & s0 & Hf1 & H). apply find_ok in Hf1. injection Hf1 as -> ->. cbn [vget db] in H.
  apply mbind_ok in H as (it & s0 & Hf1 & H). apply lift_ok in Hf1 as (it' & Hit%of_option_ok & [= <- ->]).
  apply mbind_ok in H as (u1 & s0 & Hp%positive_ok & H). subst s0.
  apply mbind_ok in H as (o & s0 & Hf1 & H). apply find_ok in Hf1. injection Hf1 as -> ->. cbn [vget db] in H. rewrite Hc in H.
  apply mbind_ok in H as (ich & s0 & Hf1 & H). apply lift_ok in Hf1 as (ich' & [= <-]%of_option_ok & [= -> ->]).
  apply mbind_ok in H as (u2 & s0 & Hp%positive_ok & H). subst s0.
  apply mbind_ok in H as (o & s0 & Hf1 & H). apply find_ok in Hf1. injection Hf1 as -> ->. cbn [vget db] in H. rewrite Hst in H.
  apply mbind_ok in H as (stat0 & s0 & Hf1 & H). apply lift_ok in Hf1 as (stat' & [= <-]%of_option_ok & [= -> ->]).
  destruct (negb _ && _); [apply mret_ok in H as [= ->]; split; [by exists stat, c, rest|done]|].
  apply mbind_ok in H as (l & s0 & Hl & H). apply lift_ok in Hl as (l' & Hl & [= <- ->]). rewrite Hu in *.
  apply (stuck_add _ _ _ _ _ _ _ Hs Hrest Hb) in Hl as (rest' & -> & Hr').
  apply mbind_ok in H as (u3 & s1 & Hm & H). apply modify_ok in Hm as [_ [= _ ->]]. cbn [vget vset db] in H.
  apply mbind_ok in H as (u4 & s2 & Hm & H). apply modify_ok in Hm as [_ [= _ ->]]. cbn [vget vset db] in H.
  cbn [take send_confirmed] in H. apply mbind_ok in H as (b1 & s3 & Hq & H). apply Forall_cons in Huc as [[[_ Hfr] _] _].
  apply is_confirmed_ok in Hq as [-> ->]; [|done|done]. destruct (Z.leb_spec (2 * amount (deposit_sum c)) (3 * amount (confirm f))); [lia|].
  apply mret_ok in H as [= ->]. split; [|done]. eexists _, c, rest'. cbn. rewrite lookup_insert_eq. by split_and!.
Qed.
End runs.
(** ** Examples. *)
#[local] Instance before_dec a b : Decision (before a b).
Proof. unfold before. apply _. Defined.
#[local] Instance before_trans : Transitive before.
Proof. intros a b c. unfold before. lia. Qed.
#[local] Instance before_total : Total before.
Proof. intros a b. unfold before. lia. Qed.

Definition ex_sort : list unconfirm_block -> list unconfirm_block := merge_sort before.
Lemma ex_sort_perm l : ex_sort l ≡ₚ l.
Proof. apply merge_sort_Permutation. Qed.
Lemma ex_sort_sorted l : StronglySorted before (ex_sort l).
Proof. apply (StronglySorted_merge_sort before). Qed.

Definition ex_relay : Z := Eval vm_compute in N_ "force.relay".
Definition ex_chain : Z := Eval vm_compute in N_ "side".
Definition ex_handler : Z := Eval vm_compute in N_ "relay.token".
Definition ex_action : Z := Eval vm_compute in N_ "transfer".
Definition ann : Z := Eval vm_compute in N_ "ann".
Definition ben : Z := Eval vm_compute in N_ "ben".
Definition mallory : Z := Eval vm_compute in N_ "mallory".

Definition ex_env (actor : Z) : env := Env ex_relay [(actor, active)] ∅ 1 1.
Definition ex_block (num id : Z) : block_type := BlockType 1 num [id] [0] 1 [0] [0].
Definition ex_pay (from n : Z) : Z * call := (from, Transferred from ex_relay (Asset n CORE_SYMBOL) "side").
Definition ex_commit (t num id : Z) (acts : list relay_action) : Z * call := (t, Commit ex_chain t (ex_block num id) acts).

(** Calls one after the other, each with the authority of an account. *)
Definition ex_step (s : state) (c : Z * call) : result (st state) :=
  (let* r := apply ex_sort (snd c) (ex_env (fst c)) (St s [] []) in Ok (snd r))%res.
Definition ex_log (s : result (state * list event)) (c : Z * call) : result (state * list event) :=
  (let* (s, log) := s in let* s' := ex_step s c in Ok (db s', event_of (snd c) (ex_env (fst c)) s s' ++ log))%res.
Definition ex_all (l : list (Z * call)) : result (state * list event) := foldl ex_log (Ok (State ∅ ∅ ∅ ∅, [])) l.
Definition ex_state (l : list (Z * call)) : state := match ex_all l with Ok r => fst r | Err _ => State ∅ ∅ ∅ ∅ end.
Definition ex_events (l : list (Z * call)) : list event := match ex_all l with Ok r => snd r | Err _ => [] end.

Definition ex_setup : list (Z * call) :=
  [(ex_chain, Newchannel ex_chain [7]); (ex_chain, Newmap ex_chain 1 ex_handler ex_action ex_handler ex_relay "mint")].

Lemma ex_all_run l : Forall (fun c => call_typed (snd c)) l -> is_ok (ex_all l) = true -> run ex_sort (ex_state l) (ex_events l).
Proof.
  intros Ht Hok. assert (H : forall r, ex_all l = Ok r -> run ex_sort (fst r) (snd r)).
  { clear Hok. induction l as [|c l IH] using rev_ind; intros r H; [injection H as <-; apply run_init|].
    apply Forall_app in Ht as [Ht Hc]. apply Forall_cons in Hc as [Hc _]. unfold ex_all in H. rewrite foldl_app in H. cbn in H.
    fold (ex_all l) in H. unfold ex_log in H. apply rbind_ok in H as ([s log] & Hs & H). apply rbind_ok in H as (s' & Hs' & [= <-]).
    apply rbind_ok in Hs' as ([[] s2] & Hs2 & [= <-]). cbn [fst snd]. eapply (run_call _ s log); [by apply (IH Ht (s, log))|done|exact Hs2]. }
  unfold ex_state, ex_events. destruct (ex_all l) as [r|]; [|done]. by apply H.
Qed.

(** ann and ben have deposited one million each and mallory one; mallory commits a block first, with
    a transfer that is not in it. *)
Definition ex_forged : relay_action := RelayAction ex_handler ex_action [] [66].
Definition ex_forgery : list (Z * call) :=
  ex_setup ++ [ex_pay ann 1000000; ex_pay ben 1000000; ex_pay mallory 1;
               ex_commit mallory 5 50 [ex_forged]; ex_commit ann 5 50 []; ex_commit ben 5 50 []].

(** C16: The confirmations of a block are not for its actions: an account with a deposit
    of one unit that commits a block before all others chooses the actions that are
    handled when they confirm it. *)
Theorem forged_actions_handled :
  let s := ex_state ex_forgery in
  deposit <$> transfers s !! (ex_chain, mallory) = Some (Asset 1 CORE_SYMBOL) /\
  deposit_sum <$> channels s !! ex_chain = Some (Asset 2000001 CORE_SYMBOL) /\
  ECommit ex_chain ann (ex_block 5 50) [] 1000000 ∈ ex_events ex_forgery /\
  ECommit ex_chain ben (ex_block 5 50) [] 1000000 ∈ ex_events ex_forgery /\
  exists s', onblock ex_chain (ex_block 5 50) (ex_env ex_relay) (St s [] []) = Ok (tt, s') /\
    inline_actions s' = [Action ex_handler (N_ "on") [(ex_relay, active)] (relay_on_args ex_chain [50] ex_forged)].
Proof.
  cbv zeta. split; [vm_compute; reflexivity|]. split; [vm_compute; reflexivity|]. split; [vm_compute; repeat constructor|].
  split; [vm_compute; repeat constructor|]. eexists. split; vm_compute; reflexivity.
Qed.

(** mallory has 50 of 120 when committing a block, and then lowers the deposit to 1. *)
Definition ex_swing : list (Z * call) :=
  ex_setup ++ [ex_pay ann 70; ex_pay mallory 50; ex_commit mallory 5 66 [ex_forged]; ex_pay mallory 1].

(** C18: A confirmation keeps the weight of a deposit that is lowered afterwards: a
    block that less than half of the deposits have confirmed is handled. *)
Theorem lowered_deposit_handles :
  let s := ex_state ex_swing in
  ex_events ex_swing = [ECommit ex_chain mallory (ex_block 5 66) [ex_forged] 50] /\
  exists s', onblock ex_chain (ex_block 5 66) (ex_env ex_relay) (St s [] []) = Ok (tt, s') /\
    inline_actions s' = [Action ex_handler (N_ "on") [(ex_relay, active)] (relay_on_args ex_chain [66] ex_forged)].
Proof. cbv zeta. split; [vm_compute; reflexivity|]. eexists. split; vm_compute; reflexivity. Qed.

(** *** Witnesses. *)
Definition ex_handled : list (Z * call) := ex_forgery ++ [(ex_relay, Onblock ex_chain (ex_block 5 50))].

Lemma ex_handled_run : run ex_sort (ex_state ex_handled) (ex_events ex_handled).
Proof. apply ex_all_run; [|vm_compute; reflexivity]. repeat constructor; vm_compute; discriminate. Qed.

Definition ex_mint : map_handler := MapHandler ex_handler ex_action ex_relay ex_handler "mint".

Lemma handled_confirmed_witness :
  exists acts ts, committed ex_chain (ex_block 5 50) (ex_events ex_forgery) ts /\
    given_by ex_chain (ex_block 5 50) acts (ex_events ex_forgery) ts /\ 2 * 2000001 <= 3 * weight_of ts /\
    [(ex_handler, ex_chain, [50], ex_forged)] = deliveries ex_chain (ex_block 5 50) [ex_mint] acts.
Proof.
  apply (proj2 (handled_confirmed ex_sort ex_sort_perm ex_sort_sorted (ex_state ex_handled) (ex_events ex_handled) ex_handled_run) []).
  vm_compute. reflexivity.
Defined.

(** mallory commits a block that does not exist. *)
Definition ex_waiting : list (Z * call) :=
  ex_setup ++ [ex_pay ann 1000000; ex_pay ben 1000000; ex_pay mallory 1; ex_commit mallory 5 66 []; ex_commit ann 6 60 []].
Definition ex_first : unconfirm_block := UnconfirmBlock (ex_block 5 66) (Asset 1 CORE_SYMBOL) [] [mallory].

Lemma waiting_block_stops_witness :
  exists s', commit ex_sort ex_chain ben (ex_block 6 60) [] (ex_env ben) (St (ex_state ex_waiting) [] []) = Ok (tt, s') /\
    stuck ex_chain ex_first (db s') /\ inline_actions s' = [].
Proof.
  eexists. split; [vm_compute; reflexivity|].
  apply (waiting_block_stops ex_sort ex_sort_perm ex_sort_sorted (ex_state ex_waiting) (ex_events ex_waiting) (ex_env ben) ex_chain ex_first
    ben (ex_block 6 60) []).
  - apply ex_all_run; [|vm_compute; reflexivity]. repeat constructor; vm_compute; discriminate.
  - eexists _, _, _. split; [vm_compute; reflexivity|]. split; [vm_compute; reflexivity|]. split; [vm_compute; reflexivity|].
    split; [repeat constructor; vm_compute; reflexivity|vm_compute; reflexivity].
  - vm_compute. reflexivity.
  - vm_compute. reflexivity.
Defined.
End BlockRelay.
